(* ===== verification/_CoqProject ===== *)
-Q . S2P
Prelude.v
Prog.v
Conc.v
MmlogTypes.v
MmlogOs.v
MmlogOpen.v
MmlogRing.v
MmlogInsert.v
MmlogInv.v
MmlogOps.v
MmlogWait.v
MmlogConc.v
MmlogThreads.v
MmlogDemo.v
MmlogProps.v
MmlogTrim.v
Sys.v
Nopeeking.v
NopeekingProps.v
Getpwuid.v
Watchseg.v
Signals.v
ResUid.v
Text.v
LogTest.v
ThreadsMain.v
ThreadsProps.v
ForksMain.v
Mapping.v
RingBuffer.v
RingProps.v
RingDemo.v
MemcpySafe.v
Punning.v
HexDig.v
Deadlock.v
PerfEvents.v
TcpRate.v
WriteAppend.v
Doubles.v
Accounting.v
Daemon.v
Memio.v
Seccomp.v
LdPreload.v
Secret.v
LogReader.v
MmlogView.v
MmlogShare.v
MmlogLift.v
MmlogJoin.v
MmlogCreate.v
MmlogJoined.v
MmlogOpening.v
ThreadsWorld.v
ThreadsRun.v
ThreadsTest.v
Family.v
CloneFork.v
Unshare.v
PidOne.v
TimeWait.v
Notifier.v
Args.v
Skimmer.v
Split.v
OwnFile.v
Lotsa.v
Orphanizer.v
ForkLoops.v
Evil.v
SmallSignals.v
Loaders.v
RingMain.v
Remote.v
SelfLook.v
