(* ===== verification/Prelude.v ===== *)
(** * systems_experiments: a verification library

    The repository is a collection of some hundred small C and C++ programs, each an
    experiment with one facility of Linux, and a few libraries that grew out of them.
    This development models the ones that have logic of their own and proves what they
    do right and, where they go wrong, exactly how.

    ** How programs are modelled

    A C function is a [prog E A] ([Prog.v]): a finite tree of operations of a
    signature [E] (system calls, atomic accesses to shared memory, library calls that the
    experiment is about), whose leaves return a value or stop the process ([Exited],
    [Signaled], [Undefined], [OutOfFuel]). Pure code is a Rocq function. The
    definitions keep the names and the order of the source; an early return or a [goto]
    to a cleanup label is the branch of an [if] that returns. Machine integers are [Z] with
    their wrap-around written out ([u64], [u32], [i32], ... of this file); pointers are
    integers or positions; strings that the code reads as bytes are [list Z]; doubles
    are binary64 ([Doubles.v], over the Standard Library's SpecFloat).

    There are four ways to give operations a meaning, chosen by the claim:
    - a [handler] runs them on a concrete state ([run], [Prog.v]);
    - a pool of threads or processes takes turns, one operation at a time ([pool_step],
      [pool_run], [Conc.v]); [safe] and [pool_adequacy] are the rely-guarantee
      principle used for the log;
    - [always] ([Sys.v]) quantifies over every answer the environment may give to
      every operation, and so over all failures;
    - [processes] and [everyone] ([Family.v]) follow a program that forks into all its descendants, each with what it
      inherits of its ancestors' past and of their buffers of standard output.

    Loops that are not counted take [fuel]. The theorems either hold for every fuel, or ask for
    an explicit bound (the log: [N + 3] where the clock passes 10 ms within [N]
    readings, so that no wait loop makes more turns than that and no
    message crosses more chunk boundaries than the insertion counts), or prove that a loop
    does not end (each bound is reached).

    ** The parts

    The log ([src/fastlog/include/mmlog.h]):
    - [MmlogTypes.v] data, error table and arithmetic; [MmlogOs.v] files, mappings,
      handles, chunks and the atomic operations on them; [MmlogOpen.v], [MmlogRing.v],
      [MmlogInsert.v] one definition per function of the header;
    - [MmlogInv.v] the invariant (file lock, claimed ranges, published chunks) with the rely of a
      thread; [MmlogOps.v] every operation against it; [MmlogConc.v] every function;
      [MmlogThreads.v] any number of workers: safety, refinement of an append-only log,
      termination; [MmlogDemo.v] a concrete log for the witnesses;
    - [MmlogProps.v] single operations: growth, errors, chunks; [MmlogTrim.v] the first message after a trim, in the file and in the
      mappings;
    - workers that open the log themselves: [MmlogWait.v] the wait for the one that creates it, [MmlogView.v] the part of
      the world a published thread sees, [MmlogShare.v] invariant and rely of opening and
      inserting threads together, [MmlogLift.v] what is safe in the part is safe in the whole,
      [MmlogCreate.v], [MmlogJoin.v], [MmlogJoined.v], [MmlogOpening.v] the ways [mmlog_open] can go.
    The programs that use it ([src/fastlog/eg]): [Text.v] (decimal text and lines),
    [LogTest.v] (their environment), [ThreadsMain.v] and [ThreadsProps.v]
    ([threads/src/main.c]), [ThreadsWorld.v], [ThreadsRun.v] and [ThreadsTest.v] (the same test end to end: at most 16
    workers with at most 500 messages each, no failing system calls; then the trim and the validation), [ForksMain.v] ([forks/src/main.c]), [LogReader.v]
    ([vm_reader/src/main.cc]).

    Shared memory and its layout: [Mapping.v], [RingBuffer.v], [RingProps.v],
    [RingDemo.v], [RingMain.v] ([src/simple_ringbuffer]: the ring as a bounded queue when used
    alone, what a second process sees, the mirrored mapping, and [main] from its first line
    to its last); [MemcpySafe.v]
    ([src/not_my_segfault]); [Secret.v] ([src/memfd_secret]); [Memio.v]
    ([src/memio_dynamics]); [PerfEvents.v] ([src/perf_event_open]).

    Processes, credentials and messages: [Nopeeking.v], [NopeekingProps.v]
    ([src/nopeeking_registry]); [Getpwuid.v] ([src/getpwuid_r]); [ResUid.v]
    ([src/procmap_setresuid]); [Daemon.v] ([src/autodaemonize]); [LdPreload.v]
    ([src/ld_preload_wrapper]); [TcpRate.v] ([src/tcp_connect_rate]);
    [WriteAppend.v] ([src/write_append]); [PidOne.v] ([src/pid_1_signals]); [TimeWait.v]
    ([src/tcp_close_timewait]); [Notifier.v] ([src/here_and_gone]); [Orphanizer.v] ([src/reaping_orphans]).

    Families of processes: [CloneFork.v] ([src/fork_without_handlers]), [Unshare.v]
    ([src/unshare_orphans]), [ForkLoops.v] ([src/threaded_forks], [src/sleepytime], [src/return_codes]),
    [Evil.v] ([src/evil_static_init]: one program, executed again).

    Signals: [Watchseg.v] and [Signals.v] ([src/sigsegv_return_from_kill]: the process as a
    transition system of threads, handlers and dispositions); [Deadlock.v]
    ([src/sigaction_deadlock]); [Seccomp.v] ([src/seccomp_sigsys]: the filter
    program under an interpreter of its instructions); [SmallSignals.v] ([src/stack_overflow_finitely],
    [src/crash_in_malloc], [src/itimer_signals], [src/sigev_thread]).

    A process that looks at itself: [Args.v] ([src/argv], [src/argv0], [src/start_so]: the words the kernel puts on the
    stack), [OwnFile.v] ([src/sofile_with_main]), [SelfLook.v] ([src/what_is_my_exe], which finds the same file,
    [src/smaps], [src/who_are_my_kids], [src/vdso_elf], [src/under_alignment]), [Remote.v]
    ([src/process_vm_readv_bench], [src/ptrace_me_yama]), [Loaders.v] ([src/can_pthreads_join_late],
    [src/dlopen_vs_ldd], [src/static_tls], [src/no_libc], the start of [src/start_so]).

    Algorithms and measurements: [Punning.v] ([src/type_punning]), [HexDig.v]
    ([src/faster_hexdig]), [Accounting.v] ([src/tsc_time]), [Skimmer.v] ([src/skimmer]), [Split.v]
    ([src/cxx20_split_with_ranges]), [Lotsa.v] ([src/lotsathreads]).

    ** What is assumed

    The kernel and the C library are modelled by what the code relies on: a failing call
    changes nothing, [ftruncate] keeps the bytes below the new size and zeroes the rest, a store
    to a shared file mapping reaches the file below its end, stays in the kept page behind it, seen by every
    mapping and cleared by [ftruncate], and raises SIGBUS beyond that page, atomics are sequentially consistent, [getpwuid] and
    [getpwnam] each return one static object, possibly the same, [isxdigit] is that of the C locale, a signal handler is entered with
    its signal blocked unless the action says otherwise, and a signal with the default action does not kill process 1. Lines printed to stderr for
    diagnosis are left out where no claim is about them, and kept as events
    where one is. Code outside [src/] is a parameter of the definitions that use it
    ([ticksToSec] and [pow] of the controller, the members of the ring's [Buffer] that the header
    only declares).

    ** Not modelled

    Programs whose whole content is one call to the system under study (most of the directories with a single
    test.c, [demangle], [setns], [timer_overhead], [dlopen_ld], [noexec_can_exec]), code that only makes
    sense as machine instructions ([numbers_are_functions], the assembly pasted into [env.c]; the instructions of
    [cycle_counter.hpp] and [no_libc] are operations, and the variants of the counter for other processors are left out), scripts,
    build files, the Rust, Python and shell experiments, and the unit tests of the
    log. Of the modelled programs: timing loops whose only effect is the time they take, and the ratios that a
    benchmark prints (their operands are kept). *)
From stdpp Require Import base gmap sets list strings.
From Stdlib Require Import ZArith Lia Bool.

#[global] Open Scope Z_scope.
#[global] Set Default Goal Selector "!".

(** ** Machine integers *)

(** An unsigned [w]-bit result of C arithmetic is the mathematical result
    reduced modulo [2^w]. *)
Definition wrap (w x : Z) : Z := x mod 2 ^ w.
Abbreviation u64 := (wrap 64).
Abbreviation u32 := (wrap 32).
Abbreviation u16 := (wrap 16).
Abbreviation u8 := (wrap 8).

(** The value of a [w]-bit two's complement integer with the bits of [x]. *)
Definition swrap (w x : Z) : Z := (x + 2 ^ (w - 1)) mod 2 ^ w - 2 ^ (w - 1).
Abbreviation i32 := (swrap 32).
Abbreviation i64 := (swrap 64).

(** A C condition: an integer is true when it is not zero. *)
Definition truthy (x : Z) : bool := negb (x =? 0).

(** ** Shared tactics *)

(** Turn boolean comparisons in the context and the goal into arithmetic. *)
Ltac zbool :=
  repeat match goal with
  | H : _ && _ = true |- _ => apply andb_prop in H as [? ?]
  | H : (_ || _)%bool = false |- _ => apply orb_false_elim in H as [? ?]
  | H : negb _ = true |- _ => apply negb_true_iff in H
  | H : negb _ = false |- _ => apply negb_false_iff in H
  | H : (_ <? _) = true |- _ => apply Z.ltb_lt in H
  | H : (_ <? _) = false |- _ => apply Z.ltb_ge in H
  | H : (_ <=? _) = true |- _ => apply Z.leb_le in H
  | H : (_ <=? _) = false |- _ => apply Z.leb_gt in H
  | H : (_ =? _) = true |- _ => apply Z.eqb_eq in H
  | H : (_ =? _) = false |- _ => apply Z.eqb_neq in H
  end.

(** Case analysis on the condition of an [if] in the goal. *)
Ltac case_if :=
  match goal with
  | |- context [if ?b then _ else _] => destruct b eqn:?; zbool
  end.

Create Rewrite HintDb cwidth.

Section Widths.
Context (w : Z) (Hw : 0 < w).

Lemma wrap_range x : 0 <= wrap w x < 2 ^ w.
Proof. apply Z.mod_pos_bound. apply Z.pow_pos_nonneg; lia. Qed.

Lemma wrap_small x : 0 <= x < 2 ^ w -> wrap w x = x.
Proof. apply Z.mod_small. Qed.

Lemma wrap_idem x : wrap w (wrap w x) = wrap w x.
Proof. apply wrap_small, wrap_range. Qed.

Lemma wrap_le x : 0 <= x -> wrap w x <= x.
Proof. intros Hx. apply Z.mod_le; [done |]. apply Z.pow_pos_nonneg; lia. Qed.

Lemma wrap_land x : wrap w x = Z.land x (Z.ones w).
Proof. symmetry. apply Z.land_ones. lia. Qed.
End Widths.

(** *** Masks *)

Lemma land_ldiff_split y m : y = Z.land y m + Z.ldiff y m.
Proof.
  rewrite Z.add_nocarry_lxor; apply Z.bits_inj'; intros i Hi.
  - rewrite Z.lxor_spec, Z.land_spec, Z.ldiff_spec.
    by destruct (Z.testbit y i), (Z.testbit m i).
  - rewrite !Z.land_spec, Z.ldiff_spec, Z.bits_0.
    by destruct (Z.testbit y i), (Z.testbit m i).
Qed.

Lemma land_range x m : 0 <= m -> 0 <= Z.land x m <= m.
Proof.
  intros Hm. pose proof (land_ldiff_split m x) as Hs.
  assert (0 <= Z.ldiff m x) by (apply Z.ldiff_nonneg; by left).
  assert (0 <= Z.land m x) by (apply Z.land_nonneg; by left).
  rewrite Z.land_comm. lia.
Qed.

(** Masking off the bits of [m] takes away exactly [Z.land y m]. *)
Lemma land_lnot_split w y m : 0 < w -> 0 <= y < 2 ^ w ->
  Z.land y (wrap w (Z.lnot m)) = y - Z.land y m.
Proof.
  intros Hw Hy. rewrite wrap_land by lia.
  rewrite (Z.land_comm (Z.lnot m)), Z.land_assoc.
  rewrite Z.land_ones, Z.mod_small by lia.
  rewrite <-Z.ldiff_land. pose proof (land_ldiff_split y m). lia.
Qed.

Lemma lor_shiftl_add a b n : 0 <= n -> 0 <= b < 2 ^ n -> Z.lor (Z.shiftl a n) b = a * 2 ^ n + b.
Proof.
  intros Hn Hb.
  assert (Z.land (Z.shiftl a n) b = 0) as H0.
  { apply Z.bits_inj'. intros i Hi. rewrite Z.land_spec, Z.bits_0.
    destruct (decide (i < n)); [by rewrite Z.shiftl_spec_low by done |].
    rewrite <-(Z.mod_small b (2 ^ n)) by done. rewrite Z.mod_pow2_bits_high by lia.
    by rewrite andb_false_r. }
  rewrite <-Z.lxor_lor, <-Z.add_nocarry_lxor by done. by rewrite Z.shiftl_mul_pow2.
Qed.

(** A 64-bit word from its halves. *)
Lemma halves_wrap x : Z.lor (wrap 64 (Z.shiftl (wrap 32 (Z.shiftr x 32)) 32)) (wrap 32 x) = wrap 64 x.
Proof.
  pose proof (wrap_range 32 ltac:(lia) (Z.shiftr x 32)). pose proof (wrap_range 32 ltac:(lia) x).
  rewrite (wrap_small 64) by (rewrite Z.shiftl_mul_pow2 by lia; lia). rewrite lor_shiftl_add by lia.
  unfold wrap. rewrite Z.shiftr_div_pow2 by lia.
  change (2 ^ 64) with (2 ^ 32 * 2 ^ 32). rewrite Z.rem_mul_r by lia. lia.
Qed.

#[export] Hint Rewrite wrap_idem using lia : cwidth.

(** ** Lists *)

(** The sum of a list of integers. *)
Fixpoint zsum (l : list Z) : Z :=
  match l with
  | [] => 0
  | x :: l' => x + zsum l'
  end.

Lemma zsum_app l1 l2 : zsum (l1 ++ l2) = zsum l1 + zsum l2.
Proof. induction l1 as [| x l1 IH]; simpl; lia. Qed.

Lemma zsum_nonneg l : Forall (fun x => 0 <= x) l -> 0 <= zsum l.
Proof. induction 1; simpl; lia. Qed.

Lemma zsum_insert (l : list Z) i x y :
  l !! i = Some x -> zsum (<[i:=y]> l) = zsum l - x + y.
Proof.
  revert i. induction l as [| z l IH]; intros [| i] Hi; simplify_eq/=; [lia |].
  rewrite (IH i) by done. lia.
Qed.

Definition zlen {A} (l : list A) : Z := Z.of_nat (length l).

Lemma zlen_nil {A} : zlen (@nil A) = 0.
Proof. done. Qed.

Lemma zlen_cons {A} (x : A) l : zlen (x :: l) = 1 + zlen l.
Proof. unfold zlen. simpl. lia. Qed.

Lemma zlen_nonneg {A} (l : list A) : 0 <= zlen l.
Proof. unfold zlen. lia. Qed.

Lemma zlen_app {A} (l1 l2 : list A) : zlen (l1 ++ l2) = zlen l1 + zlen l2.
Proof. unfold zlen. rewrite length_app. lia. Qed.

(** The byte list [l] read at a C index. *)
Definition znth {A} (l : list A) (i : Z) : option A :=
  if 0 <=? i then l !! Z.to_nat i else None.

(** A decidable property of the integers below [n], by enumeration. *)
Lemma below_forallb (n : nat) (P : Z -> bool) :
  forallb (fun k => P (Z.of_nat k)) (seq 0 n) = true ->
  forall z, 0 <= z < Z.of_nat n -> P z = true.
Proof.
  intros H z Hz. rewrite forallb_forall in H. rewrite <-(Z2Nat.id z) by lia.
  apply H, in_seq. lia.
Qed.
