(* ===== verification/Prog.v ===== *)
(** * C programs as interactive computations *)
From stdpp Require Import base gmap sets list strings.
From Stdlib Require Import ZArith Lia.
From S2P Require Import Prelude.

(** Why a computation stops without returning to its caller. *)
Inductive stop : Type :=
| Exited (code : Z)        (* exit(code) or _exit(code) *)
| Signaled (sig : Z)       (* the kernel delivered a fatal signal *)
| Undefined                (* behaviour the C standard leaves undefined *)
| OutOfFuel.               (* the bound on a loop of the model was reached *)

(** [prog E A]: a C function body that performs operations of the signature
    [E] one at a time, each an atomic action on the environment, and returns a value of
    type [A]. *)
Inductive prog (E : Type -> Type) (A : Type) : Type :=
| Ret (a : A)
| Halt (s : stop)
| Vis {R : Type} (e : E R) (k : R -> prog E A).

Arguments Ret {E A} a.
Arguments Halt {E A} s.
Arguments Vis {E A R} e k.

Fixpoint bind {E A B} (p : prog E A) (f : A -> prog E B) : prog E B :=
  match p with
  | Ret a => f a
  | Halt s => Halt s
  | Vis e k => Vis e (fun r => bind (k r) f)
  end.

Definition trigger {E R} (e : E R) : prog E R := Vis e Ret.

Declare Scope prog_scope.
Delimit Scope prog_scope with prog.
Notation "x <- p ;; q" := (bind p (fun x => q))
  (at level 100, p at next level, q at level 200, right associativity) : prog_scope.
Notation "p ;; q" := (bind p (fun _ => q))
  (at level 100, q at level 200, right associativity) : prog_scope.
#[global] Open Scope prog_scope.

(** A C loop whose body, in state [s], either continues with [inl s'] or
    leaves with [inr a]; [fuel] bounds the number of iterations. *)
Fixpoint loop {E S A} (fuel : nat) (body : S -> prog E (S + A)) (s : S) : prog E A :=
  match fuel with
  | O => Halt OutOfFuel
  | S n =>
      r <- body s ;;
      match r with
      | inl s' => loop n body s'
      | inr a => Ret a
      end
  end.

(** [for (i = lo; i < lo + n; i++) body(i)]. *)
Fixpoint for_range {E} (lo : Z) (n : nat) (body : Z -> prog E unit) : prog E unit :=
  match n with
  | O => Ret tt
  | S m => body lo ;; for_range (lo + 1) m body
  end.

(** The operations of two signatures. *)
Inductive sumE (E F : Type -> Type) (R : Type) : Type :=
| inl1 (e : E R)
| inr1 (f : F R).
Arguments inl1 {E F R} e.
Arguments inr1 {E F R} f.

Fixpoint lift {E F A} (p : prog E A) : prog (sumE E F) A :=
  match p with
  | Ret a => Ret a
  | Halt s => Halt s
  | Vis e k => Vis (inl1 e) (fun r => lift (k r))
  end.

(** ** Running alone *)

Inductive outcome (W A : Type) : Type :=
| Done (a : A) (w : W)
| Stopped (s : stop) (w : W).

Arguments Done {W A} a w.
Arguments Stopped {W A} s w.

Definition handler (E : Type -> Type) (W : Type) : Type :=
  forall R, E R -> W -> outcome W R.

Definition obind {W A B} (o : outcome W A) (f : A -> W -> outcome W B) : outcome W B :=
  match o with
  | Done a w => f a w
  | Stopped s w => Stopped s w
  end.

Fixpoint run {E W A} (h : handler E W) (p : prog E A) (w : W) : outcome W A :=
  match p with
  | Ret a => Done a w
  | Halt s => Stopped s w
  | Vis e k => obind (h _ e w) (fun r w' => run h (k r) w')
  end.

Lemma run_bind {E W A B} (h : handler E W) (p : prog E A) (f : A -> prog E B) w :
  run h (bind p f) w = obind (run h p w) (fun a w' => run h (f a) w').
Proof.
  revert w. induction p as [a | s | R e k IH]; intros w; simpl; [done | done |].
  destruct (h R e w) as [r w' | s w']; simpl; [apply IH | done].
Qed.

Lemma run_trigger {E W R} (h : handler E W) (e : E R) w :
  run h (trigger e) w = h _ e w.
Proof. simpl. by destruct (h R e w). Qed.

Lemma obind_obind {W A B C} (o : outcome W A) (f : A -> W -> outcome W B)
    (g : B -> W -> outcome W C) :
  obind (obind o f) g = obind o (fun a w => obind (f a w) g).
Proof. by destruct o. Qed.

(** The outcome of running [p] from [w] satisfies [Q], and [p] does return. *)
Definition returns {W A} (o : outcome W A) (Q : A -> W -> Prop) : Prop :=
  match o with
  | Done a w => Q a w
  | Stopped _ _ => False
  end.

Lemma returns_obind {W A B} (o : outcome W A) (f : A -> W -> outcome W B) Q :
  returns (obind o f) Q <-> returns o (fun a w => returns (f a w) Q).
Proof. by destruct o. Qed.

Lemma returns_mono {W A} (o : outcome W A) (P Q : A -> W -> Prop) :
  returns o P -> (forall a w, P a w -> Q a w) -> returns o Q.
Proof. destruct o; simpl; auto. Qed.

Lemma returns_run_bind {E W A B} (h : handler E W) (p : prog E A)
    (f : A -> prog E B) w (P : A -> W -> Prop) Q :
  returns (run h p w) P ->
  (forall a w', P a w' -> returns (run h (f a) w') Q) ->
  returns (run h (bind p f) w) Q.
Proof.
  intros Hp Hf. rewrite run_bind, returns_obind. by eapply returns_mono.
Qed.
