(* ===== verification/Conc.v ===== *)
(** * Threads that interleave, and a rely-guarantee argument for them

    A pool is a list of threads, each a local state and the rest of its
    program, over one shared world. A step picks any thread and performs its next atomic
    operation. [safe] is the thread-modular reasoning principle: a thread is
    safe when each of its operations, performed after any interference the rely
    allows, keeps the invariant, respects what the other threads rely on, and does not
    stop the process; [pool_adequacy] lifts it to every interleaving. *)
From stdpp Require Import base gmap sets list strings relations.
From Stdlib Require Import ZArith Lia.
From S2P Require Import Prelude Prog.

Section Pool.
Context {E : Type -> Type} {L W A : Type} (h : nat -> handler E (L * W)).

Definition config : Type := list (L * prog E A) * W.

Inductive pool_step : config -> config -> Prop :=
| pool_step_vis i ts w l R (e : E R) (k : R -> prog E A) r l' w' :
    ts !! i = Some (l, Vis e k) ->
    h i R e (l, w) = Done r (l', w') ->
    pool_step (ts, w) (<[i := (l', k r)]> ts, w').

(** Some thread has stopped, or its next operation stops the process. *)
Inductive pool_crash : config -> stop -> Prop :=
| pool_crash_vis i ts w l R (e : E R) (k : R -> prog E A) s lw :
    ts !! i = Some (l, Vis e k) ->
    h i R e (l, w) = Stopped s lw ->
    pool_crash (ts, w) s
| pool_crash_halt i ts w l s :
    ts !! i = Some (l, Halt s) ->
    pool_crash (ts, w) s.

(** One turn of thread [i], if it can take one, and a whole schedule. *)
Definition pool_turn (i : nat) (c : config) : config :=
  let '(ts, w) := c in
  match @lookup nat (L * prog E A) _ _ i ts with
  | Some (l, Vis e k) =>
      match h i _ e (l, w) with
      | Done r (l', w') => (@insert nat (L * prog E A) _ _ i (l', k r) ts, w')
      | Stopped _ _ => c
      end
  | _ => c
  end.

Fixpoint pool_run (schedule : list nat) (c : config) : config :=
  match schedule with
  | [] => c
  | i :: rest => pool_run rest (pool_turn i c)
  end.

Lemma pool_run_steps schedule c : rtc pool_step c (pool_run schedule c).
Proof.
  revert c. induction schedule as [| i rest IH]; intros c; [reflexivity |].
  simpl. transitivity (pool_turn i c); [| apply IH]. destruct c as [ts w]. unfold pool_turn.
  destruct (ts !! i) as [[l [a | s | R e k]] |] eqn:Hi; try reflexivity.
  destruct (h i R e (l, w)) as [r [l' w'] |] eqn:Hh; [| reflexivity].
  apply rtc_once. by eapply pool_step_vis.
Qed.

Lemma pool_turn_vis i ts w l R (e : E R) k r l' w' :
  ts !! i = Some (l, Vis e k) -> h i R e (l, w) = Done r (l', w') ->
  pool_turn i (ts, w) = (<[i := (l', k r)]> ts, w').
Proof. intros Hi Hh. unfold pool_turn. by rewrite Hi, Hh. Qed.

(** Letting one thread run until it returns. *)
Lemma pool_run_alone i ts w l p a l' w' :
  ts !! i = Some (l, p) -> run (h i) p (l, w) = Done a (l', w') ->
  exists n, pool_run (replicate n i) (ts, w) = (<[i := (l', Ret a)]> ts, w').
Proof.
  revert ts w l. induction p as [b | s | R e k IH]; intros ts w l Hi Hr; simpl in Hr; [| done |].
  - injection Hr as -> -> ->. exists 0%nat. by rewrite list_insert_id.
  - destruct (h i R e (l, w)) as [r [l2 w2] |] eqn:Hh; [| done]. simpl in Hr.
    destruct (IH r (<[i := (l2, k r)]> ts) w2 l2) as [n Hn]; [| done |].
    + apply list_lookup_insert_eq. by eapply lookup_lt_Some.
    + exists (S n). cbn [replicate pool_run]. rewrite (pool_turn_vis _ _ _ _ _ _ _ _ _ _ Hi Hh), Hn.
      by rewrite list_insert_insert_eq.
Qed.

(** Letting one thread run through the first part of its program. *)
Lemma pool_run_prefix {B} i ts w l (p : prog E B) (f : B -> prog E A) b l' w' :
  ts !! i = Some (l, bind p f) -> run (h i) p (l, w) = Done b (l', w') ->
  exists n, pool_run (replicate n i) (ts, w) = (<[i := (l', f b)]> ts, w').
Proof.
  revert ts w l. induction p as [a | s | R e k IH]; intros ts w l Hi Hr; simpl in Hr; [| done |].
  - injection Hr as -> -> ->. exists 0%nat. by rewrite list_insert_id.
  - destruct (h i R e (l, w)) as [r [l2 w2] |] eqn:Hh; [| done]. simpl in Hr.
    destruct (IH r (<[i := (l2, bind (k r) f)]> ts) w2 l2) as [n Hn]; [| done |].
    + apply list_lookup_insert_eq. by eapply lookup_lt_Some.
    + exists (S n). cbn [replicate pool_run]. rewrite (pool_turn_vis _ _ _ _ _ _ _ _ _ _ Hi Hh).
      etransitivity; [exact Hn |]. by rewrite list_insert_insert_eq.
Qed.

Lemma pool_run_app s1 s2 c : pool_run (s1 ++ s2) c = pool_run s2 (pool_run s1 c).
Proof. revert c. induction s1 as [| i s1 IH]; intros c; [done |]. apply IH. Qed.

Lemma pool_step_length c c' : pool_step c c' -> length c'.1 = length c.1.
Proof. intros []. simpl. apply length_insert. Qed.

Lemma rtc_pool_length c c' : rtc pool_step c c' -> length c'.1 = length c.1.
Proof.
  induction 1 as [| c1 c2 c3 H12 _ IH]; [done |].
  apply pool_step_length in H12. congruence.
Qed.
End Pool.

Arguments config E L W A : clear implicits.

(** What a thread may assume of the others composes over several steps. *)
Class RelyPre {W : Type} (rely : nat -> W -> W -> Prop) : Prop :=
  rely_preorder i : PreOrder (rely i).

Section RelyGuarantee.
Context {E : Type -> Type} {L W : Type} (h : nat -> handler E (L * W)).
Context (inv : W -> Prop) (rely : nat -> W -> W -> Prop).
Context `{rely_pre : !RelyPre rely}.
#[local] Existing Instance rely_preorder.

(** What a step of thread [i] owes to the others. *)
Definition guar (i : nat) (w w' : W) : Prop := forall j, j <> i -> rely j w w'.

Fixpoint safe {A} (i : nat) (p : prog E A) (Q : A -> L -> W -> Prop) (l : L) (w : W) : Prop :=
  match p with
  | Ret a => forall w', rely i w w' -> inv w' -> Q a l w'
  | Halt s => False
  | Vis e k => forall w', rely i w w' -> inv w' ->
      match h i _ e (l, w') with
      | Done r (l'', w'') => inv w'' /\ guar i w' w'' /\ safe i (k r) Q l'' w''
      | Stopped _ _ => False
      end
  end.

Lemma safe_rely {A} i (p : prog E A) Q l w w' :
  rely i w w' -> safe i p Q l w -> safe i p Q l w'.
Proof.
  intros Hr. destruct p as [a | s | R e k]; simpl; intros Hs; [| done |];
    intros w'' Hr' Hinv; apply (Hs w''); try done; by etrans.
Qed.

Lemma safe_mono {A} i (p : prog E A) (P Q : A -> L -> W -> Prop) l w :
  safe i p P l w -> (forall a l' w', inv w' -> P a l' w' -> Q a l' w') -> safe i p Q l w.
Proof.
  intros Hp HPQ. revert l w Hp.
  induction p as [a | s | R e k IH]; simpl; intros l w Hp; [eauto | done |].
  intros w' Hr Hinv. specialize (Hp w' Hr Hinv).
  destruct (h i R e (l, w')) as [r [l'' w''] |]; [| done].
  destruct Hp as (? & ? & ?). eauto.
Qed.

(** Facts a thread may keep across the steps of the others. *)
Definition stable (i : nat) (P : W -> Prop) : Prop :=
  forall w w', rely i w w' -> inv w' -> P w -> P w'.

(** A fact that no thread ever invalidates is kept across a whole program. *)
Lemma safe_keep {A} i (p : prog E A) (P : W -> Prop) (Q : A -> L -> W -> Prop) l w :
  (forall j, stable j P) -> P w -> safe i p Q l w ->
  safe i p (fun a l' w' => Q a l' w' /\ P w') l w.
Proof.
  intros HP. revert l w. induction p as [a | s | R e k IH]; simpl; intros l w Hw Hs.
  - intros w' Hr Hinv. split; [auto |]. by eapply HP.
  - done.
  - intros w' Hr Hinv. specialize (Hs w' Hr Hinv).
    destruct (h i R e (l, w')) as [r [l'' w''] |]; [| done].
    destruct Hs as (Hinv' & Hg & Hk). split; [done |]. split; [done |].
    apply IH; [| done]. apply (HP (S i) w' w''); [apply Hg; lia | done |]. by eapply HP.
Qed.

Lemma safe_ret {A} i (a : A) (Q : A -> L -> W -> Prop) l w :
  Q a l w -> stable i (Q a l) -> safe i (Ret a) Q l w.
Proof. intros HQ Hst w' Hr Hinv. by eapply Hst. Qed.

Lemma safe_bind {A B} i (p : prog E A) (f : A -> prog E B) Q l w :
  safe i p (fun a l' w' => safe i (f a) Q l' w') l w ->
  inv w -> safe i (bind p f) Q l w.
Proof.
  revert l w. induction p as [a | s | R e k IH]; simpl; intros l w Hp Hinv.
  - apply (Hp w); [done | done].
  - done.
  - intros w' Hr Hinv'. specialize (Hp w' Hr Hinv').
    destruct (h i R e (l, w')) as [r [l'' w''] |]; [| done].
    destruct Hp as (? & ? & ?). auto.
Qed.

(** Sequencing with an intermediate assertion. *)
Lemma safe_seq {A B} i (p : prog E A) (f : A -> prog E B) P Q l w :
  inv w -> safe i p P l w ->
  (forall a l' w', inv w' -> P a l' w' -> safe i (f a) Q l' w') ->
  safe i (bind p f) Q l w.
Proof. intros Hinv Hp Hf. apply safe_bind; [| done]. by eapply safe_mono. Qed.

(** One operation, then the rest. *)
Lemma safe_trigger {A R} i (e : E R) (f : R -> prog E A) Q l w :
  (forall w', rely i w w' -> inv w' ->
     match h i _ e (l, w') with
     | Done r (l'', w'') => inv w'' /\ guar i w' w'' /\ safe i (f r) Q l'' w''
     | Stopped _ _ => False
     end) ->
  safe i (bind (trigger e) f) Q l w.
Proof. intros H. exact H. Qed.

(** An operation that only reads the world. *)
Lemma safe_read {A R} i (e : E R) (f : R -> prog E A) Q l w :
  (forall w', rely i w w' -> inv w' ->
     match h i _ e (l, w') with
     | Done r (l'', w'') => w'' = w' /\ safe i (f r) Q l'' w'
     | Stopped _ _ => False
     end) ->
  safe i (bind (trigger e) f) Q l w.
Proof.
  intros H. apply safe_trigger. intros w' Hr Hinv. specialize (H w' Hr Hinv).
  destruct (h i R e (l, w')) as [r [l'' w''] |]; [| done].
  destruct H as [-> H]. split; [done |]. split; [| done]. intros j _. reflexivity.
Qed.

(** A loop with fuel to spare: [J n] is the invariant when [n] iterations are
    left, and it never holds with none left. *)
Lemma safe_loop {S A} i fuel (body : S -> prog E (S + A)) (J : nat -> S -> L -> W -> Prop)
    Q s l w :
  (forall s l w, ~ J O s l w) ->
  (forall n s l w, inv w -> J (Datatypes.S n) s l w ->
     safe i (body s) (fun r l' w' => match r with
                                     | inl s' => J n s' l' w'
                                     | inr a => safe i (Ret a) Q l' w'
                                     end) l w) ->
  inv w -> J fuel s l w -> safe i (loop fuel body s) Q l w.
Proof.
  intros H0 Hbody. revert s l w. induction fuel as [| n IH]; intros s l w Hinv HJ.
  { by destruct (H0 s l w). }
  simpl. eapply safe_seq; [done | by apply (Hbody n) |].
  intros [s' | a] l' w' Hinv'; simpl; auto.
Qed.

(** A safe program that runs alone returns, and keeps what its steps guarantee to the others. *)
Lemma safe_run {A} i (p : prog E A) (P : W -> Prop) Q l w :
  (forall w w', guar i w w' -> inv w' -> P w -> P w') -> inv w -> P w -> safe i p Q l w ->
  returns (run (h i) p (l, w)) (fun a s => inv s.2 /\ P s.2 /\ Q a s.1 s.2).
Proof.
  intros HP. revert l w. induction p as [a | s | R e k IH]; intros l w Hi Hw Hs; simpl in *.
  - split; [done |]. split; [done |]. by apply (Hs w).
  - done.
  - specialize (Hs w (reflexivity w) Hi). destruct (h i R e (l, w)) as [r [l' w'] |]; [| done].
    destruct Hs as (Hi' & Hg & Hk). simpl. apply IH; [done | by eapply HP | done].
Qed.

(** ** Adequacy *)

Section Adequacy.
Context {A : Type} (Q : nat -> A -> L -> W -> Prop).

Definition pool_ok (c : config E L W A) : Prop :=
  inv c.2 /\ forall i l p, c.1 !! i = Some (l, p) -> safe i p (Q i) l c.2.

Lemma pool_ok_step c c' : pool_ok c -> pool_step h c c' -> pool_ok c'.
Proof.
  intros [Hinv Hsafe] Hstep. destruct Hstep as [i ts w l R e k r l' w' Hi Hh].
  simpl in *. pose proof (Hsafe i l (Vis e k) Hi) as Hs. simpl in Hs.
  specialize (Hs w (reflexivity w) Hinv). rewrite Hh in Hs.
  destruct Hs as (Hinv' & Hg & Hk). split; [done |]. simpl. intros j lj pj Hj.
  destruct (decide (j = i)) as [-> | Hne].
  - rewrite list_lookup_insert_eq in Hj by (by eapply lookup_lt_Some). by simplify_eq.
  - rewrite list_lookup_insert_ne in Hj by done.
    eapply safe_rely; [by apply (Hg j) | by apply Hsafe].
Qed.

(** A fact that no thread ever invalidates holds along every execution. *)
Lemma pool_keep_step (P : W -> Prop) c c' : (forall j, stable j P) ->
  pool_ok c -> pool_step h c c' -> P c.2 -> P c'.2.
Proof.
  intros HP [Hinv Hsafe] Hstep Hc. destruct Hstep as [i ts w l R e k r l' w' Hi Hh].
  simpl in *. pose proof (Hsafe i l (Vis e k) Hi w (reflexivity w) Hinv) as Hs. simpl in Hs.
  rewrite Hh in Hs. destruct Hs as (Hinv' & Hg & _). eapply (HP (S i)); [apply Hg; lia | done | done].
Qed.

Lemma pool_ok_steps c c' : pool_ok c -> rtc (pool_step h) c c' -> pool_ok c'.
Proof. intros Hok Hs. induction Hs; [done |]. eauto using pool_ok_step. Qed.

Lemma pool_keep (P : W -> Prop) c c' : (forall j, stable j P) ->
  pool_ok c -> rtc (pool_step h) c c' -> P c.2 -> P c'.2.
Proof.
  intros HP Hok Hs. induction Hs as [| c1 c2 c3 H12 _ IH]; [done |]. intros Hc.
  apply IH; [by eapply pool_ok_step | by eapply pool_keep_step].
Qed.

(** A fact about a thread that is not in the pool. *)
Lemma pool_keep_idle (P : W -> Prop) j c c' : stable j P -> (length c.1 <= j)%nat ->
  pool_ok c -> rtc (pool_step h) c c' -> P c.2 -> P c'.2.
Proof.
  intros HP Hj Hok Hs. induction Hs as [| c1 c2 c3 H12 _ IH]; [done |]. intros Hc.
  assert (pool_ok c2) as Hok2 by by eapply pool_ok_step.
  apply IH; [by rewrite (pool_step_length _ _ _ H12) | done |].
  destruct Hok as [Hinv Hsafe], H12 as [i ts w l R e k r l' w' Hi Hh]. simpl in *.
  pose proof (Hsafe i l (Vis e k) Hi w (reflexivity w) Hinv) as Hs. simpl in Hs. rewrite Hh in Hs.
  destruct Hs as (Hinv' & Hg & _). apply (HP w); [apply Hg | done | done].
  apply lookup_lt_Some in Hi. lia.
Qed.

(** Every reachable configuration keeps the invariant and does not crash, a
    thread that has returned satisfies its postcondition, and every other
    thread can take a step. *)
Lemma pool_adequacy c c' :
  pool_ok c -> rtc (pool_step h) c c' ->
  inv c'.2 /\ (forall s, ~ pool_crash h c' s) /\
  (forall i l a, c'.1 !! i = Some (l, Ret a) -> Q i a l c'.2) /\
  (forall i l p, c'.1 !! i = Some (l, p) -> (exists a, p = Ret a) \/ exists c'', pool_step h c' c'').
Proof.
  intros Hok Hs. pose proof (pool_ok_steps _ _ Hok Hs) as [Hinv Hsafe].
  split; [done |]. split; [| split].
  - intros s Hc. destruct Hc as [i ts w l R e k s lw Hi Hh | i ts w l s Hi]; simpl in *.
    + pose proof (Hsafe i l _ Hi w (reflexivity w) Hinv) as H. by rewrite Hh in H.
    + exact (Hsafe i l _ Hi).
  - intros i l a Hi. by apply (Hsafe i l (Ret a) Hi).
  - intros i l p Hi. destruct c' as [ts w]. simpl in *.
    destruct p as [a | s | R e k]; [by left; exists a | by destruct (Hsafe i l _ Hi) | right].
    pose proof (Hsafe i l _ Hi w (reflexivity w) Hinv) as H.
    destruct (h i R e (l, w)) as [r [l' w'] |] eqn:Hh; [| done].
    eexists. by eapply pool_step_vis.
Qed.
End Adequacy.
End RelyGuarantee.

(** ** Another semantics

    What is safe under a semantics that may stop more often is safe under one that agrees
    with it where it does not stop. *)
Section Refine.
Context {E : Type -> Type} {L W : Type} (h h' : nat -> handler E (L * W)).
Context (inv : W -> Prop) (rely : nat -> W -> W -> Prop).
Context (Hh : forall i R (e : E R) s r s', h i R e s = Done r s' -> h' i R e s = Done r s').

Lemma safe_refine {A} i (p : prog E A) Q l w :
  safe h inv rely i p Q l w -> safe h' inv rely i p Q l w.
Proof using Hh.
  revert l w. induction p as [a | s | R e k IH]; simpl; intros l w Hp; [done | done |].
  intros w' Hr Hi. specialize (Hp w' Hr Hi).
  destruct (h i R e (l, w')) as [r [l'' w''] |] eqn:E1; [| done]. rewrite (Hh _ _ _ _ _ _ E1).
  destruct Hp as (? & ? & ?). auto.
Qed.

Lemma pool_ok_refine {A} (Q : nat -> A -> L -> W -> Prop) c :
  pool_ok h inv rely Q c -> pool_ok h' inv rely Q c.
Proof using Hh. intros [Hi Hs]. split; [done |]. intros i l p Hp. by apply safe_refine, Hs. Qed.
End Refine.

(** ** Termination

    A program is a finite tree, so no schedule runs a pool for ever. *)
Section Termination.
Context {E : Type -> Type} {L W A : Type} (h : nat -> handler E (L * W)).

(** [q] is what is left of [p] after its first operation. *)
Definition continues (q p : prog E A) : Prop :=
  match p with
  | Vis e k => exists r, q = k r
  | _ => False
  end.

Definition shrinks (qs ps : list (prog E A)) : Prop :=
  exists i p q, ps !! i = Some p /\ continues q p /\ qs = <[i := q]> ps.

Lemma shrinks_cons_inv qs p ps : shrinks qs (p :: ps) ->
  (exists q, continues q p /\ qs = q :: ps) \/ (exists ps', shrinks ps' ps /\ qs = p :: ps').
Proof.
  intros ([| i] & p' & q & Hp & Hq & ->); simpl in *.
  - injection Hp as ->. left. by exists q.
  - right. exists (<[i := q]> ps). split; [| done]. by exists i, p', q.
Qed.

Lemma shrinks_cons_step (p : prog E A) ps :
  (forall q, continues q p -> forall ps, Acc shrinks ps -> Acc shrinks (q :: ps)) ->
  Acc shrinks ps -> Acc shrinks (p :: ps).
Proof.
  intros Hp Hps. induction Hps as [ps Hacc IH]. constructor. intros qs Hs.
  apply shrinks_cons_inv in Hs as [(q & Hq & ->) | (ps' & Hs & ->)]; [| by apply IH].
  apply Hp; [exact Hq |]. by constructor.
Qed.

Lemma shrinks_cons_acc (p : prog E A) ps : Acc shrinks ps -> Acc shrinks (p :: ps).
Proof.
  revert ps. induction p as [a | s | R e k IH]; intros ps; apply shrinks_cons_step.
  - intros q [].
  - intros q [].
  - intros q [r ->]. exact (IH r).
Qed.

Lemma shrinks_acc ps : Acc shrinks ps.
Proof.
  induction ps as [| p ps IH]; [| by apply shrinks_cons_acc].
  constructor. intros qs (i & p & q & Hp & _). by rewrite lookup_nil in Hp.
Qed.

Lemma pool_terminates (c : config E L W A) : Acc (fun c2 c1 => pool_step h c1 c2) c.
Proof.
  destruct c as [ts w]. remember (map snd ts) as ps eqn:Hps.
  revert ts w Hps. induction (shrinks_acc ps) as [ps _ IH]. intros ts w ->.
  constructor. intros c2 Hs. inversion Hs as [i ts' w' l R e k r l' w2 Hi Hh]; subst.
  eapply IH; [| done]. exists i, (Vis e k), (k r). split.
  - rewrite list_lookup_fmap. by rewrite Hi.
  - split; [by exists r |]. by rewrite list_fmap_insert.
Qed.
End Termination.

(** ** Auxiliary state

    [instr] extends the world with auxiliary state that each operation updates and
    none reads, so every run of the program is a run of the instrumented one. *)
Section Instrument.
Context {E : Type -> Type} {L W G A : Type} (h : handler E (L * W)).
Context (upd : forall R, nat -> E R -> R -> G -> G).

Definition instr (i : nat) : handler E (L * (W * G)) := fun R e s =>
  let '(l, (w, g)) := s in
  match h R e (l, w) with
  | Done r (l', w') => Done r (l', (w', upd R i e r g))
  | Stopped s (l', w') => Stopped s (l', (w', g))
  end.

Lemma instr_step (c c' : config E L W A) g :
  pool_step (fun _ => h) c c' ->
  exists g', pool_step instr (c.1, (c.2, g)) (c'.1, (c'.2, g')).
Proof.
  intros [i ts w l R e k r l' w' Hi Hh]. exists (upd R i e r g). simpl.
  econstructor; [done |]. unfold instr. simpl. by rewrite Hh.
Qed.

Lemma instr_steps (c c' : config E L W A) g :
  rtc (pool_step (fun _ => h)) c c' ->
  exists g', rtc (pool_step instr) (c.1, (c.2, g)) (c'.1, (c'.2, g')).
Proof.
  intros Hs. revert g. induction Hs as [c | c1 c2 c3 H12 _ IH]; intros g; [by exists g |].
  destruct (instr_step _ _ g H12) as [g2 H2]. destruct (IH g2) as [g3 H3].
  exists g3. by eapply rtc_l.
Qed.

Lemma instr_crash (c : config E L W A) g s :
  pool_crash (fun _ => h) c s -> pool_crash instr (c.1, (c.2, g)) s.
Proof.
  intros [i ts w l R e k s' [l' w'] Hi Hh | i ts w l s' Hi].
  - eapply (pool_crash_vis _ i _ _ _ _ _ _ _ (l', (w', g))); [done |].
    unfold instr. simpl. by rewrite Hh.
  - by eapply pool_crash_halt.
Qed.

Lemma instr_run i (p : prog E A) l w g Q :
  returns (run (instr i) p (l, (w, g))) (fun a s => Q a s.1 s.2.1) ->
  returns (run h p (l, w)) (fun a s => Q a s.1 s.2).
Proof.
  revert l w g. induction p as [a | s | R e k IH]; intros l w g; simpl; [done | done |].
  unfold instr at 1. destruct (h R e (l, w)) as [r [l' w'] | s [l' w']]; simpl; [apply IH | done].
Qed.

(** A step of the instrumented pool is a step of the pool. *)
Lemma instr_unstep (ts : list (L * prog E A)) w g c' :
  pool_step instr (ts, (w, g)) c' -> pool_step (fun _ => h) (ts, w) (c'.1, c'.2.1).
Proof.
  intros Hs. inversion Hs as [i ts' w' l R e k r l' w2 Hi Hh]; subst. simpl.
  unfold instr in Hh. destruct (h R e (l, w)) as [r' [l2 w3] | s' [l2 w3]] eqn:Eh; [| done].
  injection Hh as -> -> <-. simpl. by eapply pool_step_vis.
Qed.
End Instrument.
