(* ===== verification/MmlogTypes.v ===== *)
(** * mmlog.h: constants, data and pure helpers

    The declarations of [src/fastlog/include/mmlog.h] up to the error strings, and
    its arithmetic helpers: the alignment macro, the count of chunk crossings,
    the chunk of a cursor. Pointers are integers, with [NULL = 0],
    [MAP_FAILED = -1] and [CHUNK_PENDING = 1]. *)
From stdpp Require Import base gmap sets list strings.
From Stdlib Require Import ZArith Lia.
From S2P Require Import Prelude Prog.

Definition NULL : Z := 0.
Definition MAP_FAILED : Z := -1.

Definition LOG_PAGE_SIZE : Z := 4096.
Definition SLEEP_TIME_MAX_MS : Z := 10.
Definition MMLOG_VERSION : Z := 1.

(** [((x) + (a) - 1) & ~((a) - 1)] with [x] a [uint64_t] and [a] a [uint32_t]:
    the mask is computed in 32 bits and then zero-extended. *)
Definition ALIGN (x a : Z) : Z :=
  Z.land (u64 (u64 (x + a) - 1)) (u32 (Z.lnot (u32 (a - 1)))).

Record log_metadata_t := MkMeta {
  version : Z;
  is_ready : bool;
  is_locked : bool;
  is_panicked : bool;
  file_size : Z;
  cursor : Z;
  page_size : Z;
  chunk_size : Z }.

(** [sizeof(log_metadata_t)] on x86-64: 4 + 3 (+ 1) + 8 + 8 + 4 + 4. *)
Definition sizeof_log_metadata_t : Z := 32.

(** A file extended by [ftruncate] reads as zeros. *)
Definition zero_metadata : log_metadata_t := MkMeta 0 false false false 0 0 0 0.

Record chunk_info_t := MkChunk {
  is_untracked : bool;
  start_offset : Z;
  size : Z;
  mapping : Z;
  ref_count : Z }.

(** What [calloc(1, sizeof(chunk_info_t))] returns. *)
Definition zero_chunk : chunk_info_t := MkChunk false 0 0 0 0.

(** [buffer] holds the [capacity] slots; [head] and [tail] point to a slot, or
    are [NULL] ([None]). *)
Record chunk_buffer_t := MkBuf {
  buffer : option (list Z);
  capacity : Z;
  head : option Z;
  tail : option Z;
  head_locked : bool }.

(** [metadata] points to a mapping of the metadata file. *)
Record log_handle_t := MkHandle {
  metadata_fd : Z;
  data_fd : Z;
  metadata : Z;
  chunks : chunk_buffer_t }.

Definition zero_handle : log_handle_t :=
  MkHandle 0 0 NULL (MkBuf None 0 None None false).

Record log_range_t := MkRange {
  is_valid : bool;
  range_start : Z;
  range_end : Z;
  range_chunk : Z;
  chunk_offset : Z }.

Definition LOG_CURSOR_INVALID : Z := u64 (-1).
Definition CHUNK_PENDING : Z := 1.

Inductive mmlog_err_t : Type :=
| OK
| CLOCK_GETTIMEOFDAY
| FILES_CREATE_FTRUNCATE_MDATA
| FILES_CREATE_MMAP_MDATA
| FILES_CREATE_OPEN_DATA
| FILES_CREATE_FTRUNCATE_DATA
| TRY_CHECK_FILE_READY_OPEN
| TRY_CHECK_FILE_READY_FSTAT
| FILES_OPEN_MDATA_READY_OPEN
| FILES_OPEN_MDATA_READY_FSTAT
| FILES_OPEN_MDATA_MMAP
| FILES_OPEN_MDATA_READY
| FILES_OPEN_DATA_READY_OPEN
| FILES_OPEN_DATA_READY_FSTAT
| FILES_OPEN_DATA_MMAP
| FILES_OPEN_VERSION
| FILES_OPEN_OR_CREATE_EINVAL
| FILES_OPEN_OR_CREATE_SNPRINTF
| MMLOG_OPEN_EINVAL
| MMLOG_OPEN_ENOMEM
| MMLOG_OPEN_OR_CREATE_EINVAL
| FILE_EXPAND_INNER_PANICKED
| FILE_EXPAND_INNER_GROW
| FILE_EXPAND_INNER_LOCKED
| MMLOG_CHECKOUT_EINVAL
| CLEAN_CHUNKS_EINVAL
| CREATE_CHUNK_AT_CURSOR_ENOMEM
| CREATE_CHUNK_AT_CURSOR_MMAP
| ADD_NEW_CHUNK_EINVALID
| ADD_NEW_CHUNK_EWAIT
| MMLOG_RB_CHECKOUT_EINVAL
| MMLOG_RB_CHECKOUT_NOLOCK
| WRITE_TO_CHUNK_ECHUNK
| MMLOG_INSERT_EINVAL
| MMLOG_INSERT_PWRITE
| MMLOG_TRIM_EINVAL
| MMLOG_TRIM_FTRUNCATE
| ERR_LENGTH.

#[export] Instance mmlog_err_t_eq_dec : EqDecision mmlog_err_t.
Proof. solve_decision. Defined.

(** The rows of the X macro, in order. *)
Definition ERR_TABLE : list (mmlog_err_t * string) := [
  (OK, "mmlog success");
  (CLOCK_GETTIMEOFDAY, "[ms_since_epoch] error in gettimeofday()");
  (FILES_CREATE_FTRUNCATE_MDATA, "[files_create] metadata ftruncate() failed");
  (FILES_CREATE_MMAP_MDATA, "[files_create] metadata mmap() failed");
  (FILES_CREATE_OPEN_DATA, "[files_create] data open() failed on data file");
  (FILES_CREATE_FTRUNCATE_DATA, "[files_create] data ftruncate() failed");
  (TRY_CHECK_FILE_READY_OPEN, "[try_check_file_ready] open() failed");
  (TRY_CHECK_FILE_READY_FSTAT, "[try_check_file_ready] fstat() failed");
  (FILES_OPEN_MDATA_READY_OPEN, "[files_open] metadata not ready (open)");
  (FILES_OPEN_MDATA_READY_FSTAT, "[files_open] metadata not ready (fstat)");
  (FILES_OPEN_MDATA_MMAP, "[files_open] metadata mmap() failed");
  (FILES_OPEN_MDATA_READY, "[files_open] metadata not ready");
  (FILES_OPEN_DATA_READY_OPEN, "[files_open] data not ready (open)");
  (FILES_OPEN_DATA_READY_FSTAT, "[files_open] data not ready (fstat)");
  (FILES_OPEN_DATA_MMAP, "[files_open] metadata mmap() failed");
  (FILES_OPEN_VERSION, "[files_open] incompatible metadata version");
  (FILES_OPEN_OR_CREATE_EINVAL, "[files_open_or_create] invalid arguments");
  (FILES_OPEN_OR_CREATE_SNPRINTF, "[files_open_or_create] failed to intern string");
  (MMLOG_OPEN_EINVAL, "[mmlog_open] invalid arguments");
  (MMLOG_OPEN_ENOMEM, "[mmlog_open] out of memory");
  (MMLOG_OPEN_OR_CREATE_EINVAL, "[mmlog_open_or_create] invalid arguments");
  (FILE_EXPAND_INNER_PANICKED, "[file_expand_inner] log is in a panic state");
  (FILE_EXPAND_INNER_GROW, "[file_expand_inner] ftruncate() failed");
  (FILE_EXPAND_INNER_LOCKED, "[file_expand_inner] failed to acquire lock");
  (MMLOG_CHECKOUT_EINVAL, "[mmlog_checkout] invalid arguments");
  (CLEAN_CHUNKS_EINVAL, "[clean_chunks] invalid arguments");
  (CREATE_CHUNK_AT_CURSOR_ENOMEM, "[create_chunk_at_cursor] out of memory");
  (CREATE_CHUNK_AT_CURSOR_MMAP, "[create_chunk_at_cursor] mmap() failed");
  (ADD_NEW_CHUNK_EINVALID, "[add_new_chunk] invalid arguments");
  (ADD_NEW_CHUNK_EWAIT, "[add_new_chunk] ringbuffer is full");
  (MMLOG_RB_CHECKOUT_EINVAL, "[mmlog_rb_checkout] invalid arguments");
  (MMLOG_RB_CHECKOUT_NOLOCK, "[mmlog_rb_checkout] failed to acquire head lock");
  (WRITE_TO_CHUNK_ECHUNK, "[write_to_chunk] failed to checkout chunk");
  (MMLOG_INSERT_EINVAL, "[mmlog_insert] invalid arguments");
  (MMLOG_INSERT_PWRITE, "[mmlog_insert] pwrite() failed");
  (MMLOG_TRIM_EINVAL, "[mmlog_trim] invalid arguments");
  (MMLOG_TRIM_FTRUNCATE, "[mmlog_trim] ftruncate() failed");
  (ERR_LENGTH, "UNKNOWN ERROR")].

(** The value of an enumerator: its position in the table. *)
Fixpoint err_index (e : mmlog_err_t) (t : list (mmlog_err_t * string)) : Z :=
  match t with
  | [] => 0
  | (e', _) :: t' => if decide (e = e') then 0 else 1 + err_index e t'
  end.

Definition err_code (e : mmlog_err_t) : Z := err_index e ERR_TABLE.

Definition mmlog_err_msg : list string := map snd ERR_TABLE.

(** [mmlog_strerror]: clamp the code to the table, then index it. *)
Definition mmlog_strerror (err : Z) : option string :=
  let err := if (err <? 0) || (err_code ERR_LENGTH <=? err)
             then err_code ERR_LENGTH else err in
  znth mmlog_err_msg err.

(** [mmlog_cross_count(start, size, chunk_size)], a [uint32_t]. *)
Definition mmlog_cross_count (start size chunk_size : Z) : Z :=
  let end_ := u64 (start + size) in
  let start_chunk_index := start / chunk_size in
  let end_chunk_index := end_ / chunk_size in
  u32 (u64 (end_chunk_index - start_chunk_index)).

(** [is_cursor_in_chunk], on the fields of a chunk that is neither [NULL] nor
    [CHUNK_PENDING]. *)
Definition cursor_in_range (start_offset size cursor : Z) : bool :=
  (start_offset <=? cursor) && (cursor <? u64 (start_offset + size)).

(** [create_chunk_at_cursor]'s file offset. *)
Definition chunk_start (cursor chunk_size : Z) : Z := cursor / chunk_size * chunk_size.

(** ** Arithmetic of the helpers *)

(** Below 4 GiB the macro rounds up: the result holds [x] bytes and wastes less
    than [a]. *)
Lemma align_eq x a : 0 < a < 2 ^ 32 -> 0 <= x -> x + a <= 2 ^ 32 ->
  ALIGN x a = x + a - 1 - Z.land (x + a - 1) (a - 1).
Proof.
  intros Ha Hx Hxa. unfold ALIGN.
  rewrite (wrap_small 32 (a - 1)), (wrap_small 64 (x + a)), (wrap_small 64) by lia.
  by rewrite (land_lnot_split 32) by lia.
Qed.

Lemma align_bounds x a : 0 < a < 2 ^ 32 -> 0 <= x -> x + a <= 2 ^ 32 ->
  x <= ALIGN x a < x + a.
Proof.
  intros Ha Hx Hxa. rewrite align_eq by done.
  pose proof (land_range (x + a - 1) (a - 1)). lia.
Qed.

(** For a power of two the result is the next multiple. *)
Lemma align_pow2 x k : 0 <= k < 32 -> 0 <= x -> x + 2 ^ k <= 2 ^ 32 ->
  ALIGN x (2 ^ k) = (x + 2 ^ k - 1) / 2 ^ k * 2 ^ k.
Proof.
  intros Hk Hx Hxa.
  assert (0 < 2 ^ k) by (apply Z.pow_pos_nonneg; lia).
  assert (2 ^ k < 2 ^ 32) by (apply Z.pow_lt_mono_r; lia).
  rewrite align_eq by lia.
  replace (2 ^ k - 1) with (Z.ones k) by (rewrite Z.ones_equiv; lia).
  rewrite Z.land_ones by lia.
  pose proof (Z.div_mod (x + 2 ^ k - 1) (2 ^ k)). lia.
Qed.

(** The mask has 32 bits, so the result never reaches 4 GiB. *)
Lemma align_lt_4G x a : 0 <= ALIGN x a < 2 ^ 32.
Proof.
  unfold ALIGN. pose proof (wrap_range 32 ltac:(lia) (Z.lnot (u32 (a - 1)))).
  pose proof (land_range (u64 (u64 (x + a) - 1)) (u32 (Z.lnot (u32 (a - 1))))). lia.
Qed.

(** [mmlog_strerror] is total: any code has a message. *)
Lemma strerror_some err : is_Some (mmlog_strerror err).
Proof.
  unfold mmlog_strerror. change (err_code ERR_LENGTH) with 37.
  destruct ((err <? 0) || (37 <=? err)) eqn:Hc; [by eexists |]. zbool.
  unfold znth. rewrite (proj2 (Z.leb_le 0 err)) by lia.
  apply lookup_lt_is_Some. change (length mmlog_err_msg) with 38%nat. lia.
Qed.

(** ** Chunks of a log *)

Section ChunkArith.
Context (CS : Z) (HCS : 0 < CS).

Lemma chunk_start_spec c : 0 <= c ->
  chunk_start c CS <= c < chunk_start c CS + CS /\
  0 <= chunk_start c CS /\ chunk_start c CS mod CS = 0.
Proof.
  intros Hc. unfold chunk_start.
  pose proof (Z.div_mod c CS). pose proof (Z.mod_pos_bound c CS).
  pose proof (Z.div_pos c CS). rewrite Z.mod_mul by lia. nia.
Qed.

(** A chunk-aligned offset whose chunk holds [c] is the start of [c]'s chunk. *)
Lemma chunk_start_unique s c : s mod CS = 0 -> s <= c < s + CS -> s = chunk_start c CS.
Proof.
  intros Hs Hc. unfold chunk_start.
  pose proof (Z.div_mod s CS ltac:(lia)) as Hd. rewrite Hs in Hd.
  assert (c / CS = s / CS) as ->; [| lia].
  symmetry. apply (Z.div_unique _ _ _ (c - s)); lia.
Qed.

(** With at most one crossing counted, the bytes after the first boundary fit
    in the second chunk. *)
Lemma cross_count_le1 start n : 0 <= start -> 0 <= n -> start + n < 2 ^ 32 ->
  mmlog_cross_count start n CS <= 1 -> start + n < chunk_start start CS + 2 * CS.
Proof.
  intros Hs Hn Hb. unfold mmlog_cross_count, chunk_start.
  rewrite (wrap_small 64 (start + n)) by lia.
  pose proof (Z.div_le_mono start (start + n) CS HCS ltac:(lia)).
  pose proof (Z.div_pos start CS). 
  assert ((start + n) / CS <= start + n) by (apply Z.div_le_upper_bound; nia).
  rewrite (wrap_small 64), wrap_small by lia. intros Hc.
  pose proof (Z.mod_pos_bound (start + n) CS HCS).
  pose proof (Z.div_mod (start + n) CS). nia.
Qed.
End ChunkArith.
