(* ===== verification/MmlogOs.v ===== *)
(** * The state mmlog.h works on, and its atomic operations

    A [world] holds what every thread and process using the logs can reach: files,
    descriptors, shared mappings, and the handles and chunks on the heap.
    [mmE] lists the atomic operations of the code: one load, store or
    read-modify-write of a field, one system call, one allocation. [mm_h] gives their
    meaning; whether a fallible call fails is read from [w_faults], and the
    monotonic clock from [w_clock], so that a theorem that quantifies over the
    world covers every failure and every timing. *)
From stdpp Require Import base gmap sets list strings.
From Stdlib Require Import ZArith Lia.
From S2P Require Import Prelude Prog MmlogTypes.

Record inode := MkInode {
  i_size : Z;
  i_bytes : gmap Z Z;          (* the bytes that were written; the rest are 0 *)
  i_tail : gmap Z Z;           (* stored through a mapping behind the end of the file, in its last page *)
  i_meta : log_metadata_t }.   (* the file seen through [log_metadata_t *] *)

Record mmapping := MkMapping { m_ino : Z; m_off : Z; m_len : Z }.

(** What the environment decides about one fallible call: it succeeds, it
    fails, or (for [pwrite]) it writes at most [n] bytes. *)
Inductive fault : Type := Succeeds | Fails | Short (n : nat).

Record world := MkW {
  w_names : gmap string Z;
  w_inodes : gmap Z inode;
  w_fds : gmap Z Z;
  w_maps : gmap Z mmapping;
  w_handles : gmap Z log_handle_t;
  w_chunks : gmap Z chunk_info_t;
  w_heap : gset Z;
  w_next : Z;
  w_faults : list fault;
  w_clock : nat -> option (Z * Z);
  w_reads : nat }.

(** A thread sees its [thread_local] [mmlog_errno] and the shared world. *)
Definition st : Type := mmlog_err_t * world.

Definition new_inode : inode := MkInode 0 ∅ ∅ zero_metadata.

(** ** Record updates *)

Definition set_names f w := MkW (f (w_names w)) (w_inodes w) (w_fds w) (w_maps w)
  (w_handles w) (w_chunks w) (w_heap w) (w_next w) (w_faults w) (w_clock w) (w_reads w).
Definition set_inodes f w := MkW (w_names w) (f (w_inodes w)) (w_fds w) (w_maps w)
  (w_handles w) (w_chunks w) (w_heap w) (w_next w) (w_faults w) (w_clock w) (w_reads w).
Definition set_fds f w := MkW (w_names w) (w_inodes w) (f (w_fds w)) (w_maps w)
  (w_handles w) (w_chunks w) (w_heap w) (w_next w) (w_faults w) (w_clock w) (w_reads w).
Definition set_maps f w := MkW (w_names w) (w_inodes w) (w_fds w) (f (w_maps w))
  (w_handles w) (w_chunks w) (w_heap w) (w_next w) (w_faults w) (w_clock w) (w_reads w).
Definition set_handles f w := MkW (w_names w) (w_inodes w) (w_fds w) (w_maps w)
  (f (w_handles w)) (w_chunks w) (w_heap w) (w_next w) (w_faults w) (w_clock w) (w_reads w).
Definition set_chunks f w := MkW (w_names w) (w_inodes w) (w_fds w) (w_maps w)
  (w_handles w) (f (w_chunks w)) (w_heap w) (w_next w) (w_faults w) (w_clock w) (w_reads w).
Definition set_heap f w := MkW (w_names w) (w_inodes w) (w_fds w) (w_maps w)
  (w_handles w) (w_chunks w) (f (w_heap w)) (w_next w) (w_faults w) (w_clock w) (w_reads w).
Definition set_faults l w := MkW (w_names w) (w_inodes w) (w_fds w) (w_maps w)
  (w_handles w) (w_chunks w) (w_heap w) (w_next w) l (w_clock w) (w_reads w).
Definition bump_next w := MkW (w_names w) (w_inodes w) (w_fds w) (w_maps w)
  (w_handles w) (w_chunks w) (w_heap w) (w_next w + 1) (w_faults w) (w_clock w) (w_reads w).
Definition bump_reads w := MkW (w_names w) (w_inodes w) (w_fds w) (w_maps w)
  (w_handles w) (w_chunks w) (w_heap w) (w_next w) (w_faults w) (w_clock w) (S (w_reads w)).

(** ** Typed fields *)

Inductive md_field : Type -> Type :=
| MdVersion : md_field Z
| MdReady : md_field bool
| MdLocked : md_field bool
| MdPanicked : md_field bool
| MdFileSize : md_field Z
| MdCursor : md_field Z
| MdPageSize : md_field Z
| MdChunkSize : md_field Z.

Definition md_get {T} (f : md_field T) : log_metadata_t -> T :=
  match f with
  | MdVersion => version
  | MdReady => is_ready
  | MdLocked => is_locked
  | MdPanicked => is_panicked
  | MdFileSize => file_size
  | MdCursor => cursor
  | MdPageSize => page_size
  | MdChunkSize => chunk_size
  end.

Definition md_set {T} (f : md_field T) : T -> log_metadata_t -> log_metadata_t :=
  match f in md_field T return T -> log_metadata_t -> log_metadata_t with
  | MdVersion => fun v m => MkMeta v (is_ready m) (is_locked m) (is_panicked m)
      (file_size m) (cursor m) (page_size m) (chunk_size m)
  | MdReady => fun v m => MkMeta (version m) v (is_locked m) (is_panicked m)
      (file_size m) (cursor m) (page_size m) (chunk_size m)
  | MdLocked => fun v m => MkMeta (version m) (is_ready m) v (is_panicked m)
      (file_size m) (cursor m) (page_size m) (chunk_size m)
  | MdPanicked => fun v m => MkMeta (version m) (is_ready m) (is_locked m) v
      (file_size m) (cursor m) (page_size m) (chunk_size m)
  | MdFileSize => fun v m => MkMeta (version m) (is_ready m) (is_locked m) (is_panicked m)
      v (cursor m) (page_size m) (chunk_size m)
  | MdCursor => fun v m => MkMeta (version m) (is_ready m) (is_locked m) (is_panicked m)
      (file_size m) v (page_size m) (chunk_size m)
  | MdPageSize => fun v m => MkMeta (version m) (is_ready m) (is_locked m) (is_panicked m)
      (file_size m) (cursor m) v (chunk_size m)
  | MdChunkSize => fun v m => MkMeta (version m) (is_ready m) (is_locked m) (is_panicked m)
      (file_size m) (cursor m) (page_size m) v
  end.

Inductive ch_field : Type -> Type :=
| ChUntracked : ch_field bool
| ChStart : ch_field Z
| ChSize : ch_field Z
| ChMapping : ch_field Z
| ChRef : ch_field Z.

Definition ch_get {T} (f : ch_field T) : chunk_info_t -> T :=
  match f with
  | ChUntracked => is_untracked
  | ChStart => start_offset
  | ChSize => size
  | ChMapping => mapping
  | ChRef => ref_count
  end.

Definition ch_set {T} (f : ch_field T) : T -> chunk_info_t -> chunk_info_t :=
  match f in ch_field T return T -> chunk_info_t -> chunk_info_t with
  | ChUntracked => fun v c => MkChunk v (start_offset c) (size c) (mapping c) (ref_count c)
  | ChStart => fun v c => MkChunk (is_untracked c) v (size c) (mapping c) (ref_count c)
  | ChSize => fun v c => MkChunk (is_untracked c) (start_offset c) v (mapping c) (ref_count c)
  | ChMapping => fun v c => MkChunk (is_untracked c) (start_offset c) (size c) v (ref_count c)
  | ChRef => fun v c => MkChunk (is_untracked c) (start_offset c) (size c) (mapping c) v
  end.

Inductive h_field : Type -> Type :=
| HMetadataFd : h_field Z
| HDataFd : h_field Z
| HMetadata : h_field Z
| HBuffer : h_field (option (list Z))
| HCapacity : h_field Z
| HHead : h_field (option Z)
| HTail : h_field (option Z)
| HHeadLocked : h_field bool.

Definition h_get {T} (f : h_field T) : log_handle_t -> T :=
  match f with
  | HMetadataFd => metadata_fd
  | HDataFd => data_fd
  | HMetadata => metadata
  | HBuffer => fun h => buffer (chunks h)
  | HCapacity => fun h => capacity (chunks h)
  | HHead => fun h => head (chunks h)
  | HTail => fun h => tail (chunks h)
  | HHeadLocked => fun h => head_locked (chunks h)
  end.

Definition set_buf (f : chunk_buffer_t -> chunk_buffer_t) (h : log_handle_t) : log_handle_t :=
  MkHandle (metadata_fd h) (data_fd h) (metadata h) (f (chunks h)).

Definition h_set {T} (f : h_field T) : T -> log_handle_t -> log_handle_t :=
  match f in h_field T return T -> log_handle_t -> log_handle_t with
  | HMetadataFd => fun v h => MkHandle v (data_fd h) (metadata h) (chunks h)
  | HDataFd => fun v h => MkHandle (metadata_fd h) v (metadata h) (chunks h)
  | HMetadata => fun v h => MkHandle (metadata_fd h) (data_fd h) v (chunks h)
  | HBuffer => fun v => set_buf (fun b => MkBuf v (capacity b) (head b) (tail b) (head_locked b))
  | HCapacity => fun v => set_buf (fun b => MkBuf (buffer b) v (head b) (tail b) (head_locked b))
  | HHead => fun v => set_buf (fun b => MkBuf (buffer b) (capacity b) v (tail b) (head_locked b))
  | HTail => fun v => set_buf (fun b => MkBuf (buffer b) (capacity b) (head b) v (head_locked b))
  | HHeadLocked => fun v =>
      set_buf (fun b => MkBuf (buffer b) (capacity b) (head b) (tail b) v)
  end.

(** ** Operations *)

Inductive mmE : Type -> Type :=
(* the thread's errno, the clock, the scheduler *)
| SetErrno (e : mmlog_err_t) : mmE unit
| GetErrno : mmE mmlog_err_t
| ClockGettime : mmE (option (Z * Z))
| SchedYield : mmE unit
(* system calls *)
| Open (path : string) (creat excl : bool) : mmE Z
| Close (fd : Z) : mmE Z
| Ftruncate (fd len : Z) : mmE Z
| Fstat (fd : Z) : mmE (option Z)
| Mmap (len fd off : Z) : mmE Z
| Munmap (addr len : Z) : mmE Z
| Pwrite (fd : Z) (data : list Z) (off : Z) : mmE Z
(* the C library's allocator and formatter *)
| Malloc (n : Z) : mmE Z
| Free (p : Z) : mmE unit
| Snprintf (s : string) : mmE Z
| CallocHandle : mmE Z
| CallocSlots (n : Z) : mmE (option (list Z))
| CallocChunk : mmE Z
| FreeHandle (h : Z) : mmE unit
| FreeSlots (h : Z) : mmE unit
| FreeChunk (c : Z) : mmE unit
(* the shared metadata, through a mapping *)
| MdLoad {T} (f : md_field T) (m : Z) : mmE T
| MdStore {T} (f : md_field T) (m : Z) (v : T) : mmE unit
| MdCasLocked (m : Z) (expected desired : bool) : mmE bool
| MdFetchAddCursor (m n : Z) : mmE Z
(* the handle, its ring of chunks, a chunk *)
| HLoad {T} (f : h_field T) (h : Z) : mmE T
| HStore {T} (f : h_field T) (h : Z) (v : T) : mmE unit
| SlotLoad (h i : Z) : mmE Z
| SlotStore (h i v : Z) : mmE unit
| CasHead (h : Z) (expected desired : option Z) : mmE bool
| CasTail (h : Z) (expected desired : option Z) : mmE bool
| CasHeadLocked (h : Z) (expected desired : bool) : mmE bool
| ChLoad {T} (f : ch_field T) (c : Z) : mmE T
| ChStore {T} (f : ch_field T) (c : Z) (v : T) : mmE unit
| ChFetchAdd (c d : Z) : mmE Z
(* one byte of a shared file mapping *)
| StoreByte (m off b : Z) : mmE unit.

Abbreviation mm := (prog mmE).

Definition SIGBUS : Z := 7.
Definition SIGSEGV : Z := 11.

(** [w_faults] decides the next fallible call; an exhausted list means success. *)
Definition pop_fault (w : world) : fault * world :=
  match w_faults w with
  | [] => (Succeeds, w)
  | f :: l => (f, set_faults l w)
  end.

Definition fails (f : fault) : bool := match f with Fails => true | _ => false end.

(** The end of the last page that holds a byte of a file of [n] bytes. *)
Definition page_end (n : Z) : Z := (n + 4095) / 4096 * 4096.

(** The metadata seen through mapping [m]. *)
Definition md_at (w : world) (m : Z) : stop + (Z * log_metadata_t) :=
  match w_maps w !! m with
  | None => inl (Signaled SIGSEGV)
  | Some mp =>
      match w_inodes w !! m_ino mp with
      | None => inl Undefined
      | Some i => if 0 <? i_size i then inr (m_ino mp, i_meta i) else inl (Signaled SIGBUS)
      end
  end.

Definition put_meta (ino : Z) (md : log_metadata_t) (w : world) : world :=
  set_inodes (alter (fun i => MkInode (i_size i) (i_bytes i) (i_tail i) md) ino) w.

Definition on_md {A} (m : Z) (s : st) (f : log_metadata_t -> A * log_metadata_t) :
    outcome st A :=
  let '(er, w) := s in
  match md_at w m with
  | inl sg => Stopped sg s
  | inr (ino, md) => let '(a, md') := f md in Done a (er, put_meta ino md' w)
  end.

Definition read_md {A} (m : Z) (s : st) (f : log_metadata_t -> A) : outcome st A :=
  match md_at s.2 m with
  | inl sg => Stopped sg s
  | inr (_, md) => Done (f md) s
  end.

Definition read_handle {A} (h : Z) (s : st) (f : log_handle_t -> A) : outcome st A :=
  match w_handles s.2 !! h with
  | None => Stopped (Signaled SIGSEGV) s
  | Some x => Done (f x) s
  end.

Definition read_chunk {A} (c : Z) (s : st) (f : chunk_info_t -> A) : outcome st A :=
  match w_chunks s.2 !! c with
  | None => Stopped (Signaled SIGSEGV) s
  | Some x => Done (f x) s
  end.

Definition on_handle {A} (h : Z) (s : st) (f : log_handle_t -> A * log_handle_t) :
    outcome st A :=
  let '(er, w) := s in
  match w_handles w !! h with
  | None => Stopped (Signaled SIGSEGV) s
  | Some x => let '(a, x') := f x in Done a (er, set_handles <[h:=x']> w)
  end.

Definition on_chunk {A} (c : Z) (s : st) (f : chunk_info_t -> A * chunk_info_t) :
    outcome st A :=
  let '(er, w) := s in
  match w_chunks w !! c with
  | None => Stopped (Signaled SIGSEGV) s
  | Some x => let '(a, x') := f x in Done a (er, set_chunks <[c:=x']> w)
  end.

(** A file truncated to [len] bytes keeps its first [len] bytes; metadata read
    back after a truncation to less than the structure is not modelled beyond
    the file's size. What was stored behind the end is gone: a file that grows again grows by zeros. *)
Definition truncate_inode (len : Z) (i : inode) : inode :=
  MkInode len (filter (fun kv => kv.1 < len) (i_bytes i)) ∅ (i_meta i).

(** Write [data] at [pos]; bytes behind the old end that the file now reaches over are zeros. *)
Fixpoint put_bytes (pos : Z) (data : list Z) (m : gmap Z Z) : gmap Z Z :=
  match data with
  | [] => m
  | b :: data' => put_bytes (pos + 1) data' (<[pos:=b]> m)
  end.

Definition write_inode (pos : Z) (data : list Z) (i : inode) : inode :=
  let n := Z.max (i_size i) (pos + zlen data) in
  MkInode n (put_bytes pos data (i_bytes i)) (filter (fun kv => n <= kv.1) (i_tail i)) (i_meta i).

Definition alloc_fd (ino : Z) (er : mmlog_err_t) (w : world) : outcome st Z :=
  Done (w_next w) (er, bump_next (set_fds <[w_next w:=ino]> w)).

Definition sys_open (path : string) (creat excl : bool) (s : st) : outcome st Z :=
  let '(er, w) := s in
  let '(f, w) := pop_fault w in
  if fails f then Done (-1) (er, w)
  else match w_names w !! path with
  | Some ino => if creat && excl then Done (-1) (er, w) else alloc_fd ino er w
  | None =>
      if creat
      then let ino := w_next w in
           alloc_fd ino er (bump_next (set_inodes <[ino:=new_inode]> (set_names <[path:=ino]> w)))
      else Done (-1) (er, w)
  end.

Definition sys_ftruncate (fd len : Z) (s : st) : outcome st Z :=
  let '(er, w) := s in
  let '(f, w) := pop_fault w in
  if fails f || (swrap 64 len <? 0) then Done (-1) (er, w)
  else match w_fds w !! fd with
  | Some ino => Done 0 (er, set_inodes (alter (truncate_inode (swrap 64 len)) ino) w)
  | None => Done (-1) (er, w)
  end.

Definition sys_fstat (fd : Z) (s : st) : outcome st (option Z) :=
  let '(er, w) := s in
  let '(f, w) := pop_fault w in
  if fails f then Done None (er, w)
  else Done (ino ← w_fds w !! fd; i ← w_inodes w !! ino; Some (i_size i)) (er, w).

Definition sys_mmap (len fd off : Z) (s : st) : outcome st Z :=
  let '(er, w) := s in
  let '(f, w) := pop_fault w in
  if fails f || (len <=? 0) || negb (off mod 4096 =? 0) then Done MAP_FAILED (er, w)
  else match w_fds w !! fd with
  | Some ino =>
      Done (w_next w) (er, bump_next (set_maps <[w_next w:=MkMapping ino off len]> w))
  | None => Done MAP_FAILED (er, w)
  end.

Definition sys_pwrite (fd : Z) (data : list Z) (off : Z) (s : st) : outcome st Z :=
  let '(er, w) := s in
  let '(f, w) := pop_fault w in
  if swrap 64 off <? 0 then Done (-1) (er, w)
  else match w_fds w !! fd, f with
  | None, _ | _, Fails => Done (-1) (er, w)
  | Some ino, Succeeds => Done (zlen data) (er, set_inodes (alter (write_inode off data) ino) w)
  | Some ino, Short n =>
      Done (zlen (take n data)) (er, set_inodes (alter (write_inode off (take n data)) ino) w)
  end.

(** A store to a shared mapping reaches the file when the page is backed by
    it; past the last page of the file the kernel raises SIGBUS. The bytes
    between the end of the file and the end of its last page are not part of the file: they are kept in the page, where
    every mapping of it shows them. *)
Definition store_byte (m off b : Z) (s : st) : outcome st unit :=
  let '(er, w) := s in
  match w_maps w !! m with
  | None => Stopped (Signaled SIGSEGV) s
  | Some mp =>
      if (off <? 0) || (page_end (m_len mp) <=? off) then Stopped (Signaled SIGSEGV) s
      else match w_inodes w !! m_ino mp with
      | None => Stopped Undefined s
      | Some i =>
          let pos := m_off mp + off in
          if pos <? i_size i
          then Done tt (er, set_inodes <[m_ino mp :=
                 MkInode (i_size i) (<[pos:=b]> (i_bytes i)) (i_tail i) (i_meta i)]> w)
          else if pos <? page_end (i_size i)
          then Done tt (er, set_inodes <[m_ino mp :=
                 MkInode (i_size i) (i_bytes i) (<[pos:=b]> (i_tail i)) (i_meta i)]> w)
          else Stopped (Signaled SIGBUS) s
      end
  end.

(** What a load through a mapping gives; [None] is a signal. *)
Definition mapped_byte (w : world) (m off : Z) : option Z :=
  match w_maps w !! m with
  | None => None
  | Some mp =>
      if (off <? 0) || (page_end (m_len mp) <=? off) then None
      else match w_inodes w !! m_ino mp with
      | None => None
      | Some i =>
          let pos := m_off mp + off in
          if pos <? i_size i then Some (default 0 (i_bytes i !! pos))
          else if pos <? page_end (i_size i) then Some (default 0 (i_tail i !! pos))
          else None
      end
  end.

(** An allocation: [NULL] when it fails, else a fresh pointer, entered by [f]. *)
Definition allocate (f : Z -> world -> world) (s : st) : outcome st Z :=
  let '(er, w) := s in
  let '(ft, w) := pop_fault w in
  if fails ft then Done NULL (er, w)
  else Done (w_next w) (er, bump_next (f (w_next w) w)).

Definition slot_load (h i : Z) (s : st) : outcome st Z :=
  match w_handles s.2 !! h with
  | None => Stopped (Signaled SIGSEGV) s
  | Some x =>
      match b ← buffer (chunks x); znth b i with
      | Some v => Done v s
      | None => Stopped Undefined s
      end
  end.

Definition slot_store (h i v : Z) (s : st) : outcome st unit :=
  let '(er, w) := s in
  match w_handles w !! h with
  | None => Stopped (Signaled SIGSEGV) s
  | Some x =>
      match buffer (chunks x) with
      | Some b =>
          if (0 <=? i) && (i <? zlen b)
          then Done tt (er, set_handles <[h := h_set HBuffer (Some (<[Z.to_nat i := v]> b)) x]> w)
          else Stopped Undefined s
      | None => Stopped (Signaled SIGSEGV) s
      end
  end.

Definition cas_field {T} `{EqDecision T} (f : h_field T) (expected desired : T)
    (x : log_handle_t) : bool * log_handle_t :=
  if decide (h_get f x = expected) then (true, h_set f desired x) else (false, x).

Definition mm_h : handler mmE st := fun R e s =>
  let '(er, w) := s in
  match e in mmE R return outcome st R with
  | SetErrno e => Done tt (e, w)
  | GetErrno => Done er s
  | ClockGettime => Done (w_clock w (w_reads w)) (er, bump_reads w)
  | SchedYield => Done tt s
  | Open path creat excl => sys_open path creat excl s
  | Close fd => Done (if decide (is_Some (w_fds w !! fd)) then 0 else -1)
                     (er, set_fds (delete fd) w)
  | Ftruncate fd len => sys_ftruncate fd len s
  | Fstat fd => sys_fstat fd s
  | Mmap len fd off => sys_mmap len fd off s
  | Munmap addr len => Done 0 (er, set_maps (delete addr) w)
  | Pwrite fd data off => sys_pwrite fd data off s
  | Malloc n => allocate (fun p => set_heap (fun hp => {[p]} ∪ hp)) s
  | Free p => Done tt (er, set_heap (fun hp => hp ∖ {[p]}) w)
  | Snprintf str => let '(f, w) := pop_fault w in
      Done (if fails f then -1 else Z.of_nat (String.length str)) (er, w)
  | CallocHandle => allocate (fun p => set_handles <[p:=zero_handle]>) s
  | CallocSlots n => let '(f, w) := pop_fault w in
      Done (if fails f then None else Some (replicate (Z.to_nat n) NULL)) (er, w)
  | CallocChunk => allocate (fun p => set_chunks <[p:=zero_chunk]>) s
  | FreeHandle h => Done tt (er, set_handles (delete h) w)
  | FreeSlots h => on_handle h s (fun x => (tt, h_set HBuffer None x))
  | FreeChunk c => Done tt (er, set_chunks (delete c) w)
  | MdLoad f m => read_md m s (md_get f)
  | MdStore f m v => on_md m s (fun md => (tt, md_set f v md))
  | MdCasLocked m expected desired => on_md m s (fun md =>
      if Bool.eqb (is_locked md) expected then (true, md_set MdLocked desired md)
      else (false, md))
  | MdFetchAddCursor m n => on_md m s (fun md =>
      (cursor md, md_set MdCursor (u64 (cursor md + n)) md))
  | HLoad f h => read_handle h s (h_get f)
  | HStore f h v => on_handle h s (fun x => (tt, h_set f v x))
  | SlotLoad h i => slot_load h i s
  | SlotStore h i v => slot_store h i v s
  | CasHead h expected desired => on_handle h s (cas_field HHead expected desired)
  | CasTail h expected desired => on_handle h s (cas_field HTail expected desired)
  | CasHeadLocked h expected desired => on_handle h s (cas_field HHeadLocked expected desired)
  | ChLoad f c => read_chunk c s (ch_get f)
  | ChStore f c v => on_chunk c s (fun x => (tt, ch_set f v x))
  | ChFetchAdd c d => on_chunk c s (fun x =>
      (ref_count x, ch_set ChRef (u32 (ref_count x + d)) x))
  | StoreByte m off b => store_byte m off b s
  end.

(** ** The bytes of a file *)

Lemma put_bytes_lookup pos data m p :
  put_bytes pos data m !! p =
  if decide (pos <= p < pos + zlen data) then znth data (p - pos) else m !! p.
Proof.
  revert pos m. induction data as [| b data IH]; intros pos m.
  - simpl. rewrite zlen_nil. rewrite decide_False by lia. done.
  - simpl. rewrite IH, zlen_cons. unfold znth. pose proof (zlen_nonneg data).
    destruct (decide (p = pos)) as [-> | Hne].
    + rewrite decide_False, decide_True by lia. rewrite Z.sub_diag.
      by rewrite lookup_insert_eq.
    + rewrite lookup_insert_ne by done.
      destruct (decide (pos + 1 <= p < pos + 1 + zlen data)).
      * rewrite decide_True by lia.
        rewrite !(proj2 (Z.leb_le 0 _)) by lia.
        replace (Z.to_nat (p - pos)) with (S (Z.to_nat (p - (pos + 1)))) by lia. done.
      * by rewrite decide_False by lia.
Qed.

Lemma znth_is_Some {A} (l : list A) i : 0 <= i < zlen l -> is_Some (znth l i).
Proof.
  intros Hi. unfold znth, zlen in *. rewrite (proj2 (Z.leb_le 0 _)) by lia.
  apply lookup_lt_is_Some. lia.
Qed.

Lemma put_bytes_is_Some pos data m p : is_Some (put_bytes pos data m !! p) ->
  pos <= p < pos + zlen data \/ is_Some (m !! p).
Proof. rewrite put_bytes_lookup. case_decide; auto. Qed.

Lemma put_bytes_app pos d1 d2 m :
  put_bytes pos (d1 ++ d2) m = put_bytes (pos + zlen d1) d2 (put_bytes pos d1 m).
Proof.
  revert pos m. induction d1 as [| b d1 IH]; intros pos m; simpl.
  - by rewrite zlen_nil, Z.add_0_r.
  - rewrite IH, zlen_cons. f_equal. lia.
Qed.
