(* ===== verification/MmlogOpen.v ===== *)
(** * mmlog.h: creating and opening a log

    [files_create], [files_open], [files_open_or_create] and [mmlog_open], with the
    wait loop they share. A [goto] to the cleanup label is a call of the local
    cleanup program. The loops take [fuel], a bound on their iterations. *)
From stdpp Require Import base gmap sets list strings.
From Stdlib Require Import ZArith Lia.
From S2P Require Import Prelude Prog MmlogTypes MmlogOs.

Definition set_errno (e : mmlog_err_t) : mm unit := trigger (SetErrno e).

Definition ms_since_epoch_monotonic : mm Z :=
  ts <- trigger ClockGettime ;;
  match ts with
  | None => set_errno CLOCK_GETTIMEOFDAY ;; Ret (-1)
  | Some (sec, nsec) => Ret (sec * 1000 + nsec / 1000000)
  end.

(** One test of the loop condition, with the argument object [arg] threaded
    through the callback. *)
Definition hot_wait_step {S} (fun_ : S -> mm (bool * S)) (timeout_ms start_time : Z)
    (c : Z * S) : mm ((Z * S) + (bool * S)) :=
  let '(cur_time, arg) := c in
  if cur_time - start_time <? timeout_ms
  then r <- fun_ arg ;;
       let '(ok, arg) := r in
       if ok then Ret (inr (true, arg))
       else trigger SchedYield ;;
            cur_time <- ms_since_epoch_monotonic ;;
            Ret (inl (cur_time, arg))
  else Ret (inr (false, arg)).

Definition hot_wait_for_cond {S} (fuel : nat) (fun_ : S -> mm (bool * S)) (arg : S)
    (timeout_ms : Z) : mm (bool * S) :=
  start_time <- ms_since_epoch_monotonic ;;
  loop fuel (hot_wait_step fun_ timeout_ms start_time) (start_time, arg).

Definition files_create (fd_meta : Z) (filename : string) (chunk_size : Z) (handle : Z) :
    mm bool :=
  let files_create_cleanup (metadata fd_data : Z) : mm bool :=
    (if negb (metadata =? NULL) && negb (metadata =? MAP_FAILED)
     then trigger (Munmap metadata sizeof_log_metadata_t) ;; Ret tt
     else Ret tt) ;;
    (if negb (-1 =? fd_data) then trigger (Close fd_data) ;; Ret tt else Ret tt) ;;
    Ret false in
  set_errno OK ;;
  r <- trigger (Ftruncate fd_meta sizeof_log_metadata_t) ;;
  if -1 =? r then set_errno FILES_CREATE_FTRUNCATE_MDATA ;; files_create_cleanup NULL (-1)
  else
  metadata <- trigger (Mmap sizeof_log_metadata_t fd_meta 0) ;;
  if MAP_FAILED =? metadata
  then set_errno FILES_CREATE_MMAP_MDATA ;; files_create_cleanup metadata (-1)
  else
  trigger (MdStore MdVersion metadata MMLOG_VERSION) ;;
  trigger (MdStore MdPageSize metadata LOG_PAGE_SIZE) ;;
  trigger (MdStore MdChunkSize metadata chunk_size) ;;
  fd_data <- trigger (Open filename true false) ;;
  if -1 =? fd_data
  then set_errno FILES_CREATE_OPEN_DATA ;; files_create_cleanup metadata fd_data
  else
  r1 <- trigger (Ftruncate fd_data 0) ;;
  r2 <- (if -1 =? r1 then Ret (-1) else trigger (Ftruncate fd_data chunk_size)) ;;
  if (-1 =? r1) || (-1 =? r2)
  then set_errno FILES_CREATE_FTRUNCATE_DATA ;; files_create_cleanup metadata fd_data
  else
  trigger (HStore HMetadata handle metadata) ;;
  trigger (HStore HDataFd handle fd_data) ;;
  trigger (HStore HMetadataFd handle fd_meta) ;;
  trigger (MdStore MdFileSize metadata chunk_size) ;;
  trigger (MdStore MdReady metadata true) ;;
  Ret true.

(** The argument block; [fd] is the caller's variable, updated in place. *)
Record try_check_file_ready_args_t := TryArgs {
  try_fd : Z;
  try_filename : string;
  try_size : Z }.

Definition try_check_file_ready (m : try_check_file_ready_args_t) :
    mm (bool * try_check_file_ready_args_t) :=
  let check (m : try_check_file_ready_args_t) :=
    st_ <- trigger (Fstat (try_fd m)) ;;
    match st_ with
    | Some st_size =>
        if u64 st_size <? try_size m
        then set_errno TRY_CHECK_FILE_READY_FSTAT ;; Ret (false, m)
        else Ret (true, m)
    | None => set_errno TRY_CHECK_FILE_READY_FSTAT ;; Ret (false, m)
    end in
  if -1 =? try_fd m
  then fd <- trigger (Open (try_filename m) false false) ;;
       let m := TryArgs fd (try_filename m) (try_size m) in
       if -1 =? fd then set_errno TRY_CHECK_FILE_READY_OPEN ;; Ret (false, m) else check m
  else check m.

Definition try_check_metadata_ready (metadata : Z) : mm (bool * Z) :=
  b <- trigger (MdLoad MdReady metadata) ;; Ret (b, metadata).

Definition files_open (fuel : nat) (filename meta_filename : string) (handle : Z) : mm bool :=
  let files_open_cleanup (metadata fd_data fd_meta : Z) : mm bool :=
    (if negb (metadata =? NULL) && negb (MAP_FAILED =? metadata)
     then trigger (Munmap metadata sizeof_log_metadata_t) ;; Ret tt else Ret tt) ;;
    (if negb (-1 =? fd_data) then trigger (Close fd_data) ;; Ret tt else Ret tt) ;;
    (if negb (-1 =? fd_meta) then trigger (Close fd_meta) ;; Ret tt else Ret tt) ;;
    Ret false in
  (* the errno rewriting after a failed wait on a file *)
  let remap (on_open on_fstat : mmlog_err_t) : mm unit :=
    e <- trigger GetErrno ;;
    if decide (e = TRY_CHECK_FILE_READY_OPEN) then set_errno on_open
    else if decide (e = TRY_CHECK_FILE_READY_FSTAT) then set_errno on_fstat
    else Ret tt in
  set_errno OK ;;
  metadata0 <- trigger (HLoad HMetadata handle) ;;
  r <- hot_wait_for_cond fuel try_check_file_ready
         (TryArgs (-1) meta_filename sizeof_log_metadata_t) SLEEP_TIME_MAX_MS ;;
  let '(ok, fd_meta_args) := r in
  let fd_meta := try_fd fd_meta_args in
  if negb ok
  then remap FILES_OPEN_MDATA_READY_OPEN FILES_OPEN_MDATA_READY_FSTAT ;;
       files_open_cleanup metadata0 (-1) fd_meta
  else
  metadata <- trigger (Mmap sizeof_log_metadata_t fd_meta 0) ;;
  size <- trigger (MdLoad MdChunkSize metadata) ;;
  if MAP_FAILED =? metadata
  then set_errno FILES_OPEN_MDATA_MMAP ;; files_open_cleanup metadata (-1) fd_meta
  else
  r <- hot_wait_for_cond fuel try_check_metadata_ready metadata SLEEP_TIME_MAX_MS ;;
  let '(ok, _) := r in
  if negb ok
  then set_errno FILES_OPEN_MDATA_READY ;; files_open_cleanup metadata (-1) fd_meta
  else
  v <- trigger (MdLoad MdVersion metadata) ;;
  if negb (v =? MMLOG_VERSION)
  then set_errno FILES_OPEN_VERSION ;; files_open_cleanup metadata (-1) fd_meta
  else
  r <- hot_wait_for_cond fuel try_check_file_ready
         (TryArgs (-1) filename size) SLEEP_TIME_MAX_MS ;;
  let '(ok, fd_data_args) := r in
  let fd_data := try_fd fd_data_args in
  if negb ok
  then remap FILES_OPEN_DATA_READY_OPEN FILES_OPEN_DATA_READY_FSTAT ;;
       files_open_cleanup metadata fd_data fd_meta
  else
  trigger (HStore HMetadataFd handle fd_meta) ;;
  trigger (HStore HDataFd handle fd_data) ;;
  trigger (HStore HMetadata handle metadata) ;;
  Ret true.

Definition suffix : string := ".mmlog".

(** [filename = None] is a [NULL] pointer; [handle] is never [NULL] where the
    code calls this. *)
Definition files_open_or_create (fuel : nat) (filename : option string) (chunk_size : Z)
    (handle : Z) : mm bool :=
  let files_open_or_create_cleanup (meta_filename fd_meta : Z) : mm bool :=
    trigger (Free meta_filename) ;;
    (if negb (-1 =? fd_meta) then trigger (Close fd_meta) ;; Ret tt else Ret tt) ;;
    Ret false in
  set_errno OK ;;
  match filename with
  | None | Some EmptyString =>
      set_errno FILES_OPEN_OR_CREATE_EINVAL ;; Ret false
  | Some filename =>
  if (chunk_size =? 0) || negb (chunk_size mod LOG_PAGE_SIZE =? 0) || (handle =? NULL)
  then set_errno FILES_OPEN_OR_CREATE_EINVAL ;; Ret false
  else
  let meta_name := String.append filename suffix in
  let meta_filename_len := Z.of_nat (String.length filename + String.length suffix + 1) in
  meta_filename <- trigger (Malloc meta_filename_len) ;;
  if meta_filename =? NULL
  then set_errno FILES_OPEN_OR_CREATE_EINVAL ;; files_open_or_create_cleanup meta_filename (-1)
  else
  n <- trigger (Snprintf meta_name) ;;
  if n <? 0
  then set_errno FILES_OPEN_OR_CREATE_SNPRINTF ;;
       files_open_or_create_cleanup meta_filename (-1)
  else
  fd_meta <- trigger (Open meta_name true true) ;;
  ok <- (if -1 =? fd_meta then files_open fuel filename meta_name handle
         else files_create fd_meta filename chunk_size handle) ;;
  if negb ok then files_open_or_create_cleanup meta_filename fd_meta
  else Ret true
  end.

(** [chunk_size] is a [size_t] here and is converted to the [uint32_t] parameter
    of [files_open_or_create]. *)
Definition mmlog_open (fuel : nat) (filename : option string) (chunk_size chunk_count : Z) :
    mm Z :=
  set_errno OK ;;
  if negb (chunk_size mod LOG_PAGE_SIZE =? 0) || (chunk_size =? 0) || (chunk_count <? 2)
  then set_errno MMLOG_OPEN_EINVAL ;; Ret NULL
  else
  handle <- trigger CallocHandle ;;
  if handle =? NULL then set_errno MMLOG_OPEN_ENOMEM ;; Ret NULL
  else
  trigger (HStore HCapacity handle chunk_count) ;;
  slots <- trigger (CallocSlots chunk_count) ;;
  trigger (HStore HBuffer handle slots) ;;
  b <- trigger (HLoad HBuffer handle) ;;
  match b with
  | None => set_errno MMLOG_OPEN_ENOMEM ;; trigger (FreeHandle handle) ;; Ret NULL
  | Some _ =>
  for_range 0 (Z.to_nat chunk_count) (fun i => trigger (SlotStore handle i NULL)) ;;
  ok <- files_open_or_create fuel filename (u32 chunk_size) handle ;;
  if negb ok
  then trigger (FreeSlots handle) ;; trigger (FreeHandle handle) ;; Ret NULL
  else
  trigger (HStore HHead handle (Some 0)) ;;
  Ret handle
  end.
