(* ===== verification/MmlogRing.v ===== *)
(** * mmlog.h: the log's extent and the ring of mapped chunks

    [file_expand_inner] and [mmlog_checkout] reserve a range of the data file
    and grow it under the file lock; [clean_chunks], [add_new_chunk] and
    [mmlog_rb_checkout] manage the ring of mappings under the head lock. *)
From stdpp Require Import base gmap sets list strings.
From Stdlib Require Import ZArith Lia.
From S2P Require Import Prelude Prog MmlogTypes MmlogOs MmlogOpen.

(** ** Growing the data file *)

Record file_expand_args_t := ExpandArgs { expand_handle : Z; expand_end : Z }.

Definition file_expand_inner (args : file_expand_args_t) : mm (bool * file_expand_args_t) :=
  set_errno OK ;;
  let handle := expand_handle args in
  let end_ := expand_end args in
  metadata <- trigger (HLoad HMetadata handle) ;;
  got <- trigger (MdCasLocked metadata false true) ;;
  if (got : bool)
  then
    panicked <- trigger (MdLoad MdPanicked metadata) ;;
    if (panicked : bool)
    then set_errno FILE_EXPAND_INNER_PANICKED ;; Ret (false, args)
    else
    file_size <- trigger (MdLoad MdFileSize metadata) ;;
    if file_size <? end_
    then
      chunk_size <- trigger (MdLoad MdChunkSize metadata) ;;
      let new_size := ALIGN end_ chunk_size in
      data_fd <- trigger (HLoad HDataFd handle) ;;
      r <- trigger (Ftruncate data_fd new_size) ;;
      if -1 =? r
      then
        trigger (MdStore MdPanicked metadata true) ;;
        trigger (MdStore MdLocked metadata false) ;;
        set_errno FILE_EXPAND_INNER_GROW ;;
        Ret (true, args)
      else
        trigger (MdStore MdFileSize metadata new_size) ;;
        trigger (MdStore MdLocked metadata false) ;;
        Ret (true, args)
    else
      trigger (MdStore MdLocked metadata false) ;;
      Ret (true, args)
  else
    set_errno FILE_EXPAND_INNER_LOCKED ;;
    Ret (false, args).

Definition data_file_expand (fuel : nat) (handle end_ : Z) : mm bool :=
  set_errno OK ;;
  r <- hot_wait_for_cond fuel file_expand_inner (ExpandArgs handle end_) SLEEP_TIME_MAX_MS ;;
  if r.1
  then metadata <- trigger (HLoad HMetadata handle) ;;
       panicked <- trigger (MdLoad MdPanicked metadata) ;;
       Ret (negb panicked)
  else Ret false.

Definition mmlog_checkout (fuel : nat) (handle size : Z) : mm Z :=
  set_errno OK ;;
  metadata <- (if handle =? NULL then Ret NULL else trigger (HLoad HMetadata handle)) ;;
  if (handle =? NULL) || (metadata =? NULL)
  then set_errno MMLOG_CHECKOUT_EINVAL ;; Ret LOG_CURSOR_INVALID
  else
  start <- trigger (MdFetchAddCursor metadata size) ;;
  let end_ := u64 (start + size) in
  file_size <- trigger (MdLoad MdFileSize metadata) ;;
  if file_size <? end_
  then ok <- data_file_expand fuel handle end_ ;;
       if negb ok then Ret LOG_CURSOR_INVALID else Ret start
  else Ret start.

(** ** The ring of chunks

    [chunks] is the handle that owns the ring. *)

(** One pass of the loop of [clean_chunks]: [inr b] leaves the loop and
    returns [b]. *)
Definition clean_chunks_step (chunks : Z) : mm (unit + bool) :=
  tail_ptr <- trigger (HLoad HTail chunks) ;;
  head_ptr <- trigger (HLoad HHead chunks) ;;
  match tail_ptr with
  | None => Ret (inr true)
  | Some tail_index =>
    tail_chunk <- trigger (SlotLoad chunks tail_index) ;;
    if decide (tail_ptr = head_ptr) then Ret (inr true)
    else if (tail_chunk =? NULL) || (tail_chunk =? CHUNK_PENDING) then Ret (inr true)
    else
    untracked <- trigger (ChLoad ChUntracked tail_chunk) ;;
    busy <- (if (untracked : bool) then Ret false
             else n <- trigger (ChLoad ChRef tail_chunk) ;; Ret (0 <? n)) ;;
    if (busy : bool) then Ret (inr true)
    else
    capacity <- trigger (HLoad HCapacity chunks) ;;
    let next_index := (tail_index + 1) mod capacity in
    got <- trigger (CasTail chunks tail_ptr (Some next_index)) ;;
    if (got : bool)
    then mapping <- trigger (ChLoad ChMapping tail_chunk) ;;
         size <- trigger (ChLoad ChSize tail_chunk) ;;
         trigger (Munmap mapping size) ;;
         trigger (FreeChunk tail_chunk) ;;
         Ret (inl tt)
    else Ret (inl tt)
  end.

Definition clean_chunks (fuel : nat) (chunks : Z) : mm bool :=
  set_errno OK ;;
  b <- (if chunks =? NULL then Ret None else trigger (HLoad HBuffer chunks)) ;;
  match b with
  | None => set_errno CLEAN_CHUNKS_EINVAL ;; Ret false
  | Some _ => loop fuel (fun _ => clean_chunks_step chunks) tt
  end.

Definition create_chunk_at_cursor (handle cursor : Z) : mm Z :=
  set_errno OK ;;
  chunk <- trigger CallocChunk ;;
  if chunk =? NULL
  then set_errno CREATE_CHUNK_AT_CURSOR_ENOMEM ;; Ret NULL
  else
  metadata <- trigger (HLoad HMetadata handle) ;;
  chunk_size <- trigger (MdLoad MdChunkSize metadata) ;;
  trigger (ChStore ChStart chunk (chunk_start cursor chunk_size)) ;;
  trigger (ChStore ChSize chunk chunk_size) ;;
  data_fd <- trigger (HLoad HDataFd handle) ;;
  size <- trigger (ChLoad ChSize chunk) ;;
  start_offset <- trigger (ChLoad ChStart chunk) ;;
  mapping <- trigger (Mmap size data_fd start_offset) ;;
  trigger (ChStore ChMapping chunk mapping) ;;
  if MAP_FAILED =? mapping
  then set_errno CREATE_CHUNK_AT_CURSOR_MMAP ;;
       trigger (FreeChunk chunk) ;;
       Ret NULL
  else
  trigger (ChStore ChRef chunk 1) ;;
  Ret chunk.

Definition is_cursor_in_chunk (chunk cursor : Z) : mm bool :=
  if (chunk =? NULL) || (chunk =? CHUNK_PENDING) then Ret false
  else
  start_offset <- trigger (ChLoad ChStart chunk) ;;
  size <- trigger (ChLoad ChSize chunk) ;;
  Ret (cursor_in_range start_offset size cursor).

Definition lock_head_inner (chunks : Z) : mm (bool * Z) :=
  got <- trigger (CasHeadLocked chunks false true) ;; Ret (got, chunks).

Definition lock_head (fuel : nat) (chunks : Z) : mm bool :=
  r <- hot_wait_for_cond fuel lock_head_inner chunks SLEEP_TIME_MAX_MS ;; Ret r.1.

Definition unlock_head (chunks : Z) : mm unit :=
  trigger (HStore HHeadLocked chunks false).

(** The slot after [head_ptr], as an index. *)
Definition get_next_head_ptr (chunks head_ptr : Z) : mm Z :=
  capacity <- trigger (HLoad HCapacity chunks) ;;
  Ret ((head_ptr + 1) mod capacity).

(** What follows the check for a full ring in [add_new_chunk]. *)
Definition publish_chunk (handle chunks : Z) (head_ptr : option Z) (next_head_ptr cursor : Z) :
    mm Z :=
  new_chunk <- create_chunk_at_cursor handle cursor ;;
  if new_chunk =? NULL
  then trigger (SlotStore chunks next_head_ptr NULL) ;; Ret NULL
  else
  trigger (SlotStore chunks next_head_ptr new_chunk) ;;
  trigger (CasHead chunks head_ptr (Some next_head_ptr)) ;;
  Ret new_chunk.

Definition add_new_chunk (fuel : nat) (handle chunks : Z) (head_ptr tail_ptr : option Z)
    (cursor : Z) : mm Z :=
  set_errno OK ;;
  match head_ptr with
  | None => set_errno ADD_NEW_CHUNK_EINVALID ;; Ret NULL
  | Some head_index =>
    next <- get_next_head_ptr chunks head_index ;;
    capacity <- trigger (HLoad HCapacity chunks) ;;
    let next_head_ptr := if capacity <=? next then 0 else next in
    if decide (Some next_head_ptr = tail_ptr)
    then
      clean_chunks fuel handle ;;
      head_ptr <- trigger (HLoad HHead chunks) ;;
      tail_ptr <- trigger (HLoad HTail chunks) ;;
      match head_ptr with
      | None => Halt Undefined          (* arithmetic on a null pointer *)
      | Some head_index =>
        next_head_ptr <- get_next_head_ptr chunks head_index ;;
        if decide (Some next_head_ptr = tail_ptr)
        then set_errno ADD_NEW_CHUNK_EWAIT ;; Ret NULL
        else publish_chunk handle chunks head_ptr next_head_ptr cursor
      end
    else publish_chunk handle chunks head_ptr next_head_ptr cursor
  end.

(** The part of [mmlog_rb_checkout] that runs with the head locked. *)
Definition rb_checkout_locked (fuel : nat) (handle cursor : Z) : mm Z :=
  head_ptr0 <- trigger (HLoad HHead handle) ;;
  tail_ptr <- trigger (HLoad HTail handle) ;;
  let head_index := match head_ptr0 with Some i => i | None => 0 end in
  head_chunk <- trigger (SlotLoad handle head_index) ;;
  hit <- (if head_chunk =? NULL then Ret false else is_cursor_in_chunk head_chunk cursor) ;;
  if (hit : bool)
  then
    trigger (ChFetchAdd head_chunk 1) ;;
    unlock_head handle ;;
    Ret head_chunk
  else
  new_chunk <- add_new_chunk fuel handle handle (Some head_index) tail_ptr cursor ;;
  if new_chunk =? NULL
  then unlock_head handle ;; Ret NULL
  else
  unlock_head handle ;;
  trigger (ChFetchAdd new_chunk 1) ;;
  Ret new_chunk.

Definition mmlog_rb_checkout (fuel : nat) (handle cursor : Z) : mm Z :=
  set_errno OK ;;
  b <- (if handle =? NULL then Ret None else trigger (HLoad HBuffer handle)) ;;
  match b with
  | None => set_errno MMLOG_RB_CHECKOUT_EINVAL ;; Ret NULL
  | Some _ =>
    ok <- lock_head fuel handle ;;
    if negb ok
    then set_errno MMLOG_RB_CHECKOUT_NOLOCK ;; Ret NULL
    else rb_checkout_locked fuel handle cursor
  end.
