(* ===== verification/MmlogInsert.v ===== *)
(** * mmlog.h: writing and trimming

    [write_to_chunk], [mmlog_insert] and [mmlog_trim]. *)
From stdpp Require Import base gmap sets list strings.
From Stdlib Require Import ZArith Lia.
From S2P Require Import Prelude Prog MmlogTypes MmlogOs MmlogOpen MmlogRing.

(** [memcpy] into a mapping, one byte at a time. *)
Fixpoint memcpy_to_map (m off : Z) (data : list Z) : mm unit :=
  match data with
  | [] => Ret tt
  | b :: data' => trigger (StoreByte m off b) ;; memcpy_to_map m (off + 1) data'
  end.

Definition write_to_chunk (fuel : nat) (handle cursor : Z) (data : list Z) : mm bool :=
  set_errno OK ;;
  chunk <- mmlog_rb_checkout fuel handle cursor ;;
  if chunk =? NULL
  then set_errno WRITE_TO_CHUNK_ECHUNK ;; Ret false
  else
  start_offset <- trigger (ChLoad ChStart chunk) ;;
  let chunk_offset := u64 (cursor - start_offset) in
  mapping <- trigger (ChLoad ChMapping chunk) ;;
  memcpy_to_map mapping chunk_offset data ;;
  trigger (ChFetchAdd chunk (-1)) ;;
  Ret true.

(** One pass of the write loop of [mmlog_insert]: [c] is
    [(current_cursor, bytes_written)]; [inr b] returns [b] from the loop. *)
Definition insert_step (fuel : nat) (handle metadata : Z) (data : list Z) (c : Z * Z) :
    mm ((Z * Z) + bool) :=
  let '(current_cursor, bytes_written) := c in
  let size := zlen data in
  if bytes_written <? size
  then
    chunk_size <- trigger (MdLoad MdChunkSize metadata) ;;
    let chunk_end := u64 ((current_cursor / chunk_size + 1) * chunk_size) in
    let remaining := size - bytes_written in
    let bytes_to_write :=
      if chunk_end <? u64 (current_cursor + remaining)
      then u64 (chunk_end - current_cursor) else remaining in
    ok <- write_to_chunk fuel handle current_cursor
            (take (Z.to_nat bytes_to_write) (drop (Z.to_nat bytes_written) data)) ;;
    if negb ok then Ret (inr false)
    else Ret (inl (u64 (current_cursor + bytes_to_write), u64 (bytes_written + bytes_to_write)))
  else Ret (inr true).

(** [data = None] is a [NULL] pointer; [size] is the length of [data]. *)
Definition mmlog_insert (fuel : nat) (handle : Z) (data : option (list Z)) : mm bool :=
  set_errno OK ;;
  match data with
  | None | Some [] => set_errno MMLOG_INSERT_EINVAL ;; Ret false
  | Some data =>
  let size := zlen data in
  if handle =? NULL then set_errno MMLOG_INSERT_EINVAL ;; Ret false
  else
  metadata <- trigger (HLoad HMetadata handle) ;;
  cursor <- mmlog_checkout fuel handle size ;;
  if LOG_CURSOR_INVALID =? cursor then Ret false
  else
  chunk_size <- trigger (MdLoad MdChunkSize metadata) ;;
  let crossings := mmlog_cross_count cursor size chunk_size in
  if (1 <? crossings) || ((size =? chunk_size) && (cursor mod chunk_size =? 0))
  then
    data_fd <- trigger (HLoad HDataFd handle) ;;
    n <- trigger (Pwrite data_fd data cursor) ;;
    if negb (size =? u64 n)
    then set_errno MMLOG_INSERT_PWRITE ;; Ret false
    else Ret true
  else
  ok <- loop fuel (insert_step fuel handle metadata data) (cursor, 0) ;;
  if negb ok then Ret false
  else
  clean_chunks fuel handle ;;
  Ret true
  end.

Definition mmlog_trim (handle : Z) : mm unit :=
  set_errno OK ;;
  metadata <- (if handle =? NULL then Ret NULL else trigger (HLoad HMetadata handle)) ;;
  if (handle =? NULL) || (metadata =? NULL)
  then set_errno MMLOG_TRIM_EINVAL
  else
  cursor <- trigger (MdLoad MdCursor metadata) ;;
  data_fd <- trigger (HLoad HDataFd handle) ;;
  r <- trigger (Ftruncate data_fd cursor) ;;
  if -1 =? r then set_errno MMLOG_TRIM_FTRUNCATE else Ret tt.

(** The message of the thread's [mmlog_errno]. *)
Definition mmlog_strerror_cur : mm (option string) :=
  e <- trigger GetErrno ;; Ret (mmlog_strerror (err_code e)).
