(* ===== verification/MmlogInv.v ===== *)
(** * mmlog.h: the invariant of a shared log

    The auxiliary state, the invariant and the rely of threads that insert
    into one log through any number of handles. The state splits in two halves
    that no operation changes together: the [core] (metadata, data file, file
    lock, claimed ranges) and the heap (handles, chunks, mappings). *)
From stdpp Require Import base gmap sets list strings relations.
From Stdlib Require Import ZArith Lia.
From S2P Require Import Prelude Prog Conc MmlogTypes MmlogOs.

(** ** Auxiliary state *)

(** Who holds the file lock, the ranges handed out by the cursor (thread, start,
    length; oldest first), how many bytes each thread may still claim, and which thread
    allocated a chunk. *)
Record ghost := MkG {
  g_lock : option nat;
  g_claims : list (nat * Z * Z);
  g_budget : list Z;
  g_owner : gmap Z nat }.

Definition md_unlocks {T} (f : md_field T) (v : T) : bool :=
  match f in md_field T return T -> bool with
  | MdLocked => negb
  | _ => fun _ => false
  end v.

Definition spend (i : nat) (n : Z) (budget : list Z) : list Z :=
  match budget !! i with
  | Some b => <[i := b - n]> budget
  | None => budget
  end.

Definition g_upd (R : Type) (i : nat) (e : mmE R) : R -> ghost -> ghost :=
  match e in mmE R return R -> ghost -> ghost with
  | MdCasLocked _ _ desired => fun r g =>
      if r then MkG (if desired then Some i else None) (g_claims g) (g_budget g) (g_owner g)
      else g
  | MdStore f _ v => fun _ g =>
      if md_unlocks f v then MkG None (g_claims g) (g_budget g) (g_owner g) else g
  | MdFetchAddCursor _ n => fun r g =>
      MkG (g_lock g) (g_claims g ++ [(i, r, n)]) (spend i n (g_budget g)) (g_owner g)
  | CallocChunk => fun r g =>
      if r =? NULL then g
      else MkG (g_lock g) (g_claims g) (g_budget g) (<[r := i]> (g_owner g))
  | _ => fun _ g => g
  end.

Definition gw : Type := world * ghost.

(** The descriptor, mapping or handle that an operation takes is there. *)
Definition names_live {R} (e : mmE R) (w : world) : bool :=
  match e with
  | Close fd | Ftruncate fd _ | Fstat fd | Mmap _ fd _ | Pwrite fd _ _ =>
      bool_decide (is_Some (w_fds w !! fd))
  | Munmap a _ => bool_decide (is_Some (w_maps w !! a))
  | FreeHandle h => bool_decide (is_Some (w_handles w !! h))
  | _ => true
  end.

(** [mm_h], except that an operation on a dead name stops: what is proved safe under it never
    touches a name that somebody else may give up. *)
Definition strict : handler mmE st := fun R e =>
  match e in mmE R return st -> outcome st R with
  | (Close _ | Ftruncate _ _ | Fstat _ | Mmap _ _ _ | Pwrite _ _ _ | Munmap _ _ | FreeHandle _) as e =>
      fun s => if names_live e s.2 then mm_h _ e s else Stopped Undefined s
  | e => mm_h _ e
  end.

Lemma strict_eq R (e : mmE R) s :
  strict R e s = if names_live e s.2 then mm_h R e s else Stopped Undefined s.
Proof. by destruct e. Qed.

Definition ih : nat -> handler mmE (mmlog_err_t * gw) := instr strict g_upd.

(** The operations themselves, with the auxiliary state. *)
Definition rh : nat -> handler mmE (mmlog_err_t * gw) := instr mm_h g_upd.

Lemma ih_rh i R (e : mmE R) s r s' : ih i R e s = Done r s' -> rh i R e s = Done r s'.
Proof.
  destruct s as [l [w g]]. unfold ih, rh, instr. rewrite strict_eq. cbn [snd].
  by destruct (names_live e w).
Qed.

(** ** Claimed ranges *)

(** The ranges follow one another from [a] to [b]. *)
Fixpoint tiles (a : Z) (cs : list (nat * Z * Z)) (b : Z) : Prop :=
  match cs with
  | [] => a = b
  | (_, s, n) :: cs' => s = a /\ 0 <= n /\ tiles (a + n) cs' b
  end.

Lemma tiles_snoc a cs b i n : tiles a cs b -> 0 <= n -> tiles a (cs ++ [(i, b, n)]) (b + n).
Proof.
  revert a. induction cs as [| [[j s] m] cs IH]; simpl; intros a Ht Hn; [by subst |].
  destruct Ht as (-> & Hm & Ht). auto.
Qed.

Lemma tiles_le a cs b : tiles a cs b -> a <= b.
Proof.
  revert a. induction cs as [| [[j s] m] cs IH]; simpl; intros a Ht; [lia |].
  destruct Ht as (-> & Hm & Ht). apply IH in Ht. lia.
Qed.

Lemma tiles_in a cs b i s n : tiles a cs b -> (i, s, n) ∈ cs -> a <= s /\ 0 <= n /\ s + n <= b.
Proof.
  revert a. induction cs as [| [[j s'] m] cs IH]; simpl; intros a Ht Hin.
  - by apply not_elem_of_nil in Hin.
  - destruct Ht as (-> & Hm & Ht). pose proof (tiles_le _ _ _ Ht).
    apply elem_of_cons in Hin as [[=] | Hin]; [subst; lia |].
    apply (IH _ Ht) in Hin. lia.
Qed.

(** [p] lies in a range claimed by thread [i]. *)
Definition owns (i : nat) (cs : list (nat * Z * Z)) (p : Z) : Prop :=
  exists s n, (i, s, n) ∈ cs /\ s <= p < s + n.

Lemma tiles_owner a cs b i j p : tiles a cs b -> owns i cs p -> owns j cs p -> i = j.
Proof.
  revert a. induction cs as [| [[k s] m] cs IH]; simpl; intros a Ht Ho1 Ho2;
    destruct Ho1 as (s1 & n1 & H1 & Hp1), Ho2 as (s2 & n2 & H2 & Hp2);
    [by apply not_elem_of_nil in H1 |].
  destruct Ht as (-> & Hm & Ht).
  apply elem_of_cons in H1 as [[=] | H1]; apply elem_of_cons in H2 as [[=] | H2]; subst.
  - done.
  - apply (tiles_in _ _ _ _ _ _ Ht) in H2. lia.
  - apply (tiles_in _ _ _ _ _ _ Ht) in H1. lia.
  - eapply IH; [done | by exists s1, n1 | by exists s2, n2].
Qed.

Lemma owns_range a cs b i p : tiles a cs b -> owns i cs p -> a <= p < b.
Proof. intros Ht (s & n & Hin & Hp). apply (tiles_in _ _ _ _ _ _ Ht) in Hin. lia. Qed.

Lemma owns_app i cs cs' p : owns i cs p -> owns i (cs ++ cs') p.
Proof. intros (s & n & Hin & Hp). exists s, n. split; [apply elem_of_app; by left | done]. Qed.

Lemma owns_snoc i cs j s n p : owns i (cs ++ [(j, s, n)]) p ->
  owns i cs p \/ (i = j /\ s <= p < s + n).
Proof.
  intros (s' & n' & Hin & Hp). apply elem_of_app in Hin as [Hin | Hin].
  - left. by exists s', n'.
  - right. apply list_elem_of_singleton in Hin as [= -> -> ->]. done.
Qed.

Definition my_claims (i : nat) (cs : list (nat * Z * Z)) : list (nat * Z * Z) :=
  filter (fun c => c.1.1 = i) cs.

Lemma my_claims_snoc i cs j s n :
  my_claims i (cs ++ [(j, s, n)]) =
  if decide (j = i) then my_claims i cs ++ [(j, s, n)] else my_claims i cs.
Proof.
  unfold my_claims. rewrite filter_app, filter_cons. simpl.
  case_decide; by rewrite ?filter_nil, ?app_nil_r.
Qed.

Lemma my_claims_in i cs s n : (i, s, n) ∈ my_claims i cs -> (i, s, n) ∈ cs.
Proof. unfold my_claims. rewrite list_elem_of_filter. by intros [_ ?]. Qed.

(** ** The core *)

Record core := MkCore {
  c_md : log_metadata_t;
  c_size : Z;
  c_bytes : gmap Z Z;
  c_lock : option nat;
  c_claims : list (nat * Z * Z);
  c_budget : list Z }.

Section Log.
(** The two inodes, the size of a chunk, the cursor before the threads start. *)
Context (MI DI CS C0 : Z) (HCS : 0 < CS < 2 ^ 32).

(** The last offset the cursor may reach: [ALIGN] is exact up to there. *)
Definition LIMIT : Z := 2 ^ 32 - CS.

Record core_inv (c : core) : Prop := {
  ci_chunk : chunk_size (c_md c) = CS;
  ci_cursor : 0 <= cursor (c_md c) /\ cursor (c_md c) + zsum (c_budget c) <= LIMIT;
  ci_budget : Forall (fun b => 0 <= b) (c_budget c);
  ci_tiles : tiles C0 (c_claims c) (cursor (c_md c));
  ci_owner : forall j s n, (j, s, n) ∈ c_claims c -> (j < length (c_budget c))%nat;
  ci_size : 0 <= file_size (c_md c) <= c_size c /\ file_size (c_md c) <= 2 ^ 32;
  ci_free : c_lock c = None -> c_size c = file_size (c_md c);
  ci_locked : c_lock c <> None -> is_locked (c_md c) = true;
  ci_bytes : forall p, is_Some (c_bytes c !! p) -> p < c_size c }.

Record core_rely (i : nat) (c c' : core) : Prop := {
  cr_size : file_size (c_md c) <= file_size (c_md c');
  cr_lock : c_lock c = Some i <-> c_lock c' = Some i;
  cr_held : c_lock c = Some i ->
    file_size (c_md c') = file_size (c_md c) /\ c_size c' = c_size c;
  cr_budget : c_budget c' !! i = c_budget c !! i;
  cr_mine : my_claims i (c_claims c') = my_claims i (c_claims c);
  cr_claims : exists ext, c_claims c' = c_claims c ++ ext;
  cr_bytes : forall p, owns i (c_claims c) p -> c_bytes c' !! p = c_bytes c !! p;
  cr_unowned : forall p, (forall j, ~ owns j (c_claims c') p) -> c_bytes c' !! p = c_bytes c !! p;
  cr_panicked : is_panicked (c_md c) = true -> is_panicked (c_md c') = true }.

#[export] Instance core_rely_pre i : PreOrder (core_rely i).
Proof.
  split.
  - intros c. split; try done. exists []. by rewrite app_nil_r.
  - intros c1 c2 c3 [] []. split; try (by etrans); try lia.
    + intros H. destruct (cr_held0 H), (cr_held1 (proj1 cr_lock0 H)). split; congruence.
    + destruct cr_claims0 as [e1 He1], cr_claims1 as [e2 He2].
      exists (e1 ++ e2). by rewrite He2, He1, app_assoc.
    + intros p Hp. rewrite cr_bytes1, cr_bytes0; [done | done |].
      destruct cr_claims0 as [e1 ->]. by apply owns_app.
    + intros p Hp. rewrite cr_unowned1, cr_unowned0; [done | | done].
      intros j Ho. destruct cr_claims1 as [e2 He2]. apply (Hp j). rewrite He2. by apply owns_app.
    + auto.
Qed.

(** What thread [i] knows of its own part of the core: its budget, its claims, and
    the bytes [m] it has written. *)
Definition Me (i : nat) (b : Z) (cl : list (nat * Z * Z)) (m : gmap Z Z) (c : core) : Prop :=
  c_budget c !! i = Some b /\ my_claims i (c_claims c) = cl /\
  forall p v, m !! p = Some v -> owns i (c_claims c) p /\ c_bytes c !! p = Some v.

(** Thread [i] holds the file lock and the file has [fs] bytes. *)
Definition Lk (i : nat) (fs : Z) (c : core) : Prop :=
  c_lock c = Some i /\ file_size (c_md c) = fs /\ c_size c = fs.

Definition FsGe (e : Z) (c : core) : Prop := e <= file_size (c_md c).

Lemma Me_stable i b cl m c c' : core_rely i c c' -> Me i b cl m c -> Me i b cl m c'.
Proof.
  intros Hr (Hb & Hcl & Hm). destruct Hr. repeat split; [congruence | congruence | |];
    destruct (Hm _ _ H) as [Ho Hv].
  - destruct cr_claims0 as [e ->]. by apply owns_app.
  - by rewrite cr_bytes0.
Qed.

Lemma Lk_stable i fs c c' : core_rely i c c' -> Lk i fs c -> Lk i fs c'.
Proof.
  intros Hr (Hl & Hf & Hs). destruct Hr. destruct (cr_held0 Hl).
  split; [by apply cr_lock0 |]. split; congruence.
Qed.

Lemma FsGe_stable i e c c' : core_rely i c c' -> FsGe e c -> FsGe e c'.
Proof. intros Hr. destruct Hr. unfold FsGe. lia. Qed.

(** *** Updates of the core by one thread *)

Definition with_md (f : log_metadata_t -> log_metadata_t) (c : core) : core :=
  MkCore (f (c_md c)) (c_size c) (c_bytes c) (c_lock c) (c_claims c) (c_budget c).
Definition with_lock (l : option nat) (c : core) : core :=
  MkCore (c_md c) (c_size c) (c_bytes c) l (c_claims c) (c_budget c).

(** What a step of [i] on the core owes to the others, and what it keeps for [i]. *)
Definition core_guar (i : nat) (c c' : core) : Prop := forall j, j <> i -> core_rely j c c'.
Definition core_keep (i : nat) (c c' : core) : Prop :=
  (forall b cl m, Me i b cl m c -> Me i b cl m c') /\ (forall e, FsGe e c -> FsGe e c') /\
  (is_panicked (c_md c) = true -> is_panicked (c_md c') = true).

(** Routine fields of an invariant, a rely or a frame after a small update. *)
Ltac core_auto :=
  unfold Me, Lk, FsGe, with_md, with_lock in *; simpl in *; intros;
  first [ done | lia | congruence | tauto
        | (exists []; by rewrite app_nil_r)
        | solve [split; intros; congruence]
        | match goal with
          | Hb : forall p, is_Some _ -> p < _, Hp : is_Some _ |- _ =>
              specialize (Hb _ Hp); lia
          end
        | naive_solver ].
Ltac core_split :=
  match goal with
  | |- core_inv _ /\ _ => split; [split; core_auto | core_split]
  | |- core_guar _ _ _ /\ _ => split; [intros ? ?; split; core_auto | core_split]
  | |- core_keep _ _ _ /\ _ => split; [split; [| split]; core_auto | core_split]
  | |- core_keep _ _ _ => split; [| split]; core_auto
  | |- _ => core_auto
  end.

Lemma core_lock i c : core_inv c -> is_locked (c_md c) = false ->
  let c' := with_lock (Some i) (with_md (md_set MdLocked true) c) in
  core_inv c' /\ core_guar i c c' /\ core_keep i c c' /\ Lk i (file_size (c_md c)) c'.
Proof.
  intros [] Hl c'. assert (c_lock c = None) as Hn.
  { destruct (c_lock c) eqn:E; [| done]. rewrite ci_locked0 in Hl; done. }
  subst c'. core_split.
Qed.

(** Storing the panic flag changes nothing the invariant mentions. *)
Lemma core_panic i c : core_inv c ->
  let c' := with_md (md_set MdPanicked true) c in
  core_inv c' /\ core_guar i c c' /\ core_keep i c c' /\
  (is_panicked (c_md c') = true /\ forall fs, Lk i fs c -> Lk i fs c').
Proof. intros [] c'. subst c'. core_split. Qed.

Lemma core_unlock i fs c : core_inv c -> Lk i fs c ->
  let c' := with_lock None (with_md (md_set MdLocked false) c) in
  core_inv c' /\ core_guar i c c' /\ core_keep i c c'.
Proof. intros [] (Hl & Hf & Hs) c'. subst c'. core_split. Qed.

(** Growing the file, first on disk and then in the metadata. *)
Lemma core_grow i fs n c : core_inv c -> Lk i fs c -> fs <= n ->
  let c' := MkCore (c_md c) n (filter (fun kv => kv.1 < n) (c_bytes c)) (c_lock c)
              (c_claims c) (c_budget c) in
  core_inv c' /\ core_guar i c c' /\ core_keep i c c' /\
  (c_lock c' = Some i /\ file_size (c_md c') = fs /\ c_size c' = n).
Proof.
  intros [] (Hl & Hf & Hs) Hn c'.
  assert (filter (fun kv => kv.1 < n) (c_bytes c) = c_bytes c) as Hb.
  { apply map_filter_id. intros p v Hp. simpl.
    specialize (ci_bytes0 p (mk_is_Some _ _ Hp)). lia. }
  subst c'. rewrite Hb. core_split.
Qed.

Lemma core_set_size i fs n c : core_inv c ->
  c_lock c = Some i -> file_size (c_md c) = fs -> c_size c = n -> fs <= n <= 2 ^ 32 ->
  let c' := with_md (md_set MdFileSize n) c in
  core_inv c' /\ core_guar i c c' /\ core_keep i c c' /\ Lk i n c'.
Proof.
  intros [] Hl Hf Hs Hn c'. subst c'. core_split.
Qed.

Lemma zsum_spend i n b (l : list Z) : l !! i = Some b -> zsum (spend i n l) = zsum l - n.
Proof. intros Hb. unfold spend. rewrite Hb, (zsum_insert _ _ b) by done. lia. Qed.

Lemma zsum_lookup_le (l : list Z) i b :
  Forall (fun b => 0 <= b) l -> l !! i = Some b -> b <= zsum l.
Proof.
  intros Hl. revert i. induction Hl as [| x l Hx Hl IH]; intros [| i] Hi; simplify_eq/=.
  - pose proof (zsum_nonneg _ Hl). lia.
  - specialize (IH _ Hi). lia.
Qed.

Lemma spend_lookup_ne i j n (l : list Z) : j <> i -> spend i n l !! j = l !! j.
Proof. intros Hne. unfold spend. case_match; [by rewrite list_lookup_insert_ne | done]. Qed.

Lemma spend_length i n (l : list Z) : length (spend i n l) = length l.
Proof. unfold spend. case_match; [apply length_insert | done]. Qed.

(** The cursor's fetch-and-add hands out the next range. *)
Lemma core_claim i b n c : core_inv c -> c_budget c !! i = Some b -> 0 <= n <= b ->
  let c' := MkCore (md_set MdCursor (u64 (cursor (c_md c) + n)) (c_md c)) (c_size c)
              (c_bytes c) (c_lock c) (c_claims c ++ [(i, cursor (c_md c), n)])
              (spend i n (c_budget c)) in
  core_inv c' /\ core_guar i c c' /\ cursor (c_md c) + n <= LIMIT /\ 0 <= cursor (c_md c) /\
  (forall cl m, Me i b cl m c -> Me i (b - n) (cl ++ [(i, cursor (c_md c), n)]) m c').
Proof.
  intros [] Hb Hn c'. pose proof (zsum_lookup_le _ _ _ ci_budget0 Hb) as Hle.
  unfold LIMIT in *. destruct ci_cursor0 as [Hc0 Hc1].
  assert (zsum (c_budget c) <= 2 ^ 32 - CS - cursor (c_md c)) as Hz by lia.
  split; [| split; [| split; [lia | split; [done |]]]].
  - subst c'. split; simpl; try done.
    + rewrite wrap_small, (zsum_spend _ _ _ _ Hb) by lia. unfold LIMIT. lia.
    + unfold spend. rewrite Hb. apply Forall_insert; [done | lia].
    + rewrite wrap_small by lia. apply tiles_snoc; [done | lia].
    + intros j s m Hin. rewrite spend_length. apply elem_of_app in Hin as [Hin | Hin]; [eauto |].
      apply list_elem_of_singleton in Hin as [= -> -> ->]. by eapply lookup_lt_Some.
  - intros j Hj. subst c'. split; simpl; try done; try lia.
    + by apply spend_lookup_ne.
    + rewrite my_claims_snoc. by case_decide.
    + by eexists.
  - intros cl m (_ & Hcl & Hm). subst c'. repeat split; simpl.
    + unfold spend. rewrite Hb. apply list_lookup_insert_eq. by eapply lookup_lt_Some.
    + rewrite my_claims_snoc, decide_True by done. by rewrite Hcl.
    + apply owns_app. by eapply Hm.
    + by eapply Hm.
Qed.

(** Writing bytes the thread has claimed. *)
Lemma core_write i pos data c : core_inv c ->
  (forall p, pos <= p < pos + zlen data -> owns i (c_claims c) p) ->
  pos + zlen data <= c_size c ->
  let c' := MkCore (c_md c) (c_size c) (put_bytes pos data (c_bytes c)) (c_lock c)
              (c_claims c) (c_budget c) in
  core_inv c' /\ core_guar i c c' /\
  (forall b cl m, Me i b cl m c -> Me i b cl (put_bytes pos data m) c').
Proof.
  intros [] Hown Hsz c'. subst c'. split; [| split].
  - split; simpl; try done. intros p Hp.
    apply put_bytes_is_Some in Hp as [Hp | Hp]; [lia | auto].
  - intros j Hj. split; simpl; try done; try (exists []; by rewrite app_nil_r).
    + intros p Hp. rewrite put_bytes_lookup. case_decide as Hin; [| done].
      destruct Hj. by eapply tiles_owner; [| | apply Hown].
    + intros p Hp. rewrite put_bytes_lookup. case_decide as Hin; [| done].
      destruct (Hp i). by apply Hown.
  - intros b cl m (Hb & Hcl & Hm). repeat split; simpl; try done.
    all: rewrite put_bytes_lookup in H; case_decide as Hin.
    + by apply Hown.
    + by eapply Hm.
    + by rewrite put_bytes_lookup, decide_True.
    + rewrite put_bytes_lookup, decide_False by done. by eapply Hm.
Qed.

(** ** The heap *)

(** Chunk [c] maps [CS] bytes of the data file from offset [s] at address [m]. *)
Definition Ck (c s m : Z) (w : world) : Prop :=
  exists k, w_chunks w !! c = Some k /\ start_offset k = s /\ mapping k = m /\ size k = CS /\
    w_maps w !! m = Some (MkMapping DI s CS) /\ s mod CS = 0 /\ 0 <= s <= 2 ^ 32.

Definition published (c : Z) (w : world) : Prop := exists s m, Ck c s m w.

Record handle_ok (w : world) (x : log_handle_t) : Prop := {
  ho_meta : exists mp, w_maps w !! metadata x = Some mp /\ m_ino mp = MI;
  ho_fd : w_fds w !! data_fd x = Some DI;
  ho_tail : tail (chunks x) = None;
  ho_head : forall k, head (chunks x) = Some k -> 0 <= k < capacity (chunks x);
  ho_cap : 0 < capacity (chunks x);
  ho_slots : exists b, buffer (chunks x) = Some b /\ zlen b = capacity (chunks x) /\
    Forall (fun v => v = NULL \/ published v w) b }.

Record heap_inv (wg : gw) : Prop := {
  hi_next : 2 <= w_next wg.1;
  hi_maps : forall m, is_Some (w_maps wg.1 !! m) -> 2 <= m < w_next wg.1;
  hi_chunks : forall c, is_Some (w_chunks wg.1 !! c) -> 2 <= c < w_next wg.1;
  hi_owner : forall c, is_Some (g_owner wg.2 !! c) -> c < w_next wg.1;
  hi_handles : forall h x, w_handles wg.1 !! h = Some x -> h <> NULL /\ handle_ok wg.1 x }.

Definition same_chunk (k k' : chunk_info_t) : Prop :=
  start_offset k' = start_offset k /\ size k' = size k /\ mapping k' = mapping k.

Definition same_handle (x x' : log_handle_t) : Prop :=
  metadata x' = metadata x /\ data_fd x' = data_fd x /\
  capacity (chunks x') = capacity (chunks x).

Record heap_rely (i : nat) (wg wg' : gw) : Prop := {
  hr_maps : forall m x, w_maps wg.1 !! m = Some x -> w_maps wg'.1 !! m = Some x;
  hr_fds : forall fd x, w_fds wg.1 !! fd = Some x -> w_fds wg'.1 !! fd = Some x;
  hr_handles : forall h x, w_handles wg.1 !! h = Some x ->
    exists x', w_handles wg'.1 !! h = Some x' /\ same_handle x x';
  hr_chunks : forall c k, w_chunks wg.1 !! c = Some k ->
    g_owner wg.2 !! c = Some i \/ published c wg.1 ->
    exists k', w_chunks wg'.1 !! c = Some k' /\ same_chunk k k';
  hr_owner : forall c, g_owner wg.2 !! c = Some i -> g_owner wg'.2 !! c = Some i;
  hr_clock : w_clock wg'.1 = w_clock wg.1;
  hr_reads : (w_reads wg.1 <= w_reads wg'.1)%nat }.

Lemma Ck_stable i c s m wg wg' : heap_rely i wg wg' -> Ck c s m wg.1 -> Ck c s m wg'.1.
Proof.
  intros [] (k & Hk & Hs & Hm & Hz & Hmp & Ha). subst.
  destruct (hr_chunks0 c k Hk) as (k' & Hk' & E1 & E2 & E3).
  { right. by exists (start_offset k), (mapping k), k. }
  exists k'. rewrite E1, E2, E3. auto 10.
Qed.

Lemma published_stable i c wg wg' : heap_rely i wg wg' -> published c wg.1 -> published c wg'.1.
Proof. intros Hr (s & m & Hc). exists s, m. by eapply Ck_stable. Qed.

#[export] Instance heap_rely_pre i : PreOrder (heap_rely i).
Proof.
  split.
  - intros wg. split; try done; intros; eexists; (split; [done |]); done.
  - intros w1 w2 w3 H12 H23. split.
    + intros m x Hm. by apply (hr_maps _ _ _ H23), (hr_maps _ _ _ H12).
    + intros fd x Hfd. by apply (hr_fds _ _ _ H23), (hr_fds _ _ _ H12).
    + intros h x Hx. destruct (hr_handles _ _ _ H12 _ _ Hx) as (x2 & Hx2 & ? & ? & ?).
      destruct (hr_handles _ _ _ H23 _ _ Hx2) as (x3 & Hx3 & ? & ? & ?).
      exists x3. split; [done |]. repeat split; congruence.
    + intros c k Hk Hwho.
      destruct (hr_chunks _ _ _ H12 _ _ Hk Hwho) as (k2 & Hk2 & ? & ? & ?).
      destruct (hr_chunks _ _ _ H23 _ _ Hk2) as (k3 & Hk3 & ? & ? & ?).
      * destruct Hwho; [left; by apply (hr_owner _ _ _ H12) | right; by eapply published_stable].
      * exists k3. split; [done |]. repeat split; congruence.
    + intros c Hc. by apply (hr_owner _ _ _ H23), (hr_owner _ _ _ H12).
    + rewrite (hr_clock _ _ _ H23). apply (hr_clock _ _ _ H12).
    + etrans; [apply (hr_reads _ _ _ H12) | apply (hr_reads _ _ _ H23)].
Qed.

(** What a thread knows of the heap: a handle, and a chunk it is building. *)
Definition Hd (h md fd cap : Z) (w : world) : Prop :=
  exists x, w_handles w !! h = Some x /\ metadata x = md /\ data_fd x = fd /\
    capacity (chunks x) = cap.

Definition Own (i : nat) (c : Z) (k : chunk_info_t) (wg : gw) : Prop :=
  g_owner wg.2 !! c = Some i /\ exists k', w_chunks wg.1 !! c = Some k' /\ same_chunk k k'.

Lemma Hd_stable i h md fd cap wg wg' :
  heap_rely i wg wg' -> Hd h md fd cap wg.1 -> Hd h md fd cap wg'.1.
Proof.
  intros [] (x & Hx & <- & <- & <-). destruct (hr_handles0 _ _ Hx) as (x' & Hx' & ? & ? & ?).
  by exists x'.
Qed.

Lemma Own_stable i c k wg wg' : heap_rely i wg wg' -> Own i c k wg -> Own i c k wg'.
Proof.
  intros [] (Ho & k1 & Hk1 & E). destruct (hr_chunks0 c k1 Hk1) as (k2 & Hk2 & E2); [by left |].
  split; [auto |]. exists k2. split; [done |]. unfold same_chunk in *. naive_solver congruence.
Qed.

(** A chunk whose mapping is not a mapping is not published. *)
Lemma unpublished i c k wg : heap_inv wg -> Own i c k wg -> mapping k < 2 -> ~ published c wg.1.
Proof.
  intros [] (_ & k1 & Hk1 & _ & _ & E) Hm (s & m & k2 & Hk2 & _ & Hm2 & _ & Hmp & _).
  simplify_eq. specialize (hi_maps0 _ (mk_is_Some _ _ Hmp)). lia.
Qed.

(** *** Updates of the heap by one thread *)

Definition heap_guar (i : nat) (wg wg' : gw) : Prop :=
  forall j, j <> i -> heap_rely j wg wg'.

(** Transport of [handle_ok] along a rely step that keeps the handle itself. *)
Lemma handle_ok_mono i wg wg' x : heap_rely i wg wg' -> handle_ok wg.1 x -> handle_ok wg'.1 x.
Proof.
  intros Hr []. split; try done.
  - destruct ho_meta0 as (mp & Hmp & Hi). exists mp. split; [| done].
    by eapply hr_maps.
  - by eapply hr_fds.
  - destruct ho_slots0 as (b & Hb & Hl & Hall). exists b. repeat split; try done.
    eapply Forall_impl; [exact Hall |]. intros v [-> | Hp]; [by left | right].
    by eapply published_stable.
Qed.

Definition with_chunks (f : gmap Z chunk_info_t -> gmap Z chunk_info_t) (wg : gw) : gw :=
  (set_chunks f wg.1, wg.2).

(** Writing a field of a chunk under construction, or freeing it: nobody else
    can see it. *)
Lemma heap_build i c f wg : heap_inv wg -> g_owner wg.2 !! c = Some i ->
  ~ published c wg.1 -> is_Some (w_chunks wg.1 !! c) ->
  (forall c', c' <> c -> f (w_chunks wg.1) !! c' = w_chunks wg.1 !! c') ->
  heap_inv (with_chunks f wg) /\ heap_guar i wg (with_chunks f wg).
Proof.
  intros [] Ho Hnp Hc Hf. assert (heap_guar i wg (with_chunks f wg)) as Hg.
  { intros j Hj. split; simpl; try done.
    - intros h x Hx. by exists x.
    - intros c' k Hk [Ho' | Hp].
      + exists k. rewrite Hf by congruence. done.
      + exists k. rewrite Hf by (by intros ->). done. }
  split; [| done]. split; simpl; try done.
  - intros c' Hc'. destruct (decide (c' = c)) as [-> |]; [auto |].
    rewrite Hf in Hc' by done. auto.
  - intros h x Hx. destruct (hi_handles0 h x Hx). split; [done |].
    apply (handle_ok_mono (S i) wg (with_chunks f wg)); [| done]. apply Hg. lia.
Qed.

(** Changing the reference count of a chunk. *)
Lemma heap_ref c k n wg : heap_inv wg -> w_chunks wg.1 !! c = Some k ->
  let wg' := with_chunks <[c := ch_set ChRef n k]> wg in
  heap_inv wg' /\ forall j, heap_rely j wg wg'.
Proof.
  intros [] Hk wg'. assert (forall j, heap_rely j wg wg') as Hg.
  { intros j. split; simpl; try done.
    - intros h x Hx. by exists x.
    - intros c' k' Hk' _. destruct (decide (c' = c)) as [-> |].
      + simplify_eq. eexists. by rewrite lookup_insert_eq.
      + exists k'. by rewrite lookup_insert_ne. }
  split; [| done]. split; simpl; try done.
  - intros c' Hc'. destruct (decide (c' = c)) as [-> |]; [eauto |].
    rewrite lookup_insert_ne in Hc' by done. auto.
  - intros h x Hx. destruct (hi_handles0 h x Hx). split; [done |].
    by apply (handle_ok_mono 0%nat wg wg').
Qed.

(** Changing a handle. *)
Lemma heap_handle h x x' wg : heap_inv wg -> w_handles wg.1 !! h = Some x ->
  same_handle x x' -> (handle_ok wg.1 x -> handle_ok wg.1 x') ->
  let wg' := (set_handles <[h := x']> wg.1, wg.2) in
  heap_inv wg' /\ forall j, heap_rely j wg wg'.
Proof.
  intros [] Hx Hs Hok wg'. assert (forall j, heap_rely j wg wg') as Hg.
  { intros j. split; simpl; try done.
    - intros h' y Hy. destruct (decide (h' = h)) as [-> |].
      + simplify_eq. exists x'. by rewrite lookup_insert_eq.
      + exists y. by rewrite lookup_insert_ne.
    - intros c k Hk _. by exists k. }
  split; [| done]. split; simpl; try done. intros h' y Hy.
  destruct (decide (h' = h)) as [-> |].
  - rewrite lookup_insert_eq in Hy. simplify_eq. destruct (hi_handles0 h x Hx).
    split; [done |]. apply (handle_ok_mono 0%nat wg wg'); auto.
  - rewrite lookup_insert_ne in Hy by done. destruct (hi_handles0 h' y Hy).
    split; [done |]. by apply (handle_ok_mono 0%nat wg wg').
Qed.

(** A fresh mapping. *)
Lemma heap_map mp wg : heap_inv wg ->
  let wg' := (bump_next (set_maps <[w_next wg.1 := mp]> wg.1), wg.2) in
  heap_inv wg' /\ (forall j, heap_rely j wg wg') /\ w_maps wg'.1 !! w_next wg.1 = Some mp.
Proof.
  intros [] wg'. assert (forall j, heap_rely j wg wg') as Hg.
  { intros j. split; simpl; try done.
    - intros m y Hy. rewrite lookup_insert_ne; [done |].
      intros <-. specialize (hi_maps0 _ (mk_is_Some _ _ Hy)). lia.
    - intros h' y Hy. by exists y.
    - intros c k Hk _. by exists k. }
  split; [| split; [done | apply lookup_insert_eq]]. split; simpl; try lia.
  - intros m Hm. destruct (decide (m = w_next wg.1)) as [-> |]; [lia |].
    rewrite lookup_insert_ne in Hm by done. specialize (hi_maps0 _ Hm). lia.
  - intros c Hc. specialize (hi_chunks0 _ Hc). lia.
  - intros c Hc. specialize (hi_owner0 _ Hc). lia.
  - intros h' y Hy. destruct (hi_handles0 h' y Hy). split; [done |].
    by apply (handle_ok_mono 0%nat wg wg').
Qed.

(** A fresh chunk. *)
Lemma heap_alloc i wg : heap_inv wg ->
  let n := w_next wg.1 in
  let wg' := (bump_next (set_chunks <[n := zero_chunk]> wg.1),
              MkG (g_lock wg.2) (g_claims wg.2) (g_budget wg.2) (<[n := i]> (g_owner wg.2))) in
  heap_inv wg' /\ (forall j, heap_rely j wg wg') /\ Own i n zero_chunk wg'.
Proof.
  intros [] n wg'. assert (forall j, heap_rely j wg wg') as Hg.
  { intros j. split; simpl; try done.
    - intros h' y Hy. by exists y.
    - intros c k Hk _. exists k. rewrite lookup_insert_ne; [done |].
      intros <-. specialize (hi_chunks0 _ (mk_is_Some _ _ Hk)). lia.
    - intros c Hc. rewrite lookup_insert_ne; [done |].
      intros <-. specialize (hi_owner0 _ (mk_is_Some _ _ Hc)). lia. }
  split; [| split; [done |]].
  - split; simpl; try lia.
    + intros m Hm. specialize (hi_maps0 _ Hm). lia.
    + intros c Hc. destruct (decide (c = n)) as [-> |]; [lia |].
      rewrite lookup_insert_ne in Hc by done. specialize (hi_chunks0 _ Hc). lia.
    + intros c Hc. destruct (decide (c = n)) as [-> |]; [lia |].
      rewrite lookup_insert_ne in Hc by done. specialize (hi_owner0 _ Hc). lia.
    + intros h' y Hy. destruct (hi_handles0 h' y Hy). split; [done |].
      by apply (handle_ok_mono 0%nat wg wg').
  - split; simpl; [apply lookup_insert_eq |]. exists zero_chunk.
    by rewrite lookup_insert_eq.
Qed.

(** ** Both halves *)

Definition inode_at (w : world) (k : Z) : inode := default new_inode (w_inodes w !! k).

Definition core_of (wg : gw) : core :=
  MkCore (i_meta (inode_at wg.1 MI)) (i_size (inode_at wg.1 DI)) (i_bytes (inode_at wg.1 DI))
    (g_lock wg.2) (g_claims wg.2) (g_budget wg.2).

Definition files_ok (w : world) : Prop :=
  is_Some (w_inodes w !! MI) /\ is_Some (w_inodes w !! DI) /\ 0 < i_size (inode_at w MI).

Definition inv (wg : gw) : Prop :=
  files_ok wg.1 /\ core_inv (core_of wg) /\ heap_inv wg.

Definition rely (i : nat) (wg wg' : gw) : Prop :=
  core_rely i (core_of wg) (core_of wg') /\ heap_rely i wg wg'.

#[export] Instance rely_pre i : PreOrder (rely i).
Proof.
  split.
  - intros wg. split; reflexivity.
  - intros w1 w2 w3 [? ?] [? ?]. split; by etrans.
Qed.

#[export] Instance mm_rely_pre : RelyPre rely := rely_pre.

End Log.
