(* ===== verification/MmlogOps.v ===== *)
(** * mmlog.h: the atomic operations keep the invariant

    One lemma per operation of the insert path: performed by thread [i] in
    a state that satisfies [inv], it does not stop the process, keeps [inv],
    respects what the other threads rely on, and gives [i] the stated fact. *)
From stdpp Require Import base gmap sets list strings relations.
From Stdlib Require Import ZArith Lia.
From S2P Require Import Prelude Prog Conc MmlogTypes MmlogOs MmlogInv.

Section Ops.
Context (MI DI CS C0 : Z) (HCS : 0 < CS < 2 ^ 32) (HCSp : CS mod 4096 = 0) (HMD : MI <> DI).

Abbreviation Inv := (inv MI DI CS C0).
Abbreviation Rely := (rely MI DI CS).
Abbreviation Core := (core_of MI DI).
Abbreviation Safe := (safe ih Inv Rely).

Definition step_ok {R} (i : nat) (e : mmE R) (l : mmlog_err_t) (wg : gw)
    (F : R -> mmlog_err_t -> gw -> Prop) : Prop :=
  match ih i R e (l, wg) with
  | Done r (l', wg') => Inv wg' /\ guar Rely i wg wg' /\ F r l' wg'
  | Stopped _ _ => False
  end.

Lemma safe_step {A R} i (e : mmE R) (f : R -> mm A) F Q l wg :
  (forall wg', Rely i wg wg' -> Inv wg' -> step_ok i e l wg' F) ->
  (forall r l' wg', Inv wg' -> F r l' wg' -> Safe i (f r) Q l' wg') ->
  Safe i (bind (trigger e) f) Q l wg.
Proof.
  intros Hop Hf. apply safe_trigger. intros wg' Hr Hi. specialize (Hop wg' Hr Hi).
  unfold step_ok in Hop. destruct (ih i R e (l, wg')) as [r [l' wg''] |]; [| done].
  destruct Hop as (? & ? & ?). auto.
Qed.

(** ** Framing *)

Definition same_heap (wg wg' : gw) : Prop :=
  w_maps wg'.1 = w_maps wg.1 /\ w_fds wg'.1 = w_fds wg.1 /\
  w_handles wg'.1 = w_handles wg.1 /\ w_chunks wg'.1 = w_chunks wg.1 /\
  w_next wg'.1 = w_next wg.1 /\ g_owner wg'.2 = g_owner wg.2 /\
  w_clock wg'.1 = w_clock wg.1 /\ (w_reads wg.1 <= w_reads wg'.1)%nat.

Lemma same_heap_rely i wg wg' : same_heap wg wg' -> heap_rely DI CS i wg wg'.
Proof.
  intros (E1 & E2 & E3 & E4 & E5 & E6 & E7 & E8). split; rewrite ?E1, ?E2, ?E3, ?E4, ?E6; try done.
  - intros h x Hx. by exists x.
  - intros c k Hk _. by exists k.
Qed.

Lemma same_heap_inv wg wg' : same_heap wg wg' ->
  heap_inv MI DI CS wg -> heap_inv MI DI CS wg'.
Proof.
  intros Hs []. pose proof (same_heap_rely 0 _ _ Hs) as Hr.
  destruct Hs as (E1 & E2 & E3 & E4 & E5 & E6 & _).
  split; rewrite ?E1, ?E3, ?E4, ?E5, ?E6; try done.
  intros h x Hx. destruct (hi_handles h x Hx). split; [done |].
  by apply (handle_ok_mono MI DI CS 0 wg wg').
Qed.

(** A step that changes the core only. *)
Lemma core_step i wg wg' : Inv wg -> same_heap wg wg' -> files_ok MI DI wg'.1 ->
  core_inv CS C0 (Core wg') -> core_guar i (Core wg) (Core wg') ->
  Inv wg' /\ guar Rely i wg wg' /\ heap_rely DI CS i wg wg'.
Proof.
  intros (Hf & Hc & Hh) Hs Hf' Hc' Hg. split; [| split].
  - split; [done |]. split; [done | by eapply same_heap_inv].
  - intros j Hj. split; [by apply Hg | by apply same_heap_rely].
  - by apply same_heap_rely.
Qed.

(** A step that changes the heap only. *)
Lemma heap_step i wg wg' : Inv wg -> heap_inv MI DI CS wg' -> heap_guar DI CS i wg wg' ->
  w_inodes wg'.1 = w_inodes wg.1 -> Core wg' = Core wg ->
  Inv wg' /\ guar Rely i wg wg'.
Proof.
  intros (Hf & Hc & Hh) Hh' Hg Hin HC. split.
  - split; [by unfold files_ok, inode_at in *; rewrite Hin |]. by rewrite HC.
  - intros j Hj. split; [rewrite HC; reflexivity | by apply Hg].
Qed.

(** A step that changes nothing anybody looks at. *)
Lemma idle_step i wg wg' : Inv wg -> same_heap wg wg' -> w_inodes wg'.1 = w_inodes wg.1 ->
  g_lock wg'.2 = g_lock wg.2 -> g_claims wg'.2 = g_claims wg.2 ->
  g_budget wg'.2 = g_budget wg.2 ->
  Inv wg' /\ guar Rely i wg wg' /\ Rely i wg wg'.
Proof.
  intros Hi Hs Hin E1 E2 E3.
  assert (Core wg' = Core wg) as HC.
  { unfold core_of, inode_at. by rewrite Hin, E1, E2, E3. }
  assert (forall j, Rely j wg wg') as Hr.
  { intros j. split; [rewrite HC; reflexivity | by apply same_heap_rely]. }
  split; [| by split; [intros j _ |]].
  destruct Hi as (Hf & Hc & Hh). split; [| split].
  - by unfold files_ok, inode_at in *; rewrite Hin.
  - by rewrite HC.
  - by eapply same_heap_inv.
Qed.

Lemma pop_fault_same w f w' : pop_fault w = (f, w') ->
  exists l, w' = set_faults l w \/ w' = w.
Proof.
  unfold pop_fault. destruct (w_faults w) as [| f' l]; intros [= <- <-].
  - exists []. by right.
  - exists l. by left.
Qed.

Lemma idle_refl i wg : Inv wg -> Inv wg /\ guar Rely i wg wg /\ Rely i wg wg.
Proof. intros Hi. split; [done |]. split; [intros j _ |]; reflexivity. Qed.

Lemma idle_pop i w g f w' : Inv (w, g) -> pop_fault w = (f, w') ->
  Inv (w', g) /\ guar Rely i (w, g) (w', g) /\ Rely i (w, g) (w', g).
Proof.
  intros Hi Hp. apply pop_fault_same in Hp as [l [-> | ->]]; [| by apply idle_refl].
  by apply idle_step.
Qed.

Lemma guar_trans i w1 w2 w3 : guar Rely i w1 w2 -> guar Rely i w2 w3 -> guar Rely i w1 w3.
Proof. intros H12 H23 j Hj. etrans; [by apply H12 | by apply H23]. Qed.

(** ** Errno, clock, scheduler *)

Lemma op_set_errno i e l wg : Inv wg ->
  step_ok i (SetErrno e) l wg (fun _ l' wg' => wg' = wg /\ l' = e).
Proof. intros Hi. destruct wg as [w g]. unfold step_ok. simpl. by destruct (idle_refl i _ Hi). Qed.

Lemma op_clock i l wg : Inv wg ->
  step_ok i ClockGettime l wg (fun r _ wg' => Rely i wg wg' /\
    r = w_clock wg.1 (w_reads wg.1) /\ w_reads wg'.1 = S (w_reads wg.1)).
Proof.
  intros Hi. destruct wg as [w g]. unfold step_ok. simpl.
  destruct (idle_step i (w, g) (bump_reads w, g)) as (? & ? & ?); try done.
  do 7 (split; [done |]). simpl. lia.
Qed.

Lemma op_yield i l wg : Inv wg ->
  step_ok i SchedYield l wg (fun _ _ wg' => wg' = wg).
Proof. intros Hi. destruct wg as [w g]. unfold step_ok. simpl. by destruct (idle_refl i _ Hi). Qed.

(** ** The metadata *)

Abbreviation HD := (fun h md fd cap (wg : gw) => Hd h md fd cap wg.1).

Lemma hd_handle h md fd cap wg : Inv wg -> HD h md fd cap wg ->
  exists x, w_handles wg.1 !! h = Some x /\ metadata x = md /\ data_fd x = fd /\
    capacity (chunks x) = cap /\ h <> NULL /\ handle_ok MI DI CS wg.1 x.
Proof.
  intros (_ & _ & []) (x & Hx & <- & <- & <-). exists x.
  destruct (hi_handles h x Hx). auto 10.
Qed.

Lemma hd_md_nonnull h md fd cap wg : Inv wg -> HD h md fd cap wg -> 2 <= md.
Proof.
  intros Hi Hh. destruct (hd_handle _ _ _ _ _ Hi Hh) as (x & _ & <- & _ & _ & _ & []).
  destruct ho_meta as (mp & Hmp & _). destruct Hi as (_ & _ & []).
  by apply (hi_maps _ (mk_is_Some _ _ Hmp)).
Qed.

Lemma md_at_ok h md fd cap wg : Inv wg -> HD h md fd cap wg ->
  md_at wg.1 md = inr (MI, c_md (Core wg)).
Proof.
  intros Hi Hh. destruct (hd_handle _ _ _ _ _ Hi Hh) as (x & _ & <- & _ & _ & _ & []).
  destruct ho_meta as (mp & Hmp & Hmi). unfold md_at. rewrite Hmp, Hmi.
  destruct Hi as [[[im Him] [_ Hsz]] _]. unfold core_of, inode_at in *. simpl.
  rewrite Him in *. simpl in *. by rewrite (proj2 (Z.ltb_lt _ _) Hsz).
Qed.

Lemma inode_at_alter f k w : is_Some (w_inodes w !! k) ->
  inode_at (set_inodes (alter f k) w) k = f (inode_at w k).
Proof. intros [x Hx]. unfold inode_at. simpl. by rewrite lookup_alter_eq, Hx. Qed.

Lemma inode_at_alter_ne f k k' w : k <> k' ->
  inode_at (set_inodes (alter f k) w) k' = inode_at w k'.
Proof. intros Hne. unfold inode_at. simpl. by rewrite lookup_alter_ne. Qed.

Lemma files_ok_alter f k w : files_ok MI DI w ->
  (k = MI -> 0 < i_size (f (inode_at w MI))) ->
  files_ok MI DI (set_inodes (alter f k) w).
Proof.
  intros (Hm & Hd & Hsz) Hf. split; [| split].
  - simpl. destruct (decide (k = MI)) as [-> |].
    + rewrite lookup_alter_eq. by apply fmap_is_Some.
    + by rewrite lookup_alter_ne.
  - simpl. destruct (decide (k = DI)) as [-> |].
    + rewrite lookup_alter_eq. by apply fmap_is_Some.
    + by rewrite lookup_alter_ne.
  - destruct (decide (k = MI)) as [-> |].
    + rewrite inode_at_alter by done. auto.
    + by rewrite inode_at_alter_ne.
Qed.

Lemma core_put_meta md' wg : files_ok MI DI wg.1 ->
  Core (put_meta MI md' wg.1, wg.2) = with_md (fun _ => md') (Core wg).
Proof.
  intros (Hm & _ & _). unfold core_of, put_meta, with_md. simpl fst.
  rewrite inode_at_alter by done. by rewrite inode_at_alter_ne.
Qed.

Lemma files_ok_put_meta md' w : files_ok MI DI w -> files_ok MI DI (put_meta MI md' w).
Proof. intros Hf. apply files_ok_alter; [done |]. by intros _; destruct Hf as (_ & _ & ?). Qed.

Lemma op_md_load {T} i (f : md_field T) h md fd cap l wg : Inv wg -> HD h md fd cap wg ->
  step_ok i (MdLoad f md) l wg (fun r _ wg' => wg' = wg /\ r = md_get f (c_md (Core wg))).
Proof.
  intros Hi Hh. pose proof (md_at_ok _ _ _ _ _ Hi Hh) as Hm. destruct wg as [w g].
  unfold step_ok. simpl in *. unfold read_md. simpl. rewrite Hm.
  by destruct (idle_refl i _ Hi).
Qed.

(** A read-modify-write of the metadata, with its update of the auxiliary state. *)
Lemma on_md_ok {A} i h md fd cap (f : log_metadata_t -> A * log_metadata_t) l w g g' :
  Inv (w, g) -> HD h md fd cap (w, g) -> g_owner g' = g_owner g ->
  let m := c_md (Core (w, g)) in
  let c' := MkCore (f m).2 (c_size (Core (w, g))) (c_bytes (Core (w, g)))
              (g_lock g') (g_claims g') (g_budget g') in
  core_inv CS C0 c' -> core_guar i (Core (w, g)) c' ->
  on_md md (l, w) f = Done (f m).1 (l, put_meta MI (f m).2 w) /\
  Core (put_meta MI (f m).2 w, g') = c' /\
  Inv (put_meta MI (f m).2 w, g') /\ guar Rely i (w, g) (put_meta MI (f m).2 w, g') /\
  heap_rely DI CS i (w, g) (put_meta MI (f m).2 w, g').
Proof.
  intros Hi Hh Ho m c' Hc Hg. split.
  { unfold on_md. pose proof (md_at_ok _ _ _ _ _ Hi Hh) as E. simpl in E. rewrite E.
    by destruct (f (i_meta _)) as [a md'] eqn:Ef; subst m; simpl; rewrite Ef. }
  assert (Core (put_meta MI (f m).2 w, g') = c') as HC.
  { pose proof (core_put_meta (f m).2 (w, g) (proj1 Hi)) as E.
    unfold core_of, with_md in *. simpl in *. by injection E as -> -> ->. }
  split; [done |]. apply core_step; try done.
  - by apply files_ok_put_meta, Hi.
  - by rewrite HC.
  - by rewrite HC.
Qed.

Lemma op_cas_locked i h md fd cap l wg : Inv wg -> HD h md fd cap wg ->
  step_ok i (MdCasLocked md false true) l wg (fun r _ wg' =>
    heap_rely DI CS i wg wg' /\ core_keep i (Core wg) (Core wg') /\
    (r = true -> exists fs, Lk i fs (Core wg'))).
Proof.
  intros Hi Hh. destruct wg as [w g]. unfold step_ok, ih, instr, strict, mm_h.
  set (f := fun md => if Bool.eqb (is_locked md) false then (true, md_set MdLocked true md)
                      else (false, md)).
  destruct (is_locked (c_md (Core (w, g)))) eqn:Hl.
  - destruct (on_md_ok i h md fd cap f l w g g Hi Hh) as (E & HC & Hok); [done | ..].
    { unfold f. simpl in *. rewrite Hl. simpl. by destruct Hi as (_ & ? & _). }
    { unfold f. simpl in *. rewrite Hl. simpl. intros j _. reflexivity. }
    simpl in *. rewrite E. unfold f in *. simpl in *. rewrite Hl in *. simpl in *.
    destruct Hok as (? & ? & ?). split; [done |]. split; [done |]. split; [done |].
    split; [by rewrite HC | done].
  - destruct (core_lock CS C0 HCS i _ (proj1 (proj2 Hi)) Hl) as (Hc & Hg & Hk & HL).
    destruct (on_md_ok i h md fd cap f l w g
      (MkG (Some i) (g_claims g) (g_budget g) (g_owner g)) Hi Hh) as (E & HC & Hok); [done | ..].
    { unfold f. simpl in *. rewrite Hl. exact Hc. }
    { unfold f. simpl in *. rewrite Hl. exact Hg. }
    simpl in *. rewrite E. unfold f in *. simpl in *. rewrite Hl in *. simpl in *.
    destruct Hok as (? & ? & ?). split; [done |]. split; [done |]. split; [done |].
    rewrite HC. split; [done |]. intros _. eexists. exact HL.
Qed.

Lemma op_unlock i h md fd cap fs l wg : Inv wg -> HD h md fd cap wg -> Lk i fs (Core wg) ->
  step_ok i (MdStore MdLocked md false) l wg (fun _ _ wg' =>
    heap_rely DI CS i wg wg' /\ core_keep i (Core wg) (Core wg')).
Proof.
  intros Hi Hh HL. destruct wg as [w g]. unfold step_ok, ih, instr, strict, mm_h.
  destruct (core_unlock CS C0 HCS i fs _ (proj1 (proj2 Hi)) HL) as (Hc & Hg & Hk).
  destruct (on_md_ok i h md fd cap (fun m => (tt, md_set MdLocked false m)) l w g
    (MkG None (g_claims g) (g_budget g) (g_owner g)) Hi Hh) as (E & HC & ? & ? & ?); try done.
  simpl in *. rewrite E. simpl. split; [done |]. split; [done |]. split; [done |].
  by rewrite HC.
Qed.

Lemma op_store_panicked i h md fd cap fs l wg : Inv wg -> HD h md fd cap wg ->
  Lk i fs (Core wg) ->
  step_ok i (MdStore MdPanicked md true) l wg (fun _ _ wg' =>
    heap_rely DI CS i wg wg' /\ core_keep i (Core wg) (Core wg') /\
    is_panicked (c_md (Core wg')) = true /\ Lk i fs (Core wg')).
Proof.
  intros Hi Hh HL. destruct wg as [w g]. unfold step_ok, ih, instr, strict, mm_h.
  destruct (core_panic CS C0 HCS i _ (proj1 (proj2 Hi))) as (Hc & Hg & Hk & Hp & Hlk).
  destruct (on_md_ok i h md fd cap (fun m => (tt, md_set MdPanicked true m)) l w g g
    Hi Hh) as (E & HC & ? & ? & ?); try done.
  pose proof (f_equal (fun c => is_panicked (c_md c)) HC) as Hp2.
  simpl in *. rewrite E. simpl. split; [done |]. split; [done |]. split; [done |].
  rewrite HC. split; [done |]. split; [exact Hp2 |]. by apply Hlk.
Qed.

Lemma op_store_size i h md fd cap fs n l wg : Inv wg -> HD h md fd cap wg ->
  c_lock (Core wg) = Some i -> file_size (c_md (Core wg)) = fs -> c_size (Core wg) = n ->
  fs <= n <= 2 ^ 32 ->
  step_ok i (MdStore MdFileSize md n) l wg (fun _ _ wg' =>
    heap_rely DI CS i wg wg' /\ core_keep i (Core wg) (Core wg') /\ Lk i n (Core wg')).
Proof.
  intros Hi Hh Hl Hf Hs Hn. destruct wg as [w g]. unfold step_ok, ih, instr, strict, mm_h.
  destruct (core_set_size CS C0 HCS i fs n _ (proj1 (proj2 Hi)) Hl Hf Hs Hn)
    as (Hc & Hg & Hk & Hlk).
  destruct (on_md_ok i h md fd cap (fun m => (tt, md_set MdFileSize n m)) l w g g
    Hi Hh) as (E & HC & ? & ? & ?); try done.
  simpl in *. rewrite E. simpl. split; [done |]. split; [done |]. split; [done |].
  by rewrite HC.
Qed.

Lemma op_fetch_add i b cl m h md fd cap n l wg : Inv wg -> HD h md fd cap wg ->
  Me i b cl m (Core wg) -> 0 <= n <= b ->
  step_ok i (MdFetchAddCursor md n) l wg (fun r _ wg' =>
    heap_rely DI CS i wg wg' /\ 0 <= r /\ r + n <= LIMIT CS /\
    Me i (b - n) (cl ++ [(i, r, n)]) m (Core wg')).
Proof.
  intros Hi Hh HM Hn. destruct wg as [w g]. unfold step_ok, ih, instr, strict, mm_h.
  destruct (core_claim CS C0 HCS i b n _ (proj1 (proj2 Hi)) (proj1 HM) Hn)
    as (Hc & Hg & Hlim & H0 & Hme).
  destruct (on_md_ok i h md fd cap
    (fun m => (cursor m, md_set MdCursor (u64 (cursor m + n)) m)) l w g
    (MkG (g_lock g) (g_claims g ++ [(i, cursor (c_md (Core (w, g))), n)])
       (spend i n (g_budget g)) (g_owner g)) Hi Hh) as (E & HC & ? & ? & ?); try done.
  simpl in *. rewrite E. simpl. split; [done |]. split; [done |]. split; [done |].
  split; [done |]. split; [done |]. rewrite HC. by apply Hme.
Qed.
(** ** Handles *)

Lemma op_hload {T} i (f : h_field T) h md fd cap l wg : Inv wg -> HD h md fd cap wg ->
  step_ok i (HLoad f h) l wg (fun r _ wg' => wg' = wg /\
    exists x, w_handles wg.1 !! h = Some x /\ r = h_get f x /\ metadata x = md /\
      data_fd x = fd /\ capacity (chunks x) = cap /\ h <> NULL /\ handle_ok MI DI CS wg.1 x).
Proof.
  intros Hi Hh. destruct (hd_handle _ _ _ _ _ Hi Hh) as (x & Hx & E). destruct wg as [w g].
  unfold step_ok, ih, instr, strict, mm_h, read_handle. simpl in *. rewrite Hx.
  destruct (idle_refl i _ Hi) as (? & ? & _). split; [done |]. split; [done |].
  split; [done |]. exists x. auto.
Qed.

(** A write to a handle that keeps it well formed. *)
Lemma on_handle_ok i h x x' w g : Inv (w, g) -> w_handles w !! h = Some x ->
  same_handle x x' -> (handle_ok MI DI CS w x -> handle_ok MI DI CS w x') ->
  Inv (set_handles <[h := x']> w, g) /\ guar Rely i (w, g) (set_handles <[h := x']> w, g) /\
  Rely i (w, g) (set_handles <[h := x']> w, g).
Proof.
  intros Hi Hx Hs Hok. destruct (heap_handle MI DI CS h x x' (w, g)) as [Hh Hg]; try done.
  { apply Hi. }
  destruct (heap_step i _ _ Hi Hh (fun j _ => Hg j) eq_refl eq_refl) as [Hi' Hg'].
  split; [done |]. split; [done |]. split; [reflexivity | apply Hg].
Qed.

Lemma op_slot_load i h k md fd cap l wg : Inv wg -> HD h md fd cap wg -> 0 <= k < cap ->
  step_ok i (SlotLoad h k) l wg (fun r _ wg' => wg' = wg /\
    (r = NULL \/ published DI CS r wg.1)).
Proof.
  intros Hi Hh Hk. destruct (hd_handle _ _ _ _ _ Hi Hh) as (x & Hx & _ & _ & Hc & _ & []).
  destruct ho_slots as (b & Hb & Hl & Hall). destruct wg as [w g].
  unfold step_ok, ih, instr, strict, mm_h, slot_load. simpl in *. rewrite Hx, Hb. simpl.
  destruct (znth_is_Some b k) as [v Hv]; [lia |]. rewrite Hv.
  destruct (idle_refl i _ Hi) as (? & ? & _). split; [done |]. split; [done |].
  split; [done |]. rewrite Forall_lookup in Hall. apply (Hall (Z.to_nat k)).
  unfold znth in Hv. by destruct (0 <=? k).
Qed.

Lemma op_slot_store i h k v md fd cap l wg : Inv wg -> HD h md fd cap wg -> 0 <= k < cap ->
  v = NULL \/ published DI CS v wg.1 ->
  step_ok i (SlotStore h k v) l wg (fun _ _ wg' => Rely i wg wg').
Proof.
  intros Hi Hh Hk Hv. destruct (hd_handle _ _ _ _ _ Hi Hh) as (x & Hx & _ & _ & Hc & _ & Hok).
  pose proof (ho_slots _ _ _ _ _ Hok) as (b & Hb & Hl & Hall). destruct wg as [w g].
  unfold step_ok, ih, instr, strict, mm_h, slot_store. simpl in *. rewrite Hx, Hb.
  rewrite (proj2 (Z.leb_le 0 k)), (proj2 (Z.ltb_lt k _)) by lia. simpl.
  apply (on_handle_ok i h x); try done. intros []. split; try done.
  exists (<[Z.to_nat k := v]> b). split; [done |]. split.
  - unfold zlen. rewrite length_insert. done.
  - by apply Forall_insert.
Qed.

Lemma op_cas_head i h expected k md fd cap l wg : Inv wg -> HD h md fd cap wg -> 0 <= k < cap ->
  step_ok i (CasHead h expected (Some k)) l wg (fun _ _ wg' => Rely i wg wg').
Proof.
  intros Hi Hh Hk. destruct (hd_handle _ _ _ _ _ Hi Hh) as (x & Hx & _ & _ & Hc & _).
  destruct wg as [w g]. unfold step_ok, ih, instr, strict, mm_h, on_handle, cas_field.
  simpl in *. rewrite Hx. case_decide; simpl; apply (on_handle_ok i h x); try done.
  intros []. split; try done. simpl. intros k' [= <-]. lia.
Qed.

Lemma op_cas_head_locked i h expected desired md fd cap l wg : Inv wg -> HD h md fd cap wg ->
  step_ok i (CasHeadLocked h expected desired) l wg (fun _ _ wg' => Rely i wg wg').
Proof.
  intros Hi Hh. destruct (hd_handle _ _ _ _ _ Hi Hh) as (x & Hx & _ & _ & Hc & _).
  destruct wg as [w g]. unfold step_ok, ih, instr, strict, mm_h, on_handle, cas_field.
  simpl in *. rewrite Hx. case_decide; simpl; apply (on_handle_ok i h x); try done.
  by intros [].
Qed.

Lemma op_unlock_head i h b md fd cap l wg : Inv wg -> HD h md fd cap wg ->
  step_ok i (HStore HHeadLocked h b) l wg (fun _ _ wg' => Rely i wg wg').
Proof.
  intros Hi Hh. destruct (hd_handle _ _ _ _ _ Hi Hh) as (x & Hx & _ & _ & Hc & _).
  destruct wg as [w g]. unfold step_ok, ih, instr, strict, mm_h, on_handle.
  simpl in *. rewrite Hx. simpl. apply (on_handle_ok i h x); try done. by intros [].
Qed.

(** ** Chunks *)

Lemma op_ch_load {T} i (f : ch_field T) c k l wg : Inv wg -> w_chunks wg.1 !! c = Some k ->
  step_ok i (ChLoad f c) l wg (fun r _ wg' => wg' = wg /\ r = ch_get f k).
Proof.
  intros Hi Hk. destruct wg as [w g]. unfold step_ok, ih, instr, strict, mm_h, read_chunk.
  simpl in *. rewrite Hk. by destruct (idle_refl i _ Hi).
Qed.

(** A field that never changes once the chunk is built. *)
Lemma op_own_load {T} i (f : ch_field T) c k l wg : Inv wg -> Own i c k wg ->
  (forall k', same_chunk k k' -> ch_get f k' = ch_get f k) ->
  step_ok i (ChLoad f c) l wg (fun r _ wg' => wg' = wg /\ r = ch_get f k).
Proof.
  intros Hi (_ & k' & Hk' & E) Hf. rewrite <-(Hf _ E). by apply op_ch_load.
Qed.

Lemma op_ck_load {T} i (f : ch_field T) c s a l wg (v : T) : Inv wg -> Ck DI CS c s a wg.1 ->
  (forall k, start_offset k = s -> mapping k = a -> size k = CS -> ch_get f k = v) ->
  step_ok i (ChLoad f c) l wg (fun r _ wg' => wg' = wg /\ r = v).
Proof.
  intros Hi (k & Hk & Hs & Hm & Hz & _) Hf. rewrite <-(Hf k) by done. by apply op_ch_load.
Qed.

Lemma op_ch_fetch_add i c k d l wg : Inv wg -> w_chunks wg.1 !! c = Some k ->
  step_ok i (ChFetchAdd c d) l wg (fun _ _ wg' => Rely i wg wg').
Proof.
  intros Hi Hk. destruct wg as [w g]. unfold step_ok, ih, instr, strict, mm_h, on_chunk.
  simpl in *. rewrite Hk. simpl.
  destruct (heap_ref MI DI CS c k (u32 (ref_count k + d)) (w, g)) as [Hh Hg]; [apply Hi | done |].
  destruct (heap_step i _ _ Hi Hh (fun j _ => Hg j) eq_refl eq_refl) as [Hi' Hg'].
  split; [done |]. split; [done |]. split; [reflexivity | apply Hg].
Qed.

Lemma op_ck_fetch_add i c s a d l wg : Inv wg -> Ck DI CS c s a wg.1 ->
  step_ok i (ChFetchAdd c d) l wg (fun _ _ wg' => Rely i wg wg').
Proof. intros Hi (k & Hk & _). by eapply op_ch_fetch_add. Qed.

Lemma op_calloc_chunk i l wg : Inv wg ->
  step_ok i CallocChunk l wg (fun r _ wg' => Rely i wg wg' /\
    (r = NULL \/ 2 <= r /\ Own i r zero_chunk wg')).
Proof.
  intros Hi. destruct wg as [w g]. unfold step_ok, ih, instr, strict, mm_h, allocate.
  destruct (pop_fault w) as [f w'] eqn:Hp. destruct (idle_pop i w g f w' Hi Hp) as (Hi' & Hg & Hr).
  destruct (fails f); simpl.
  - split; [done |]. split; [done |]. split; [done | by left].
  - pose proof (hi_next _ _ _ _ (proj2 (proj2 Hi'))) as Hn. simpl in Hn.
    rewrite (proj2 (Z.eqb_neq (w_next w') NULL)) by (unfold NULL; lia).
    destruct (heap_alloc MI DI CS i (w', g)) as (Hh & Hg2 & Ho); [apply Hi' |].
    destruct (heap_step i _ _ Hi' Hh (fun j _ => Hg2 j) eq_refl eq_refl) as [Hi2 Hg3].
    simpl in *.
    split; [exact Hi2 |]. split; [by eapply guar_trans |]. split.
    + etrans; [done |]. split; [reflexivity | apply Hg2].
    + right. split; [done | exact Ho].
Qed.

(** Building a chunk leaves everything else as it was. *)
Definition same_rest (wg wg' : gw) : Prop :=
  Core wg' = Core wg /\ w_maps wg'.1 = w_maps wg.1 /\ w_fds wg'.1 = w_fds wg.1 /\
  w_handles wg'.1 = w_handles wg.1 /\ w_clock wg'.1 = w_clock wg.1.

Lemma op_ch_store {T} i (f : ch_field T) c k v l wg : Inv wg -> Own i c k wg -> mapping k < 2 ->
  step_ok i (ChStore f c v) l wg (fun _ _ wg' => same_rest wg wg' /\ Own i c (ch_set f v k) wg').
Proof.
  intros Hi Ho Hm. pose proof Ho as (Ho1 & k' & Hk' & E).
  destruct wg as [w g]. unfold step_ok, ih, instr, strict, mm_h, on_chunk. simpl in *. rewrite Hk'. simpl.
  destruct (heap_build MI DI CS i c (<[c := ch_set f v k']>) (w, g)) as [Hh Hg].
  { apply Hi. }
  { done. }
  { eapply unpublished; [apply Hi | done | done]. }
  { by eexists. }
  { intros c' Hc. simpl. by rewrite lookup_insert_ne. }
  destruct (heap_step i _ _ Hi Hh Hg eq_refl eq_refl) as [Hi' Hg'].
  split; [done |]. split; [done |]. split; [done |]. split; [done |].
  exists (ch_set f v k'). simpl. rewrite lookup_insert_eq. split; [done |].
  destruct E as (? & ? & ?). destruct f; unfold same_chunk; simpl; auto.
Qed.

(** The reference count is the one field of a chunk in use that changes. *)
Lemma op_ch_store_ref i c k n l wg : Inv wg -> w_chunks wg.1 !! c = Some k ->
  step_ok i (ChStore ChRef c n) l wg (fun _ _ wg' => Rely i wg wg').
Proof.
  intros Hi Hk. destruct wg as [w g]. unfold step_ok, ih, instr, strict, mm_h, on_chunk.
  simpl in *. rewrite Hk. cbn.
  destruct (heap_ref MI DI CS c k n (w, g)) as [Hh Hg]; [apply Hi | done |].
  destruct (heap_step i _ _ Hi Hh (fun j _ => Hg j) eq_refl eq_refl) as [Hi' Hg'].
  split; [done |]. split; [done |]. split; [reflexivity | apply Hg].
Qed.

Lemma op_ck_store_ref i c s a n l wg : Inv wg -> Ck DI CS c s a wg.1 ->
  step_ok i (ChStore ChRef c n) l wg (fun _ _ wg' => Rely i wg wg').
Proof. intros Hi (k & Hk & _). by eapply op_ch_store_ref. Qed.

Lemma op_free_chunk i c k l wg : Inv wg -> Own i c k wg -> mapping k < 2 ->
  step_ok i (FreeChunk c) l wg (fun _ _ wg' => same_rest wg wg').
Proof.
  intros Hi Ho Hm. pose proof Ho as (Ho1 & k' & Hk' & E).
  destruct wg as [w g]. unfold step_ok, ih, instr, strict, mm_h. simpl in *.
  destruct (heap_build MI DI CS i c (delete c) (w, g)) as [Hh Hg].
  { apply Hi. }
  { done. }
  { eapply unpublished; [apply Hi | done | done]. }
  { by eexists. }
  { intros c' Hc. simpl. by rewrite lookup_delete_ne. }
  destruct (heap_step i _ _ Hi Hh Hg eq_refl eq_refl) as [Hi' Hg'].
  done.
Qed.

(** ** System calls *)

Lemma rely_fd i w g w' g' fd : Rely i (w, g) (w', g') ->
  w_fds w !! fd = Some DI -> w_fds w' !! fd = Some DI.
Proof. intros [_ Hr]. apply (hr_fds _ _ _ _ _ Hr). Qed.

(** An operation that finds its name under [mm_h]. *)
Lemma step_ok_live {R} i (e : mmE R) l w g F : names_live e w = true ->
  match mm_h R e (l, w) with
  | Done r (l', w') =>
      Inv (w', g_upd R i e r g) /\ guar Rely i (w, g) (w', g_upd R i e r g) /\
      F r l' (w', g_upd R i e r g)
  | Stopped _ _ => False
  end -> step_ok i e l (w, g) F.
Proof.
  intros Hl H. unfold step_ok, ih, instr. rewrite strict_eq. cbn [snd]. rewrite Hl.
  by destruct (mm_h R e (l, w)) as [r [l' w'] | s [l' w']].
Qed.

Lemma op_mmap i len fd off l wg : Inv wg -> w_fds wg.1 !! fd = Some DI ->
  step_ok i (Mmap len fd off) l wg (fun r _ wg' => Rely i wg wg' /\
    (r = MAP_FAILED \/ 2 <= r /\ w_maps wg'.1 !! r = Some (MkMapping DI off len))).
Proof.
  intros Hi Hfd. destruct wg as [w g]. apply step_ok_live; [by apply bool_decide_eq_true; eexists |]. unfold mm_h, sys_mmap.
  destruct (pop_fault w) as [f w'] eqn:Hp. destruct (idle_pop i w g f w' Hi Hp) as (Hi' & Hg & Hr).
  destruct (fails f || _ || _); simpl.
  { split; [done |]. split; [done |]. split; [done | by left]. }
  rewrite (rely_fd _ _ _ _ _ _ Hr Hfd).
  pose proof (hi_next _ _ _ _ (proj2 (proj2 Hi'))) as Hn. simpl in Hn.
  destruct (heap_map MI DI CS (MkMapping DI off len) (w', g)) as (Hh & Hg2 & Hl); [apply Hi' |].
  destruct (heap_step i _ _ Hi' Hh (fun j _ => Hg2 j) eq_refl eq_refl) as [Hi2 Hg3].
  simpl in *.
  split; [exact Hi2 |]. split; [by eapply guar_trans |]. split.
  - etrans; [done |]. split; [reflexivity | apply Hg2].
  - right. split; [done | exact Hl].
Qed.

(** A change of the data inode, with the core it gives. *)
Lemma on_data_ok i f w g : Inv (w, g) ->
  let w' := set_inodes (alter f DI) w in
  let d := inode_at w DI in
  let c' := MkCore (i_meta (inode_at w MI)) (i_size (f d)) (i_bytes (f d))
              (g_lock g) (g_claims g) (g_budget g) in
  core_inv CS C0 c' -> core_guar i (Core (w, g)) c' ->
  Core (w', g) = c' /\ Inv (w', g) /\ guar Rely i (w, g) (w', g) /\
  heap_rely DI CS i (w, g) (w', g).
Proof.
  intros Hi w' d c' Hc Hg. assert (Core (w', g) = c') as HC.
  { unfold core_of. subst w' c' d. simpl fst. simpl snd.
    destruct Hi as ((_ & Hd & _) & _).
    by rewrite inode_at_alter, inode_at_alter_ne by done. }
  split; [done |]. apply core_step; try done.
  - apply files_ok_alter; [apply Hi | by intros ->].
  - by rewrite HC.
  - by rewrite HC.
Qed.

Lemma op_ftruncate i fd fs n l wg : Inv wg -> w_fds wg.1 !! fd = Some DI ->
  Lk i fs (Core wg) -> 0 <= fs <= n -> n <= 2 ^ 32 ->
  step_ok i (Ftruncate fd n) l wg (fun r _ wg' =>
    (r = -1 /\ Rely i wg wg') \/
    (r = 0 /\ heap_rely DI CS i wg wg' /\ core_keep i (Core wg) (Core wg') /\
     c_lock (Core wg') = Some i /\ file_size (c_md (Core wg')) = fs /\ c_size (Core wg') = n)).
Proof.
  intros Hi Hfd HL Hn Hn2. destruct wg as [w g]. apply step_ok_live; [by apply bool_decide_eq_true; eexists |]. unfold mm_h, sys_ftruncate.
  destruct (pop_fault w) as [f w'] eqn:Hp. destruct (idle_pop i w g f w' Hi Hp) as (Hi' & Hg & Hr).
  destruct (fails f || _); simpl.
  { split; [done |]. split; [done |]. left. done. }
  rewrite (rely_fd _ _ _ _ _ _ Hr Hfd).
  assert (swrap 64 n = n) as Hsw.
  { unfold swrap. rewrite Z.mod_small by lia. lia. }
  rewrite Hsw.
  destruct (core_grow CS C0 HCS i fs n (Core (w', g)) (proj1 (proj2 Hi')))
    as (Hc & Hg2 & Hk & HL2); [| lia |].
  { eapply Lk_stable; [apply Hr | done]. }
  destruct (on_data_ok i (truncate_inode n) w' g Hi') as (HC & Hi2 & Hg3 & Hh2); [done | done |].
  split; [done |]. split; [by eapply guar_trans |]. right. split; [done |].
  split; [etrans; [apply Hr | done] |]. 
  set (wg2 := (set_inodes (alter (truncate_inode n) DI) w', g)) in *.
  assert (c_lock (Core wg2) = Some i /\ file_size (c_md (Core wg2)) = fs /\ c_size (Core wg2) = n)
    as HL3 by (rewrite HC; exact HL2).
  split; [| exact HL3]. rewrite HC.
  destruct Hk as (Hk1 & Hk2 & Hk3). split; [| split].
  - intros b cl m HM. apply Hk1. eapply Me_stable; [apply Hr | done].
  - intros e He. apply Hk2. eapply FsGe_stable; [apply Hr | done].
  - intros Hpk. apply Hk3. by eapply cr_panicked; [apply Hr |].
Qed.

Lemma op_pwrite i fd data pos b cl m l wg : Inv wg -> w_fds wg.1 !! fd = Some DI ->
  Me i b cl m (Core wg) -> 0 <= pos ->
  (forall p, pos <= p < pos + zlen data -> owns i cl p) ->
  FsGe (pos + zlen data) (Core wg) ->
  step_ok i (Pwrite fd data pos) l wg (fun r _ wg' => heap_rely DI CS i wg wg' /\
    exists m', Me i b cl m' (Core wg') /\
      (forall p, ~ pos <= p < pos + zlen data -> m' !! p = m !! p) /\
      (r = zlen data -> m' = put_bytes pos data m) /\ -1 <= r <= zlen data).
Proof.
  intros Hi Hfd HM Hpos Hown Hfs.
  destruct wg as [w g]. apply step_ok_live; [by apply bool_decide_eq_true; eexists |]. unfold mm_h, sys_pwrite.
  destruct (pop_fault w) as [f w'] eqn:Hp. destruct (idle_pop i w g f w' Hi Hp) as (Hi' & Hg & Hr).
  assert (Hsz : file_size (c_md (Core (w, g))) <= c_size (Core (w', g))).
  { pose proof (cr_size _ _ _ (proj1 Hr)). pose proof (ci_size _ _ _ (proj1 (proj2 Hi'))). lia. }
  pose proof (Me_stable _ _ _ _ _ _ (proj1 Hr) HM) as HM'.
  assert (forall d, zlen d <= zlen data ->
    let wg' := (set_inodes (alter (write_inode pos d) DI) w', g) in
    Inv wg' /\ guar Rely i (w', g) wg' /\ heap_rely DI CS i (w', g) wg' /\
    Me i b cl (put_bytes pos d m) (Core wg')) as Hw.
  { intros d Hd. pose proof (zlen_nonneg d). unfold FsGe in Hfs.
    destruct (core_write CS C0 i pos d (Core (w', g)) (proj1 (proj2 Hi'))) as (Hc & Hg2 & Hme).
    { intros p Hpp. destruct HM' as (_ & Hcl & _). destruct (Hown p) as (s & n & Hin & Hsp); [lia |].
      exists s, n. split; [| done]. apply my_claims_in. by rewrite Hcl. }
    { lia. }
    destruct (on_data_ok i (write_inode pos d) w' g Hi') as (HC & Hi2 & Hg3 & Hh2).
    { simpl in *. rewrite Z.max_l by lia. exact Hc. }
    { simpl in *. rewrite Z.max_l by lia. exact Hg2. }
    split; [done |]. split; [done |]. split; [done |]. rewrite HC. simpl in *.
    rewrite Z.max_l by lia. by apply Hme. }
  assert (Inv (w', g) /\ guar Rely i (w, g) (w', g) /\ heap_rely DI CS i (w, g) (w', g) /\
    exists m', Me i b cl m' (Core (w', g)) /\
      (forall p, ~ pos <= p < pos + zlen data -> m' !! p = m !! p) /\
      (-1 = zlen data -> m' = put_bytes pos data m) /\ -1 <= -1 <= zlen data) as Hnone.
  { split; [done |]. split; [done |]. split; [apply Hr |]. exists m. split; [done |].
    split; [done |]. pose proof (zlen_nonneg data). split; lia. }
  assert (forall k, Inv (set_inodes (alter (write_inode pos (take k data)) DI) w', g) /\
    guar Rely i (w, g) (set_inodes (alter (write_inode pos (take k data)) DI) w', g) /\
    heap_rely DI CS i (w, g) (set_inodes (alter (write_inode pos (take k data)) DI) w', g) /\
    exists m', Me i b cl m' (Core (set_inodes (alter (write_inode pos (take k data)) DI) w', g)) /\
      (forall p, ~ pos <= p < pos + zlen data -> m' !! p = m !! p) /\
      (zlen (take k data) = zlen data -> m' = put_bytes pos data m) /\
      -1 <= zlen (take k data) <= zlen data) as Hsome.
  { intros k. assert (zlen (take k data) <= zlen data) as Hk.
    { unfold zlen. rewrite length_take. lia. }
    destruct (Hw (take k data) Hk) as (Hi2 & Hg2 & Hh2 & Hm2).
    split; [done |]. split; [by eapply guar_trans |]. split; [etrans; [apply Hr | done] |].
    eexists. split; [done |]. split.
    - intros p Hpp. rewrite put_bytes_lookup, decide_False by lia. done.
    - pose proof (zlen_nonneg (take k data)). split; [| lia].
      intros Hl. f_equal. apply take_ge. unfold zlen in Hl. rewrite length_take in Hl. lia. }
  simpl. destruct (swrap 64 pos <? 0); [done |].
  rewrite (rely_fd _ _ _ _ _ _ Hr Hfd). destruct f as [| | k]; simpl; [| done | by apply Hsome].
  pose proof (Hsome (length data)) as Hs. by rewrite firstn_all in Hs.
Qed.

Lemma op_store_byte i a s len off v b cl m l wg : Inv wg ->
  w_maps wg.1 !! a = Some (MkMapping DI s len) -> 0 <= off < page_end len ->
  Me i b cl m (Core wg) -> owns i cl (s + off) -> FsGe (s + off + 1) (Core wg) ->
  step_ok i (StoreByte a off v) l wg (fun _ _ wg' => heap_rely DI CS i wg wg' /\
    FsGe (s + off + 1) (Core wg') /\ file_size (c_md (Core wg')) = file_size (c_md (Core wg)) /\
    Me i b cl (<[s + off := v]> m) (Core wg')).
Proof.
  intros Hi Hm Hoff HM Hown Hfs.
  destruct wg as [w g]. unfold step_ok, ih, instr, strict, mm_h, store_byte. simpl in Hm. rewrite Hm. simpl.
  rewrite (proj2 (Z.ltb_ge _ _)), (proj2 (Z.leb_gt _ _)) by lia. simpl.
  pose proof Hi as ((_ & [d Hd] & _) & Hc & _). pose proof (ci_size _ _ _ Hc) as Hsz.
  unfold FsGe in Hfs. simpl in Hd. rewrite Hd.
  assert (i_size d = c_size (Core (w, g))) as Hsd.
  { unfold core_of, inode_at. simpl. by rewrite Hd. }
  rewrite (proj2 (Z.ltb_lt _ _)) by lia.
  destruct (core_write CS C0 i (s + off) [v] (Core (w, g)) Hc) as (Hc2 & Hg2 & Hme).
  { intros p Hpp. rewrite zlen_cons, zlen_nil in Hpp. replace p with (s + off) by lia.
    destruct Hown as (s' & n & Hin & Hsp). exists s', n. split; [| done].
    destruct HM as (_ & Hcl & _). apply my_claims_in. by rewrite Hcl. }
  { rewrite zlen_cons, zlen_nil. lia. }
  destruct (on_data_ok i (fun d => MkInode (i_size d) (<[s + off := v]> (i_bytes d)) (i_tail d) (i_meta d))
    w g Hi) as (HC & Hi2 & Hg3 & Hh2); [done | done |].
  assert (set_inodes <[DI := MkInode (i_size d) (<[s + off := v]> (i_bytes d)) (i_tail d) (i_meta d)]> w =
    set_inodes (alter (fun d => MkInode (i_size d) (<[s + off := v]> (i_bytes d)) (i_tail d) (i_meta d)) DI) w)
    as ->.
  { unfold set_inodes. f_equal. apply map_eq. intros k. destruct (decide (k = DI)) as [-> |].
    - by rewrite lookup_insert_eq, lookup_alter_eq, Hd.
    - by rewrite lookup_insert_ne, lookup_alter_ne. }
  set (wg2 := (set_inodes _ w, g)) in *.
  assert (file_size (c_md (Core wg2)) = file_size (c_md (Core (w, g)))) as Hfz by (by rewrite HC).
  split; [done |]. split; [done |]. split; [done |].
  split; [unfold FsGe; rewrite Hfz; exact Hfs |]. split; [exact Hfz |]. rewrite HC. by apply Hme.
Qed.
(** ** Chaining operations *)

Lemma step_ok_mono {R} i (e : mmE R) l wg F (F' : R -> mmlog_err_t -> gw -> Prop) :
  step_ok i e l wg F ->
  (forall r l' wg', Inv wg' -> F r l' wg' -> F' r l' wg') -> step_ok i e l wg F'.
Proof.
  unfold step_ok. intros H HF. destruct (ih i R e (l, wg)) as [r [l' wg'] |]; [| done].
  destruct H as (? & ? & ?). auto.
Qed.

Lemma safe_step' {A R} i (e : mmE R) (f : R -> mm A) Q l wg :
  (forall wg', Rely i wg wg' -> Inv wg' ->
     step_ok i e l wg' (fun r l' wg'' => Safe i (f r) Q l' wg'')) ->
  Safe i (bind (trigger e) f) Q l wg.
Proof. intros H. by eapply safe_step; [exact H |]. Qed.
End Ops.
