(* ===== verification/MmlogWait.v ===== *)
(** * mmlog.h: the wait loop

    [ms_since_epoch_monotonic] and [hot_wait_for_cond] under any invariant and rely that let the
    clock alone: a wait that is given enough fuel for its timeout ends, either because its
    callback answered true or because the time is over. *)
From stdpp Require Import base gmap sets list strings relations.
From Stdlib Require Import ZArith Lia.
From S2P Require Import Prelude Prog Conc MmlogTypes MmlogOs MmlogOpen.

#[local] Arguments safe : simpl never.
#[local] Arguments bind : simpl never.
#[local] Arguments trigger : simpl never.
#[local] Arguments loop : simpl never.
#[local] Arguments Z.ltb : simpl never.

(** The clock in milliseconds, as [ms_since_epoch_monotonic] computes it. *)
Definition clock_ms (ck : nat -> option (Z * Z)) (n : nat) : Z :=
  match ck n with
  | Some (sec, nsec) => sec * 1000 + nsec / 1000000
  | None => -1
  end.

(** From any read of the clock, [N] reads later the timeout has passed. *)
Definition clock_ok (N : nat) (ck : nat -> option (Z * Z)) : Prop :=
  forall n k, (N <= k)%nat -> SLEEP_TIME_MAX_MS <= clock_ms ck (n + k) - clock_ms ck n.

(** A system whose states hold a [world] with its clock, in which a thread can set its errno,
    yield, and read the clock. *)
Record timed {W} (h : nat -> handler mmE (mmlog_err_t * W)) (inv : W -> Prop)
    (rely : nat -> W -> W -> Prop) (wd : W -> world) : Prop := {
  tm_clock : forall i w w', rely i w w' -> w_clock (wd w') = w_clock (wd w);
  tm_reads : forall i w w', rely i w w' -> (w_reads (wd w) <= w_reads (wd w'))%nat;
  tm_errno : forall i e l w, inv w -> h i _ (SetErrno e) (l, w) = Done tt (e, w);
  tm_yield : forall i l w, inv w -> h i _ SchedYield (l, w) = Done tt (l, w);
  tm_tick : forall i l w, inv w -> exists w',
    h i _ ClockGettime (l, w) = Done (w_clock (wd w) (w_reads (wd w))) (l, w') /\
    inv w' /\ guar rely i w w' /\ rely i w w' /\ w_reads (wd w') = S (w_reads (wd w)) }.

Section Wait.
Context {W : Type} (h : nat -> handler mmE (mmlog_err_t * W)) (inv : W -> Prop).
Context (rely : nat -> W -> W -> Prop) `{rely_pre : !RelyPre rely} (wd : W -> world) (i : nat).
Context (Ht : timed h inv rely wd).
#[local] Existing Instance rely_preorder.

Abbreviation Safe := (safe h inv rely).

(** Setting the errno. *)
Lemma timed_errno {A} e (f : mm A) Q l w :
  (forall w', rely i w w' -> inv w' -> Safe i f Q e w') ->
  Safe i (bind (set_errno e) (fun _ => f)) Q l w.
Proof using Ht rely_pre.
  intros Hf. apply safe_read; [done |]. intros w' Hr Hi. rewrite (tm_errno _ _ _ _ Ht) by done. auto.
Qed.

(** Reading the clock: some read [n], no earlier than the current count. *)
Lemma timed_ms {A} (f : Z -> mm A) Q l w : inv w ->
  (forall n l' w', rely i w w' -> inv w' -> (w_reads (wd w) <= n < w_reads (wd w'))%nat ->
     Safe i (f (clock_ms (w_clock (wd w)) n)) Q l' w') ->
  Safe i (bind ms_since_epoch_monotonic f) Q l w.
Proof using Ht rely_pre.
  intros Hi Hf. eapply (safe_seq _ _ _ _ _ _ (fun t (_ : mmlog_err_t) w' => rely i w w' /\ exists n,
    (w_reads (wd w) <= n < w_reads (wd w'))%nat /\ t = clock_ms (w_clock (wd w)) n)); [done | |].
  - unfold ms_since_epoch_monotonic. apply safe_trigger. intros w1 Hr1 Hi1.
    destruct (tm_tick _ _ _ _ Ht i l w1 Hi1) as (w2 & -> & Hi2 & Hg & Hr2 & Hn).
    split; [done |]. split; [done |].
    assert (forall w3, rely i w2 w3 ->
      rely i w w3 /\ exists n, (w_reads (wd w) <= n < w_reads (wd w3))%nat /\
        clock_ms (w_clock (wd w1)) (w_reads (wd w1)) = clock_ms (w_clock (wd w)) n) as Hq.
    { intros w3 Hr3. split; [etrans; [done |]; by etrans |]. exists (w_reads (wd w1)).
      rewrite (tm_clock _ _ _ _ Ht _ _ _ Hr1). pose proof (tm_reads _ _ _ _ Ht _ _ _ Hr1).
      pose proof (tm_reads _ _ _ _ Ht _ _ _ Hr3). split; [lia | done]. }
    unfold clock_ms at 1 in Hq. destruct (w_clock (wd w1) (w_reads (wd w1))) as [[sec ns] |].
    + intros w3 Hw _. by apply Hq.
    + apply timed_errno. intros w3 Hr3 Hi3 w4 Hw _. apply Hq. by transitivity w3.
  - intros t l' w' Hi' (Hr & n & Hn & ->). by apply Hf.
Qed.

(** The wait loop: [P] is kept, for the current argument, while the callback
    answers false. *)
Lemma timed_wait {S} (N fuel : nat) (fn : S -> mm (bool * S)) arg (P : S -> W -> Prop)
    (Q : bool -> S -> W -> Prop) l w : (N + 3 <= fuel)%nat ->
  (forall b a, stable inv rely i (Q b a)) -> (forall a, stable inv rely i (P a)) ->
  (forall arg l w, inv w -> P arg w ->
     Safe i (fn arg) (fun r _ w' => if r.1 then Q true r.2 w' else P r.2 w') l w) ->
  (forall a w, P a w -> Q false a w) ->
  clock_ok N (w_clock (wd w)) -> inv w -> P arg w ->
  Safe i (hot_wait_for_cond fuel fn arg SLEEP_TIME_MAX_MS) (fun r _ w' => Q r.1 r.2 w') l w.
Proof using Ht rely_pre.
  intros Hfuel HQ HP Hfn Hpq Hck Hi Hw. unfold hot_wait_for_cond.
  apply timed_ms; [done |]. intros n0 l1 w1 Hr1 Hi1 Hn0. set (ck := w_clock (wd w)) in *.
  assert (w_clock (wd w1) = ck) as Hck1 by apply (tm_clock _ _ _ _ Ht _ _ _ Hr1).
  apply (safe_loop _ _ _ _ _ _ (fun n c _ x => P c.2 x /\ w_clock (wd x) = ck /\
    exists j k, (n + j = fuel)%nat /\ (j <= N)%nat /\ (n0 + j <= k)%nat /\
      (k + 1 <= w_reads (wd x))%nat /\ c.1 = clock_ms ck k)).
  { intros s l2 x (_ & _ & j & k & Hj & Hj2 & _). lia. }
  2: done.
  2: { split; [by apply (HP _ w) |]. split; [done |]. exists 0%nat, n0. simpl. repeat split; lia. }
  intros n [cur a] l2 w2 Hi2 (HP2 & Hck2 & j & k & Hj & Hj2 & Hk & Hk2 & Hcur).
  unfold hot_wait_step. cbn [fst snd] in *. case_if.
  - eapply (safe_seq h inv rely _ _ _ (fun (r : bool * S) (_ : mmlog_err_t) x => (if r.1 then Q true r.2 x else P r.2 x) /\
      w_clock (wd x) = ck /\ (k + 1 <= w_reads (wd x))%nat)); [done | |].
    { apply safe_keep; [| done | by apply Hfn]. intros j' x x' Hr _ [Hc Hn].
      rewrite (tm_clock _ _ _ _ Ht _ _ _ Hr). pose proof (tm_reads _ _ _ _ Ht _ _ _ Hr).
      split; [done | lia]. }
    intros [ok a'] l3 w3 Hi3 (Hq3 & Hck3 & Hn3). cbn [fst snd] in *. destruct ok.
    + apply safe_ret; [by apply safe_ret; [| apply HQ] |].
      intros x x' Hr _ Hs. by eapply (safe_rely h inv rely).
    + apply safe_read; [done |]. intros w4 Hr4 Hi4. rewrite (tm_yield _ _ _ _ Ht) by done. split; [done |].
      apply timed_ms; [done |]. intros k' l5 w5 Hr5 Hi5 Hk'.
      rewrite (tm_clock _ _ _ _ Ht _ _ _ Hr4), Hck3.
      pose proof (tm_reads _ _ _ _ Ht _ _ _ Hr4).
      assert (j < N)%nat as HjN.
      { destruct (decide (j < N)%nat) as [|Hge]; [done |].
        specialize (Hck n0 (k - n0)%nat ltac:(lia)). replace (n0 + (k - n0))%nat with k in Hck by lia.
        lia. }
      apply safe_ret.
      * split; [apply (HP _ w4); [done | done |]; by apply (HP _ w3) |].
        rewrite (tm_clock _ _ _ _ Ht _ _ _ Hr5), (tm_clock _ _ _ _ Ht _ _ _ Hr4), Hck3.
        split; [done |]. exists (j + 1)%nat, k'. simpl. repeat split; lia.
      * intros x x' Hr Hi' (Hp & Hc & j' & k2 & ? & ? & ? & ? & ?). split; [by eapply HP |].
        rewrite (tm_clock _ _ _ _ Ht _ _ _ Hr). split; [done |].
        pose proof (tm_reads _ _ _ _ Ht _ _ _ Hr). exists j', k2. repeat split; try done; lia.
  - apply safe_ret; [by apply safe_ret; [apply Hpq | apply HQ] |].
    intros x x' Hr _ Hs. by eapply (safe_rely h inv rely).
Qed.
End Wait.
