(* ===== verification/MmlogConc.v ===== *)
(** * mmlog.h: concurrent insertion

    Rely-guarantee specifications of the functions on the insert path, up
    to [mmlog_insert], for a thread [i] that works on handle [h]. *)
From stdpp Require Import base gmap sets list strings relations.
From Stdlib Require Import ZArith Lia.
From S2P Require Import Prelude Prog Conc MmlogTypes MmlogOs MmlogOpen MmlogRing MmlogInsert.
From S2P Require Import MmlogInv MmlogOps MmlogWait.

#[local] Arguments safe : simpl never.
#[local] Arguments bind : simpl never.
#[local] Arguments trigger : simpl never.
#[local] Arguments loop : simpl never.
#[local] Arguments Z.eqb : simpl never.
#[local] Arguments Z.ltb : simpl never.
#[local] Arguments Z.leb : simpl never.

Section Threads.
Context (MI DI CS C0 : Z) (HCS : 0 < CS < 2 ^ 32) (HCSp : CS mod 4096 = 0) (HMD : MI <> DI).
Context (i : nat) (h md fd cap : Z).
(** The clock advances by the timeout within [N] reads, and the loops have
    fuel for as many iterations. *)
Context (N fuel : nat) (Hfuel : (N + 3 <= fuel)%nat).

Abbreviation Inv := (inv MI DI CS C0).
Abbreviation Rely := (rely MI DI CS).
Abbreviation Core := (core_of MI DI).
Abbreviation Safe := (safe ih Inv Rely).
Abbreviation stepok := (step_ok MI DI CS C0).

(** What thread [i] knows between operations: its part of the core, that the
    file has [e] bytes, and the fields of its handle. *)
Record K (b : Z) (cl : list (nat * Z * Z)) (m : gmap Z Z) (e : Z) (wg : gw) : Prop := {
  k_me : Me i b cl m (Core wg);
  k_fs : FsGe e (Core wg);
  k_hd : Hd h md fd cap wg.1;
  k_fd : w_fds wg.1 !! fd = Some DI;
  k_clock : clock_ok N (w_clock wg.1) }.

Definition Pan (wg : gw) : Prop := is_panicked (c_md (Core wg)) = true.

Lemma K_rely b cl m e wg wg' : Rely i wg wg' -> K b cl m e wg -> K b cl m e wg'.
Proof.
  intros [Hc Hh] []. split.
  - by eapply Me_stable.
  - by eapply FsGe_stable.
  - by eapply Hd_stable.
  - by eapply hr_fds.
  - by rewrite (hr_clock _ _ _ _ _ Hh).
Qed.

Lemma K_keep b cl m e wg wg' : heap_rely DI CS i wg wg' -> core_keep i (Core wg) (Core wg') ->
  K b cl m e wg -> K b cl m e wg'.
Proof.
  intros Hh (Hk1 & Hk2 & _) []. split; auto.
  - by eapply Hd_stable.
  - by eapply hr_fds.
  - by rewrite (hr_clock _ _ _ _ _ Hh).
Qed.

Lemma K_rest b cl m e wg wg' : same_rest MI DI wg wg' -> K b cl m e wg -> K b cl m e wg'.
Proof.
  intros (HC & _ & Hf & Hh & Hck) []. split; rewrite ?HC, ?Hf, ?Hck; try done.
  unfold Hd in *. by rewrite Hh.
Qed.

Lemma K_weaken b cl m e e' wg : FsGe e' (Core wg) -> K b cl m e wg -> K b cl m e' wg.
Proof. intros Hf []. by split. Qed.

Lemma Lk_rely fs wg wg' : Rely i wg wg' -> Lk i fs (Core wg) -> Lk i fs (Core wg').
Proof. intros [Hc _]. by apply Lk_stable. Qed.

(** The file lock is held between the two halves of a growth. *)
Definition Held (fs n : Z) (wg : gw) : Prop :=
  c_lock (Core wg) = Some i /\ file_size (c_md (Core wg)) = fs /\ c_size (Core wg) = n.

Lemma Held_rely fs n wg wg' : Rely i wg wg' -> Held fs n wg -> Held fs n wg'.
Proof.
  intros [Hc _] (Hl & Hf & Hs). destruct (cr_held _ _ _ Hc Hl) as [E1 E2].
  split; [by apply (cr_lock _ _ _ Hc) |]. split; congruence.
Qed.

Lemma FsGe_rely e wg wg' : Rely i wg wg' -> FsGe e (Core wg) -> FsGe e (Core wg').
Proof. intros [Hc _]. by eapply FsGe_stable. Qed.

Lemma Pan_rely wg wg' : Rely i wg wg' -> Pan wg -> Pan wg'.
Proof. intros [Hc _]. by apply (cr_panicked _ _ _ Hc). Qed.

Lemma Ck_rely c s a wg wg' : Rely i wg wg' -> Ck DI CS c s a wg.1 -> Ck DI CS c s a wg'.1.
Proof. intros [_ Hh]. by eapply Ck_stable. Qed.

Lemma pub_rely c wg wg' : Rely i wg wg' -> published DI CS c wg.1 -> published DI CS c wg'.1.
Proof. intros [_ Hh]. by eapply published_stable. Qed.

Lemma Own_rely c k wg wg' : Rely i wg wg' -> Own i c k wg -> Own i c k wg'.
Proof. intros [_ Hh]. by eapply Own_stable. Qed.

(** A result that is [NULL] or a chunk in use that maps the file from [s]. *)
Definition chunk_at (s c : Z) (wg : gw) : Prop :=
  c = NULL \/ 2 <= c /\ exists a, Ck DI CS c s a wg.1.

Lemma chunk_at_rely s c wg wg' : Rely i wg wg' -> chunk_at s c wg -> chunk_at s c wg'.
Proof. intros Hr [-> | (? & a & Hc)]; [by left | right]. split; [done |]. exists a. by apply (Ck_rely _ _ _ _ _ Hr). Qed.

(** Carry every known fact along an interference or a step. *)
Ltac fwd :=
  cbv beta in *;
  repeat match goal with
  | Hr : Rely i ?w ?w', H : K _ _ _ _ ?w |- _ => apply (K_rely _ _ _ _ _ _ Hr) in H
  | Hr : Rely i ?w ?w', H : Lk i _ (Core ?w) |- _ => apply (Lk_rely _ _ _ Hr) in H
  | Hr : Rely i ?w ?w', H : FsGe _ (Core ?w) |- _ => apply (FsGe_rely _ _ _ Hr) in H
  | Hr : Rely i ?w ?w', H : chunk_at _ _ ?w |- _ => apply (chunk_at_rely _ _ _ _ Hr) in H
  | Hr : Rely i ?w ?w', H : Held _ _ ?w |- _ => apply (Held_rely _ _ _ _ Hr) in H
  | Hr : Rely i ?w ?w', H : Pan ?w |- _ => apply (Pan_rely _ _ Hr) in H
  | Hr : Rely i ?w ?w', H : Ck DI CS _ _ _ (fst ?w) |- _ => apply (Ck_rely _ _ _ _ _ Hr) in H
  | Hr : Rely i ?w ?w', H : published DI CS _ (fst ?w) |- _ => apply (pub_rely _ _ _ Hr) in H
  | Hr : Rely i ?w ?w', H : Own i _ _ ?w |- _ => apply (Own_rely _ _ _ _ Hr) in H
  end.

(** Interference, then the operation at the head of the program. *)
Ltac sstep :=
  apply (safe_step' MI DI CS C0);
  let wg := fresh "wx" in let Hr := fresh "Rx" in let Hi := fresh "Ix" in
  intros wg Hr Hi; fwd; eapply step_ok_mono.

(** A fact that is kept along every rely step. *)
Ltac stably := let w := fresh "w" in let w' := fresh "w'" in let Hr := fresh "Hr" in
  intros w w' Hr ?; fwd.

(** Interference, then the operation whose lemma is [lem]. *)
Ltac op lem :=
  sstep; [solve [eapply lem; first
    [ eassumption | lia
    | match goal with HK : K _ _ _ _ ?w |- _ => apply HK end ]] |].

Lemma ih_timed : timed ih Inv Rely fst.
Proof.
  split.
  - intros j w w' [_ Hr]. apply (hr_clock _ _ _ _ _ Hr).
  - intros j w w' [_ Hr]. apply (hr_reads _ _ _ _ _ Hr).
  - by intros j e l [w g] _.
  - by intros j l [w g] _.
  - intros j l [w g] Hi. exists (bump_reads w, g). split; [done |].
    destruct (op_clock MI DI CS C0 j l _ Hi) as (Hi' & Hg & Hr & _ & Hn). done.
Qed.

Lemma safe_errno {A} e (f : mm A) Q l wg :
  (forall wg', Rely i wg wg' -> Inv wg' -> Safe i f Q e wg') ->
  Safe i (bind (set_errno e) (fun _ => f)) Q l wg.
Proof. apply (timed_errno _ _ _ _ _ ih_timed). Qed.

(** The wait loop: [P] is kept, for the current argument, while the callback
    answers false. *)
Lemma hot_wait_safe {S} (fn : S -> mm (bool * S)) arg (P : S -> gw -> Prop)
    (Q : bool -> gw -> Prop) l wg :
  (forall b, stable Inv Rely i (Q b)) -> (forall a, stable Inv Rely i (P a)) ->
  (forall arg l wg, Inv wg -> P arg wg ->
     Safe i (fn arg) (fun r _ wg' => if r.1 then Q true wg' else P r.2 wg') l wg) ->
  (forall a wg, P a wg -> Q false wg) ->
  clock_ok N (w_clock wg.1) -> Inv wg -> P arg wg ->
  Safe i (hot_wait_for_cond fuel fn arg SLEEP_TIME_MAX_MS) (fun r _ wg' => Q r.1 wg') l wg.
Proof.
  intros HQ. apply (timed_wait _ _ _ fst i ih_timed N fuel fn arg P (fun b _ => Q b) l wg Hfuel).
  intros b _. apply HQ.
Qed.

(** ** Growing the file *)

(** After an attempt to grow the file to [e']: on success it has [e'] bytes,
    or the log has panicked. *)
Definition Grown b cl m e' (ok : bool) (wg : gw) : Prop :=
  K b cl m 0 wg /\ (ok = true -> FsGe e' (Core wg) \/ Pan wg).

Lemma Grown_stable b cl m e' ok : stable Inv Rely i (Grown b cl m e' ok).
Proof.
  intros w w' Hr _ [HK Hg]. fwd. split; [done |]. intros Hok.
  destruct (Hg Hok); fwd; auto.
Qed.

Lemma K_stable b cl m e : stable Inv Rely i (K b cl m e).
Proof. intros w w' Hr _ HK. by fwd. Qed.

Lemma Pan_keep wg wg' : core_keep i (Core wg) (Core wg') -> Pan wg -> Pan wg'.
Proof. intros (_ & _ & Hp). exact Hp. Qed.

Lemma FsGe_keep e wg wg' : core_keep i (Core wg) (Core wg') -> FsGe e (Core wg) ->
  FsGe e (Core wg').
Proof. intros (_ & Hf & _). apply Hf. Qed.

(** Releasing the file lock at the end of [file_expand_inner]. *)
Lemma unlock_safe b cl m e' fs (args : file_expand_args_t) (f : mm (bool * file_expand_args_t)) l wg :
  Inv wg -> K b cl m 0 wg -> Lk i fs (Core wg) -> e' <= fs \/ Pan wg ->
  (forall l' wg', Inv wg' -> Grown b cl m e' true wg' ->
     Safe i f (fun r _ wg' => Grown b cl m e' r.1 wg' /\ r.2 = args) l' wg') ->
  Safe i (trigger (MdStore MdLocked md false) ;; f)
    (fun r _ wg' => Grown b cl m e' r.1 wg' /\ r.2 = args) l wg.
Proof.
  intros Hi HK HL He Hf.
  assert (FsGe e' (Core wg) \/ Pan wg) as Hg.
  { destruct He as [He |]; [left | by right]. destruct HL as (_ & Hfs & _).
    unfold FsGe. lia. }
  clear He. op op_unlock.
  intros _ l' wg2 Hi2 [Hh Hk]. apply Hf; [done |]. split.
  - by eapply K_keep.
  - intros _. destruct Hg as [Hg | Hg]; fwd; [left; by eapply FsGe_keep | right; by eapply Pan_keep].
Qed.

Lemma errno_ret_safe {A} e (a : A) (Q : A -> mmlog_err_t -> gw -> Prop) l wg :
  (forall l, stable Inv Rely i (Q a l)) -> (forall l, Q a l wg) ->
  Safe i (set_errno e ;; Ret a) Q l wg.
Proof.
  intros HQ Hq. apply safe_errno. intros wg' Hr Hi. apply safe_ret; [| done].
  by apply (HQ _ wg).
Qed.

(** The part of [file_expand_inner] that runs with the lock held and the file
    too short. *)
Lemma grow_safe b cl m e' fs (args : file_expand_args_t) l wg :
  Inv wg -> K b cl m 0 wg -> Lk i fs (Core wg) -> 0 <= fs < e' -> e' <= LIMIT CS ->
  Safe i (chunk_size <- trigger (MdLoad MdChunkSize md) ;;
          data_fd <- trigger (HLoad HDataFd h) ;;
          r <- trigger (Ftruncate data_fd (ALIGN e' chunk_size)) ;;
          if -1 =? r
          then trigger (MdStore MdPanicked md true) ;;
               trigger (MdStore MdLocked md false) ;;
               set_errno FILE_EXPAND_INNER_GROW ;;
               Ret (true, args)
          else trigger (MdStore MdFileSize md (ALIGN e' chunk_size)) ;;
               trigger (MdStore MdLocked md false) ;;
               Ret (true, args))
    (fun r _ wg' => Grown b cl m e' r.1 wg' /\ r.2 = args) l wg.
Proof.
  intros Hi HK HL Hfs He. unfold LIMIT in He.
  assert (forall _ : mmlog_err_t, stable Inv Rely i (fun wg' =>
    Grown b cl m e' (true, args).1 wg' /\ (true, args).2 = args)) as Hst.
  { intros _ w w' Hr Hi' [Hg _]. split; [by eapply Grown_stable | done]. }
  op @op_md_load. intros cs l1 wg1 Hi1 (-> & Hcs). cbn [md_get] in Hcs.
  assert (cs = CS) as ->. { destruct Hi1 as (_ & Hc & _). by rewrite Hcs, (ci_chunk _ _ _ Hc). }
  destruct (align_bounds e' CS) as [Ha1 Ha2]; [lia | lia | lia |].
  op @op_hload. intros fd' l2 wg2 Hi2 (-> & x & _ & -> & _ & Hfd & _).
  simpl. rewrite Hfd. clear Hfd x.
  op op_ftruncate.
  intros r l3 wg3 Hi3 [[-> Hr3] | (-> & Hh3 & Hk3 & HL3)]; simpl.
  - fwd. op op_store_panicked. intros _ l4 wg4 Hi4 (Hh4 & Hk4 & Hp4 & HL4).
    apply (K_keep _ _ _ _ _ _ Hh4 Hk4) in HK.
    eapply unlock_safe; [done | done | done | by right |].
    intros l5 wg5 Hi5 Hg5. by apply errno_ret_safe.
  - apply (K_keep _ _ _ _ _ _ Hh3 Hk3) in HK.
    change (Held fs (ALIGN e' CS) wg3) in HL3. clear HL.
    sstep; [destruct HL3 as (Hl3 & Hf3 & Hs3);
            eapply op_store_size; [done | done | done | apply HK | done | done | done | lia] |].
    intros _ l4 wg4 Hi4 (Hh4 & Hk4 & HL4).
    apply (K_keep _ _ _ _ _ _ Hh4 Hk4) in HK.
    eapply unlock_safe; [done | done | done | by left |].
    intros l5 wg5 Hi5 Hg5. apply safe_ret; [done | by apply Hst].
Qed.

(** One attempt at the file lock, and the growth if it is taken. A failed
    attempt changes nothing the thread knows. *)
Lemma expand_inner_safe b cl m e' l wg :
  Inv wg -> K b cl m 0 wg -> e' <= LIMIT CS ->
  Safe i (file_expand_inner (ExpandArgs h e'))
    (fun r _ wg' => Grown b cl m e' r.1 wg' /\ r.2 = ExpandArgs h e') l wg.
Proof.
  intros Hi HK He. unfold file_expand_inner. simpl expand_handle. simpl expand_end.
  assert (forall ok, stable Inv Rely i (fun wg' =>
    Grown b cl m e' ok wg' /\ (ok, ExpandArgs h e').2 = ExpandArgs h e')) as Hst.
  { intros ok w w' Hr Hi' [Hg _]. split; [by eapply Grown_stable | done]. }
  assert (forall wg', K b cl m 0 wg' -> Grown b cl m e' false wg') as Hno by (by split).
  apply safe_errno. intros wg1 Hr1 Hi1. fwd.
  op @op_hload. intros md' l2 wg2 Hi2 (-> & x & _ & -> & Hmd & _).
  simpl. rewrite Hmd. clear Hmd x.
  op op_cas_locked. intros got l3 wg3 Hi3 (Hh3 & Hk3 & HL3).
  apply (K_keep _ _ _ _ _ _ Hh3 Hk3) in HK. destruct got.
  2: { apply errno_ret_safe; [intros _; apply Hst |]. intros _. split; [by apply Hno | done]. }
  destruct (HL3 eq_refl) as [fs HL]. clear HL3.
  op @op_md_load. intros pan l4 wg4 Hi4 (-> & Hpan). cbn [md_get] in Hpan. destruct pan.
  { apply errno_ret_safe; [intros _; apply Hst |]. intros _. split; [by apply Hno | done]. }
  op @op_md_load. intros fs' l5 wg5 Hi5 (-> & Hfs). cbn [md_get] in Hfs.
  assert (fs' = fs) as -> by (destruct HL as (_ & <- & _); done).
  assert (0 <= fs) as Hfs0.
  { destruct Hi5 as (_ & Hc & _). rewrite Hfs. apply (ci_size _ _ _ Hc). }
  case_if; [by apply (grow_safe _ _ _ _ fs) |].
  eapply unlock_safe; [done | done | done | left; lia |].
  intros l6 wg6 Hi6 Hg6. apply safe_ret; [done | apply Hst].
Qed.

(** Composition: the intermediate assertion is found by unification. *)
Ltac seq lem := eapply (safe_seq ih Inv Rely);
  [ eassumption | eapply lem; try eassumption | ].

Lemma data_file_expand_safe b cl m e' l wg :
  Inv wg -> K b cl m 0 wg -> e' <= LIMIT CS ->
  Safe i (data_file_expand fuel h e')
    (fun r _ wg' => K b cl m (if r : bool then e' else 0) wg') l wg.
Proof.
  intros Hi HK He. unfold data_file_expand. apply safe_errno. intros wg1 Hr1 Hi1. fwd.
  eapply (safe_seq ih Inv Rely _ _ _ (fun r _ wg' => Grown b cl m e' r.1 wg')); [done | |].
  { apply (hot_wait_safe _ _ (fun a wg' => K b cl m 0 wg' /\ a = ExpandArgs h e')
      (fun ok => Grown b cl m e' ok)); try done.
    - apply Grown_stable.
    - intros a w w' Hr _ [HK' Ha]. by fwd.
    - intros a l2 wg2 Hi2 [HK2 ->]. eapply safe_mono; [by apply expand_inner_safe |].
      intros [[] a'] l3 wg3 _; simpl; [by intros [] |]. by intros [[] ->].
    - intros a wg2 [HK2 _]. by split.
    - apply HK. }
  intros [ok a] l2 wg2 Hi2. simpl. intros [HK2 Hg]. destruct ok.
  2: { apply safe_ret; [done | apply K_stable]. }
  specialize (Hg eq_refl). op @op_hload. 
  intros md' l3 wg3 Hi3 (-> & x & _ & -> & Hmd & _). simpl. rewrite Hmd. clear Hmd x.
  assert (FsGe e' (Core wx) \/ Pan wx) as Hg' by (destruct Hg; fwd; auto). clear Hg.
  op @op_md_load. intros pan l4 wg4 Hi4 (-> & Hpan). cbn [md_get] in Hpan.
  destruct pan; simpl.
  { apply safe_ret; [done | apply K_stable]. }
  destruct Hg' as [Hg' | Hg']; fwd; [| unfold Pan in Hg'; congruence].
  apply safe_ret; [by eapply K_weaken | apply K_stable].
Qed.

Lemma Inv_fs wg : Inv wg -> FsGe 0 (Core wg).
Proof. intros (_ & Hc & _). apply (ci_size _ _ _ Hc). Qed.

(** A step that changes the thread's own part of the core. *)
Lemma K_heap b cl m e b' cl' m' e' wg wg' : heap_rely DI CS i wg wg' ->
  Me i b' cl' m' (Core wg') -> FsGe e' (Core wg') -> K b cl m e wg -> K b' cl' m' e' wg'.
Proof.
  intros Hh HM Hf []. split; [done | done | by eapply Hd_stable | by eapply hr_fds |].
  by rewrite (hr_clock _ _ _ _ _ Hh).
Qed.

(** [mmlog_checkout] claims the next [n] bytes of the log; when it succeeds the
    file holds them. *)
Lemma checkout_safe b cl m n l wg :
  Inv wg -> K b cl m 0 wg -> 0 <= n <= b ->
  Safe i (mmlog_checkout fuel h n)
    (fun r _ wg' => exists start, 0 <= start /\ start + n <= LIMIT CS /\
       K (b - n) (cl ++ [(i, start, n)]) m 0 wg' /\
       (r <> LOG_CURSOR_INVALID -> r = start /\ FsGe (start + n) (Core wg'))) l wg.
Proof.
  intros Hi HK Hn. unfold mmlog_checkout. apply safe_errno. intros wg1 Hr1 Hi1. fwd.
  destruct (hd_handle _ _ _ _ _ _ _ _ _ Hi1 (k_hd _ _ _ _ _ HK)) as (x & _ & _ & _ & _ & Hh & _).
  rewrite (proj2 (Z.eqb_neq h NULL)) by done.
  op @op_hload. intros md' l2 wg2 Hi2 (-> & y & _ & -> & Hmd & _). simpl. rewrite Hmd. clear Hmd y.
  assert (2 <= md) as Hmd by (by eapply hd_md_nonnull; [| apply HK]).
  rewrite (proj2 (Z.eqb_neq md NULL)) by (unfold NULL; lia). simpl.
  sstep; [eapply op_fetch_add; [done | done | done | apply HK | apply HK | done] |].
  intros start l3 wg3 Hi3 (Hh3 & Hs0 & Hlim & HM).
  apply (K_heap _ _ _ _ _ _ _ 0 _ _ Hh3 HM (Inv_fs _ Hi3)) in HK. clear HM Hh3.
  assert (forall r (e : Z), stable Inv Rely i (fun wg' => exists start, 0 <= start /\
    start + n <= LIMIT CS /\ K (b - n) (cl ++ [(i, start, n)]) m 0 wg' /\
    (r <> LOG_CURSOR_INVALID -> r = start /\ FsGe (start + n) (Core wg')))) as Hst.
  { intros r e w w' Hr _ (s & ? & ? & HK' & Hs). fwd. exists s. split; [done |].
    split; [done |]. split; [done |]. intros Hne. destruct (Hs Hne). by fwd. }
  assert (u64 (start + n) = start + n) as -> by (unfold LIMIT in *; rewrite wrap_small; lia).
  op @op_md_load. intros fs l4 wg4 Hi4 (-> & Hfs). cbn [md_get] in Hfs. case_if.
  - eapply (safe_seq ih Inv Rely); [done | by apply data_file_expand_safe |].
    intros [] l5 wg5 Hi5 HK5; simpl; apply safe_ret; try apply (Hst _ 0).
    + exists start. split; [done |]. split; [done |]. split; [| by split; [| apply HK5]].
      eapply K_weaken; [by apply Inv_fs | done].
    + exists start. by split.
  - apply safe_ret; [| by apply (Hst _ 0)]. exists start. split; [done |]. split; [done |].
    split; [done |]. split; [done |]. unfold FsGe. lia.
Qed.

(** ** Chunks *)

Lemma safe_metadata {A} (f : Z -> mm A) b cl m e Q l wg : K b cl m e wg ->
  (forall l' wg', Rely i wg wg' -> Inv wg' -> Safe i (f md) Q l' wg') ->
  Safe i (bind (trigger (HLoad HMetadata h)) f) Q l wg.
Proof.
  intros HK Hf. op @op_hload. intros r l' wg' Hi' (-> & x & _ & -> & Hmd & _).
  simpl. rewrite Hmd. by apply Hf.
Qed.

Lemma safe_data_fd {A} (f : Z -> mm A) b cl m e Q l wg : K b cl m e wg ->
  (forall l' wg', Rely i wg wg' -> Inv wg' -> Safe i (f fd) Q l' wg') ->
  Safe i (bind (trigger (HLoad HDataFd h)) f) Q l wg.
Proof.
  intros HK Hf. op @op_hload. intros r l' wg' Hi' (-> & x & _ & -> & _ & Hfd & _).
  simpl. rewrite Hfd. by apply Hf.
Qed.

Lemma safe_capacity {A} (f : Z -> mm A) b cl m e Q l wg : K b cl m e wg ->
  (forall l' wg', Rely i wg wg' -> Inv wg' -> 0 < cap -> Safe i (f cap) Q l' wg') ->
  Safe i (bind (trigger (HLoad HCapacity h)) f) Q l wg.
Proof.
  intros HK Hf. op @op_hload. intros r l' wg' Hi' (-> & x & _ & -> & _ & _ & Hc & _ & Hok).
  simpl. rewrite Hc. apply Hf; try done. rewrite <-Hc. apply (ho_cap _ _ _ _ _ Hok).
Qed.

Lemma safe_chunk_size {A} (f : Z -> mm A) b cl m e Q l wg : K b cl m e wg ->
  (forall l' wg', Rely i wg wg' -> Inv wg' -> Safe i (f CS) Q l' wg') ->
  Safe i (bind (trigger (MdLoad MdChunkSize md)) f) Q l wg.
Proof.
  intros HK Hf. op @op_md_load. intros cs l' wg' Hi' (-> & Hcs). cbn [md_get] in Hcs.
  pose proof Hi' as (_ & Hc & _). rewrite Hcs, (ci_chunk _ _ _ Hc). by apply Hf.
Qed.

(** The tail of the ring is never set, so there is nothing to clean. *)
Lemma clean_chunks_safe b cl m e l wg : Inv wg -> K b cl m e wg ->
  Safe i (clean_chunks fuel h) (fun _ _ wg' => K b cl m e wg') l wg.
Proof.
  intros Hi HK. unfold clean_chunks. apply safe_errno. intros wg1 Hr1 Hi1. fwd.
  destruct (hd_handle _ _ _ _ _ _ _ _ _ Hi1 (k_hd _ _ _ _ _ HK)) as (x & _ & _ & _ & _ & Hh & _).
  rewrite (proj2 (Z.eqb_neq h NULL)) by done.
  op @op_hload. intros bf l2 wg2 Hi2 (-> & y & _ & -> & _ & _ & _ & _ & Hok).
  destruct (ho_slots _ _ _ _ _ Hok) as (bf & Hbf & _). simpl. rewrite Hbf. clear Hok Hbf.
  eapply (safe_loop ih Inv Rely _ _ _ (fun n _ _ wg' => (0 < n)%nat /\ K b cl m e wg'));
    [intros ? ? ? []; lia | | done | split; [lia | done]].
  intros n [] l3 wg3 Hi3 [_ HK3]. unfold clean_chunks_step.
  op @op_hload. intros tl l4 wg4 Hi4 (-> & z & _ & -> & _ & _ & _ & _ & Hok).
  simpl. rewrite (ho_tail _ _ _ _ _ Hok). clear Hok.
  op @op_hload. intros hd l5 wg5 Hi5 (-> & _).
  apply safe_ret; [apply safe_ret; [done | apply K_stable] |].
  intros w w' Hr _ Hs. by eapply (safe_rely ih Inv Rely).
Qed.

Lemma KC_stable b cl m e s c : stable Inv Rely i (fun wg => K b cl m e wg /\ chunk_at s c wg).
Proof. intros w w' Hr _ [HK Hc]. by fwd. Qed.

(** Initialising a field of the chunk the thread is building. *)
Lemma safe_ch_store {T A} (f : ch_field T) v (p : mm A) c k b cl m e Q l wg :
  Own i c k wg -> mapping k < 2 -> K b cl m e wg ->
  (forall l' wg', Inv wg' -> Own i c (ch_set f v k) wg' -> K b cl m e wg' ->
     (forall a x, w_maps wg.1 !! a = Some x -> w_maps wg'.1 !! a = Some x) ->
     Safe i p Q l' wg') ->
  Safe i (trigger (ChStore f c v) ;; p) Q l wg.
Proof.
  intros Ho Hk HK Hp. op @op_ch_store. intros _ l' wg' Hi' [Hs Ho'].
  apply Hp; [done | done | eapply K_rest; eassumption |].
  intros a y Ha. destruct Hs as (_ & -> & _). by apply (hr_maps _ _ _ _ _ (proj2 Rx)).
Qed.

(** Reading a field back. *)
Lemma safe_ch_load {T A} (f : ch_field T) (p : T -> mm A) c k b cl m e Q l wg :
  Own i c k wg -> K b cl m e wg ->
  (forall k', same_chunk k k' -> ch_get f k' = ch_get f k) ->
  (forall l' wg', Inv wg' -> Own i c k wg' -> K b cl m e wg' -> Safe i (p (ch_get f k)) Q l' wg') ->
  Safe i (bind (trigger (ChLoad f c)) p) Q l wg.
Proof.
  intros Ho HK Hk Hp. op @op_own_load. intros r l' wg' Hi' [-> ->]. by apply Hp.
Qed.

Lemma create_chunk_safe cur b cl m e l wg : Inv wg -> K b cl m e wg -> 0 <= cur < 2 ^ 32 ->
  Safe i (create_chunk_at_cursor h cur)
    (fun r _ wg' => K b cl m e wg' /\ chunk_at (chunk_start cur CS) r wg') l wg.
Proof.
  intros Hi HK Hcur. unfold create_chunk_at_cursor. apply safe_errno. intros wg1 Hr1 Hi1. fwd.
  destruct (chunk_start_spec CS ltac:(lia) cur) as (Hs1 & Hs2 & Hs3); [lia |].
  set (s := chunk_start cur CS) in *.
  op op_calloc_chunk. intros c l2 wg2 Hi2 [Hr2 Hc]. fwd.
  case_if.
  { apply errno_ret_safe; [intros _; apply KC_stable |]. intros _. by split; [| left]. }
  destruct Hc as [-> | [Hc Ho]]; [done |].
  eapply safe_metadata; [done |]. intros l3 wg3 Hr3 Hi3. fwd.
  eapply safe_chunk_size; [done |]. intros l4 wg4 Hr4 Hi4. fwd.
  eapply safe_ch_store; [done | done | done |]. intros l5 wg5 Hi5 Ho5 HK5 _. clear HK Ho.
  eapply safe_ch_store; [done | done | done |]. intros l6 wg6 Hi6 Ho6 HK6 _. clear HK5 Ho5.
  eapply safe_data_fd; [done |]. intros l7 wg7 Hr7 Hi7. fwd.
  eapply safe_ch_load; [done | done | by intros k' (_ & ? & _) |].
  intros l8 wg8 Hi8 Ho8 HK8. clear Ho6 HK6.
  eapply safe_ch_load; [done | done | by intros k' (? & _) |].
  intros l9 wg9 Hi9 Ho9 HK9. clear Ho8 HK8. simpl.
  sstep; [eapply op_mmap; [done | apply HK9] |].
  intros a l10 wg10 Hi10 [Hr10 Ha]. fwd.
  eapply safe_ch_store; [done | done | done |]. intros l11 wg11 Hi11 Ho11 HK11 Hmaps. clear Ho9 HK9.
  simpl in Ho11. case_if.
  - apply safe_errno. intros wg12 Hr12 Hi12. fwd.
    sstep; [eapply op_free_chunk; [done | done | simpl; unfold MAP_FAILED in *; lia] |].
    intros [] l13 wg13 Hi13 Hs13. pose proof (K_rest _ _ _ _ _ _ Hs13 HK11) as HK13.
    apply safe_ret; [| apply KC_stable]. by split; [| left].
  - destruct Ha as [-> | [Ha Hmp]]; [done |]. apply Hmaps in Hmp.
    assert (Ck DI CS c s a wg11.1) as HC.
    { destruct Ho11 as (_ & k' & Hk' & E1 & E2 & E3). exists k'. simpl in *.
      do 6 (split; [done |]). lia. }
    op op_ck_store_ref. intros [] l12 wg12 Hi12 Hr12. fwd.
    apply safe_ret; [| apply KC_stable]. split; [done |]. right. eauto.
Qed.

Lemma published_ge2 c wg : Inv wg -> published DI CS c wg.1 -> 2 <= c.
Proof.
  intros (_ & _ & Hh) (s & a & k & Hk & _). apply (hi_chunks _ _ _ _ Hh _ (mk_is_Some _ _ Hk)).
Qed.

Lemma chunk_at_slot s c wg : chunk_at s c wg -> c = NULL \/ published DI CS c wg.1.
Proof. intros [-> | (_ & a & Hc)]; [by left | right; by exists s, a]. Qed.

Lemma publish_chunk_safe cur hp next b cl m e l wg : Inv wg -> K b cl m e wg ->
  0 <= cur < 2 ^ 32 -> 0 <= next < cap ->
  Safe i (publish_chunk h h hp next cur)
    (fun r _ wg' => K b cl m e wg' /\ chunk_at (chunk_start cur CS) r wg') l wg.
Proof.
  intros Hi HK Hcur Hn. unfold publish_chunk.
  eapply (safe_seq ih Inv Rely); [done | by apply create_chunk_safe |].
  intros c l2 wg2 Hi2 [HK2 Hc]. case_if.
  - sstep; [eapply op_slot_store; [done | apply HK2 | done | by left] |].
    intros [] l3 wg3 Hi3 Hr3. fwd. apply safe_ret; [by split; [| left] | apply KC_stable].
  - sstep; [eapply op_slot_store; [done | apply HK2 | done | by eapply chunk_at_slot] |].
    intros [] l3 wg3 Hi3 Hr3. fwd.
    sstep; [eapply op_cas_head; [done | apply HK2 | done] |].
    intros got l4 wg4 Hi4 Hr4.
    fwd. apply safe_ret; [done | apply KC_stable].
Qed.

Lemma add_new_chunk_safe cur hi b cl m e l wg : Inv wg -> K b cl m e wg ->
  0 <= cur < 2 ^ 32 ->
  Safe i (add_new_chunk fuel h h (Some hi) None cur)
    (fun r _ wg' => K b cl m e wg' /\ chunk_at (chunk_start cur CS) r wg') l wg.
Proof.
  intros Hi HK Hcur. unfold add_new_chunk, get_next_head_ptr. apply safe_errno.
  intros wg1 Hr1 Hi1. fwd.
  eapply safe_capacity; [done |]. intros l2 wg2 Hr2 Hi2 Hcap. fwd.
  change (bind (Ret ?a) ?f) with (f a). cbv beta.
  eapply safe_capacity; [done |]. intros l3 wg3 Hr3 Hi3 _. fwd.
  pose proof (Z.mod_pos_bound (hi + 1) cap Hcap).
  rewrite (proj2 (Z.leb_gt cap _)) by lia. cbv zeta. rewrite decide_False by done. by apply publish_chunk_safe.
Qed.

Lemma is_cursor_in_chunk_safe c cur b cl m e l wg : Inv wg -> K b cl m e wg ->
  0 <= cur < 2 ^ 32 -> published DI CS c wg.1 ->
  Safe i (is_cursor_in_chunk c cur) (fun r _ wg' => K b cl m e wg' /\
    (r = true -> chunk_at (chunk_start cur CS) c wg')) l wg.
Proof.
  intros Hi HK Hcur Hc. unfold is_cursor_in_chunk.
  pose proof (published_ge2 _ _ Hi Hc) as Hc2.
  rewrite (proj2 (Z.eqb_neq c NULL)), (proj2 (Z.eqb_neq c CHUNK_PENDING))
    by (unfold NULL, CHUNK_PENDING; lia). simpl.
  destruct Hc as (s & a & Hc).
  sstep; [eapply (op_ck_load _ _ _ _ _ _ _ _ _ _ _ s); [done | done | done] |].
  intros r l2 wg2 Hi2 [-> ->].
  sstep; [eapply (op_ck_load _ _ _ _ _ _ _ _ _ _ _ CS); [done | done | done] |].
  intros r l3 wg3 Hi3 [-> ->].
  apply safe_ret.
  - split; [done |]. intros Hin. right. split; [done |]. exists a.
    unfold cursor_in_range in Hin. zbool.
    destruct Hc as (k & Hc). destruct Hc as (Hk & ? & ? & ? & ? & Hmod & Hs).
    rewrite wrap_small in * by lia.
    rewrite <-(chunk_start_unique CS ltac:(lia) s cur) by done. by exists k.
  - intros w w' Hr _ [HK' Hc']. fwd. split; [done |]. intros E.
    by apply (chunk_at_rely _ _ _ _ Hr), Hc'.
Qed.

Lemma lock_head_safe b cl m e l wg : Inv wg -> K b cl m e wg ->
  Safe i (lock_head fuel h) (fun _ _ wg' => K b cl m e wg') l wg.
Proof.
  intros Hi HK. unfold lock_head.
  eapply (safe_seq ih Inv Rely _ _ _ (fun _ _ wg' => K b cl m e wg')); [done | |].
  - apply (hot_wait_safe _ _ (fun a wg' => K b cl m e wg' /\ a = h) (fun _ => K b cl m e)).
    + intros _. apply K_stable.
    + intros a w w' Hr _ [HK' Ha]. by fwd.
    + intros a l2 wg2 Hi2 [HK2 ->]. unfold lock_head_inner. op op_cas_head_locked.
      intros got l3 wg3 Hi3 Hr3. fwd. apply safe_ret; [by destruct got |].
      intros w w' Hr _. destruct got; simpl; [by apply (K_rely _ _ _ _ _ _ Hr) |].
      intros [? ?]. by fwd.
    + by intros a wg2 [].
    + apply HK.
    + done.
    + done.
  - intros r l2 wg2 Hi2 HK2. apply safe_ret; [done | apply K_stable].
Qed.

Lemma safe_unlock_head {A} (p : mm A) b cl m e s c Q l wg : K b cl m e wg -> chunk_at s c wg ->
  (forall l' wg', Inv wg' -> K b cl m e wg' -> chunk_at s c wg' -> Safe i p Q l' wg') ->
  Safe i (unlock_head h ;; p) Q l wg.
Proof.
  intros HK Hc Hp. unfold unlock_head. op op_unlock_head. intros [] l' wg' Hi' Hr'. fwd. auto.
Qed.

(** Taking a reference to the chunk, and giving it back. *)
Lemma safe_ref {A} (p : mm A) d b cl m e s c a Q l wg : K b cl m e wg -> Ck DI CS c s a wg.1 ->
  (forall l' wg', Inv wg' -> K b cl m e wg' -> Ck DI CS c s a wg'.1 -> Safe i p Q l' wg') ->
  Safe i (trigger (ChFetchAdd c d) ;; p) Q l wg.
Proof.
  intros HK Hc Hp. op op_ck_fetch_add. intros r l' wg' Hi' Hr'. fwd. auto.
Qed.

Lemma rb_checkout_locked_safe cur b cl m e l wg : Inv wg -> K b cl m e wg ->
  0 <= cur < 2 ^ 32 ->
  Safe i (rb_checkout_locked fuel h cur)
    (fun r _ wg' => K b cl m e wg' /\ chunk_at (chunk_start cur CS) r wg') l wg.
Proof.
  intros Hi HK Hcur. unfold rb_checkout_locked.
  op @op_hload. intros hp l2 wg2 Hi2 (-> & x & _ & Hhp & _ & _ & Hcap & _ & Hok).
  assert (0 <= match hp with Some k => k | None => 0 end < cap) as Hk.
  { rewrite <-Hcap. rewrite Hhp. simpl. destruct (head (chunks x)) eqn:E.
    - by apply (ho_head _ _ _ _ _ Hok).
    - pose proof (ho_cap _ _ _ _ _ Hok). lia. }
  set (k := match hp with Some k => k | None => 0 end) in *. clearbody k. clear Hhp Hok Hcap x.
  op @op_hload. intros tp l3 wg3 Hi3 (-> & x & _ & -> & _ & _ & _ & _ & Hok).
  simpl. rewrite (ho_tail _ _ _ _ _ Hok). clear Hok x.
  sstep; [eapply op_slot_load; [done | apply HK | done] |].
  intros c l4 wg4 Hi4 [-> Hc].
  eapply (safe_seq ih Inv Rely _ _ _ (fun r _ wg' => K b cl m e wg' /\
    (r = true -> c <> NULL /\ chunk_at (chunk_start cur CS) c wg'))); [done | |].
  { case_if.
    - apply safe_ret; [by split |]. intros w w' Hr _ [HK' Hn]. fwd. by split.
    - destruct Hc as [-> | Hc]; [done |].
      eapply safe_mono; [by apply is_cursor_in_chunk_safe |].
      intros r l5 wg5 _ [HK5 Hr5]. auto. }
  intros hit l5 wg5 Hi5 [HK5 Hhit]. destruct hit.
  - destruct (Hhit eq_refl) as [Hne [-> | (Hc2 & a & Hck)]]; [done |]. 
    eapply safe_ref; [done | done |]. intros l6 wg6 Hi6 HK6 Hck6.
    eapply safe_unlock_head; [done | right; by eauto |]. intros l7 wg7 Hi7 HK7 Hc7.
    apply safe_ret; [done | apply KC_stable].
  - eapply (safe_seq ih Inv Rely); [done | by apply add_new_chunk_safe |].
    intros c2 l6 wg6 Hi6 [HK6 Hc6]. case_if.
    + eapply safe_unlock_head; [done | done |]. intros l7 wg7 Hi7 HK7 Hc7.
      apply safe_ret; [by split; [| left] | apply KC_stable].
    + eapply safe_unlock_head; [done | done |].
      intros l7 wg7 Hi7 HK7 [-> | (Hc2 & a & Hck)]; [done |].
      eapply safe_ref; [done | done |]. intros l8 wg8 Hi8 HK8 Hck8.
      apply safe_ret; [| apply KC_stable]. split; [done |]. right. eauto.
Qed.

Lemma rb_checkout_safe cur b cl m e l wg : Inv wg -> K b cl m e wg -> 0 <= cur < 2 ^ 32 ->
  Safe i (mmlog_rb_checkout fuel h cur)
    (fun r _ wg' => K b cl m e wg' /\ chunk_at (chunk_start cur CS) r wg') l wg.
Proof.
  intros Hi HK Hcur. unfold mmlog_rb_checkout. apply safe_errno. intros wg1 Hr1 Hi1. fwd.
  destruct (hd_handle _ _ _ _ _ _ _ _ _ Hi1 (k_hd _ _ _ _ _ HK)) as (x & _ & _ & _ & _ & Hh & _).
  rewrite (proj2 (Z.eqb_neq h NULL)) by done.
  op @op_hload. intros bf l2 wg2 Hi2 (-> & y & _ & -> & _ & _ & _ & _ & Hok).
  destruct (ho_slots _ _ _ _ _ Hok) as (bf & Hbf & _). simpl. rewrite Hbf. clear Hok Hbf.
  eapply (safe_seq ih Inv Rely); [done | by apply lock_head_safe |].
  intros ok l3 wg3 Hi3 HK3. destruct ok; simpl; [by apply rb_checkout_locked_safe |].
  apply errno_ret_safe; [intros _; apply KC_stable |]. intros _. by split; [| left].
Qed.

(** ** Writing *)

Lemma page_end_CS : page_end CS = CS.
Proof.
  unfold page_end. pose proof (Z.div_mod CS 4096 ltac:(lia)).
  rewrite HCSp in *. set (q := CS / 4096) in *.
  assert ((CS + 4095) / 4096 = q) as ->; [| lia].
  symmetry. apply (Z.div_unique _ _ _ 4095); lia.
Qed.

Lemma KCk_stable b cl m e c s a :
  stable Inv Rely i (fun wg => K b cl m e wg /\ Ck DI CS c s a wg.1).
Proof. intros w w' Hr _ [HK Hc]. by fwd. Qed.

Lemma memcpy_safe data c s a off b cl m e l wg : Inv wg -> K b cl m e wg ->
  Ck DI CS c s a wg.1 -> 0 <= off -> off + zlen data <= CS -> s + off + zlen data <= e ->
  (forall p, s + off <= p < s + off + zlen data -> owns i cl p) ->
  Safe i (memcpy_to_map a off data)
    (fun _ _ wg' => K b cl (put_bytes (s + off) data m) e wg' /\ Ck DI CS c s a wg'.1) l wg.
Proof.
  revert off m l wg. induction data as [| v data IH]; intros off m l wg Hi HK Hc H0 Hoff He Hown.
  { apply safe_ret; [done | apply KCk_stable]. }
  rewrite zlen_cons in *. pose proof (zlen_nonneg data). simpl memcpy_to_map.
  sstep.
  { destruct Hc as (k & _ & _ & _ & _ & Hmp & _).
    eapply (op_store_byte _ _ _ _ HMD _ _ s CS); [done | done | | apply HK | |].
    - rewrite page_end_CS. lia.
    - apply Hown. lia.
    - pose proof (k_fs _ _ _ _ _ HK) as Hf. unfold FsGe in *. lia. }
  intros [] l2 wg2 Hi2 (Hh2 & _ & Hfz & HM2).
  pose proof (k_fs _ _ _ _ _ HK) as Hf.
  assert (FsGe e (Core wg2)) as Hf2 by (unfold FsGe in *; by rewrite Hfz).
  pose proof (K_heap _ _ _ _ _ _ _ _ _ _ Hh2 HM2 Hf2 HK) as HK2.
  apply (Ck_stable _ _ _ _ _ _ _ _ Hh2) in Hc.
  simpl put_bytes. replace (s + off + 1) with (s + (off + 1)) by lia.
  apply IH; try done; try lia. intros p Hp. apply Hown. lia.
Qed.

(** A write within one chunk puts the bytes in the file, or changes nothing. *)
Lemma write_to_chunk_safe cur data b cl m e l wg : Inv wg -> K b cl m e wg ->
  0 <= cur -> cur + zlen data <= e -> e < 2 ^ 32 -> 0 < zlen data ->
  cur + zlen data <= chunk_start cur CS + CS ->
  (forall p, cur <= p < cur + zlen data -> owns i cl p) ->
  Safe i (write_to_chunk fuel h cur data)
    (fun r _ wg' => K b cl (if r : bool then put_bytes cur data m else m) e wg') l wg.
Proof.
  intros Hi HK Hcur He He2 Hlen Hfit Hown. unfold write_to_chunk.
  apply safe_errno. intros wg1 Hr1 Hi1. fwd.
  destruct (chunk_start_spec CS ltac:(lia) cur Hcur) as (Hs1 & Hs2 & _).
  eapply (safe_seq ih Inv Rely); [done | apply rb_checkout_safe; [done | done | lia] |].
  intros c l2 wg2 Hi2 [HK2 Hc]. case_if.
  { apply errno_ret_safe; [intros _; apply K_stable | done]. }
  destruct Hc as [-> | (Hc2 & a & Hc)]; [done |]. set (s := chunk_start cur CS) in *.
  sstep; [eapply (op_ck_load _ _ _ _ _ _ _ _ _ _ _ s); [done | done | done] |].
  intros r l3 wg3 Hi3 [-> ->].
  sstep; [eapply (op_ck_load _ _ _ _ _ _ _ _ _ _ _ a); [done | done | done] |].
  intros r l4 wg4 Hi4 [-> ->]. rewrite wrap_small by lia.
  eapply (safe_seq ih Inv Rely).
  { done. }
  { eapply (memcpy_safe data c s a (cur - s)); try done; try lia.
    intros p Hp. apply Hown. lia. }
  intros [] l5 wg5 Hi5 [HK5 Hc5]. replace (s + (cur - s)) with cur in HK5 by lia.
  eapply safe_ref; [done | done |]. intros l6 wg6 Hi6 HK6 Hc6.
  apply safe_ret; [done | apply K_stable].
Qed.

(** ** Inserting *)

(** The bytes after an insert of [data] at [start]: only that range may
    differ, and a successful insert wrote all of it. *)
Definition wrote (ok : bool) (start : Z) (data : list Z) (m m' : gmap Z Z) : Prop :=
  (forall p, ~ start <= p < start + zlen data -> m' !! p = m !! p) /\
  (ok = true -> m' = put_bytes start data m).

Lemma wrote_nothing start data m : wrote false start data m m.
Proof. by split. Qed.

Lemma wrote_prefix start data k m : wrote false start data m (put_bytes start (take k data) m).
Proof.
  split; [| done]. intros p Hp. rewrite put_bytes_lookup, decide_False; [done |].
  unfold zlen in *. rewrite length_take. lia.
Qed.

Lemma wrote_all start data m : wrote true start data m (put_bytes start data m).
Proof.
  split; [| done]. intros p Hp. rewrite put_bytes_lookup, decide_False; [done |]. done.
Qed.

Definition Wrote ok start data b cl m e (wg : gw) : Prop :=
  exists m', K b cl m' e wg /\ wrote ok start data m m'.

Lemma Wrote_stable ok start data b cl m e : stable Inv Rely i (Wrote ok start data b cl m e).
Proof. intros w w' Hr _ (m' & HK & Hm). fwd. by exists m'. Qed.

(** The loop invariant of [mmlog_insert]: the first [c.2] bytes are written. *)
Definition written (start : Z) (data : list Z) b cl m e (c : Z * Z) (wg : gw) : Prop :=
  0 <= c.2 <= zlen data /\ c.1 = start + c.2 /\
  K b cl (put_bytes start (take (Z.to_nat c.2) data) m) e wg.

Lemma written_stable start data b cl m e c :
  stable Inv Rely i (written start data b cl m e c).
Proof. intros w w' Hr _ (H1 & H2 & HK). fwd. by split. Qed.

Lemma take_drop_take {A} (a n : Z) (l : list A) : 0 <= a -> 0 <= n ->
  take (Z.to_nat (a + n)) l = take (Z.to_nat a) l ++ take (Z.to_nat n) (drop (Z.to_nat a) l).
Proof.
  intros Ha Hn. rewrite Z2Nat.inj_add by lia.
  rewrite <-(take_drop (Z.to_nat a) l) at 1.
  rewrite take_app. rewrite take_take, length_take.
  rewrite Nat.min_r by lia.
  destruct (decide (Z.to_nat a <= length l)%nat).
  - by replace (_ + _ - _)%nat with (Z.to_nat n) by lia.
  - rewrite (drop_ge l) by lia. by rewrite !take_nil.
Qed.

Lemma zlen_piece {A} (a n : Z) (l : list A) : 0 <= a -> 0 <= n -> a + n <= zlen l ->
  zlen (take (Z.to_nat n) (drop (Z.to_nat a) l)) = n.
Proof. intros Ha Hn Hl. unfold zlen in *. rewrite length_take, length_drop. lia. Qed.

Lemma zlen_take {A} (a : Z) (l : list A) : 0 <= a <= zlen l -> zlen (take (Z.to_nat a) l) = a.
Proof. intros Ha. unfold zlen in *. rewrite length_take. lia. Qed.

(** At least [n] more passes of the loop are allowed: one to leave it, one for
    the second chunk, one for the first. *)
Definition rounds (start : Z) (data : list Z) (n : nat) (c : Z * Z) : Prop :=
  (c.2 = zlen data /\ (1 <= n)%nat) \/
  (c.1 = chunk_start start CS + CS /\ (2 <= n)%nat) \/
  (c.1 = start /\ (3 <= n)%nat).

Definition passes (start : Z) (data : list Z) b cl m e (n : nat) (c : Z * Z) (wg : gw) : Prop :=
  written start data b cl m e c wg /\ rounds start data n c.

Lemma insert_step_safe start data b cl m n0 c l wg : Inv wg ->
  0 <= start -> start + zlen data <= LIMIT CS ->
  start + zlen data < chunk_start start CS + 2 * CS ->
  (forall p, start <= p < start + zlen data -> owns i cl p) ->
  passes start data b cl m (start + zlen data) (S n0) c wg ->
  Safe i (insert_step fuel h md data c) (fun r l' wg' =>
    match r with
    | inl c' => passes start data b cl m (start + zlen data) n0 c' wg'
    | inr ok => Safe i (Ret ok)
        (fun ok _ => Wrote ok start data b cl m (start + zlen data)) l' wg'
    end) l wg.
Proof.
  intros Hi Hs0 Hlim Hcross Hown [HW Hrd]. destruct c as [cur bw]. destruct HW as (Hbw & Hcur & HK).
  simpl in Hbw, Hcur, HK. subst cur. unfold LIMIT in Hlim. unfold insert_step. case_if.
  2: { apply safe_ret; [apply safe_ret; [| apply Wrote_stable] |].
       - assert (bw = zlen data) as -> by lia. exists (put_bytes start data m).
         split; [| apply wrote_all]. unfold zlen in HK. by rewrite Nat2Z.id, firstn_all in HK.
       - intros w w' Hr _ Hsf. by eapply (safe_rely ih Inv Rely). }
  eapply safe_chunk_size; [done |]. intros l1 wg1 Hr1 Hi1. fwd.
  destruct (chunk_start_spec CS ltac:(lia) (start + bw)) as (Hc1 & Hc2 & _); [lia |].
  replace (((start + bw) / CS + 1) * CS) with (chunk_start (start + bw) CS + CS)
    by (unfold chunk_start; lia).
  set (ch := chunk_start (start + bw) CS) in *.
  rewrite !(wrap_small 64) by lia. cbv zeta.
  set (n := if _ <? _ then _ else _).
  assert (0 < n /\ start + bw + n <= ch + CS /\ bw + n <= zlen data) as (Hn0 & Hn1 & Hn2)
    by (subst n; case_if; lia).
  pose proof (zlen_piece bw n data ltac:(lia) ltac:(lia) ltac:(lia)) as Hpz.
  eapply (safe_seq ih Inv Rely); [done | |].
  { apply (write_to_chunk_safe _ _ b cl (put_bytes start (take (Z.to_nat bw) data) m)
      (start + zlen data)); rewrite ?Hpz; try done; try lia.
    intros p Hp. apply Hown. lia. }
  intros ok l2 wg2 Hi2 HK2. destruct ok; simpl.
  - apply safe_ret; [| intros w w' Hr Hi' [Hw ?]; split; [by eapply written_stable | done]].
    rewrite !wrap_small by lia. split.
    2: { unfold rounds in *. simpl in *.
         destruct (chunk_start_spec CS ltac:(lia) start Hs0) as (Hd1 & Hd2 & Hd3).
         destruct Hrd as [[? ?] | [[Hcur ?] | [Hcur ?]]]; [lia | |].
         - left. split; [| lia]. assert (ch = start + bw) as Hch.
           { symmetry. apply chunk_start_unique; [lia | | lia]. rewrite Hcur.
             by rewrite <-Zplus_mod_idemp_r, Z_mod_same_full, Z.add_0_r. }
           subst n. case_if; lia.
         - assert (bw = 0) as -> by lia.
           assert (ch = chunk_start start CS) as Hch by (subst ch; f_equal; lia).
           clearbody ch. subst n. case_if; [right; left | left]; lia. }
    split; [simpl; lia |]. split; [simpl; lia |]. simpl.
    rewrite take_drop_take, put_bytes_app, zlen_take by lia. done.
  - apply safe_ret; [apply safe_ret; [| apply Wrote_stable] |].
    + eexists. split; [done |]. apply wrote_prefix.
    + intros w w' Hr _ Hsf. by eapply (safe_rely ih Inv Rely).
Qed.

(** What [mmlog_insert] of [data] leaves behind, when it returns [r]. *)
Definition Inserted (data : list Z) (b : Z) (cl : list (nat * Z * Z)) (m : gmap Z Z)
    (r : bool) (wg : gw) : Prop :=
  exists start, 0 <= start /\ start + zlen data <= LIMIT CS /\
    Wrote r start data (b - zlen data) (cl ++ [(i, start, zlen data)]) m 0 wg.

Lemma Inserted_stable data b cl m r : stable Inv Rely i (Inserted data b cl m r).
Proof.
  intros w w' Hr Hi (s & ? & ? & HW). exists s. split; [done |]. split; [done |].
  by eapply Wrote_stable.
Qed.

Lemma Wrote_weaken ok start data b cl m e wg : Inv wg ->
  Wrote ok start data b cl m e wg -> Wrote ok start data b cl m 0 wg.
Proof.
  intros Hi (m' & HK & Hm). exists m'. split; [| done].
  eapply K_weaken; [by apply Inv_fs | done].
Qed.

Lemma owns_last cl s n p : s <= p < s + n -> owns i (cl ++ [(i, s, n)]) p.
Proof.
  intros Hp. exists s, n. split; [| done]. apply elem_of_app. right. by apply list_elem_of_singleton.
Qed.

(** The one-shot [pwrite] of a range that covers whole chunks. *)
Lemma insert_pwrite_safe start data b cl m l wg : Inv wg ->
  0 <= start -> start + zlen data <= LIMIT CS ->
  (forall p, start <= p < start + zlen data -> owns i cl p) ->
  K b cl m (start + zlen data) wg ->
  Safe i (data_fd <- trigger (HLoad HDataFd h) ;;
          n <- trigger (Pwrite data_fd data start) ;;
          if negb (zlen data =? u64 n)
          then set_errno MMLOG_INSERT_PWRITE ;; Ret false
          else Ret true)
    (fun r _ => Wrote r start data b cl m 0) l wg.
Proof.
  intros Hi Hs0 Hlim Hown HK. unfold LIMIT in Hlim. pose proof (zlen_nonneg data).
  eapply safe_data_fd; [done |]. intros l1 wg1 Hr1 Hi1. fwd.
  sstep; [eapply (op_pwrite _ _ _ _ HMD _ _ _ _ b cl m);
          [done | apply HK | apply HK | done | done | apply HK] |].
  intros n l2 wg2 Hi2 (Hh2 & m' & HM2 & Hout & Hall & Hn).
  pose proof (K_heap _ _ _ _ _ _ _ 0 _ _ Hh2 HM2 (Inv_fs _ Hi2) HK) as HK2.
  case_if.
  - apply errno_ret_safe; [intros _; apply Wrote_stable |]. intros _. exists m'. by split.
  - apply safe_ret; [| apply Wrote_stable]. exists m'. split; [done |].
    split; [done |]. intros _. apply Hall.
    match goal with H : _ = u64 n |- _ => rename H into Hz end. unfold LIMIT in *.
    destruct (decide (n = -1)) as [-> |]; [change (u64 (-1)) with (2 ^ 64 - 1) in Hz; lia |].
    rewrite wrap_small in Hz by lia. lia.
Qed.

(** [mmlog_insert] of a message within the thread's budget. *)
Lemma insert_safe data b cl m l wg : Inv wg -> K b cl m 0 wg ->
  0 < zlen data <= b ->
  Safe i (mmlog_insert fuel h (Some data)) (fun r _ => Inserted data b cl m r) l wg.
Proof.
  intros Hi HK Hn. unfold mmlog_insert. apply safe_errno. intros wg1 Hr1 Hi1. fwd.
  destruct (hd_handle _ _ _ _ _ _ _ _ _ Hi1 (k_hd _ _ _ _ _ HK)) as (x & _ & _ & _ & _ & Hh & _).
  destruct data as [| v data']; [exfalso; unfold zlen in Hn; simpl in Hn; lia |]. set (data := v :: data') in *.
  clearbody data. clear v data'. cbv zeta.
  rewrite (proj2 (Z.eqb_neq h NULL)) by done.
  eapply safe_metadata; [done |]. intros l2 wg2 Hr2 Hi2. fwd.
  eapply (safe_seq ih Inv Rely); [done | apply checkout_safe; [done | done | lia] |].
  intros c l3 wg3 Hi3 (start & Hs0 & Hlim & HK3 & Hc). case_if.
  { apply safe_ret; [| apply Inserted_stable]. exists start. split; [done |]. split; [done |].
    exists m. split; [done | apply wrote_nothing]. }
  destruct Hc as [-> Hfs]; [done |].
  apply (K_weaken _ _ _ _ (start + zlen data)) in HK3; [| done].
  eapply safe_chunk_size; [done |]. intros l4 wg4 Hr4 Hi4. fwd.
  assert (forall p, start <= p < start + zlen data ->
    owns i (cl ++ [(i, start, zlen data)]) p) as Hown by (intros p; apply owns_last).
  case_if.
  { eapply safe_mono; [by apply insert_pwrite_safe |].
    intros r l5 wg5 _ HW. by exists start. }
  eapply (safe_seq ih Inv Rely _ _ _ (fun ok _ => Wrote ok start data (b - zlen data)
    (cl ++ [(i, start, zlen data)]) m (start + zlen data))); [done | |].
  { apply (safe_loop ih Inv Rely _ _ _
      (fun n c _ => passes start data (b - zlen data) (cl ++ [(i, start, zlen data)]) m
        (start + zlen data) n c)); [| | done |].
    - intros s l5 wg5 [_ Hrd]. unfold rounds in Hrd. lia.
    - intros n s l5 wg5 Hi5 HW. apply insert_step_safe; try done.
      apply cross_count_le1; unfold LIMIT in *; lia.
    - split; [| right; right; simpl; split; [done | lia]].
      split; [simpl; lia |]. split; [simpl; lia |]. done. }
  intros ok l5 wg5 Hi5 HW. destruct ok; simpl.
  - destruct HW as (m' & HK5 & Hm).
    eapply (safe_seq ih Inv Rely); [done | by apply clean_chunks_safe |].
    intros r l6 wg6 Hi6 HK6. apply safe_ret; [| apply Inserted_stable].
    exists start. split; [done |]. split; [done |]. eapply Wrote_weaken; [done |].
    exists m'. split; [exact HK6 | done].
  - apply safe_ret; [| apply Inserted_stable]. exists start. split; [done |]. split; [done |].
    by eapply Wrote_weaken.
Qed.
End Threads.
