(* ===== verification/MmlogThreads.v ===== *)
(** * mmlog.h: many threads, one log

    The message loop of [src/fastlog/eg/threads/src/main.c], and what a pool of
    such workers leaves in the file, whatever the schedule and the failures. *)
From stdpp Require Import base gmap sets list strings relations.
From Stdlib Require Import ZArith Lia.
From S2P Require Import Prelude Prog Conc MmlogTypes MmlogOs MmlogOpen MmlogRing MmlogInsert.
From S2P Require Import MmlogInv MmlogOps MmlogWait MmlogConc.

#[local] Arguments safe : simpl never.
#[local] Arguments bind : simpl never.
#[local] Arguments trigger : simpl never.

(** The loop of [thread_worker] over its messages: [args->messages_written] and
    [args->success]; the caller frees the handle. *)
Fixpoint insert_messages (fuel : nat) (handle : Z) (messages : list (list Z)) : mm (Z * bool) :=
  match messages with
  | [] => Ret (0, true)
  | message :: rest =>
      ok <- mmlog_insert fuel handle (Some message) ;;
      if negb ok then Ret (0, false)
      else r <- insert_messages fuel handle rest ;; Ret (1 + r.1, r.2)
  end.

(** Each of the bytes of [data] is in the file, from [pos]. *)
Definition bytes_at (bytes : gmap Z Z) (pos : Z) (data : list Z) : Prop :=
  forall k, 0 <= k < zlen data -> bytes !! (pos + k) = znth data k.

(** Of [messages], the first [n] are in the file, at the ranges [claims] of
    thread [i]; unless [ok], one more range was claimed and nothing is known of it. *)
Fixpoint logged (i : nat) (messages : list (list Z)) (n : Z) (ok : bool)
    (claims : list (nat * Z * Z)) (bytes : gmap Z Z) : Prop :=
  match messages, claims with
  | [], [] => n = 0 /\ ok = true
  | d :: ds, (j, s, len) :: cs =>
      j = i /\ len = zlen d /\
      if 0 <? n then bytes_at bytes s d /\ logged i ds (n - 1) ok cs bytes
      else n = 0 /\ ok = false /\ cs = []
  | _, _ => False
  end.

Definition budget (messages : list (list Z)) : Z := zsum (map zlen messages).

Lemma put_bytes_at pos data m : bytes_at (put_bytes pos data m) pos data.
Proof.
  intros k Hk. rewrite put_bytes_lookup, decide_True by lia. f_equal. lia.
Qed.

(** [logged] only speaks of bytes that were written. *)
Lemma logged_sub i ds n ok cs m m' : (forall p v, m !! p = Some v -> m' !! p = Some v) ->
  logged i ds n ok cs m -> logged i ds n ok cs m'.
Proof.
  intros Hm. revert n cs. induction ds as [| d ds IH]; intros n [| [[j s] len] cs]; simpl; try done.
  intros (-> & -> & Hl). split; [done |]. split; [done |].
  destruct (0 <? n); [| done]. destruct Hl as [Hb Hl]. split; [| by apply IH].
  intros k Hk. destruct (znth_is_Some d k Hk) as [v Hv]. rewrite Hv. apply Hm. by rewrite Hb.
Qed.

Lemma logged_mono i ds n ok cs m m' :
  (forall j s len p, (j, s, len) ∈ cs -> s <= p < s + len -> m' !! p = m !! p) ->
  logged i ds n ok cs m -> logged i ds n ok cs m'.
Proof.
  revert n cs. induction ds as [| d ds IH]; intros n [| [[j s] len] cs] Hm; simpl; try done.
  intros (-> & -> & Hl). split; [done |]. split; [done |].
  destruct (0 <? n); [| done]. destruct Hl as [Hb Hl]. split.
  - intros k Hk. rewrite (Hm i s (zlen d)); [auto | by left | lia].
  - apply IH; [| done]. intros j' s' len' p Hin. apply (Hm j' s' len'). by right.
Qed.

Lemma logged_owner i ds n ok cs m j s len :
  logged i ds n ok cs m -> (j, s, len) ∈ cs -> j = i.
Proof.
  revert n cs. induction ds as [| d ds IH]; intros n [| [[j' s'] len'] cs]; simpl; try done.
  - intros _ Hin. by apply not_elem_of_nil in Hin.
  - intros (-> & _ & Hl) Hin. apply elem_of_cons in Hin as [[=] | Hin]; [done |].
    destruct (0 <? n); [by eapply IH; [apply Hl |] |].
    destruct Hl as (_ & _ & ->). by apply not_elem_of_nil in Hin.
Qed.

(** Ranges claimed later start after the earlier ones end. *)
Lemma tiles_after i a cs b cl s n cl2 j s' n' : tiles a cs b ->
  my_claims i cs = cl ++ (i, s, n) :: cl2 -> (j, s', n') ∈ cl2 -> s + n <= s'.
Proof.
  revert a cl. induction cs as [| [[k s0] n0] cs IH]; intros a cl Ht Hcs Hin.
  { by destruct cl. }
  destruct Ht as (-> & Hn0 & Ht). unfold my_claims in Hcs. rewrite filter_cons in Hcs.
  simpl in Hcs. case_decide as Hk; [| by eapply IH].
  destruct cl as [| c cl]; [| injection Hcs as _ Hcs; by eapply IH].
  injection Hcs as _ <- <- Hcs. subst cl2. apply list_elem_of_filter in Hin as [_ Hin].
  apply (tiles_in _ _ _ _ _ _ Ht) in Hin. lia.
Qed.

Section Worker.
Context (MI DI CS C0 : Z) (HCS : 0 < CS < 2 ^ 32) (HCSp : CS mod 4096 = 0) (HMD : MI <> DI).
Context (i : nat) (h md fd cap : Z) (N fuel : nat) (Hfuel : (N + 3 <= fuel)%nat).

Abbreviation Inv := (inv MI DI CS C0).
Abbreviation Rely := (rely MI DI CS).
Abbreviation Safe := (safe ih Inv Rely).
Abbreviation Know := (K MI DI i h md fd cap N).

(** After the loop over [ds]: the claims grew by those of [ds], and only bytes
    there changed. *)
Definition Logged ds (cl : list (nat * Z * Z)) (m : gmap Z Z) (r : Z * bool) (wg : gw) : Prop :=
  exists b' cl2 m', Know b' (cl ++ cl2) m' 0 wg /\ logged i ds r.1 r.2 cl2 m' /\
    (forall p, (forall s n, (i, s, n) ∈ cl2 -> ~ s <= p < s + n) -> m' !! p = m !! p).

Lemma Logged_stable ds cl m r : stable Inv Rely i (Logged ds cl m r).
Proof.
  intros w w' Hr _ (b' & cl2 & m' & HK & Hl). exists b', cl2, m'. split; [| done].
  by eapply K_rely.
Qed.

Lemma insert_messages_safe ds cl m l wg : Inv wg ->
  Forall (fun d => d <> []) ds -> Know (budget ds) cl m 0 wg ->
  Safe i (insert_messages fuel h ds) (fun r _ => Logged ds cl m r) l wg.
Proof.
  intros Hi Hne. revert cl m l wg Hi. induction Hne as [| d ds Hd Hne IH]; intros cl m l wg Hi HK.
  { apply safe_ret; [| apply Logged_stable]. exists 0, [], m. by rewrite app_nil_r. }
  assert (0 < zlen d) as Hd0 by (destruct d; [done |]; unfold zlen; simpl; lia).
  assert (0 <= budget ds) as Hb.
  { apply zsum_nonneg, Forall_map, Forall_forall. intros. apply zlen_nonneg. }
  simpl insert_messages. eapply (safe_seq ih Inv Rely).
  { done. }
  { eapply (insert_safe MI DI CS C0 HCS HCSp HMD i h md fd cap N fuel Hfuel); [done | exact HK |].
    unfold budget. simpl. fold (budget ds). lia. }
  intros ok l2 wg2 Hi2 (s & Hs & Hlim & m1 & HK1 & Hout & Hall).
  destruct ok; simpl.
  2: { apply safe_ret; [| apply Logged_stable]. eexists _, [_], m1. split; [exact HK1 |].
       split; [done |]. intros p Hp. apply Hout. apply (Hp s (zlen d)). by left. }
  specialize (Hall eq_refl).
  assert (budget (d :: ds) - zlen d = budget ds) as Hbud by (unfold budget; simpl; lia).
  rewrite Hbud in HK1.
  eapply (safe_seq ih Inv Rely); [done | by apply IH |].
  intros [n ok] l3 wg3 Hi3 (b' & cl2 & m' & HK3 & Hl & Hrest). simpl in Hl.
  apply safe_ret; [| apply Logged_stable].
  exists b', ((i, s, zlen d) :: cl2), m'. rewrite <-app_assoc in HK3. split; [done |].
  assert (forall p, s <= p < s + zlen d -> m' !! p = m1 !! p) as Hkeep.
  { intros p Hp. apply Hrest. intros s' n' Hin Hp'.
    destruct Hi3 as (_ & Hc & _). pose proof (ci_tiles _ _ _ Hc) as Ht.
    destruct (k_me _ _ _ _ _ _ _ _ _ _ _ _ _ HK3) as (_ & Hcl & _).
    pose proof (tiles_after _ _ _ _ _ _ _ _ _ _ _ Ht Hcl Hin). lia. }
  split.
  - simpl. split; [done |]. split; [done |].
    assert (0 <= n) as Hn0.
    { clear -Hl. destruct ds as [| d' ds], cl2 as [| [[] ] cl2]; simpl in Hl; try done; [lia |].
      destruct Hl as (_ & _ & Hl). case_match; zbool; lia. }
    rewrite (proj2 (Z.ltb_lt 0 _)) by lia. replace (1 + n - 1) with n by lia.
    split; [| done]. intros k Hk. rewrite Hkeep, Hall by lia. by apply put_bytes_at.
  - intros p Hp. rewrite Hrest; [| intros s' n' Hin; apply Hp; by right].
    apply Hout. apply (Hp s (zlen d)). by left.
Qed.
End Worker.

(** ** A pool of workers *)

(** A log that [jobs] may write to: pairs of a handle and the messages to insert
    through it. [MI] and [DI] are the metadata and the data file. *)
Record ready (MI DI CS : Z) (jobs : list (Z * list (list Z))) (w : world) : Prop := {
  rd_distinct : MI <> DI;
  rd_chunk : 0 < CS < 2 ^ 32 /\ CS mod 4096 = 0 /\ chunk_size (i_meta (inode_at w MI)) = CS;
  rd_files : files_ok MI DI w;
  rd_cursor : 0 <= cursor (i_meta (inode_at w MI));
  rd_room : cursor (i_meta (inode_at w MI)) + zsum (map (fun j => budget j.2) jobs) <= LIMIT CS;
  rd_size : 0 <= file_size (i_meta (inode_at w MI)) <= 2 ^ 32 /\
    i_size (inode_at w DI) = file_size (i_meta (inode_at w MI));
  rd_bytes : forall p, is_Some (i_bytes (inode_at w DI) !! p) -> p < i_size (inode_at w DI);
  rd_next : 2 <= w_next w;
  rd_maps : forall m, is_Some (w_maps w !! m) -> 2 <= m < w_next w;
  rd_chunks : forall c, is_Some (w_chunks w !! c) -> 2 <= c < w_next w;
  rd_handles : forall h x, w_handles w !! h = Some x -> h <> NULL /\ handle_ok MI DI CS w x;
  rd_jobs : Forall (fun j => is_Some (w_handles w !! j.1) /\ Forall (fun d => d <> []) j.2) jobs }.

Definition start_pool (fuel : nat) (jobs : list (Z * list (list Z))) (w : world) :
    config mmE mmlog_err_t world (Z * bool) :=
  (map (fun j => (OK, insert_messages fuel j.1 j.2)) jobs, w).

Definition ghost0 (jobs : list (Z * list (list Z))) : ghost :=
  MkG None [] (map (fun j => budget j.2) jobs) ∅.

Abbreviation steps := (rtc (pool_step (fun _ : nat => mm_h))).

Lemma budget_nonneg ds : 0 <= budget ds.
Proof. apply zsum_nonneg, Forall_map, Forall_forall. intros. apply zlen_nonneg. Qed.

Lemma ready_inv MI DI CS jobs w : ready MI DI CS jobs w ->
  inv MI DI CS (cursor (i_meta (inode_at w MI))) (w, ghost0 jobs).
Proof.
  intros []. split; [done |]. destruct rd_chunk0 as (HCS & _ & Hcs), rd_size0 as [Hfs Hsz].
  split; split; unfold core_of; simpl; try done; try lia.
  - apply Forall_map, Forall_forall. intros. apply budget_nonneg.
  - intros j s n Hin. by apply not_elem_of_nil in Hin.
  - intros c [x Hx]. by rewrite lookup_empty in Hx.
Qed.

(** What each thread knows when it starts. *)
Lemma ready_know MI DI CS jobs w N i j : ready MI DI CS jobs w -> clock_ok N (w_clock w) ->
  jobs !! i = Some j -> exists md fd cap,
  K MI DI i j.1 md fd cap N (budget j.2) [] ∅ 0 (w, ghost0 jobs).
Proof.
  intros Hr Hck Hj. pose proof Hr as [].
  destruct (proj1 (Forall_lookup _ _) rd_jobs0 _ _ Hj) as [[x Hx] _].
  destruct (rd_handles0 _ _ Hx) as (_ & Hok).
  exists (metadata x), (data_fd x), (capacity (chunks x)). split.
  - split; [| split; [done |]].
    + unfold core_of. simpl. by rewrite list_lookup_fmap, Hj.
    + intros p v Hp. by rewrite lookup_empty in Hp.
  - unfold FsGe, core_of. simpl. lia.
  - by exists x.
  - apply (ho_fd _ _ _ _ _ Hok).
  - done.
Qed.

Lemma budget_length_steps {A} (c c' : config mmE mmlog_err_t gw A) :
  rtc (pool_step rh) c c' -> length (g_budget c'.2.2) = length (g_budget c.2.2).
Proof.
  induction 1 as [| c1 c2 c3 H12 _ IH]; [done |]. rewrite IH. clear IH c3.
  destruct H12 as [i ts [w g] l R e k r l' [w' g'] Hi Hh]. simpl.
  unfold rh, instr in Hh. destruct (mm_h R e (l, w)) as [r' [l2 w2] | s' [l2 w2]]; [| done].
  injection Hh as -> -> -> <-. destruct e; simpl; try done; try (by case_match).
  apply spend_length.
Qed.

Section Pool.
Context (MI DI CS : Z) (jobs : list (Z * list (list Z))) (w0 : world) (N fuel : nat).
Context (Hready : ready MI DI CS jobs w0) (Hclock : clock_ok N (w_clock w0)).
Context (Hfuel : (N + 3 <= fuel)%nat).

Abbreviation C0 := (cursor (i_meta (inode_at w0 MI))).

(** What a worker leaves behind. *)
Definition worker_post (i : nat) (r : Z * bool) (l : mmlog_err_t) (wg : gw) : Prop :=
  forall j, jobs !! i = Some j ->
  logged i j.2 r.1 r.2 (my_claims i (g_claims wg.2)) (i_bytes (inode_at wg.1 DI)).

Lemma start_ok : pool_ok rh (inv MI DI CS C0) (rely MI DI CS) worker_post
  ((start_pool fuel jobs w0).1, (w0, ghost0 jobs)).
Proof.
  apply (pool_ok_refine _ _ _ _ ih_rh).
  split; [by apply ready_inv |]. intros i l p Hp. simpl in Hp.
  rewrite list_lookup_fmap in Hp. destruct (jobs !! i) as [j |] eqn:Hj; [| done].
  injection Hp as <- <-. pose proof Hready as [].
  destruct (ready_know _ _ _ _ _ _ _ _ Hready Hclock Hj) as (md & fd & cap & HK).
  destruct rd_chunk0 as (HCS & HCSp & _).
  eapply safe_mono.
  - apply (insert_messages_safe MI DI CS C0 HCS HCSp rd_distinct0 i j.1 md fd cap N fuel Hfuel
      _ [] ∅); [by apply ready_inv | | exact HK].
    by apply (proj1 (Forall_lookup _ _) rd_jobs0 _ _ Hj).
  - intros [n ok] l' wg' _ (b' & cl2 & m' & HK' & Hl & _) j' Hj'. simplify_eq.
    destruct (k_me _ _ _ _ _ _ _ _ _ _ _ _ _ HK') as (_ & Hcl & Hm).
    unfold core_of in Hcl, Hm. simpl in *. rewrite Hcl.
    eapply logged_sub; [| exact Hl]. intros p v Hv. by apply Hm.
Qed.

(** The instrumented run of a run, and what holds at its end. *)
Lemma reach_ok c' : steps (start_pool fuel jobs w0) c' ->
  exists g, pool_ok rh (inv MI DI CS C0) (rely MI DI CS) worker_post (c'.1, (c'.2, g)) /\
    length (g_budget g) = length jobs.
Proof.
  intros Hs. destruct (instr_steps mm_h g_upd _ _ (ghost0 jobs) Hs) as [g Hg]. exists g. split.
  - apply (pool_ok_steps _ _ _ _ _ _ start_ok Hg).
  - apply budget_length_steps in Hg. simpl in Hg. by rewrite Hg, length_map.
Qed.

(** The log is append-only. *)
Lemma old_bytes c p : steps (start_pool fuel jobs w0) c -> p < C0 ->
  i_bytes (inode_at c.2 DI) !! p = i_bytes (inode_at w0 DI) !! p.
Proof.
  intros Hs Hp. destruct (instr_steps mm_h g_upd _ _ (ghost0 jobs) Hs) as [g Hg].
  apply (pool_keep rh (inv MI DI CS C0) (rely MI DI CS) worker_post (fun wg =>
    i_bytes (inode_at wg.1 DI) !! p = i_bytes (inode_at w0 DI) !! p) _ _) in Hg; try done.
  - intros i w w' [Hr _] (_ & Hi & _) E. simpl in *.
    rewrite <-E. apply (cr_unowned _ _ _ Hr). intros j Ho.
    apply (owns_range _ _ _ _ _ (ci_tiles _ _ _ Hi)) in Ho. lia.
  - apply start_ok.
Qed.
End Pool.

(** ** What the file holds *)

Lemma bytes_at_app bytes a d1 d2 :
  bytes_at bytes a d1 -> bytes_at bytes (a + zlen d1) d2 -> bytes_at bytes a (d1 ++ d2).
Proof.
  intros H1 H2 k Hk. rewrite zlen_app in Hk. destruct (decide (k < zlen d1)).
  - rewrite H1 by lia. unfold znth, zlen in *. rewrite (proj2 (Z.leb_le 0 k)) by lia.
    by rewrite lookup_app_l by lia.
  - replace (a + k) with (a + zlen d1 + (k - zlen d1)) by lia. rewrite H2 by lia.
    unfold znth, zlen in *. rewrite !(proj2 (Z.leb_le 0 _)) by lia.
    rewrite lookup_app_r by lia. f_equal. lia.
Qed.

(** The messages of thread [i] in a log of (thread, message) entries. *)
Definition messages_of (i : nat) (log : list (nat * list Z)) : list (list Z) :=
  map snd (filter (fun e => e.1 = i) log).

Definition contents (log : list (nat * list Z)) : list Z := concat (map snd log).

(** Contiguous claims that are all written make one contiguous log. *)
Lemma claims_log T cs a b bytes (ms : nat -> list (list Z)) : tiles a cs b ->
  (forall j s n, (j, s, n) ∈ cs -> (j < T)%nat) ->
  (forall i, (i < T)%nat -> exists n, logged i (ms i) n true (my_claims i cs) bytes) ->
  exists log, b = a + zlen (contents log) /\ bytes_at bytes a (contents log) /\
    (forall i, (i < T)%nat -> messages_of i log = ms i) /\ Forall (fun e => (e.1 < T)%nat) log.
Proof.
  revert a ms. induction cs as [| [[k s] n] cs IH]; intros a ms Ht Hown Hms.
  { exists []. simpl in Ht. split; [unfold contents, zlen; simpl; lia |].
    split; [intros k Hk; unfold contents, zlen in Hk; simpl in Hk; lia |].
    split; [| done]. intros i Hi. destruct (Hms i Hi) as [n Hl]. by destruct (ms i). }
  destruct Ht as (-> & Hn & Ht). assert (k < T)%nat as Hk by (eapply Hown; by left).
  destruct (Hms k Hk) as [nk Hlk]. unfold my_claims in Hlk. rewrite filter_cons_True in Hlk by done.
  destruct (ms k) as [| d ds] eqn:Ek; [done |].
  destruct Hlk as (_ & -> & Hlk). destruct (0 <? nk); [| by destruct Hlk as (_ & ? & _)].
  destruct Hlk as [Hd Hlk].
  destruct (IH (a + zlen d) (fun i => if decide (i = k) then ds else ms i)) as (log & -> & Hb & Hlog & Hlt).
  - done.
  - intros j s' n' Hin. eapply Hown. by right.
  - intros i Hi. case_decide as Hik; [subst i; by exists (nk - 1) |].
    destruct (Hms i Hi) as [ni Hli]. exists ni. unfold my_claims in Hli.
    by rewrite filter_cons_False in Hli by (simpl; congruence).
  - exists ((k, d) :: log). unfold contents in *. simpl. split; [rewrite zlen_app; lia |].
    split; [by apply bytes_at_app |]. split; [| by constructor].
    intros i Hi. specialize (Hlog i Hi). unfold messages_of in *. rewrite filter_cons. simpl.
    destruct (decide (i = k)) as [-> |].
    + rewrite decide_True by done. simpl. by rewrite Hlog, Ek.
    + by rewrite decide_False by congruence.
Qed.

(** C1. Any number of workers, on any number of handles of one log, under any
    schedule and any failing system calls: no thread ever crashes (no bus error, no
    bad pointer), the ranges handed out by [mmlog_checkout] partition the bytes between the old
    and the new cursor, the bytes already in the log are untouched, and every
    message whose [mmlog_insert] returned true is intact at its range. *)
Theorem concurrent_inserts_safe MI DI CS jobs w N fuel c :
  ready MI DI CS jobs w -> clock_ok N (w_clock w) -> (N + 3 <= fuel)%nat ->
  steps (start_pool fuel jobs w) c ->
  let C0 := cursor (i_meta (inode_at w MI)) in
  (forall s, ~ pool_crash (fun _ => mm_h) c s) /\
  (forall p, p < C0 -> i_bytes (inode_at c.2 DI) !! p = i_bytes (inode_at w DI) !! p) /\
  exists claims, tiles C0 claims (cursor (i_meta (inode_at c.2 MI))) /\
    forall i j l n ok, jobs !! i = Some j -> c.1 !! i = Some (l, Ret (n, ok)) ->
      logged i j.2 n ok (my_claims i claims) (i_bytes (inode_at c.2 DI)).
Proof.
  intros Hr Hc Hf Hs C0. destruct (reach_ok _ _ _ _ _ _ _ Hr Hc Hf _ Hs) as (g & Hok & _).
  destruct (pool_adequacy _ _ _ _ _ _ Hok (rtc_refl _ _)) as (Hi & Hcr & Hq & _).
  split; [| split].
  - intros s Hs'. apply (Hcr s). by apply (instr_crash mm_h g_upd c g s).
  - intros p Hp. by eapply old_bytes.
  - exists (g_claims g). pose proof Hi as (_ & Hci & _). split; [apply (ci_tiles _ _ _ Hci) |].
    intros i j l n ok Hj Hl. by apply (Hq i l (n, ok)).
Qed.

(** C2. Refinement to an atomic append-only log: when all workers have returned
    with success, the file holds, from the old cursor, the concatenation of all
    messages in some order that keeps each worker's own order, and the cursor is right after. *)
Theorem workers_refine_append_log MI DI CS jobs w N fuel c :
  ready MI DI CS jobs w -> clock_ok N (w_clock w) -> (N + 3 <= fuel)%nat ->
  steps (start_pool fuel jobs w) c ->
  (forall i, (i < length jobs)%nat -> exists l n, c.1 !! i = Some (l, Ret (n, true))) ->
  let C0 := cursor (i_meta (inode_at w MI)) in
  exists log : list (nat * list Z),
    (forall i j, jobs !! i = Some j -> messages_of i log = j.2) /\
    cursor (i_meta (inode_at c.2 MI)) = C0 + zlen (contents log) /\
    (forall p, p < C0 -> i_bytes (inode_at c.2 DI) !! p = i_bytes (inode_at w DI) !! p) /\
    bytes_at (i_bytes (inode_at c.2 DI)) C0 (contents log).
Proof.
  intros Hr Hc Hf Hs Hall C0. destruct (reach_ok _ _ _ _ _ _ _ Hr Hc Hf _ Hs) as (g & Hok & Hlen).
  destruct (pool_adequacy _ _ _ _ _ _ Hok (rtc_refl _ _)) as (Hi & _ & Hq & _).
  destruct Hi as (_ & Hci & _).
  pose proof (ci_tiles _ _ _ Hci) as Ht. pose proof (ci_owner _ _ _ Hci) as Ho.
  unfold core_of in Ht, Ho. simpl in Ht, Ho. rewrite Hlen in Ho.
  destruct (claims_log (length jobs) _ _ _ (i_bytes (inode_at c.2 DI))
    (fun i => default [] (snd <$> jobs !! i)) Ht Ho) as (log & Hcur & Hb & Hlog & _).
  - intros i Hi. destruct (Hall i Hi) as (l & n & Hl). exists n.
    destruct (lookup_lt_is_Some_2 _ _ Hi) as [j Hj]. rewrite Hj. by apply (Hq i l (n, true)).
  - exists log. split; [| split; [done | split; [| done]]].
    + intros i j Hj. rewrite Hlog by (by eapply lookup_lt_Some). by rewrite Hj.
    + intros p Hp. by eapply old_bytes.
Qed.

(** C4. Every schedule terminates, and a pool that can make no step has all its
    workers returned: no lock, wait loop or failure leaves one stuck. *)
Theorem workers_terminate MI DI CS jobs w N fuel :
  ready MI DI CS jobs w -> clock_ok N (w_clock w) -> (N + 3 <= fuel)%nat ->
  Acc (fun c2 c1 => pool_step (fun _ => mm_h) c1 c2) (start_pool fuel jobs w) /\
  forall c, steps (start_pool fuel jobs w) c ->
    (forall c', ~ pool_step (fun _ => mm_h) c c') ->
    forall i, (i < length jobs)%nat -> exists l r, c.1 !! i = Some (l, Ret r).
Proof.
  intros Hr Hc Hf. split; [apply pool_terminates |]. intros c Hs Hstuck i Hi.
  assert (i < length c.1)%nat as Hi2.
  { apply rtc_pool_length in Hs. rewrite Hs. simpl. by rewrite length_map. }
  destruct (lookup_lt_is_Some_2 _ _ Hi2) as [[l p] Hp].
  destruct (reach_ok _ _ _ _ _ _ _ Hr Hc Hf _ Hs) as (g & Hok & _).
  destruct (pool_adequacy _ _ _ _ _ _ Hok (rtc_refl _ _)) as (_ & _ & _ & Hstep).
  destruct (Hstep i l p Hp) as [[r ->] | [c' Hc']]; [by exists l, r |].
  simpl in Hc'. destruct c as [ts w']. apply instr_unstep in Hc'. by destruct (Hstuck _ Hc').
Qed.

(** C5. Whatever the schedule and the failures, the data keep their shape: each handle's metadata are mapped, its
    descriptor is that of the data file, its head is in its ring, and each slot of the ring is empty or holds a
    chunk that maps its part of the data file; the recorded size is no more than the file's, and no byte lies
    behind the end of the file. *)
Theorem log_well_formed MI DI CS jobs w N fuel c :
  ready MI DI CS jobs w -> clock_ok N (w_clock w) -> (N + 3 <= fuel)%nat ->
  steps (start_pool fuel jobs w) c ->
  let md := i_meta (inode_at c.2 MI) in
  let data := inode_at c.2 DI in
  (forall h x, w_handles c.2 !! h = Some x -> h <> NULL /\ handle_ok MI DI CS c.2 x) /\
  chunk_size md = CS /\ 0 <= cursor md <= LIMIT CS /\
  0 <= file_size md <= i_size data /\ file_size md <= 2 ^ 32 /\
  forall p, is_Some (i_bytes data !! p) -> p < i_size data.
Proof.
  intros Hr Hc Hf Hs md data. destruct (reach_ok _ _ _ _ _ _ _ Hr Hc Hf _ Hs) as (g & Hok & _).
  destruct (pool_adequacy _ _ _ _ _ _ Hok (rtc_refl _ _)) as ((_ & [] & []) & _).
  pose proof (zsum_nonneg _ ci_budget). unfold core_of in *. simpl in *. subst md data.
  split; [done |]. split; [done |]. split; [lia |]. split; [lia |]. split; [lia | done].
Qed.
