(* ===== verification/MmlogDemo.v ===== *)
(** * mmlog.h: a concrete log

    Two handles opened on one log, two workers, a complete interleaved run: the
    concrete inputs at which the theorems about threads apply. *)
From stdpp Require Import base gmap sets list strings relations.
From Stdlib Require Import ZArith Lia.
From S2P Require Import Prelude Prog Conc MmlogTypes MmlogOs MmlogOpen MmlogRing MmlogInsert.
From S2P Require Import MmlogInv MmlogOps MmlogWait MmlogConc MmlogThreads.

(** An empty machine whose clock ticks one millisecond per read. *)
Definition demo_clock (n : nat) : option (Z * Z) := Some (0, Z.of_nat n * 1000000).
Definition empty_world : world := MkW ∅ ∅ ∅ ∅ ∅ ∅ ∅ 3 [] demo_clock 0.

Definition demo_open : mm (Z * Z) :=
  h1 <- mmlog_open 20 (Some "a.log"%string) 4096 2 ;;
  h2 <- mmlog_open 20 (Some "a.log"%string) 4096 2 ;;
  Ret (h1, h2).

Definition demo_world : world :=
  match run mm_h demo_open (OK, empty_world) with
  | Done _ (_, w) => w
  | Stopped _ (_, w) => w
  end.

(** One worker writes a short message and one that spans three chunks, the
    other a short one. *)
Definition demo_jobs : list (Z * list (list Z)) :=
  [(3, [[1; 2; 3]; replicate (Z.to_nat 8200) 7]); (10, [[4; 5]])].

Definition demo_schedule : list nat := concat (replicate 200 [0%nat; 1%nat; 1%nat]).

Definition demo_end : config mmE mmlog_err_t world (Z * bool) :=
  pool_run (fun _ => mm_h) demo_schedule (start_pool 13 demo_jobs demo_world).

Lemma demo_clock_ok : clock_ok 10 demo_clock.
Proof.
  intros n k Hk. unfold clock_ms, demo_clock, SLEEP_TIME_MAX_MS.
  rewrite !Z.div_mul by lia. lia.
Qed.

(** A property of every entry of a concrete map, checked on its list of entries. *)
Lemma entries {A} (m : gmap Z A) (P : Z -> A -> Prop) :
  Forall (fun e => P e.1 e.2) (map_to_list m) -> forall k x, m !! k = Some x -> P k x.
Proof.
  intros HF k x Hx. apply elem_of_map_to_list in Hx.
  by apply (proj1 (Forall_forall _ _) HF (k, x)).
Qed.

Lemma entries_dom {A} (m : gmap Z A) (P : Z -> Prop) :
  Forall (fun e => P e.1) (map_to_list m) -> forall k, is_Some (m !! k) -> P k.
Proof. intros HF k [x Hx]. by apply (entries m (fun k _ => P k) HF k x). Qed.

(** A handle as [mmlog_open] leaves it. *)
Lemma fresh_handle_ok MI DI CS w mfd fd md :
  w_maps w !! md = Some (MkMapping MI 0 32) -> w_fds w !! fd = Some DI ->
  handle_ok MI DI CS w (MkHandle mfd fd md (MkBuf (Some [0; 0]) 2 (Some 0) None false)).
Proof.
  intros Hm Hf. split; simpl; try done.
  - by exists (MkMapping MI 0 32).
  - intros k [= <-]. lia.
  - exists [0; 0]. split; [done |]. split; [done |]. repeat constructor.
Qed.

Lemma demo_ready : ready 5 8 4096 demo_jobs demo_world.
Proof.
  split.
  - done.
  - done.
  - split; [| split]; vm_compute; try done; by eexists.
  - vm_compute. done.
  - vm_compute. done.
  - vm_compute. done.
  - intros p [x Hp]. vm_compute in Hp. by destruct p as [| [] | []].
  - vm_compute. done.
  - apply (entries_dom _ (fun m => 2 <= m < w_next demo_world)). vm_compute. repeat constructor; done.
  - apply (entries_dom _ (fun m => 2 <= m < w_next demo_world)). vm_compute. constructor.
  - apply (entries _ (fun h x => h <> NULL /\ handle_ok 5 8 4096 demo_world x)).
    replace (map_to_list (w_handles demo_world)) with
      [(3, MkHandle 6 9 7 (MkBuf (Some [0; 0]) 2 (Some 0) None false));
       (10, MkHandle 12 14 13 (MkBuf (Some [0; 0]) 2 (Some 0) None false))] by (vm_compute; done).
    constructor; [| constructor; [| constructor]]; split; try done; by apply fresh_handle_ok.
  - assert (replicate (Z.to_nat 8200) 7 <> []) as Hne.
    { intros E. apply (f_equal length) in E. rewrite length_replicate in E. simpl in E. lia. }
    constructor; [| constructor; [| constructor]]; simpl; (split; [vm_compute; by eexists |]).
    + constructor; [done |]. by constructor.
    + by constructor.
Qed.

Lemma demo_steps : steps (start_pool 13 demo_jobs demo_world) demo_end.
Proof. apply pool_run_steps. Qed.

Lemma demo_clocked : clock_ok 10 (w_clock demo_world).
Proof.
  assert (w_clock demo_world = demo_clock) as -> by (vm_compute; done). apply demo_clock_ok.
Qed.

Lemma concurrent_inserts_safe_witness :
  (forall s, ~ pool_crash (fun _ => mm_h) demo_end s) /\
  exists claims, tiles 0 claims (cursor (i_meta (inode_at demo_end.2 5))) /\
    logged 0 [[1; 2; 3]; replicate (Z.to_nat 8200) 7] 2 true (my_claims 0 claims)
      (i_bytes (inode_at demo_end.2 8)).
Proof.
  destruct (concurrent_inserts_safe 5 8 4096 demo_jobs demo_world 10 13 demo_end
    demo_ready demo_clocked ltac:(lia) demo_steps) as (Hc & _ & claims & Ht & Hl).
  split; [exact Hc |]. exists claims. split; [exact Ht |].
  apply (Hl 0%nat (3, [[1; 2; 3]; replicate (Z.to_nat 8200) 7]) OK 2 true).
  - reflexivity.
  - vm_compute. reflexivity.
Defined.

Lemma workers_refine_append_log_witness : exists log : list (nat * list Z),
  messages_of 0 log = [[1; 2; 3]; replicate (Z.to_nat 8200) 7] /\
  messages_of 1 log = [[4; 5]] /\
  bytes_at (i_bytes (inode_at demo_end.2 8)) 0 (contents log).
Proof.
  destruct (workers_refine_append_log 5 8 4096 demo_jobs demo_world 10 13 demo_end
    demo_ready demo_clocked ltac:(lia) demo_steps) as (log & Hm & _ & _ & Hb).
  - intros [| [| i]] Hi; [by exists OK, 2; vm_compute | by exists OK, 1; vm_compute |].
    simpl in Hi. lia.
  - exists log. split; [| split; [| exact Hb]].
    + apply (Hm 0%nat (3, [[1; 2; 3]; replicate (Z.to_nat 8200) 7])). reflexivity.
    + apply (Hm 1%nat (10, [[4; 5]])). reflexivity.
Defined.

Lemma workers_terminate_witness :
  Acc (fun c2 c1 => pool_step (fun _ => mm_h) c1 c2) (start_pool 13 demo_jobs demo_world).
Proof.
  apply (workers_terminate 5 8 4096 demo_jobs demo_world 10 13
    demo_ready demo_clocked ltac:(lia)).
Defined.

Lemma log_well_formed_witness : exists x, w_handles demo_end.2 !! 3 = Some x /\ handle_ok 5 8 4096 demo_end.2 x.
Proof.
  destruct (log_well_formed 5 8 4096 demo_jobs demo_world 10 13 demo_end
    demo_ready demo_clocked ltac:(lia) demo_steps) as (Hh & _).
  destruct (w_handles demo_end.2 !! 3) as [x |] eqn:E; [| vm_compute in E; discriminate E].
  exists x. split; [reflexivity | exact (proj2 (Hh 3 x E))].
Defined.
