(* ===== verification/MmlogProps.v ===== *)
(** * mmlog.h: one operation at a time

    What single operations do to the world when they run alone: error messages, chunk
    sizes and growth under the file lock, with the cases where they go wrong. *)
From stdpp Require Import base gmap sets list strings relations.
From Stdlib Require Import ZArith Lia.
From S2P Require Import Prelude Prog Conc MmlogTypes MmlogOs MmlogOpen MmlogRing MmlogInsert.
From S2P Require Import MmlogInv MmlogOps MmlogWait MmlogConc MmlogThreads MmlogDemo.

#[local] Arguments ALIGN : simpl never.
#[local] Arguments swrap : simpl never.

(** ** Error messages *)

(** Every error code has the message of its row, and any other integer the last one. *)
Theorem strerror_table :
  (forall e s, (e, s) ∈ ERR_TABLE -> mmlog_strerror (err_code e) = Some s) /\
  (forall c, c < 0 \/ err_code ERR_LENGTH <= c -> mmlog_strerror c = Some "UNKNOWN ERROR"%string).
Proof.
  split.
  - intros e s Hin. assert (forallb (fun r => bool_decide (mmlog_strerror (err_code r.1) = Some r.2)) ERR_TABLE
      = true) as HF by (vm_compute; reflexivity).
    rewrite forallb_forall in HF. apply list_elem_of_In in Hin. specialize (HF _ Hin).
    by apply bool_decide_eq_true in HF.
  - intros c Hc. unfold mmlog_strerror.
    replace ((c <? 0) || (err_code ERR_LENGTH <=? c)) with true; [reflexivity |].
    symmetry. apply orb_true_iff. rewrite Z.ltb_lt, Z.leb_le. done.
Qed.

(** ** Chunk sizes *)

(** The [size_t] chunk size is cut to 32 bits on the way to the files: a size of 4 GiB
    and more opens the log with another, smaller chunk size. *)
Theorem open_truncates_chunk_size fuel filename chunk_size n :
  chunk_size mod LOG_PAGE_SIZE = 0 -> u32 chunk_size <> 0 ->
  mmlog_open fuel filename chunk_size n = mmlog_open fuel filename (u32 chunk_size) n.
Proof.
  intros Hp Hu. unfold mmlog_open.
  assert (u32 chunk_size mod LOG_PAGE_SIZE = 0) as Hp'.
  { unfold wrap, LOG_PAGE_SIZE in *. by rewrite Z.mod_mod_divide by (by exists (2 ^ 20)). }
  rewrite Hp, Hp', (proj2 (Z.eqb_neq (u32 chunk_size) 0)) by done.
  rewrite (proj2 (Z.eqb_neq chunk_size 0)) by (intros ->; by apply Hu).
  by rewrite (wrap_idem 32) by lia.
Qed.

Lemma open_truncates_chunk_size_witness :
  mmlog_open 9 (Some "log"%string) (2 ^ 32 + 8192) 4 = mmlog_open 9 (Some "log"%string) 8192 4.
Proof. apply (open_truncates_chunk_size 9 (Some "log"%string) (2 ^ 32 + 8192) 4); [reflexivity | discriminate]. Defined.

(** ** One operation at a time, for a thread that runs alone *)

Section Alone.
Context {A : Type} (w : world) (handle ino : Z) (x : log_handle_t) (md : log_metadata_t).

(** The handle is [x] and its metadata, in inode [ino], are [md]. *)
Definition sees : Prop :=
  w_handles w !! handle = Some x /\ md_at w (metadata x) = inr (ino, md).

Lemma run_set_errno e (k : mm A) er : run mm_h (set_errno e ;; k) (er, w) = run mm_h k (e, w).
Proof. done. Qed.

Context (Hs : sees).

Lemma run_hload {T} (f : h_field T) (k : T -> mm A) er :
  run mm_h (v <- trigger (HLoad f handle) ;; k v) (er, w) = run mm_h (k (h_get f x)) (er, w).
Proof. destruct Hs as [Hx _]. cbn. unfold read_handle. cbn. by rewrite Hx. Qed.

Lemma run_mdload {T} (f : md_field T) (k : T -> mm A) er :
  run mm_h (v <- trigger (MdLoad f (metadata x)) ;; k v) (er, w) = run mm_h (k (md_get f md)) (er, w).
Proof. destruct Hs as [_ Hm]. cbn. unfold read_md. cbn. by rewrite Hm. Qed.

Lemma run_mdstore {T} (f : md_field T) v (k : unit -> mm A) er :
  run mm_h (r <- trigger (MdStore f (metadata x) v) ;; k r) (er, w) =
  run mm_h (k tt) (er, put_meta ino (md_set f v md) w).
Proof. destruct Hs as [_ Hm]. cbn. by rewrite Hm. Qed.

Lemma run_caslocked (k : bool -> mm A) er :
  run mm_h (r <- trigger (MdCasLocked (metadata x) false true) ;; k r) (er, w) =
  if is_locked md then run mm_h (k false) (er, put_meta ino md w)
  else run mm_h (k true) (er, put_meta ino (md_set MdLocked true md) w).
Proof. destruct Hs as [_ Hm]. cbn. rewrite Hm. by destruct (is_locked md). Qed.

Lemma run_fetchadd n (k : Z -> mm A) er :
  run mm_h (r <- trigger (MdFetchAddCursor (metadata x) n) ;; k r) (er, w) =
  run mm_h (k (cursor md)) (er, put_meta ino (md_set MdCursor (u64 (cursor md + n)) md) w).
Proof. destruct Hs as [_ Hm]. cbn. by rewrite Hm. Qed.
End Alone.

Lemma md_at_inode w m ino md : md_at w m = inr (ino, md) <->
  exists mp i, w_maps w !! m = Some mp /\ m_ino mp = ino /\ w_inodes w !! ino = Some i /\
    i_meta i = md /\ 0 < i_size i.
Proof.
  unfold md_at. split.
  - destruct (w_maps w !! m) as [mp |]; [| done].
    destruct (w_inodes w !! m_ino mp) as [i |] eqn:Ei; [| done].
    destruct (0 <? i_size i) eqn:Hz; [| done]. intros [= <- <-]. zbool. by exists mp, i.
  - intros (mp & i & -> & <- & -> & <- & Hz). by rewrite (proj2 (Z.ltb_lt 0 _)).
Qed.

Lemma sees_put w handle ino x md md' :
  sees w handle ino x md -> sees (put_meta ino md' w) handle ino x md'.
Proof.
  intros [Hx Hm]. split; [done |]. apply md_at_inode in Hm as (mp & i & ? & ? & Hi & _ & ?).
  apply md_at_inode. exists mp, (MkInode (i_size i) (i_bytes i) (i_tail i) md'). simpl.
  by rewrite lookup_alter_eq, Hi.
Qed.

(** Truncating another inode. *)
Lemma sees_truncate w handle ino x md di n : di <> ino ->
  sees w handle ino x md -> sees (set_inodes (alter (truncate_inode n) di) w) handle ino x md.
Proof.
  intros Hne [Hx Hm]. split; [done |]. apply md_at_inode in Hm as (mp & i & ? & ? & Hi & ? & ?).
  apply md_at_inode. exists mp, i. simpl. by rewrite lookup_alter_ne.
Qed.

(** ** Growth *)

(** The lock taken by a growth that finds the log panicked is never released: the next
    attempt, of any thread or process, finds it locked. *)
Theorem panicked_growth_keeps_lock w handle ino x md e er :
  sees w handle ino x md -> is_locked md = false -> is_panicked md = true ->
  exists w', run mm_h (file_expand_inner (ExpandArgs handle e)) (er, w) =
      Done (false, ExpandArgs handle e) (FILE_EXPAND_INNER_PANICKED, w') /\
    sees w' handle ino x (md_set MdLocked true md) /\
    forall e' er', exists w'', run mm_h (file_expand_inner (ExpandArgs handle e')) (er', w') =
      Done (false, ExpandArgs handle e') (FILE_EXPAND_INNER_LOCKED, w'') /\
      sees w'' handle ino x (md_set MdLocked true md).
Proof.
  intros Hs Hl Hp. eexists. split; [| split; [by eapply sees_put |]].
  - unfold file_expand_inner. rewrite run_set_errno, (run_hload _ _ _ _ _ Hs).
    cbn [h_get]. rewrite (run_caslocked _ _ _ _ _ Hs), Hl. cbn beta iota.
    rewrite (run_mdload _ _ _ _ _ (sees_put _ _ _ _ _ _ Hs)). cbn. by rewrite Hp.
  - intros e' er'. pose proof (sees_put _ _ _ _ _ (md_set MdLocked true md) Hs) as Hs'.
    eexists. split; [| by eapply sees_put].
    unfold file_expand_inner. rewrite run_set_errno, (run_hload _ _ _ _ _ Hs').
    cbn [h_get]. by rewrite (run_caslocked _ _ _ _ _ Hs').
Qed.

(** Growth under a free lock. *)
Lemma growth_run w handle ino x md di i e er :
  sees w handle ino x md -> is_locked md = false -> is_panicked md = false ->
  w_fds w !! data_fd x = Some di -> w_inodes w !! di = Some i -> di <> ino ->
  w_faults w = [] -> file_size md < e ->
  let n := ALIGN e (chunk_size md) in
  exists w', run mm_h (file_expand_inner (ExpandArgs handle e)) (er, w) =
      Done (true, ExpandArgs handle e) (OK, w') /\
    sees w' handle ino x (md_set MdLocked false (md_set MdFileSize n (md_set MdLocked true md))) /\
    w_inodes w' !! di = Some (truncate_inode n i).
Proof.
  intros Hs Hl Hp Hfd Hi Hne Hf He n. unfold file_expand_inner.
  rewrite run_set_errno, (run_hload _ _ _ _ _ Hs). cbn [h_get expand_handle expand_end].
  rewrite (run_caslocked _ _ _ _ _ Hs), Hl. cbn beta iota.
  pose proof (sees_put _ _ _ _ _ (md_set MdLocked true md) Hs) as Hs1.
  rewrite (run_mdload _ _ _ _ _ Hs1). cbn [md_get].
  change (is_panicked (md_set MdLocked true md)) with (is_panicked md). rewrite Hp.
  rewrite (run_mdload _ _ _ _ _ Hs1). cbn [md_get].
  change (file_size (md_set MdLocked true md)) with (file_size md).
  rewrite (proj2 (Z.ltb_lt _ _) He).
  rewrite (run_mdload _ _ _ _ _ Hs1). cbn [md_get].
  change (chunk_size (md_set MdLocked true md)) with (chunk_size md).
  rewrite (run_hload _ _ _ _ _ Hs1). cbn [h_get].
  pose proof (align_lt_4G e (chunk_size md)) as Hn. fold n in Hn |- *.
  assert (swrap 64 n = n) as Hsw by (unfold swrap; rewrite Z.mod_small by lia; lia).
  set (w1 := put_meta ino (md_set MdLocked true md) w) in *.
  assert (forall k : Z -> mm (bool * file_expand_args_t),
    run mm_h (r <- trigger (Ftruncate (data_fd x) n) ;; k r) (OK, w1) =
    run mm_h (k 0) (OK, set_inodes (alter (truncate_inode n) di) w1)) as ->.
  { intros k. cbn. unfold sys_ftruncate. rewrite Hsw.
    assert (pop_fault w1 = (Succeeds, w1)) as -> by (unfold pop_fault; cbn; by rewrite Hf).
    cbn [fails orb]. rewrite (proj2 (Z.ltb_ge n 0)) by lia. cbn. by rewrite Hfd. }
  cbn [Z.eqb]. pose proof (sees_truncate _ _ _ _ _ di n Hne Hs1) as Hs2.
  rewrite (run_mdstore _ _ _ _ _ Hs2). pose proof (sees_put _ _ _ _ _ (md_set MdFileSize n (md_set MdLocked true md)) Hs2) as Hs3.
  rewrite (run_mdstore _ _ _ _ _ Hs3). eexists. split; [reflexivity |].
  split; [by eapply sees_put |]. cbn. rewrite !(lookup_alter_ne _ _ ino), lookup_alter_eq, lookup_alter_ne by done.
  by rewrite Hi.
Qed.

(** C6. The grown file has the aligned size, on disk and in the metadata, and the lock is
    free again. Below 4 GiB the file holds the requested end, wastes less than a chunk and
    keeps every byte. From 4 GiB on the mask of [ALIGN] has 32 bits only: the call
    reports success with a file shorter than the end it was asked for, and the bytes
    past the new size are gone. *)
Theorem growth_spec w handle ino x md di i e er :
  sees w handle ino x md -> is_locked md = false -> is_panicked md = false ->
  w_fds w !! data_fd x = Some di -> w_inodes w !! di = Some i -> di <> ino ->
  w_faults w = [] -> file_size md < e -> 0 <= file_size md -> 0 < chunk_size md < 2 ^ 32 ->
  (forall p, is_Some (i_bytes i !! p) -> p < file_size md) ->
  exists w' md' i', run mm_h (file_expand_inner (ExpandArgs handle e)) (er, w) =
      Done (true, ExpandArgs handle e) (OK, w') /\
    sees w' handle ino x md' /\ w_inodes w' !! di = Some i' /\
    is_locked md' = false /\ cursor md' = cursor md /\
    file_size md' = ALIGN e (chunk_size md) /\ i_size i' = file_size md' /\
    (e + chunk_size md <= 2 ^ 32 ->
      e <= file_size md' < e + chunk_size md /\ i_bytes i' = i_bytes i) /\
    (2 ^ 32 <= e -> file_size md' < e /\ forall p, file_size md' <= p -> i_bytes i' !! p = None).
Proof.
  intros Hs Hl Hp Hfd Hi Hne Hf He H0 Hcs Hb.
  destruct (growth_run _ _ _ _ _ _ _ e er Hs Hl Hp Hfd Hi Hne Hf He) as (w' & Hr & Hs' & Hi').
  eexists w', _, _. do 3 (split; [done |]). do 4 (split; [done |]). simpl. split; intros Hlim.
  - pose proof (align_bounds e (chunk_size md)). split; [lia |].
    apply map_filter_id. intros p v Hv. specialize (Hb p (mk_is_Some _ _ Hv)). simpl. lia.
  - pose proof (align_lt_4G e (chunk_size md)). split; [lia |]. intros p Hpn.
    apply map_lookup_filter_None. right. intros v _. simpl. lia.
Qed.

(** ** Chunks under concurrency *)

(** C8. No chunk is reclaimed while the workers run: a mapping, once made, stays. A worker can
    never store through an unmapped chunk, and the address space only grows. *)
Theorem mappings_never_released MI DI CS jobs w N fuel c1 c2 m mp :
  ready MI DI CS jobs w -> clock_ok N (w_clock w) -> (N + 3 <= fuel)%nat ->
  rtc (pool_step (fun _ => mm_h)) (start_pool fuel jobs w) c1 ->
  rtc (pool_step (fun _ => mm_h)) c1 c2 ->
  w_maps c1.2 !! m = Some mp -> w_maps c2.2 !! m = Some mp.
Proof.
  intros Hr Hc Hf H1 H2 Hm.
  destruct (reach_ok _ _ _ _ _ _ _ Hr Hc Hf _ H1) as (g & Hok & _).
  destruct (instr_steps mm_h g_upd _ _ g H2) as [g' Hg].
  apply (pool_keep rh (inv MI DI CS (cursor (i_meta (inode_at w MI)))) (rely MI DI CS)
    (worker_post DI jobs) (fun wg => w_maps wg.1 !! m = Some mp) _ _) in Hg; [done | | done | done].
  intros i w1 w2 [_ Hrel] _ E. by apply (hr_maps _ _ _ _ _ Hrel).
Qed.

Lemma mappings_never_released_witness : w_maps demo_end.2 !! 7 = Some (MkMapping 5 0 32).
Proof.
  apply (mappings_never_released 5 8 4096 demo_jobs demo_world 10 13
    (start_pool 13 demo_jobs demo_world) demo_end 7 _ demo_ready demo_clocked
    ltac:(lia) (rtc_refl _ _) demo_steps). vm_compute. reflexivity.
Defined.

(** ** Witnesses *)

(** A log with one message of three bytes. *)
Definition logged_world : world :=
  match run mm_h (mmlog_insert 13 3 (Some [1; 2; 3])) (OK, demo_world) with
  | Done _ (_, w) => w
  | Stopped _ (_, w) => w
  end.

Definition logged_handle : log_handle_t := default zero_handle (w_handles logged_world !! 3).
Definition logged_md : log_metadata_t := MkMeta 1 true false false 4096 3 4096 4096.

Definition logged_data : inode := MkInode 4096 {[0 := 1; 1 := 2; 2 := 3]} ∅ zero_metadata.

Lemma logged_sees : sees logged_world 3 5 logged_handle logged_md.
Proof. split; vm_compute; reflexivity. Qed.

Lemma logged_file : w_fds logged_world !! data_fd logged_handle = Some 8 /\
  w_inodes logged_world !! 8 = Some logged_data /\ w_faults logged_world = [].
Proof. split; [| split]; vm_compute; reflexivity. Qed.

Lemma logged_bytes p : is_Some (i_bytes logged_data !! p) -> p < 4096.
Proof.
  apply (entries_dom _ (fun p => p < 4096)). vm_compute. repeat constructor; done.
Qed.

Lemma growth_spec_witness : exists w' md', sees w' 3 5 logged_handle md' /\
  is_locked md' = false /\ file_size md' < 2 ^ 32 + 5.
Proof.
  destruct logged_file as (Hfd & Hi & Hf).
  destruct (growth_spec logged_world 3 5 logged_handle logged_md 8 logged_data (2 ^ 32 + 5) OK
    logged_sees eq_refl eq_refl Hfd Hi ltac:(lia) Hf ltac:(reflexivity) ltac:(discriminate)
    ltac:(split; reflexivity) logged_bytes) as (w' & md' & i' & _ & Hs & _ & Hl & _ & _ & _ & _ & Hbig).
  exists w', md'. split; [exact Hs |]. split; [exact Hl |]. apply Hbig. lia.
Defined.

Lemma panicked_growth_keeps_lock_witness : exists w',
  run mm_h (file_expand_inner (ExpandArgs 3 5000))
    (OK, put_meta 5 (md_set MdPanicked true logged_md) logged_world) =
    Done (false, ExpandArgs 3 5000) (FILE_EXPAND_INNER_PANICKED, w') /\
  sees w' 3 5 logged_handle (md_set MdLocked true (md_set MdPanicked true logged_md)).
Proof.
  destruct (panicked_growth_keeps_lock (put_meta 5 (md_set MdPanicked true logged_md) logged_world)
    3 5 logged_handle (md_set MdPanicked true logged_md) 5000 OK) as (w' & Hr & Hs & _).
  - apply (sees_put _ _ _ _ logged_md). apply logged_sees.
  - reflexivity.
  - reflexivity.
  - exists w'. split; [exact Hr | exact Hs].
Defined.
