(* ===== verification/MmlogTrim.v ===== *)
(** * mmlog.h: inserting after a trim

    [mmlog_trim] cuts the data file at the cursor and leaves the recorded size as it is. What becomes of the next
    message, for a thread that runs alone, depends on the way it is written. *)
From stdpp Require Import base gmap sets list strings.
From Stdlib Require Import ZArith Lia.
From S2P Require Import Prelude Prog MmlogTypes MmlogOs MmlogOpen MmlogRing MmlogInsert MmlogDemo MmlogProps.

#[local] Arguments swrap : simpl never.

(** [mmlog_trim] cuts the data file at the cursor and leaves the metadata as they are. *)
Lemma trim_run w handle ino x md di i er :
  handle <> NULL -> metadata x <> NULL ->
  sees w handle ino x md -> w_fds w !! data_fd x = Some di -> w_inodes w !! di = Some i ->
  di <> ino -> w_faults w = [] -> 0 <= cursor md < 2 ^ 63 ->
  let w' := set_inodes (alter (truncate_inode (cursor md)) di) w in
  run mm_h (mmlog_trim handle) (er, w) = Done tt (OK, w') /\ sees w' handle ino x md.
Proof.
  intros Hh Hm Hs Hfd Hi Hne Hf Hc w'. split; [| by apply sees_truncate].
  unfold mmlog_trim. rewrite run_set_errno, !(proj2 (Z.eqb_neq handle NULL)) by done.
  rewrite (run_hload _ _ _ _ _ Hs). cbn [h_get orb]. rewrite (proj2 (Z.eqb_neq _ _) Hm).
  rewrite (run_mdload _ _ _ _ _ Hs). cbn [md_get]. rewrite (run_hload _ _ _ _ _ Hs). cbn.
  unfold sys_ftruncate, pop_fault. rewrite Hf. cbn [fails orb].
  assert (swrap 64 (cursor md) = cursor md) as Hsw by (unfold swrap; rewrite Z.mod_small by lia; lia).
  rewrite Hsw, (proj2 (Z.ltb_ge _ 0)) by lia. cbn. by rewrite Hfd.
Qed.

(** ** A chunk that is already mapped *)

(** One operation, with the result it is known to have. *)
Lemma run_op {R A} (e : mmE R) (k : R -> mm A) s a s' : mm_h R e s = Done a s' ->
  run mm_h (r <- trigger e ;; k r) s = run mm_h (k a) s'.
Proof. intros H. by rewrite run_bind, run_trigger, H. Qed.

Lemma do_hload {T} (f : h_field T) handle x er w : w_handles w !! handle = Some x ->
  mm_h T (HLoad f handle) (er, w) = Done (h_get f x) (er, w).
Proof. intros H. cbn. unfold read_handle. cbn. by rewrite H. Qed.

Lemma do_hstore {T} (f : h_field T) v handle x er w : w_handles w !! handle = Some x ->
  mm_h unit (HStore f handle v) (er, w) = Done tt (er, set_handles <[handle := h_set f v x]> w).
Proof. intros H. cbn. by rewrite H. Qed.

Lemma do_chload {T} (f : ch_field T) c ch er w : w_chunks w !! c = Some ch ->
  mm_h T (ChLoad f c) (er, w) = Done (ch_get f ch) (er, w).
Proof. intros H. cbn. unfold read_chunk. cbn. by rewrite H. Qed.

Lemma do_chadd c d ch er w : w_chunks w !! c = Some ch ->
  mm_h Z (ChFetchAdd c d) (er, w) =
  Done (ref_count ch) (er, set_chunks <[c := ch_set ChRef (u32 (ref_count ch + d)) ch]> w).
Proof. intros H. cbn. by rewrite H. Qed.

Lemma do_slotload handle i v x er w : w_handles w !! handle = Some x ->
  (b ← buffer (chunks x); znth b i) = Some v -> mm_h Z (SlotLoad handle i) (er, w) = Done v (er, w).
Proof. intros H E. cbn. unfold slot_load. cbn. by rewrite H, E. Qed.

Ltac op H := erewrite run_op by (apply H; eassumption).

(** A step that touches neither files nor mappings. *)
Definition same_files (w w' : world) : Prop :=
  w_inodes w' = w_inodes w /\ w_maps w' = w_maps w /\ w_fds w' = w_fds w /\ w_faults w' = w_faults w.

Lemma same_files_trans w1 w2 w3 : same_files w1 w2 -> same_files w2 w3 -> same_files w1 w3.
Proof. intros (? & ? & ? & ?) (? & ? & ? & ?). repeat split; congruence. Qed.

Lemma sees_files w w' handle ino x md : same_files w w' -> w_handles w' !! handle = Some x ->
  sees w handle ino x md -> sees w' handle ino x md.
Proof.
  intros (Hi & Hm & _ & _) Hx [_ Hmd]. split; [done |]. unfold md_at in *. by rewrite Hi, Hm.
Qed.

(** The chunk at the head of the ring. *)
Definition head_chunk (x : log_handle_t) : option Z :=
  b ← buffer (chunks x); znth b (default 0 (head (chunks x))).

Section Hit.
Context (handle : Z) (x : log_handle_t) (c : Z) (ch : chunk_info_t).
Context (Hc : head_chunk x = Some c) (Hn : c <> NULL) (Hp : c <> CHUNK_PENDING).
Context (Hlock : head_locked (chunks x) = false).

(** Taking the head lock alone succeeds at once. *)
Lemma lock_alone fuel er w : w_handles w !! handle = Some x -> handle <> NULL ->
  exists er' w', same_files w w' /\ w_chunks w' = w_chunks w /\
    w_handles w' !! handle = Some (h_set HHeadLocked true x) /\
    run mm_h (lock_head (S fuel) handle) (er, w) = Done true (er', w').
Proof.
  intros Hx _. unfold lock_head, hot_wait_for_cond, ms_since_epoch_monotonic.
  destruct (w_clock w (w_reads w)) as [[sec nsec] |] eqn:Et.
  - exists er, (set_handles <[handle := h_set HHeadLocked true x]> (bump_reads w)). cbn.
    rewrite Et. cbn. rewrite Z.sub_diag. cbn. rewrite Hx. unfold cas_field. cbn. rewrite Hlock. cbn.
    by rewrite lookup_insert_eq.
  - exists CLOCK_GETTIMEOFDAY, (set_handles <[handle := h_set HHeadLocked true x]> (bump_reads w)). cbn.
    rewrite Et. cbn. change (-1 - -1 <? SLEEP_TIME_MAX_MS) with true. cbn. rewrite Hx. unfold cas_field. cbn. rewrite Hlock. cbn. by rewrite lookup_insert_eq.
Qed.

Lemma unlocked : h_set HHeadLocked false (h_set HHeadLocked true x) = x.
Proof. destruct x as [? ? ? []]. cbn in *. by rewrite Hlock. Qed.

(** [mmlog_rb_checkout] of a position in it. *)
Lemma checkout_hit fuel pos er w : w_handles w !! handle = Some x -> handle <> NULL ->
  w_chunks w !! c = Some ch -> cursor_in_range (start_offset ch) (size ch) pos = true ->
  exists er' w', run mm_h (mmlog_rb_checkout (S fuel) handle pos) (er, w) = Done c (er', w') /\
    same_files w w' /\ w_handles w' !! handle = Some x /\
    w_chunks w' !! c = Some (ch_set ChRef (u32 (ref_count ch + 1)) ch).
Proof.
  intros Hx Hh Hch Hr. unfold mmlog_rb_checkout. rewrite run_set_errno, (proj2 (Z.eqb_neq handle NULL)) by done.
  assert (exists b, buffer (chunks x) = Some b) as [b Eb].
  { unfold head_chunk in Hc. destruct (buffer (chunks x)) as [b |]; [by exists b | done]. }
  op (@do_hload (option (list Z)) HBuffer). cbn [h_get]. rewrite Eb, run_bind.
  destruct (lock_alone fuel OK w Hx Hh) as (er' & w1 & Hs1 & Hc1 & Hx1 & ->). cbn [obind negb].
  exists er', (set_handles <[handle := x]> (set_chunks <[c := ch_set ChRef (u32 (ref_count ch + 1)) ch]> w1)).
  split; [| split; [done | split; [by apply lookup_insert_eq | by apply lookup_insert_eq]]].
  rewrite <-Hc1 in Hch. unfold rb_checkout_locked.
  op (@do_hload (option Z) HHead). op (@do_hload (option Z) HTail). cbn [h_get].
  change (head (chunks (h_set HHeadLocked true x))) with (head (chunks x)).
  erewrite run_op by (apply (do_slotload _ _ c _ _ _ Hx1); unfold head_chunk in Hc; by destruct (head (chunks x))).
  rewrite (proj2 (Z.eqb_neq c NULL)) by done. unfold is_cursor_in_chunk.
  rewrite (proj2 (Z.eqb_neq c NULL)), (proj2 (Z.eqb_neq c CHUNK_PENDING)) by done. cbn [orb].
  rewrite run_bind. op (@do_chload Z ChStart). op (@do_chload Z ChSize). cbn [ch_get run obind]. rewrite Hr.
  op do_chadd. unfold unlock_head. erewrite run_op by (by apply do_hstore).
  by rewrite unlocked.
Qed.
End Hit.

(** ** The stores *)

(** The inode after [data] was stored at [pos], behind its end. *)
Definition tailed (pos : Z) (data : list Z) (i : inode) : inode :=
  MkInode (i_size i) (i_bytes i) (put_bytes pos data (i_tail i)) (i_meta i).

Lemma store_tail m di s len i off b er w : w_maps w !! m = Some (MkMapping di s len) ->
  w_inodes w !! di = Some i -> 0 <= off < page_end len -> i_size i <= s + off ->
  mm_h unit (StoreByte m off b) (er, w) =
  if s + off <? page_end (i_size i) then Done tt (er, set_inodes <[di := tailed (s + off) [b] i]> w)
  else Stopped (Signaled SIGBUS) (er, w).
Proof.
  intros Hm Hi Ho Hs. cbn. unfold store_byte. rewrite Hm. cbn zeta.
  rewrite (proj2 (Z.ltb_ge off 0)), (proj2 (Z.leb_gt _ _)) by (cbn; lia). cbn [orb m_ino m_off].
  by rewrite Hi, (proj2 (Z.ltb_ge _ (i_size i))) by lia.
Qed.

Lemma set_inodes_twice di i i' w : set_inodes <[di := i']> (set_inodes <[di := i]> w) = set_inodes <[di := i']> w.
Proof. unfold set_inodes. cbn. by rewrite insert_insert_eq. Qed.

(** A copy behind the end of the file stays in the last page or is stopped at its end. *)
Lemma memcpy_tail m di s len data off i er w : w_maps w !! m = Some (MkMapping di s len) ->
  w_inodes w !! di = Some i -> 0 <= off -> off + zlen data <= page_end len -> i_size i <= s + off ->
  s + off <= page_end (i_size i) ->
  if s + off + zlen data <=? page_end (i_size i)
  then run mm_h (memcpy_to_map m off data) (er, w) = Done tt (er, set_inodes <[di := tailed (s + off) data i]> w)
  else exists st, run mm_h (memcpy_to_map m off data) (er, w) = Stopped (Signaled SIGBUS) st.
Proof.
  revert off i w. induction data as [| b data IH]; intros off i w Hm Hi H0 Hl Hs He.
  - rewrite zlen_nil, Z.add_0_r, (proj2 (Z.leb_le _ _)) by done. cbn [memcpy_to_map run]. do 2 f_equal.
    destruct w as [nm ino fds maps hs cs hp nx ft cl rd]. unfold set_inodes. cbn in *. f_equal.
    symmetry. apply insert_id. rewrite Hi. f_equal. by destruct i.
  - rewrite zlen_cons in *. pose proof (zlen_nonneg data). cbn [memcpy_to_map].
    rewrite run_bind, run_trigger, (store_tail _ _ _ _ _ _ _ _ _ Hm Hi) by lia.
    destruct (s + off <? page_end (i_size i)) eqn:E; zbool.
    + cbn [obind]. specialize (IH (off + 1) (tailed (s + off) [b] i) (set_inodes <[di := tailed (s + off) [b] i]> w)).
      rewrite !Z.add_assoc in *. cbn [i_size tailed] in IH.
      replace (s + off + 1 + zlen data <=? page_end (i_size i)) with (s + off + 1 + zlen data <=? page_end (i_size i)) by done.
      specialize (IH Hm ltac:(by apply lookup_insert_eq) ltac:(lia) ltac:(lia) ltac:(lia) ltac:(lia)).
      case_if; [| exact IH]. rewrite IH, set_inodes_twice. done.
    + rewrite (proj2 (Z.leb_gt _ _)) by lia. by eexists.
Qed.

(** ** The next message *)

(** The code writes the message with [pwrite] when it spans more than one chunk boundary or is exactly a chunk. *)
Definition direct (md : log_metadata_t) (n : Z) : bool :=
  (1 <? mmlog_cross_count (cursor md) n (chunk_size md)) || ((n =? chunk_size md) && (cursor md mod chunk_size md =? 0)).

(** The chunk at the head of the ring is that of the cursor and is mapped at [m]; the next [n] bytes are in it. *)
Definition head_maps (w : world) (x : log_handle_t) (md : log_metadata_t) (di n m : Z) : Prop :=
  let s := chunk_start (cursor md) (chunk_size md) in
  exists c ch, head_chunk x = Some c /\ c <> NULL /\ c <> CHUNK_PENDING /\ w_chunks w !! c = Some ch /\
    start_offset ch = s /\ size ch = chunk_size md /\ mapping ch = m /\
    w_maps w !! m = Some (MkMapping di s (chunk_size md)) /\ cursor md + n <= s + chunk_size md.

(** A log of one thread, at rest, whose system calls succeed. *)
Record at_rest (w : world) (handle ino : Z) (x : log_handle_t) (md : log_metadata_t) (di : Z) (i : inode) : Prop := {
  rest_handle : handle <> NULL;
  rest_metadata : metadata x <> NULL;
  rest_sees : sees w handle ino x md;
  rest_fd : w_fds w !! data_fd x = Some di;
  rest_inode : w_inodes w !! di = Some i;
  rest_two : di <> ino;
  rest_faults : w_faults w = [];
  rest_lock : head_locked (chunks x) = false;
  rest_tail : tail (chunks x) = None;
  rest_buffer : is_Some (buffer (chunks x));
  rest_cursor : 0 <= cursor md < 2 ^ 62;
  rest_chunk : 0 < chunk_size md < 2 ^ 32 }.

Lemma page_end_above z : 0 <= z -> z <= page_end z < z + 4096.
Proof.
  intros Hz. unfold page_end. pose proof (Z.div_mod (z + 4095) 4096 ltac:(lia)).
  pose proof (Z.mod_pos_bound (z + 4095) 4096). lia.
Qed.

Section Next.
Context (w : world) (handle ino : Z) (x : log_handle_t) (md : log_metadata_t) (di : Z) (i : inode).
Context (Hrest : at_rest w handle ino x md di i).

Definition advanced (n : Z) : log_metadata_t := md_set MdCursor (u64 (cursor md + n)) md.

(** A checkout that need not grow the file. *)
Lemma checkout_room fuel n er : 0 < n -> cursor md + n <= file_size md < 2 ^ 62 ->
  run mm_h (mmlog_checkout fuel handle n) (er, w) = Done (cursor md) (OK, put_meta ino (advanced n) w).
Proof.
  intros Hn Hsz. destruct Hrest as [Hh Hm Hs _ _ _ _ _ _ _ Hcur _]. unfold mmlog_checkout.
  rewrite run_set_errno, !(proj2 (Z.eqb_neq handle NULL)) by done.
  rewrite (run_hload _ _ _ _ _ Hs). cbn [h_get orb]. rewrite (proj2 (Z.eqb_neq _ _) Hm).
  rewrite (run_fetchadd _ _ _ _ _ Hs), (run_mdload _ _ _ _ _ (sees_put _ _ _ _ _ _ Hs)).
  cbn [md_get]. change (file_size (md_set MdCursor (u64 (cursor md + n)) md)) with (file_size md).
  unfold advanced. rewrite (wrap_small 64 (cursor md + n)) by lia. by rewrite (proj2 (Z.ltb_ge _ _)) by lia.
Qed.

Lemma run_clean fuel er w' : w_handles w' !! handle = Some x ->
  run mm_h (clean_chunks (S fuel) handle) (er, w') = Done true (OK, w').
Proof.
  intros Hx. destruct Hrest as [Hh _ _ _ _ _ _ _ Ht [b Hb] _ _]. unfold clean_chunks.
  rewrite run_set_errno, (proj2 (Z.eqb_neq handle NULL)) by done.
  op (@do_hload (option (list Z)) HBuffer). cbn [h_get]. rewrite Hb. cbn [loop]. rewrite run_bind.
  unfold clean_chunks_step. op (@do_hload (option Z) HTail). op (@do_hload (option Z) HHead). cbn [h_get]. by rewrite Ht.
Qed.

(** What [write_to_chunk] does with a message behind the end of the file. *)
Lemma write_behind fuel data m er w' : sees w' handle ino x (advanced (zlen data)) -> head_maps w' x md di (zlen data) m ->
  w_inodes w' !! di = Some i -> i_size i = cursor md -> 
  let last := page_end (cursor md) in
  if cursor md + zlen data <=? last
  then exists er' w'', run mm_h (write_to_chunk (S fuel) handle (cursor md) data) (er, w') = Done true (er', w'') /\
    w_handles w'' !! handle = Some x /\ w_maps w'' = w_maps w' /\
    w_inodes w'' = <[di := tailed (cursor md) data i]> (w_inodes w')
  else exists st, run mm_h (write_to_chunk (S fuel) handle (cursor md) data) (er, w') = Stopped (Signaled SIGBUS) st.
Proof.
  intros Hs (c & ch & Hc & Hn & Hp & Hch & Hso & Hsz & Hmp & Hm & Hin) Hi Hz last.
  destruct Hrest as [Hh _ _ _ _ _ _ Hlock _ _ Hcur Hcs]. pose proof (zlen_nonneg data) as Hd.
  destruct (chunk_start_spec (chunk_size md) (proj1 Hcs) (cursor md) ltac:(lia)) as (Hb & Hs0 & _).
  set (s := chunk_start (cursor md) (chunk_size md)) in *. assert (s <= cursor md) by lia.
  assert (cursor_in_range (start_offset ch) (size ch) (cursor md) = true) as Hr.
  { unfold cursor_in_range. rewrite Hso, Hsz, (wrap_small 64) by lia.
    by rewrite (proj2 (Z.leb_le _ _)), (proj2 (Z.ltb_lt _ _)) by lia. }
  destruct (checkout_hit handle x c ch Hc Hn Hp Hlock fuel (cursor md) OK w' (proj1 Hs) Hh Hch Hr)
    as (er' & w1 & Hrun & (Hfi & Hfm & Hff & Hft) & Hx1 & Hch1).
  assert (run mm_h (write_to_chunk (S fuel) handle (cursor md) data) (er, w') =
    run mm_h (memcpy_to_map m (cursor md - s) data ;; trigger (ChFetchAdd c (-1)) ;; Ret true) (er', w1)) as ->.
  { unfold write_to_chunk. rewrite run_set_errno, run_bind, Hrun. cbn [obind].
    rewrite (proj2 (Z.eqb_neq c NULL)) by done. op (@do_chload Z ChStart). op (@do_chload Z ChMapping).
    cbn [ch_get ch_set start_offset mapping]. by rewrite Hso, Hmp, (wrap_small 64) by lia. }
  rewrite <-Hfm in Hm. rewrite <-Hfi in Hi.
  pose proof (page_end_above (chunk_size md) ltac:(lia)). pose proof (page_end_above (cursor md) ltac:(lia)).
  pose proof (memcpy_tail m di s (chunk_size md) data (cursor md - s) i er' w1 Hm Hi ltac:(lia) ltac:(lia) ltac:(lia) ltac:(rewrite Hz; lia)) as HM.
  rewrite Hz in HM. replace (s + (cursor md - s)) with (cursor md) in HM by lia. fold last in HM.
  destruct (cursor md + zlen data <=? last) eqn:El.
  - rewrite run_bind, HM. cbn [obind]. rewrite <-Hfi, <-Hfm.
    erewrite run_op by (by apply do_chadd). eexists _, _. done.
  - destruct HM as [st HM]. exists st. by rewrite run_bind, HM.
Qed.

(** The write loop, for a message that one chunk holds. *)
Lemma insert_one fuel data m er w' : data <> [] -> sees w' handle ino x (advanced (zlen data)) ->
  head_maps w' x md di (zlen data) m -> w_inodes w' !! di = Some i -> i_size i = cursor md ->
  let last := page_end (cursor md) in
  if cursor md + zlen data <=? last
  then exists er' w'', run mm_h (loop (S (S fuel)) (insert_step (S (S fuel)) handle (metadata x) data) (cursor md, 0)) (er, w') =
      Done true (er', w'') /\ w_handles w'' !! handle = Some x /\ w_maps w'' = w_maps w' /\
    w_inodes w'' = <[di := tailed (cursor md) data i]> (w_inodes w')
  else exists st, run mm_h (loop (S (S fuel)) (insert_step (S (S fuel)) handle (metadata x) data) (cursor md, 0)) (er, w') =
      Stopped (Signaled SIGBUS) st.
Proof.
  intros Hne Hs Hhm Hi Hz last. destruct Hrest as [_ _ _ _ _ _ _ _ _ _ Hcur Hcs].
  assert (0 < zlen data) as Hd by (destruct data; [done | rewrite zlen_cons; pose proof (zlen_nonneg data); lia]).
  pose proof Hhm as (_ & _ & _ & _ & _ & _ & _ & _ & _ & _ & Hin).
  destruct (chunk_start_spec (chunk_size md) (proj1 Hcs) (cursor md) ltac:(lia)) as (Hb & Hs0 & _).
  assert (forall er (k : (Z * Z) + bool -> mm bool), run mm_h (r <- insert_step (S (S fuel)) handle (metadata x) data (cursor md, 0) ;; k r) (er, w') =
    run mm_h (ok <- write_to_chunk (S (S fuel)) handle (cursor md) data ;;
              k (if negb ok then inr false else inl (u64 (cursor md + zlen data), u64 (0 + zlen data)))) (er, w')) as Hstep.
  { intros er0 k. unfold insert_step. rewrite (proj2 (Z.ltb_lt 0 _)) by done.
    rewrite run_bind, (run_mdload _ _ _ _ _ Hs). cbn [md_get]. change (chunk_size (advanced (zlen data))) with (chunk_size md).
    rewrite Z.sub_0_r. replace (u64 ((cursor md / chunk_size md + 1) * chunk_size md)) with
      (chunk_start (cursor md) (chunk_size md) + chunk_size md) by (unfold chunk_start in *; rewrite wrap_small; lia).
    rewrite (wrap_small 64 (cursor md + zlen data)), (proj2 (Z.ltb_ge _ _)) by lia.
    change (drop (Z.to_nat 0) data) with data. rewrite (take_ge data) by (unfold zlen; lia).
    rewrite !run_bind. destruct (run mm_h (write_to_chunk _ _ _ _) _) as [ok s | st s]; [| done]. cbn [obind].
    rewrite ?(wrap_small 64 (cursor md + zlen data)) by lia. by destruct ok. }
  pose proof (write_behind (S fuel) data m er w' Hs Hhm Hi Hz) as HW. cbn [loop]. rewrite Hstep, run_bind.
  cbn zeta in HW. fold last in HW. destruct (cursor md + zlen data <=? last).
  - destruct HW as (er1 & w1 & -> & Hx1 & Hm1 & Hi1). cbn [obind negb]. exists er1, w1. split; [| done].
    rewrite Z.add_0_l, (wrap_small 64 (zlen data)) by lia. unfold insert_step.
    by rewrite Z.ltb_irrefl.
  - destruct HW as [st ->]. by exists st.
Qed.

(** [mmlog_insert] of such a message, and of one that is written directly. *)
Lemma insert_mapped fuel data m er : data <> [] -> cursor md + zlen data <= file_size md < 2 ^ 62 ->
  direct md (zlen data) = false -> head_maps w x md di (zlen data) m -> i_size i = cursor md ->
  if cursor md + zlen data <=? page_end (cursor md)
  then exists w', run mm_h (mmlog_insert (S (S fuel)) handle (Some data)) (er, w) = Done true (OK, w') /\
    w_maps w' = w_maps w /\ w_inodes w' !! di = Some (tailed (cursor md) data i)
  else exists st, run mm_h (mmlog_insert (S (S fuel)) handle (Some data)) (er, w) = Stopped (Signaled SIGBUS) st.
Proof.
  intros Hne Hsz Hdir Hhm Hz. pose proof Hrest as [Hh _ Hs _ Hi Htwo _ _ _ _ Hcur _].
  assert (0 < zlen data) as Hd by (destruct data; [done | rewrite zlen_cons; pose proof (zlen_nonneg data); lia]).
  set (w1 := put_meta ino (advanced (zlen data)) w).
  assert (sees w1 handle ino x (advanced (zlen data))) as Hs1 by (by eapply sees_put).
  assert (w_inodes w1 !! di = Some i) as Hi1 by (cbn; by rewrite lookup_alter_ne).
  pose proof (insert_one fuel data m OK w1 Hne Hs1 Hhm Hi1 Hz) as HI. cbn zeta in HI.
  assert (run mm_h (mmlog_insert (S (S fuel)) handle (Some data)) (er, w) =
    run mm_h (ok <- loop (S (S fuel)) (insert_step (S (S fuel)) handle (metadata x) data) (cursor md, 0) ;;
      if negb ok then Ret false else clean_chunks (S (S fuel)) handle ;; Ret true) (OK, w1)) as ->.
  { unfold mmlog_insert. rewrite run_set_errno. destruct data as [| b data]; [done |].
    rewrite (proj2 (Z.eqb_neq handle NULL)) by done. rewrite (run_hload _ _ _ _ _ Hs). cbn [h_get].
    rewrite run_bind, (checkout_room (S (S fuel)) _ OK) by done. cbn [obind].
    rewrite (proj2 (Z.eqb_neq LOG_CURSOR_INVALID _)) by (change LOG_CURSOR_INVALID with (2 ^ 64 - 1); lia).
    fold w1. rewrite (run_mdload _ _ _ _ _ Hs1). cbn [md_get]. change (chunk_size (advanced (zlen (b :: data)))) with (chunk_size md).
    fold (direct md (zlen (b :: data))). by rewrite Hdir. }
  destruct (cursor md + zlen data <=? page_end (cursor md)).
  - destruct HI as (er' & w2 & HI & Hx2 & Hm2 & Hi2). exists w2. rewrite run_bind, HI. cbn [obind negb].
    rewrite run_bind, (run_clean _ _ _ Hx2). cbn [obind run]. split; [done |]. split; [by rewrite Hm2 |].
    rewrite Hi2. by apply lookup_insert_eq.
  - destruct HI as [st HI]. exists st. by rewrite run_bind, HI.
Qed.

Lemma insert_direct fuel data er : data <> [] -> cursor md + zlen data <= file_size md < 2 ^ 62 ->
  direct md (zlen data) = true ->
  exists w', run mm_h (mmlog_insert fuel handle (Some data)) (er, w) = Done true (OK, w') /\
    w_inodes w' !! di = Some (write_inode (cursor md) data i).
Proof.
  intros Hne Hsz Hdir. destruct Hrest as [Hh _ Hs Hfd Hi Htwo Hf _ _ _ Hcur _].
  assert (0 < zlen data) as Hd by (destruct data; [done | rewrite zlen_cons; pose proof (zlen_nonneg data); lia]).
  set (w1 := put_meta ino (advanced (zlen data)) w).
  assert (sees w1 handle ino x (advanced (zlen data))) as Hs1 by (by eapply sees_put).
  exists (set_inodes (alter (write_inode (cursor md) data) di) w1). split.
  - unfold mmlog_insert. rewrite run_set_errno. destruct data as [| b data]; [done |].
    rewrite (proj2 (Z.eqb_neq handle NULL)) by done. rewrite (run_hload _ _ _ _ _ Hs). cbn [h_get].
    rewrite run_bind, (checkout_room fuel _ OK) by done. cbn [obind].
    rewrite (proj2 (Z.eqb_neq LOG_CURSOR_INVALID _)) by (change LOG_CURSOR_INVALID with (2 ^ 64 - 1); lia).
    fold w1. rewrite (run_mdload _ _ _ _ _ Hs1). cbn [md_get]. change (chunk_size (advanced (zlen (b :: data)))) with (chunk_size md).
    fold (direct md (zlen (b :: data))). rewrite Hdir, (run_hload _ _ _ _ _ Hs1). cbn [h_get].
    erewrite run_op; [rewrite (wrap_small 64 (zlen (b :: data))), Z.eqb_refl by lia; reflexivity |].
    cbn -[zlen write_inode]. unfold sys_pwrite, pop_fault. cbn -[zlen write_inode]. rewrite Hf.
    assert (swrap 64 (cursor md) = cursor md) as -> by (unfold swrap; rewrite Z.mod_small by lia; lia).
    change (w_fds w1) with (w_fds w). by rewrite Hfd, (proj2 (Z.ltb_ge _ 0)) by lia.
  - cbn. rewrite lookup_alter_eq, lookup_alter_ne, Hi by done. done.
Qed.
End Next.

(** The log after the trim is at rest as well. *)
Lemma at_rest_trimmed w handle ino x md di i : at_rest w handle ino x md di i ->
  at_rest (set_inodes (alter (truncate_inode (cursor md)) di) w) handle ino x md di (truncate_inode (cursor md) i).
Proof.
  intros [? ? ? ? Hi ? ? ? ? ? ? ?]. constructor; try done; [by apply sees_truncate |].
  cbn. by rewrite lookup_alter_eq, Hi.
Qed.

(** C7. A trim leaves the recorded size, so the next message that fits it does not grow the file. Of a message the code copies through the
    chunk that is mapped already nothing reaches the file: if it fits the last page, [mmlog_insert] reports success, and every mapping shows
    the message, but the file still ends at the cursor and holds none of it; if it does not fit,
    the process ends with a bus error. A message it writes directly is in the file. *)
Theorem trimmed_log_loses_message w handle ino x md di i er er' fuel data :
  at_rest w handle ino x md di i -> data <> [] -> cursor md + zlen data <= file_size md < 2 ^ 62 ->
  let file := filter (fun kv => kv.1 < cursor md) (i_bytes i) in
  exists w1, run mm_h (mmlog_trim handle) (er, w) = Done tt (OK, w1) /\
    (forall m, direct md (zlen data) = false -> head_maps w x md di (zlen data) m ->
      if cursor md + zlen data <=? page_end (cursor md)
      then exists w2 i2, run mm_h (mmlog_insert (S (S fuel)) handle (Some data)) (er', w1) = Done true (OK, w2) /\
        w_inodes w2 !! di = Some i2 /\ i_size i2 = cursor md /\ i_bytes i2 = file /\
        forall j b, znth data j = Some b ->
          mapped_byte w2 m (cursor md - chunk_start (cursor md) (chunk_size md) + j) = Some b
      else exists st, run mm_h (mmlog_insert (S (S fuel)) handle (Some data)) (er', w1) = Stopped (Signaled SIGBUS) st) /\
    (direct md (zlen data) = true ->
      exists w2 i2, run mm_h (mmlog_insert fuel handle (Some data)) (er', w1) = Done true (OK, w2) /\
        w_inodes w2 !! di = Some i2 /\ i_size i2 = cursor md + zlen data /\ i_bytes i2 = put_bytes (cursor md) data file).
Proof.
  intros Hr Hne Hsz file. pose proof (at_rest_trimmed _ _ _ _ _ _ _ Hr) as Hr1.
  destruct Hr as [Hh Hm Hs Hfd Hi Htwo Hf _ _ _ Hcur Hcs].
  destruct (trim_run _ _ _ _ _ _ _ er Hh Hm Hs Hfd Hi Htwo Hf ltac:(lia)) as [Ht _].
  eexists. split; [exact Ht |]. pose proof (zlen_nonneg data) as Hd. split.
  - intros m Hdir Hhm. pose proof (insert_mapped _ _ _ _ _ _ _ Hr1 fuel data m er' Hne Hsz Hdir Hhm eq_refl) as HI.
    destruct (cursor md + zlen data <=? page_end (cursor md)) eqn:El; [zbool | exact HI].
    destruct HI as (w2 & HI & Hm2 & Hi2). exists w2. eexists. split; [exact HI |]. split; [exact Hi2 |].
    do 2 (split; [done |]). intros j b Hj. destruct Hhm as (_ & _ & _ & _ & _ & _ & _ & _ & _ & Hmap & Hin).
    assert (0 <= j < zlen data) as Hjb.
    { unfold znth, zlen in *. destruct (0 <=? j) eqn:E; [| done]. zbool. apply lookup_lt_Some in Hj. lia. }
    destruct (chunk_start_spec (chunk_size md) (proj1 Hcs) (cursor md) ltac:(lia)) as (Hb & Hs0 & _).
    pose proof (page_end_above (chunk_size md) ltac:(lia)).
    unfold mapped_byte. rewrite Hm2. cbn [w_maps set_inodes]. rewrite Hmap. cbn [m_len m_ino m_off].
    rewrite (proj2 (Z.ltb_ge _ 0)), (proj2 (Z.leb_gt _ _)) by lia. cbn [orb]. rewrite Hi2. cbn [i_size tailed truncate_inode i_tail].
    replace (chunk_start (cursor md) (chunk_size md) + (cursor md - chunk_start (cursor md) (chunk_size md) + j)) with (cursor md + j) by lia.
    rewrite (proj2 (Z.ltb_ge _ (cursor md))), (proj2 (Z.ltb_lt _ _)) by lia.
    rewrite put_bytes_lookup, decide_True by lia. replace (cursor md + j - cursor md) with j by lia. by rewrite Hj.
  - intros Hdir. destruct (insert_direct _ _ _ _ _ _ _ Hr1 fuel data er' Hne Hsz Hdir) as (w2 & HI & Hi2).
    exists w2. eexists. split; [exact HI |]. split; [exact Hi2 |]. cbn -[zlen]. split; [lia | done].
Qed.

(** ** Witness: a second message of two bytes, and a first one of exactly a chunk *)

Lemma logged_at_rest : at_rest logged_world 3 5 logged_handle logged_md 8 logged_data.
Proof.
  destruct logged_file as (Hfd & Hi & Hf).
  constructor; [discriminate | | exact logged_sees | exact Hfd | exact Hi | lia | exact Hf | | | | | ]; clear Hfd Hi Hf;
    vm_compute; first [reflexivity | by eexists | by split | discriminate].
Qed.

Lemma logged_head : head_maps logged_world logged_handle logged_md 8 2 16.
Proof. exists 15, (MkChunk false 0 4096 16 1). repeat split; vm_compute; done. Qed.

Definition fresh_handle : log_handle_t := default zero_handle (w_handles demo_world !! 3).
Definition fresh_md : log_metadata_t := MkMeta 1 true false false 4096 0 4096 4096.

Lemma fresh_at_rest : at_rest demo_world 3 5 fresh_handle fresh_md 8 (MkInode 4096 ∅ ∅ zero_metadata).
Proof.
  constructor; [discriminate | | split | | | lia | | | | | | ]; vm_compute;
    first [reflexivity | by eexists | by split | discriminate].
Qed.

(** Of the message [4; 5] no byte is in the file after the trim, and its second byte is seen through the mapping; of the
    message of 4096 bytes every byte is in the file. *)
Lemma trimmed_log_loses_message_witness :
  (exists w1 w2 i2, run mm_h (mmlog_trim 3) (OK, logged_world) = Done tt (OK, w1) /\
    run mm_h (mmlog_insert 3 3 (Some [4; 5])) (OK, w1) = Done true (OK, w2) /\
    w_inodes w2 !! 8 = Some i2 /\ i_size i2 = 3 /\ i_bytes i2 !! 4 = None /\ mapped_byte w2 16 4 = Some 5) /\
  (exists w1 w2 i2, run mm_h (mmlog_trim 3) (OK, demo_world) = Done tt (OK, w1) /\
    run mm_h (mmlog_insert 1 3 (Some (repeat 7 4096))) (OK, w1) = Done true (OK, w2) /\
    w_inodes w2 !! 8 = Some i2 /\ i_size i2 = 4096 /\ i_bytes i2 !! 4095 = Some 7).
Proof.
  split.
  - destruct (trimmed_log_loses_message logged_world 3 5 logged_handle logged_md 8 logged_data OK OK 1 [4; 5]
      logged_at_rest ltac:(done) ltac:(vm_compute; split; congruence)) as (w1 & Ht & Hmap & _).
    destruct (Hmap 16 eq_refl logged_head) as (w2 & i2 & Hrun & Hi & Hsz & Hb & Hv).
    exists w1, w2, i2. do 4 (split; [done |]). split; [rewrite Hb; vm_compute; reflexivity |].
    apply (Hv 1 5 eq_refl).
  - destruct (trimmed_log_loses_message demo_world 3 5 fresh_handle fresh_md 8 (MkInode 4096 ∅ ∅ zero_metadata) OK OK 1
      (repeat 7 4096) fresh_at_rest ltac:(done) ltac:(vm_compute; split; congruence)) as (w1 & Ht & _ & Hdir).
    destruct (Hdir ltac:(vm_compute; reflexivity)) as (w2 & i2 & Hrun & Hi & Hsz & Hb).
    exists w1, w2, i2. do 3 (split; [done |]). split; [rewrite Hsz; vm_compute; reflexivity |].
    rewrite Hb. vm_compute. reflexivity.
Defined.
