(* ===== verification/Sys.v ===== *)
(** * Programs against an arbitrary kernel

    The smaller experiments are verified against every answer the kernel and the C
    library may give: [kernel E] chooses the answer of each operation from the history of
    the process, and [run (traced k)] records that history. *)
From stdpp Require Import base gmap sets list strings pretty.
From Stdlib Require Import ZArith Lia Ascii.
From S2P Require Import Prelude Prog.

Section Kernel.
Context {E : Type -> Type}.

(** An operation and the answer it got. *)
Definition event : Type := {R : Type & (E R * R)%type}.
Definition ev {R} (e : E R) (r : R) : event := existT R (e, r).

(** What the outside world answers, given everything that happened before. *)
Definition kernel : Type := forall R, list event -> E R -> R.

Definition traced (k : kernel) : handler E (list event) := fun R e tr =>
  let r := k R tr e in Done r (tr ++ [ev e r]).

(** Every program returns or stops, and its history only grows. *)
Lemma run_traced_grows {A} (k : kernel) (p : prog E A) tr :
  match run (traced k) p tr with
  | Done _ tr' | Stopped _ tr' => exists new, tr' = tr ++ new
  end.
Proof.
  revert tr. induction p as [a | s | R e f IH]; intros tr; simpl.
  - exists []. by rewrite app_nil_r.
  - exists []. by rewrite app_nil_r.
  - specialize (IH (k R tr e) (tr ++ [ev e (k R tr e)])).
    destruct (run _ _ _); destruct IH as [new ->]; rewrite <-app_assoc; by eexists.
Qed.
End Kernel.

Arguments event E : clear implicits.
Arguments kernel E : clear implicits.

(** ** Every history

    [always A H p Q]: whatever the answers, as long as each satisfies [A], the
    program returns some [a] after a history [tr] with [Q a tr], or stops with [H]. *)
Section Always.
Context {E : Type -> Type} (ans : forall R, E R -> R -> Prop) (halts : stop -> Prop).

Fixpoint always {A} (p : prog E A) (Q : A -> list (event E) -> Prop) : Prop :=
  match p with
  | Ret a => Q a []
  | Halt s => halts s
  | Vis e k => forall r, ans _ e r -> always (k r) (fun a tr => Q a (ev e r :: tr))
  end.

Lemma always_mono {A} (p : prog E A) (P Q : A -> list (event E) -> Prop) :
  always p P -> (forall a tr, P a tr -> Q a tr) -> always p Q.
Proof.
  revert P Q. induction p as [a | s | R e k IH]; simpl; intros P Q Hp HPQ; [auto | done |].
  intros r Hr. apply (IH r _ _ (Hp r Hr)). auto.
Qed.

Lemma always_bind {A B} (p : prog E A) (f : A -> prog E B) P Q :
  always p P -> (forall a tr, P a tr -> always (f a) (fun b tr' => Q b (tr ++ tr'))) ->
  always (bind p f) Q.
Proof.
  revert P Q. induction p as [a | s | R e k IH]; simpl; intros P Q Hp Hf; [| done |].
  - by apply (Hf a []).
  - intros r Hr. apply (IH r _ _ (Hp r Hr)). intros a tr HP. by apply (Hf a (ev e r :: tr)).
Qed.

(** A kernel whose answers satisfy [ans] produces such a history. *)
Lemma always_run {A} (k : kernel E) (p : prog E A) Q tr :
  (forall R tr (e : E R), ans R e (k R tr e)) -> always p Q ->
  match run (traced k) p tr with
  | Done a tr' => exists new, tr' = tr ++ new /\ Q a new
  | Stopped s _ => halts s
  end.
Proof.
  intros Hk. revert Q tr. induction p as [a | s | R e f IH]; simpl; intros Q tr Hp.
  - exists []. by rewrite app_nil_r.
  - done.
  - specialize (IH (k R tr e) _ (tr ++ [ev e (k R tr e)]) (Hp _ (Hk R tr e))).
    destruct (run _ _ _); [| done]. destruct IH as (new & -> & HQ).
    exists (ev e (k R tr e) :: new). by rewrite <-app_assoc.
Qed.
End Always.

(** Fewer answers, or more ways to stop. *)
Lemma always_weaken {E : Type -> Type} (ans ans' : forall R, E R -> R -> Prop)
    (halts halts' : stop -> Prop) {A} (p : prog E A) Q :
  (forall R (e : E R) r, ans' R e r -> ans R e r) -> (forall s, halts s -> halts' s) ->
  always ans halts p Q -> always ans' halts' p Q.
Proof.
  intros Ha Hh. revert Q. induction p as [a | s | R e k IH]; simpl; intros Q Hp; [done | auto |].
  intros r Hr. apply IH, Hp. by apply Ha.
Qed.

(** Any answer at all, and no stop at all. *)
Definition anything {E : Type -> Type} : forall R, E R -> R -> Prop := fun _ _ _ => True.
Definition nothing : stop -> Prop := fun _ => False.

(** The number of events of a history that satisfy [f]. *)
Definition count {E} (f : event E -> bool) (tr : list (event E)) : nat :=
  length (filter (fun e => f e = true) tr).

Lemma count_app {E} (f : event E -> bool) t1 t2 : count f (t1 ++ t2) = (count f t1 + count f t2)%nat.
Proof. unfold count. by rewrite filter_app, length_app. Qed.

(** ** Characters and numbers *)

Definition code_of (a : ascii) : Z := Z.of_nat (nat_of_ascii a).

Definition is_digit (a : ascii) : bool := (48 <=? code_of a) && (code_of a <=? 57).

Definition is_space (a : ascii) : bool :=
  (code_of a =? 32) || ((9 <=? code_of a) && (code_of a <=? 13)).

Definition hex_value (a : ascii) : option Z :=
  let c := code_of a in
  if is_digit a then Some (c - 48)
  else if (65 <=? c) && (c <=? 70) then Some (c - 55)
  else if (97 <=? c) && (c <=? 102) then Some (c - 87)
  else None.

Fixpoint chars (s : string) : list ascii :=
  match s with
  | EmptyString => []
  | String a s' => a :: chars s'
  end.

(** The bytes of a C string, without its terminator. *)
Definition bytes_of (s : string) : list Z := map code_of (chars s).

(** Decimal digits at the front of [s]: how many, their value, the rest. *)
Fixpoint take_digits (s : list ascii) (acc : Z) (n : nat) : nat * Z * list ascii :=
  match s with
  | a :: s' => if is_digit a then take_digits s' (acc * 10 + (code_of a - 48)) (S n)
               else (n, acc, s)
  | [] => (n, acc, s)
  end.

(** [bytes] as a little-endian unsigned integer, and back. *)
Fixpoint le_combine (l : list Z) : Z :=
  match l with
  | [] => 0
  | b :: l' => b + 256 * le_combine l'
  end.

Fixpoint le_split (n : nat) (x : Z) : list Z :=
  match n with
  | O => []
  | S m => x mod 256 :: le_split m (x / 256)
  end.

Lemma le_split_length n x : length (le_split n x) = n.
Proof. revert x. induction n; intros x; simpl; auto. Qed.

Lemma le_combine_split n x : le_combine (le_split n x) = x mod 256 ^ Z.of_nat n.
Proof.
  revert x. induction n as [| n IH]; intros x; [by rewrite Z.mod_1_r |].
  simpl le_combine. rewrite IH, Nat2Z.inj_succ, Z.pow_succ_r by lia.
  rewrite (Z.rem_mul_r x 256) by (try lia; apply Z.pow_nonzero; lia). done.
Qed.
