(* ===== verification/Nopeeking.v ===== *)
(** * nopeeking_registry: a message another process can peek at

    [src/nopeeking_registry/src/nopeeking.c]: a multicast socket whose pending
    datagram carries a snowflake (size and sequence number) and a message. The
    globals [g_multicast_ctx] and [g_sequence_id] are passed explicitly; diagnostics on
    [stderr] are left out. *)
From stdpp Require Import base gmap sets list strings pretty.
From Stdlib Require Import ZArith Lia Ascii.
From S2P Require Import Prelude Prog Sys.

(** ** Addresses *)

(** [s_addr] is the 32-bit word whose bytes in memory are in network order; on a
    little-endian host [ntohl] reverses them. *)
Definition ntohl (x : Z) : Z :=
  Z.lor (Z.lor (Z.shiftl (Z.land x 255) 24) (Z.shiftl (Z.land (Z.shiftr x 8) 255) 16))
        (Z.lor (Z.shiftl (Z.land (Z.shiftr x 16) 255) 8) (Z.land (Z.shiftr x 24) 255)).

Definition htons (x : Z) : Z := Z.lor (Z.shiftl (Z.land x 255) 8) (Z.land (Z.shiftr x 8) 255).

(** One component of a dotted quad: one to three digits, at most 255, no
    superfluous zero. *)
Definition quad_part (s : list ascii) : option (Z * list ascii) :=
  let '(n, v, rest) := take_digits s 0 0 in
  if (n =? 0)%nat || (255 <? v) || ((1 <? n)%nat && (v <? (if (n =? 2)%nat then 10 else 100)))
  then None else Some (v, rest).

Definition expect (a : ascii) (s : list ascii) : option (list ascii) :=
  match s with
  | b :: s' => if ascii_dec a b then Some s' else None
  | [] => None
  end.

(** [inet_pton(AF_INET, s, &addr)]: the resulting [s_addr]. *)
Definition inet_pton (s : string) : option Z :=
  '(a, s) ← quad_part (chars s);
  s ← expect "."%char s;
  '(b, s) ← quad_part s;
  s ← expect "."%char s;
  '(c, s) ← quad_part s;
  s ← expect "."%char s;
  '(d, s) ← quad_part s;
  match s with
  | [] => Some (le_combine [a; b; c; d])
  | _ => None
  end.

(** [inet_ntop(AF_INET, &addr)]. *)
Definition inet_ntop (s_addr : Z) : string :=
  String.concat "." (map pretty (le_split 4 s_addr)).

Definition INET_ADDRSTRLEN : Z := 16.
Definition mcast_min_addr : Z := 0xE0000000.
Definition mcast_max_addr : Z := 0xEFFFFFFF.

Definition is_valid_multicast_address (addr_str : string) : bool :=
  match inet_pton addr_str with
  | None => false
  | Some s_addr =>
      let addr_val := ntohl s_addr in
      (mcast_min_addr <=? addr_val) && (addr_val <=? mcast_max_addr)
  end.

(** ** Snowflakes and messages *)

Definition create_snowflake (size seq_id : Z) : Z := Z.lor (u64 (Z.shiftl size 32)) seq_id.

(** [( *size, *seq_id)]. *)
Definition parse_snowflake (snowflake : Z) : Z * Z :=
  (u32 (Z.shiftr snowflake 32), u32 (Z.land snowflake 0xFFFFFFFF)).

Definition sizeof_snowflake : Z := 8.

(** An [np_message_t] in memory: the snowflake, then the data. *)
Definition np_message_t (snowflake : Z) (data : list Z) : list Z := le_split 8 snowflake ++ data.

(** ** State and operations *)

Record sockaddr_in := SockAddr { sin_family : Z; sin_port : Z; s_addr : Z }.

Record multicast_context := Ctx {
  sockfd : Z;
  addr : sockaddr_in;
  multicast_addr : string;
  port : Z }.

Definition zero_ctx : multicast_context := Ctx 0 (SockAddr 0 0 0) "" 0.

(** The globals, and the [static int seeded] of the address generator. *)
Record globals := Globals {
  g_multicast_ctx : multicast_context;
  g_sequence_id : Z;
  seeded : bool }.

Definition initial_globals : globals := Globals zero_ctx 0 false.

Definition AF_INET : Z := 2.
Definition SOCK_DGRAM : Z := 2.
Definition IPPROTO_IP : Z := 0.
Definition IP_MULTICAST_TTL : Z := 33.
Definition IP_ADD_MEMBERSHIP : Z := 35.
Definition SOL_SOCKET : Z := 1.
Definition SO_REUSEADDR : Z := 2.
Definition INADDR_ANY : Z := 0.
Definition MSG_PEEK : Z := 2.
Definition MSG_DONTWAIT : Z := 0x40.
Definition MSG_NOSIGNAL : Z := 0x4000.
Definition UINT_MAX : Z := 2 ^ 32 - 1.

Inductive npE : Type -> Type :=
| Srand : npE unit                                     (* srand(time(NULL)) *)
| Rand : npE Z
| Socket (domain type protocol : Z) : npE Z
| Setsockopt (fd level optname : Z) (value : list Z) : npE Z
| Connect (fd : Z) (a : sockaddr_in) : npE Z
| Bind (fd : Z) (a : sockaddr_in) : npE Z
| Send (fd : Z) (data : list Z) (flags : Z) : npE Z
| Recv (fd len flags : Z) : npE (Z * list Z)           (* the result and the bytes stored *)
| Close (fd : Z) : npE Z
| Dup2 (fd target : Z) : npE Z
| Readlink (path : string) : npE (option string)
| Fopen (path : string) : npE Z
| Fgets (fp : Z) : npE (option string)
| Fclose (fp : Z) : npE Z
| Malloc (n : Z) : npE Z
| Free (p : Z) : npE unit
| Getpid : npE Z
| Getchar : npE Z
| Printf (s : string) : npE unit.

Abbreviation np := (prog npE).

Definition MCAST_SUCCESS : Z := 0.
Definition MCAST_ERROR_INVALID_ADDR : Z := -1.
Definition MCAST_ERROR_SOCKET : Z := -2.
Definition MCAST_ERROR_TTL : Z := -3.
Definition MCAST_ERROR_BIND : Z := -4.
Definition MCAST_ERROR_MEMBERSHIP : Z := -5.
Definition MCAST_ERROR_CONNECT : Z := -6.
Definition MCAST_ERROR_SEND : Z := -7.
Definition MCAST_ERROR_RECV : Z := -8.

Definition multicast_strerror (error_code : Z) : string :=
  if error_code =? MCAST_SUCCESS then "Success"
  else if error_code =? MCAST_ERROR_INVALID_ADDR then "Invalid multicast address"
  else if error_code =? MCAST_ERROR_SOCKET then "Socket error"
  else if error_code =? MCAST_ERROR_TTL then "Failed to set TTL"
  else if error_code =? MCAST_ERROR_BIND then "Bind error"
  else if error_code =? MCAST_ERROR_MEMBERSHIP then "Failed to join multicast group"
  else if error_code =? MCAST_ERROR_CONNECT then "Connect error"
  else if error_code =? MCAST_ERROR_SEND then "Send error"
  else if error_code =? MCAST_ERROR_RECV then "Receive error"
  else "Unknown error".

(** ** Setting up sockets *)

(** [buffer] and the returned flag; [INET_ADDRSTRLEN] is the buffer's size. *)
Definition generate_safe_multicast_address (g : globals) (size : Z) :
    np (bool * string * globals) :=
  (if seeded g then Ret tt else trigger Srand) ;;
  let g := Globals (g_multicast_ctx g) (g_sequence_id g) true in
  r1 <- trigger Rand ;;
  r2 <- trigger Rand ;;
  r3 <- trigger Rand ;;
  let x := r1 mod 256 in
  let y := r2 mod 256 in
  let z := r3 mod 256 in
  let text := String.append "239." (String.concat "." (map pretty [x; y; z])) in
  let sz := Z.of_nat (String.length text) in
  Ret ((0 <? sz) && (sz <? size), String.substring 0 (Z.to_nat (size - 1)) text, g).

(** [ctx] is [&g_multicast_ctx]; [multicast_addr = None] is a [NULL] pointer. *)
Definition init_multicast_sender (g : globals) (multicast_addr : option string) :
    np (Z * globals) :=
  r <- match multicast_addr with
       | None => t <- generate_safe_multicast_address g INET_ADDRSTRLEN ;;
                 let '(_, addr_buf, g) := t in Ret (addr_buf, g)
       | Some a => Ret (a, g)
       end ;;
  let '(multicast_addr, g) := r in
  match (if is_valid_multicast_address multicast_addr then inet_pton multicast_addr else None) with
  | None => Ret (MCAST_ERROR_INVALID_ADDR, g)
  | Some mcast =>
  sockfd <- trigger (Socket AF_INET SOCK_DGRAM 0) ;;
  if sockfd <? 0 then Ret (MCAST_ERROR_SOCKET, g)
  else
  r <- trigger (Setsockopt sockfd IPPROTO_IP IP_MULTICAST_TTL (le_split 4 1)) ;;
  if r <? 0 then trigger (Close sockfd) ;; Ret (MCAST_ERROR_TTL, g)
  else
  let addr := SockAddr AF_INET (htons 0) mcast in
  let c := g_multicast_ctx g in
  let g := Globals (Ctx (Nopeeking.sockfd c) (Nopeeking.addr c) (Nopeeking.multicast_addr c) 0)
             (g_sequence_id g) (seeded g) in
  r <- trigger (Connect sockfd addr) ;;
  if r <? 0 then trigger (Close sockfd) ;; Ret (MCAST_ERROR_CONNECT, g)
  else Ret (MCAST_SUCCESS,
            Globals (Ctx sockfd addr multicast_addr 0) (g_sequence_id g) (seeded g))
  end.

(** [mreq] as the kernel reads it: the group, then the interface. *)
Definition ip_mreq (imr_multiaddr imr_interface : Z) : list Z :=
  le_split 4 imr_multiaddr ++ le_split 4 imr_interface.

Definition init_multicast_receiver (ctx : multicast_context) (multicast_addr : string) (port : Z) :
    np (Z * multicast_context) :=
  match (if is_valid_multicast_address multicast_addr then inet_pton multicast_addr else None) with
  | None => Ret (MCAST_ERROR_INVALID_ADDR, ctx)
  | Some imr_multiaddr =>
  sockfd <- trigger (Socket AF_INET SOCK_DGRAM 0) ;;
  if sockfd <? 0 then Ret (MCAST_ERROR_SOCKET, ctx)
  else
  r <- trigger (Setsockopt sockfd SOL_SOCKET SO_REUSEADDR (le_split 4 1)) ;;
  if r <? 0 then trigger (Close sockfd) ;; Ret (MCAST_ERROR_SOCKET, ctx)
  else
  let addr := SockAddr AF_INET (htons (u16 port)) (ntohl INADDR_ANY) in
  r <- trigger (Bind sockfd addr) ;;
  if r <? 0 then trigger (Close sockfd) ;; Ret (MCAST_ERROR_BIND, ctx)
  else
  r <- trigger (Setsockopt sockfd IPPROTO_IP IP_ADD_MEMBERSHIP
                  (ip_mreq imr_multiaddr (ntohl INADDR_ANY))) ;;
  if r <? 0 then trigger (Close sockfd) ;; Ret (MCAST_ERROR_MEMBERSHIP, ctx)
  else Ret (MCAST_SUCCESS, Ctx sockfd addr multicast_addr port)
  end.

Definition multicast_send (ctx : multicast_context) (data : list Z) : np Z :=
  send_len <- trigger (Send (sockfd ctx) data (Z.lor MSG_NOSIGNAL MSG_DONTWAIT)) ;;
  Ret (if send_len <? 0 then MCAST_ERROR_SEND else i32 send_len).

Definition multicast_receive (ctx : multicast_context) (max_len flags : Z) : np (Z * list Z) :=
  r <- trigger (Recv (sockfd ctx) max_len flags) ;;
  let '(recv_len, buffer) := r in
  Ret (if recv_len <? 0 then (MCAST_ERROR_RECV, []) else (i32 recv_len, buffer)).

Definition multicast_close (ctx : multicast_context) : np multicast_context :=
  trigger (Close (sockfd ctx)) ;; Ret (Ctx (-1) (addr ctx) (multicast_addr ctx) (port ctx)).

Definition with_ctx (c : multicast_context) (g : globals) : globals :=
  Globals c (g_sequence_id g) (seeded g).

Definition with_fd (fd : Z) (c : multicast_context) : multicast_context :=
  Ctx fd (addr c) (multicast_addr c) (port c).

(** The search for a high descriptor, from [power] down to 0. *)
Fixpoint reposition (fd : Z) (power : nat) : np Z :=
  let target_fd := Z.shiftl 1 (Z.of_nat power) in
  let next := match power with
              | O => Ret (-1)
              | S p => reposition fd p
              end in
  if target_fd <=? fd then next
  else r <- trigger (Dup2 fd target_fd) ;;
       if negb (r =? -1) then Ret target_fd else next.

(** A [bool] function: [return -1] converts to [true]. *)
Definition np_socket_init (g : globals) : np (bool * globals) :=
  r <- init_multicast_sender g None ;;
  let '(err, g) := r in
  if negb (err =? MCAST_SUCCESS) then Ret (truthy (-1), g)
  else
  positioned_fd <- reposition (sockfd (g_multicast_ctx g)) 30 ;;
  if positioned_fd =? -1
  then ctx <- multicast_close (g_multicast_ctx g) ;; Ret (truthy (-1), with_ctx ctx g)
  else
  trigger (Close (sockfd (g_multicast_ctx g))) ;;
  Ret (true, with_ctx (with_fd positioned_fd (g_multicast_ctx g)) g).

Definition np_socket_cleanup (g : globals) : np globals :=
  ctx <- multicast_close (g_multicast_ctx g) ;; Ret (with_ctx ctx g).

Definition newline : string := String (ascii_of_nat 10) EmptyString.

(** ** Finding another process's socket *)

Fixpoint skip_space (s : list ascii) : list ascii :=
  match s with
  | a :: s' => if is_space a then skip_space s' else s
  | [] => []
  end.

(** [strtoul(s, &end, 10)]: the value and [end]. *)
Definition strtoul (s : list ascii) : Z * list ascii :=
  let t := skip_space s in
  let '(neg, t) := match t with
                   | "-"%char :: t' => (true, t')
                   | "+"%char :: t' => (false, t')
                   | _ => (false, t)
                   end in
  let '(n, v, rest) := take_digits t 0 0 in
  if (n =? 0)%nat then (0, s)
  else if 2 ^ 64 - 1 <? v then (2 ^ 64 - 1, rest)
  else (if neg : bool then u64 (- v) else v, rest).

Fixpoint strip_prefix (p s : list ascii) : option (list ascii) :=
  match p with
  | [] => Some s
  | a :: p' => s' ← expect a s; strip_prefix p' s'
  end.

Definition proc_fd_path (pid fd : Z) : string :=
  String.append "/proc/" (String.append (pretty pid) (String.append "/fd/" (pretty fd))).

(** Parse [socket:[12345]]; anything else gives [(unsigned long)-1]. *)
Definition inode_of_link (l : option string) : Z :=
  match l with
  | None => u64 (-1)
  | Some link =>
      match strip_prefix (chars "socket:[") (chars link) with
      | None => u64 (-1)
      | Some s => let '(inode, end_) := strtoul s in
                  match expect "]"%char end_ with
                  | Some _ => inode
                  | None => u64 (-1)
                  end
      end
  end.

Definition get_socket_inode (pid fd : Z) : np Z :=
  l <- trigger (Readlink (proc_fd_path pid fd)) ;; Ret (inode_of_link l).

(** Hexadecimal digits at the front of [s], at most [w] of them. *)
Fixpoint take_hex (w : nat) (s : list ascii) (acc : Z) (n : nat) : nat * Z * list ascii :=
  match w, s with
  | S w', a :: s' =>
      match hex_value a with
      | Some v => take_hex w' s' (acc * 16 + v) (S n)
      | None => (n, acc, s)
      end
  | _, _ => (n, acc, s)
  end.

(** The conversions of the [sscanf] format, on the plain digits the kernel
    prints: [%<w>x], [%x], [%d] and [%u]. *)
Definition scan_hex (w : nat) (s : list ascii) : option (Z * list ascii) :=
  let '(n, v, rest) := take_hex w (skip_space s) 0 0 in
  if (n =? 0)%nat then None else Some (v, rest).

Definition scan_dec (s : list ascii) : option (Z * list ascii) :=
  let '(n, v, rest) := take_digits (skip_space s) 0 0 in
  if (n =? 0)%nat then None else Some (v, rest).

Record udp_line := UdpLine {
  local_addr : list Z;
  local_port : Z;
  remote_addr : list Z;
  remote_port : Z;
  state : Z;
  socket_inode : Z }.

Definition scan_addr (s : list ascii) : option (list Z * Z * list ascii) :=
  '(a0, s) ← scan_hex 2 s;
  '(a1, s) ← scan_hex 2 s;
  '(a2, s) ← scan_hex 2 s;
  '(a3, s) ← scan_hex 2 s;
  s ← expect ":"%char s;
  '(p, s) ← scan_hex 4 s;
  Some ([a0; a1; a2; a3], p, s).

(** The [sscanf] call: [Some] when it stores its twelve items. *)
Definition scan_udp_line (line : string) : option udp_line :=
  '(_, s) ← scan_dec (chars line);
  s ← expect ":"%char s;
  '(la, lp, s) ← scan_addr s;
  '(ra, rp, s) ← scan_addr s;
  '(st_, s) ← scan_hex 16 s;
  '(_, s) ← scan_hex 16 s;
  s ← expect ":"%char s;
  '(_, s) ← scan_hex 16 s;
  '(_, s) ← scan_hex 16 s;
  s ← expect ":"%char s;
  '(_, s) ← scan_hex 16 s;
  '(_, s) ← scan_hex 16 s;
  '(_, s) ← scan_dec s;
  '(_, s) ← scan_dec s;
  '(ino, _) ← scan_dec s;
  Some (UdpLine la lp ra rp (u32 st_) (u32 ino)).

(** [(a[0] << 24) | (a[1] << 16) | (a[2] << 8) | a[3]]. *)
Definition pack_addr (a : list Z) : Z :=
  match a with
  | [a0; a1; a2; a3] =>
      Z.lor (Z.lor (Z.lor (u32 (Z.shiftl a0 24)) (u32 (Z.shiftl a1 16))) (u32 (Z.shiftl a2 8))) a3
  | _ => 0
  end.

(** The test on a packed address: its first octet is 224 to 239. *)
Definition is_multicast_word (ipaddr : Z) : bool := Z.land ipaddr 0xF0 =? 0xE0.

(** The body of the search once the socket's line is found; the result is 0, or
    -1 for the early returns. *)
Definition open_group (ctx : multicast_context) (fp : Z) (u : udp_line) :
    np (Z * multicast_context) :=
  let fail (ctx : multicast_context) := trigger (Fclose fp) ;; Ret (-1, ctx) in
  let close_and_fail (ctx : multicast_context) :=
    trigger (Close (sockfd ctx)) ;; trigger (Fclose fp) ;; Ret (-1, ctx) in
  let ctx := Ctx (sockfd ctx) (addr ctx) (multicast_addr ctx) (local_port u) in
  let ipaddr := pack_addr (local_addr u) in
  let remote_ipaddr := pack_addr (remote_addr u) in
  if is_multicast_word ipaddr || is_multicast_word remote_ipaddr
  then
    let multicast_word := if is_multicast_word ipaddr then ipaddr
                          else if is_multicast_word remote_ipaddr then remote_ipaddr else 0 in
    let text := inet_ntop (s_addr (addr ctx)) in
    let a := SockAddr AF_INET (htons (u16 (local_port u))) (u32 multicast_word) in
    fd <- trigger (Socket AF_INET SOCK_DGRAM 0) ;;
    let ctx := Ctx fd a text (port ctx) in
    if fd =? -1 then fail ctx
    else
    r <- trigger (Setsockopt fd SOL_SOCKET SO_REUSEADDR (le_split 4 1)) ;;
    if r <? 0 then close_and_fail ctx
    else
    r <- trigger (Bind fd (SockAddr AF_INET (htons 0) INADDR_ANY)) ;;
    if r <? 0 then close_and_fail ctx
    else
    r <- trigger (Setsockopt fd IPPROTO_IP IP_ADD_MEMBERSHIP
                    (ip_mreq (u32 multicast_word) INADDR_ANY)) ;;
    if r <? 0 then close_and_fail ctx else Ret (0, ctx)
  else fail ctx.

(** The search through the lines: [inr] carries the function's result (an early
    return), [inl] the context and whether the socket was found. *)
Fixpoint search_udp (fuel : nat) (ctx : multicast_context) (fp inode : Z) :
    np ((bool * multicast_context) + (Z * multicast_context)) :=
  match fuel with
  | O => Halt OutOfFuel
  | S n =>
      l <- trigger (Fgets fp) ;;
      match l with
      | None => Ret (inl (false, ctx))
      | Some line =>
          match scan_udp_line line with
          | Some u =>
              if socket_inode u =? inode
              then r <- open_group ctx fp u ;;
                   let '(err, ctx) := r in
                   if err =? 0 then Ret (inl (true, ctx)) else Ret (inr (err, ctx))
              else search_udp n ctx fp inode
          | None => search_udp n ctx fp inode
          end
      end
  end.

(** [ctx = None] is a [NULL] pointer. *)
Definition init_multicast_context_from_pid_fd (fuel : nat) (ctx : option multicast_context)
    (pid fd : Z) : np (Z * option multicast_context) :=
  match ctx with
  | None => Ret (i32 UINT_MAX, None)
  | Some _ =>
  let ctx := zero_ctx in
  inode <- get_socket_inode pid fd ;;
  trigger (Printf (String.append "Socket inode: " (String.append (pretty inode) newline))) ;;
  if inode =? UINT_MAX then Ret (-1, Some ctx)
  else
  fp <- trigger (Fopen "/proc/net/udp") ;;
  if fp =? 0 then Ret (-1, Some ctx)
  else
  trigger (Fgets fp) ;;
  r <- search_udp fuel ctx fp inode ;;
  match r with
  | inr (err, ctx) => Ret (err, Some ctx)
  | inl (found, ctx) =>
      trigger (Fclose fp) ;;
      Ret (if (found : bool) then 0 else -1, Some ctx)
  end
  end.

(** ** Peeking and modifying *)

(** [np_peek_message] once it has a socket. [junk] is what [snowflake] held
    before the first [recv], which may store fewer than eight bytes. The result is the string
    returned, with its terminator. *)
Definition peek_socket (junk : list Z) (fd : Z) : np (option (list Z)) :=
  r <- trigger (Recv fd sizeof_snowflake (Z.lor MSG_PEEK MSG_DONTWAIT)) ;;
  let '(bytes_read, stored) := r in
  if bytes_read <=? 0 then Ret None
  else
  let snowflake := le_combine (stored ++ drop (length stored) junk) in
  let '(size, seq_id) := parse_snowflake snowflake in
  if size =? 0 then Ret None
  else
  let total_size := sizeof_snowflake + size in
  buffer <- trigger (Malloc total_size) ;;
  if buffer =? 0 then Ret None
  else
  r <- trigger (Recv fd total_size MSG_PEEK) ;;
  let '(bytes_read, contents) := r in
  if (bytes_read <? 0) || negb (bytes_read =? total_size)
  then trigger (Free buffer) ;; Ret None
  else
  let '(peek_size, peek_seq_id) := parse_snowflake (le_combine (take 8 contents)) in
  if negb (peek_size =? size) || negb (peek_seq_id =? seq_id)
  then trigger (Free buffer) ;; Ret None
  else
  result <- trigger (Malloc (u32 (size + 1))) ;;
  if result =? 0 then trigger (Free buffer) ;; Ret None
  else if u32 (size + 1) <? size + 1 then Halt Undefined     (* the copy overruns [result] *)
  else
  trigger (Free buffer) ;;
  Ret (Some (take (Z.to_nat size) (drop 8 contents) ++ [0])).

Definition np_peek_message (fuel : nat) (junk : list Z) (g : globals) (pid : Z) :
    np (option (list Z)) :=
  r <- init_multicast_context_from_pid_fd fuel (Some zero_ctx) pid (sockfd (g_multicast_ctx g)) ;;
  let '(err, ctx) := r in
  if negb (err =? 0) then Ret None
  else peek_socket junk (match ctx with Some c => sockfd c | None => 0 end).

(** The loop that empties the socket. *)
Fixpoint drain (fuel : nat) (fd : Z) : np unit :=
  match fuel with
  | O => Halt OutOfFuel
  | S n => r <- trigger (Recv fd 1024 MSG_DONTWAIT) ;;
           if 0 <? r.1 then drain n fd else Ret tt
  end.

Definition np_modify_message (fuel : nat) (g : globals) (new_message : option string) :
    np (bool * globals) :=
  match new_message with
  | None => Ret (false, g)
  | Some new_message =>
  let fd := sockfd (g_multicast_ctx g) in
  if fd <? 0 then Ret (false, g)
  else
  let text := bytes_of new_message in
  let msg_len := u32 (zlen text) in
  let total_size := sizeof_snowflake + msg_len in
  buffer <- trigger (Malloc total_size) ;;
  if buffer =? 0 then Ret (false, g)
  else
  let seq_id := g_sequence_id g in
  let g := Globals (g_multicast_ctx g) (u32 (seq_id + 1)) (seeded g) in
  let msg := np_message_t (create_snowflake msg_len seq_id) (take (Z.to_nat msg_len) text) in
  drain fuel fd ;;
  sent <- trigger (Send fd msg 0) ;;
  trigger (Free buffer) ;;
  Ret (sent =? total_size, g)
  end.

(** ** The test program *)

(** The characters of a C string, up to its terminator. *)
Fixpoint c_string (msg : list Z) : string :=
  match msg with
  | [] => EmptyString
  | b :: msg' => if b =? 0 then EmptyString
                 else String (ascii_of_nat (Z.to_nat b)) (c_string msg')
  end.

Definition show_message (label : string) (msg : list Z) : string :=
  String.append label (String.append (c_string msg) newline).

(** The messages returned are values here, so their [free] is left out. *)
Definition main (fuel : nat) (junk : list Z) : np Z :=
  r <- np_socket_init initial_globals ;;
  let '(ok, g) := r in
  if negb ok then Ret 1
  else
  let test_msg := "Hello, World!"%string in
  r <- np_modify_message fuel g (Some test_msg) ;;
  let '(ok, g) := r in
  if negb ok then np_socket_cleanup g ;; Ret 1
  else
  trigger (Printf (String.append "Message sent: " (String.append test_msg newline))) ;;
  pid <- trigger Getpid ;;
  trigger (Printf (String.append "PID is " (String.append (pretty pid) newline))) ;;
  trigger (Printf (String.append "Press Enter to continue..." newline)) ;;
  trigger Getchar ;;
  pid <- trigger Getpid ;;
  msg <- np_peek_message fuel junk g pid ;;
  (match msg with
   | Some m => trigger (Printf (show_message "Peeked message: " m))
   | None => trigger (Printf (String.append "No message available" newline))
   end) ;;
  r <- np_modify_message fuel g (Some "This is a new message!"%string) ;;
  let '(_, g) := r in
  pid <- trigger Getpid ;;
  msg <- np_peek_message fuel junk g pid ;;
  (match msg with
   | Some m => trigger (Printf (show_message "Peeked updated message: " m))
   | None => Ret tt
   end) ;;
  np_socket_cleanup g ;;
  trigger (Printf (String.append "Socket cleaned up" newline)) ;;
  Ret 0.
