(* ===== verification/NopeekingProps.v ===== *)
(** * nopeeking_registry: what the code guarantees, and where it does not

    Snowflakes, addresses, the descriptors each function leaves open, and the
    message a peer reads back, for every answer of the kernel. *)
From stdpp Require Import base gmap sets list strings pretty.
From Stdlib Require Import ZArith Lia Ascii.
From S2P Require Import Prelude Prog Sys Nopeeking.

(** ** Snowflakes *)

Lemma create_snowflake_eq size seq : 0 <= size < 2 ^ 32 -> 0 <= seq < 2 ^ 32 ->
  create_snowflake size seq = size * 2 ^ 32 + seq.
Proof.
  intros Hs Hq. unfold create_snowflake.
  rewrite wrap_small; [by apply lor_shiftl_add |]. rewrite Z.shiftl_mul_pow2 by lia. lia.
Qed.

Lemma snowflake_fields size seq : 0 <= size < 2 ^ 32 -> 0 <= seq < 2 ^ 32 ->
  parse_snowflake (create_snowflake size seq) = (size, seq) /\
  0 <= create_snowflake size seq < 2 ^ 64 /\
  forall x, 0 <= x < 2 ^ 64 -> parse_snowflake x = (size, seq) -> x = create_snowflake size seq.
Proof.
  intros Hs Hq. rewrite create_snowflake_eq by done.
  assert (forall x, parse_snowflake x = (u32 (x / 2 ^ 32), x mod 2 ^ 32)) as Hp.
  { intros x. unfold parse_snowflake. rewrite Z.shiftr_div_pow2 by lia.
    change 0xFFFFFFFF with (Z.ones 32). rewrite Z.land_ones by lia.
    f_equal. unfold wrap. by rewrite Z.mod_mod by lia. }
  split; [| split; [lia |]].
  - rewrite Hp, Z.div_add_l by lia. rewrite (Z.div_small seq), Z.add_0_r by lia.
    rewrite wrap_small by lia. f_equal.
    rewrite Z.add_comm, Z_mod_plus_full. by rewrite Z.mod_small by lia.
  - intros x Hx E. rewrite Hp in E. injection E as E1 E2.
    rewrite wrap_small in E1.
    + pose proof (Z.div_mod x (2 ^ 32)). lia.
    + split; [apply Z.div_pos; lia | apply Z.div_lt_upper_bound; lia].
Qed.

(** Snowflakes carry both fields, fit 64 bits, and determine them. *)
Theorem snowflake_roundtrip size seq : 0 <= size < 2 ^ 32 -> 0 <= seq < 2 ^ 32 ->
  parse_snowflake (create_snowflake size seq) = (size, seq) /\
  0 <= create_snowflake size seq < 2 ^ 64 /\
  forall x, 0 <= x < 2 ^ 64 -> parse_snowflake x = (size, seq) -> x = create_snowflake size seq.
Proof. exact (snowflake_fields size seq). Qed.

Lemma snowflake_roundtrip_witness :
  parse_snowflake (create_snowflake 13 7) = (13, 7) /\ create_snowflake 13 7 = 55834574855.
Proof.
  split; [apply (snowflake_roundtrip 13 7); lia | reflexivity].
Defined.

(** ** Addresses *)

Lemma land_255 x : Z.land x 255 = x mod 256.
Proof. change 255 with (Z.ones 8). by rewrite Z.land_ones by lia. Qed.

Lemma ntohl_eq x : ntohl x =
  ((x mod 256 * 256 + x / 2 ^ 8 mod 256) * 256 + x / 2 ^ 16 mod 256) * 256 + x / 2 ^ 24 mod 256.
Proof.
  unfold ntohl. rewrite !land_255, !Z.shiftr_div_pow2 by lia.
  pose proof (Z.mod_pos_bound x 256 ltac:(lia)).
  pose proof (Z.mod_pos_bound (x / 2 ^ 8) 256 ltac:(lia)).
  pose proof (Z.mod_pos_bound (x / 2 ^ 16) 256 ltac:(lia)).
  pose proof (Z.mod_pos_bound (x / 2 ^ 24) 256 ltac:(lia)).
  set (a := x mod 256) in *. set (b := x / 2 ^ 8 mod 256) in *.
  set (c := x / 2 ^ 16 mod 256) in *. set (d := x / 2 ^ 24 mod 256) in *.
  replace (Z.shiftl a 24) with (Z.shiftl (Z.shiftl a 8) 16) by (by rewrite Z.shiftl_shiftl by lia).
  rewrite <-Z.shiftl_lor, (lor_shiftl_add a b), (lor_shiftl_add c d), lor_shiftl_add by lia. lia.
Qed.

(** On 32 bits [ntohl] is an involution: it only reverses the octets. *)
Theorem ntohl_involutive x : 0 <= x < 2 ^ 32 -> 0 <= ntohl x < 2 ^ 32 /\ ntohl (ntohl x) = x.
Proof.
  intros Hx. rewrite (ntohl_eq (ntohl x)), ntohl_eq.
  pose proof (Z.mod_pos_bound x 256 ltac:(lia)).
  pose proof (Z.mod_pos_bound (x / 2 ^ 8) 256 ltac:(lia)).
  pose proof (Z.mod_pos_bound (x / 2 ^ 16) 256 ltac:(lia)).
  pose proof (Z.mod_pos_bound (x / 2 ^ 24) 256 ltac:(lia)).
  assert (x = x mod 256 + 256 * (x / 2 ^ 8 mod 256 + 256 * (x / 2 ^ 16 mod 256 +
    256 * (x / 2 ^ 24 mod 256)))) as Hsplit.
  { clear -Hx. change (2 ^ 8) with 256. 
    replace (x / 2 ^ 16) with (x / 256 / 256) by (by rewrite Zdiv.Zdiv_Zdiv by lia).
    replace (x / 2 ^ 24) with (x / 256 / 256 / 256) by (by rewrite !Zdiv.Zdiv_Zdiv by lia).
    assert (x / 256 / 256 / 256 < 256).
    { rewrite !Zdiv.Zdiv_Zdiv by lia. apply Z.div_lt_upper_bound; lia. }
    assert (0 <= x / 256 / 256 / 256) by (rewrite !Zdiv.Zdiv_Zdiv by lia; apply Z.div_pos; lia).
    rewrite (Z.mod_small (x / 256 / 256 / 256)) by lia.
    pose proof (Z.div_mod x 256). pose proof (Z.div_mod (x / 256) 256).
    pose proof (Z.div_mod (x / 256 / 256) 256). lia. }
  set (a := x mod 256) in *. set (b := x / 2 ^ 8 mod 256) in *.
  set (c := x / 2 ^ 16 mod 256) in *. set (d := x / 2 ^ 24 mod 256) in *.
  set (y := ((a * 256 + b) * 256 + c) * 256 + d).
  assert (y mod 256 = d) as -> by (symmetry; apply (Z.mod_unique _ _ ((a * 256 + b) * 256 + c)); lia).
  assert (y / 2 ^ 8 = (a * 256 + b) * 256 + c) as -> by (symmetry; apply (Z.div_unique _ _ _ d); lia).
  assert (y / 2 ^ 16 = a * 256 + b) as -> by (symmetry; apply (Z.div_unique _ _ _ (c * 256 + d)); lia).
  assert (y / 2 ^ 24 = a) as -> by (symmetry; apply (Z.div_unique _ _ _ ((b * 256 + c) * 256 + d)); lia).
  rewrite (Z.mod_small a) by lia.
  assert (((a * 256 + b) * 256 + c) mod 256 = c) as ->
    by (symmetry; apply (Z.mod_unique _ _ (a * 256 + b)); lia).
  assert ((a * 256 + b) mod 256 = b) as -> by (symmetry; apply (Z.mod_unique _ _ a); lia).
  lia.
Qed.

Lemma ntohl_involutive_witness : ntohl 0x030201EF = 0xEF010203 /\ ntohl (ntohl 0x030201EF) = 0x030201EF.
Proof. split; [reflexivity | apply (ntohl_involutive 0x030201EF); lia]. Defined.

Lemma multicast_octet a : 0 <= a < 256 ->
  (Z.land a 0xF0 =? 0xE0) = (224 <=? a) && (a <=? 239).
Proof.
  intros Ha. apply eqb_prop.
  apply (below_forallb 256 (fun a => Bool.eqb (Z.land a 0xF0 =? 0xE0) ((224 <=? a) && (a <=? 239)))).
  - vm_compute. reflexivity.
  - done.
Qed.

(** The mask applied to an address found in [/proc/net/udp] selects exactly the
    addresses [is_valid_multicast_address] accepts. *)
Theorem multicast_word_spec x : 0 <= x < 2 ^ 32 ->
  is_multicast_word x = (mcast_min_addr <=? ntohl x) && (ntohl x <=? mcast_max_addr).
Proof.
  intros Hx. unfold is_multicast_word.
  assert (Z.land x 0xF0 = Z.land (x mod 256) 0xF0) as ->.
  { rewrite <-land_255, <-Z.land_assoc. done. }
  rewrite multicast_octet by (apply Z.mod_pos_bound; lia). rewrite ntohl_eq.
  pose proof (Z.mod_pos_bound x 256 ltac:(lia)).
  pose proof (Z.mod_pos_bound (x / 2 ^ 8) 256 ltac:(lia)).
  pose proof (Z.mod_pos_bound (x / 2 ^ 16) 256 ltac:(lia)).
  pose proof (Z.mod_pos_bound (x / 2 ^ 24) 256 ltac:(lia)).
  unfold mcast_min_addr, mcast_max_addr. f_equal; apply eq_bool_prop_intro; rewrite !Is_true_true, !Z.leb_le; lia.
Qed.

Lemma multicast_word_spec_witness : is_multicast_word 0x030201EF = true /\
  is_multicast_word 0x0100007F = (mcast_min_addr <=? ntohl 0x0100007F) && (ntohl 0x0100007F <=? mcast_max_addr).
Proof. split; [reflexivity | apply (multicast_word_spec 0x0100007F); lia]. Defined.

(** ** Generated addresses *)

Lemma take_digits_app l rest acc n : forallb is_digit l = true ->
  take_digits (l ++ rest) acc n =
  take_digits rest (take_digits l acc n).1.2 (take_digits l acc n).1.1.
Proof.
  revert acc n. induction l as [| a l IH]; intros acc n; [done |].
  simpl. intros H. apply andb_prop in H as [Ha Hl]. rewrite Ha. by apply IH.
Qed.

Lemma take_digits_stop a rest acc n : is_digit a = false ->
  take_digits (a :: rest) acc n = (n, acc, a :: rest).
Proof. intros Ha. simpl. by rewrite Ha. Qed.

(** A number from 0 to 255 prints as a component that parses back. *)
Definition octet_ok (x : Z) : bool :=
  let l := chars (pretty x) in
  forallb is_digit l && (length l <=? 3)%nat &&
  match quad_part l with Some (v, []) => v =? x | _ => false end.

Lemma octet_parses x : 0 <= x < 256 -> octet_ok x = true.
Proof. intros Hx. apply (below_forallb 256); [vm_compute; reflexivity | done]. Qed.

Lemma quad_part_octet x rest : 0 <= x < 256 ->
  match rest with [] => True | a :: _ => is_digit a = false end ->
  quad_part (chars (pretty x) ++ rest) = Some (x, rest).
Proof.
  intros Hx Hrest. pose proof (octet_parses x Hx) as Ho. unfold octet_ok in Ho.
  apply andb_prop in Ho as [Ho Hq]. apply andb_prop in Ho as [Hd _].
  set (l := chars (pretty x)) in *. unfold quad_part in *.
  rewrite take_digits_app by done.
  pose proof (take_digits_app l [] 0 0 Hd) as Hl. rewrite app_nil_r in Hl. simpl in Hl.
  rewrite Hl in Hq. destruct (take_digits l 0 0) as [[n v] r]. simpl in *.
  assert (take_digits rest v n = (n, v, rest)) as ->.
  { destruct rest as [| a rest]; [done |]. by apply take_digits_stop. }
  destruct (_ || _); [done |]. apply Z.eqb_eq in Hq. by subst.
Qed.

Lemma chars_app s t : chars (String.append s t) = chars s ++ chars t.
Proof. induction s as [| a s IH]; simpl; [done | by rewrite IH]. Qed.

Lemma chars_length s : length (chars s) = String.length s.
Proof. induction s as [| a s IH]; simpl; auto. Qed.

Lemma substring_all n s : (String.length s <= n)%nat -> String.substring 0 n s = s.
Proof.
  revert n. induction s as [| a s IH]; intros [| n] Hn; simpl in *; try done; try lia.
  f_equal. apply IH. lia.
Qed.

Definition dotted (x y z : Z) : string :=
  String.append "239." (String.concat "." (map pretty [x; y; z])).

Lemma dotted_chars x y z : chars (dotted x y z) =
  chars "239." ++ chars (pretty x) ++ "."%char :: chars (pretty y) ++ "."%char :: chars (pretty z).
Proof. unfold dotted. simpl String.concat. rewrite !chars_app. done. Qed.

Lemma octet_length x : 0 <= x < 256 -> (length (chars (pretty x)) <= 3)%nat.
Proof.
  intros Hx. pose proof (octet_parses x Hx) as Ho. unfold octet_ok in Ho.
  apply andb_prop in Ho as [Ho _]. apply andb_prop in Ho as [_ Ho]. by apply Nat.leb_le in Ho.
Qed.

Lemma dotted_length x y z : 0 <= x < 256 -> 0 <= y < 256 -> 0 <= z < 256 ->
  (4 < String.length (dotted x y z) <= 15)%nat.
Proof.
  intros Hx Hy Hz. rewrite <-chars_length, dotted_chars.
  pose proof (octet_length x Hx). pose proof (octet_length y Hy). pose proof (octet_length z Hz).
  simpl. rewrite !length_app. simpl. rewrite length_app. simpl. lia.
Qed.

Lemma dotted_pton x y z : 0 <= x < 256 -> 0 <= y < 256 -> 0 <= z < 256 ->
  inet_pton (dotted x y z) = Some (le_combine [239; x; y; z]).
Proof.
  intros Hx Hy Hz. unfold inet_pton. rewrite dotted_chars.
  change (quad_part (chars "239." ++ ?l)) with (Some (239, "."%char :: l)).
  simpl mbind. rewrite quad_part_octet by done. simpl mbind.
  rewrite quad_part_octet by done. simpl mbind.
  rewrite <-(app_nil_r (chars (pretty z))), quad_part_octet by done. done.
Qed.

Lemma multicast_239 s : s mod 256 = 239 ->
  (mcast_min_addr <=? ntohl s) && (ntohl s <=? mcast_max_addr) = true.
Proof.
  intros Hs. rewrite ntohl_eq, Hs.
  pose proof (Z.mod_pos_bound (s / 2 ^ 8) 256 ltac:(lia)).
  pose proof (Z.mod_pos_bound (s / 2 ^ 16) 256 ltac:(lia)).
  pose proof (Z.mod_pos_bound (s / 2 ^ 24) 256 ltac:(lia)).
  set (b := s / 2 ^ 8 mod 256) in *. set (c := s / 2 ^ 16 mod 256) in *.
  set (d := s / 2 ^ 24 mod 256) in *.
  unfold mcast_min_addr, mcast_max_addr. apply andb_true_intro. rewrite !Z.leb_le. lia.
Qed.

(** A generated address always fits its buffer, parses, and is a multicast
    address whose first octet is 239, whatever [rand] answers. *)
Theorem generated_address_valid g :
  always anything nothing (generate_safe_multicast_address g INET_ADDRSTRLEN)
    (fun r _ => r.1.1 = true /\ is_valid_multicast_address r.1.2 = true /\
       exists s, inet_pton r.1.2 = Some s /\ s mod 256 = 239).
Proof.
  assert (forall r1 r2 r3, let t := dotted (r1 mod 256) (r2 mod 256) (r3 mod 256) in
    ((0 <? Z.of_nat (String.length t)) && (Z.of_nat (String.length t) <? INET_ADDRSTRLEN) = true) /\
    is_valid_multicast_address (String.substring 0 (Z.to_nat (INET_ADDRSTRLEN - 1)) t) = true /\
    exists s, inet_pton (String.substring 0 (Z.to_nat (INET_ADDRSTRLEN - 1)) t) = Some s /\
      s mod 256 = 239) as H.
  { intros r1 r2 r3 t.
    pose proof (Z.mod_pos_bound r1 256 ltac:(lia)) as H1.
    pose proof (Z.mod_pos_bound r2 256 ltac:(lia)) as H2.
    pose proof (Z.mod_pos_bound r3 256 ltac:(lia)) as H3.
    pose proof (dotted_length _ _ _ H1 H2 H3) as Hl. fold t in Hl.
    rewrite substring_all by (change (Z.to_nat (INET_ADDRSTRLEN - 1)) with 15%nat; lia).
    pose proof (dotted_pton _ _ _ H1 H2 H3) as Hp. fold t in Hp.
    set (x := r1 mod 256) in *. set (y := r2 mod 256) in *. set (z := r3 mod 256) in *.
    assert (0 <= le_combine [239; x; y; z] < 2 ^ 32) as Hr by (simpl; lia).
    assert (le_combine [239; x; y; z] mod 256 = 239) as Hm.
    { simpl le_combine. symmetry. apply (Z.mod_unique _ _ (x + 256 * (y + 256 * (z + 0)))); lia. }
    split; [unfold INET_ADDRSTRLEN; apply andb_true_intro; rewrite !Z.ltb_lt; lia |].
    split; [| by exists (le_combine [239; x; y; z])].
    unfold is_valid_multicast_address. rewrite Hp. by apply multicast_239. }
  unfold generate_safe_multicast_address. destruct (seeded g); simpl;
    intros; apply H.
Qed.

(** ** Descriptors *)

(** The descriptors a history leaves open, from those open before. *)
Definition fd_step (S : gset Z) (e : event npE) : gset Z :=
  match e with
  | existT _ (op, r) =>
      match op in npE R return R -> gset Z with
      | Socket _ _ _ => fun r => if r <? 0 then S else {[r]} ∪ S
      | Dup2 _ target => fun r => if r =? -1 then S else {[target]} ∪ S
      | Close fd => fun _ => S ∖ {[fd]}
      | _ => fun _ => S
      end r
  end.

Definition opened (S : gset Z) (tr : list (event npE)) : gset Z := fold_left fd_step tr S.

Lemma opened_app S t1 t2 : opened S (t1 ++ t2) = opened (opened S t1) t2.
Proof. apply fold_left_app. Qed.

Lemma opened_cons S e t : opened S (e :: t) = opened (fd_step S e) t.
Proof. done. Qed.

Ltac sys_step := intros ? _; rewrite ?opened_cons; simpl fd_step; simpl.

(** What an initialiser leaves open: its socket on success, nothing on failure. *)
Definition holds_socket (ok : bool) (fd : Z) (tr : list (event npE)) : Prop :=
  opened ∅ tr = if ok then {[fd]} else ∅.

Lemma add_remove (fd : Z) : ({[fd]} ∪ ∅ : gset Z) ∖ {[fd]} = ∅.
Proof. set_solver. Qed.

Lemma only_remove (fd : Z) : ({[fd]} : gset Z) ∖ {[fd]} = ∅.
Proof. set_solver. Qed.

Lemma swap_remove (fd r : Z) : r <> fd -> ({[r]} ∪ {[fd]} : gset Z) ∖ {[fd]} = {[r]}.
Proof. set_solver. Qed.

Lemma generate_opens_nothing g size :
  always anything nothing (generate_safe_multicast_address g size)
    (fun r tr => opened ∅ tr = ∅ /\ g_multicast_ctx r.2 = g_multicast_ctx g /\
                 g_sequence_id r.2 = g_sequence_id g).
Proof. unfold generate_safe_multicast_address. by destruct (seeded g); simpl; intros. Qed.

Lemma sender_socket g a :
  always anything nothing (init_multicast_sender g a)
    (fun r tr => g_sequence_id r.2 = g_sequence_id g /\
       if r.1 =? MCAST_SUCCESS
       then 0 <= sockfd (g_multicast_ctx r.2) /\
            opened ∅ tr = {[sockfd (g_multicast_ctx r.2)]}
       else sockfd (g_multicast_ctx r.2) = sockfd (g_multicast_ctx g) /\ opened ∅ tr = ∅).
Proof.
  unfold init_multicast_sender.
  apply (always_bind _ _ _ _ (fun r tr => opened ∅ tr = ∅ /\
    g_multicast_ctx r.2 = g_multicast_ctx g /\ g_sequence_id r.2 = g_sequence_id g)).
  { destruct a as [a |]; [by simpl |].
    eapply always_bind; [apply generate_opens_nothing |].
    intros [[ok buf] g'] tr (Ho & Hc & Hs). simpl in *. by rewrite app_nil_r. }
  intros [buf g'] tr (Ho & Hc & Hs). simpl in Hc, Hs.
  destruct (if is_valid_multicast_address buf then inet_pton buf else None) as [mcast |].
  2: { simpl. rewrite app_nil_r, Hc. done. }
  simpl. intros fd _. destruct (fd <? 0) eqn:Hfd; simpl.
  { rewrite opened_app, Ho. simpl. by rewrite Hfd, Hc. }
  intros r _. destruct (r <? 0); simpl.
  { intros r2 _. rewrite opened_app, Ho. simpl. by rewrite Hfd, Hc, add_remove. }
  intros r2 _. destruct (r2 <? 0); simpl.
  { intros r3 _. rewrite opened_app, Ho. simpl. by rewrite Hfd, Hc, add_remove. }
  rewrite opened_app, Ho. simpl. rewrite Hfd. zbool. split; [done |]. split; [done |]. set_solver.
Qed.

(** The receiver's initialiser, likewise. *)
Lemma receiver_socket ctx a p :
  always anything nothing (init_multicast_receiver ctx a p)
    (fun r tr => if r.1 =? MCAST_SUCCESS then 0 <= sockfd r.2 /\ opened ∅ tr = {[sockfd r.2]}
                 else r.2 = ctx /\ opened ∅ tr = ∅).
Proof.
  unfold init_multicast_receiver.
  destruct (if is_valid_multicast_address a then inet_pton a else None) as [mcast |]; [| done].
  simpl. intros fd _. destruct (fd <? 0) eqn:Hfd; simpl; [unfold opened; simpl; by rewrite ?Hfd |].
  intros r _. destruct (r <? 0); simpl; [intros r2 _; unfold opened; simpl; by rewrite ?Hfd, ?add_remove |].
  intros r2 _. destruct (r2 <? 0); simpl; [intros r3 _; unfold opened; simpl; by rewrite ?Hfd, ?add_remove |].
  intros r3 _. destruct (r3 <? 0); simpl; [intros r4 _; unfold opened; simpl; by rewrite ?Hfd, ?add_remove |].
  unfold opened. simpl. rewrite ?Hfd. zbool. split; [done |]. set_solver.
Qed.

(** The repositioned descriptor is a power of two above the original, and is
    the only one opened. *)
Lemma reposition_opens fd n :
  always anything nothing (reposition fd n) (fun r tr =>
    (r = -1 /\ forall S, opened S tr = S) \/
    (fd < r /\ (exists p, (p <= n)%nat /\ r = 2 ^ Z.of_nat p) /\
     forall S, opened S tr = {[r]} ∪ S)).
Proof.
  induction n as [| n IH]; simpl.
  - destruct (_ <=? fd) eqn:Hle; [by left |]. simpl. intros r _.
    destruct (r =? -1) eqn:Hr; simpl.
    + left. split; [done |]. intros S. unfold opened. simpl. by rewrite ?Hr.
    + right. split; [zbool; lia |]. split; [by exists 0%nat |].
      intros S. unfold opened. simpl. by rewrite ?Hr.
  - assert (Z.shiftl 1 (Z.of_nat (S n)) = 2 ^ Z.of_nat (S n)) as Hp
      by (by rewrite Z.shiftl_1_l). simpl Z.of_nat in Hp. rewrite Hp.
    destruct (_ <=? fd) eqn:Hle.
    + eapply always_mono; [exact IH |]. intros a tr [H | (H1 & (p & Hp1 & Hp2) & H3)]; [by left |].
      right. split; [done |]. split; [exists p; split; [lia | done] | done].
    + simpl. intros r _. destruct (r =? -1) eqn:Hr; simpl.
      * eapply always_mono; [exact IH |].
        intros a tr [[H1 H2] | (H1 & (p & Hp1 & Hp2) & H3)]; [left | right].
        -- split; [done |]. intros S. etrans; [| apply H2]. unfold opened. simpl. by rewrite ?Hr.
        -- split; [done |]. split; [exists p; split; [lia | done] |].
           intros S. etrans; [| apply H3]. unfold opened. simpl. by rewrite ?Hr.
      * right. split; [zbool; lia |]. split; [by exists (Datatypes.S n) |].
        intros S. unfold opened. simpl. by rewrite ?Hr.
Qed.

#[local] Arguments reposition : simpl never.

(** [np_socket_init] always claims success; when it holds a socket it is at a
    descriptor that is a power of two and everything else it opened is closed; otherwise it has
    nothing open, and the context keeps the old descriptor (0 at start) or -1. *)
Lemma socket_init_spec g :
  always anything nothing (np_socket_init g) (fun r tr =>
    r.1 = true /\ let fd := sockfd (g_multicast_ctx r.2) in
    ((exists p, (p <= 30)%nat /\ fd = 2 ^ Z.of_nat p) /\ opened ∅ tr = {[fd]}) \/
    ((fd = -1 \/ fd = sockfd (g_multicast_ctx g)) /\ opened ∅ tr = ∅)).
Proof.
  unfold np_socket_init. eapply always_bind; [apply sender_socket |].
  intros [err g'] tr (Hs & Hg). simpl in *. destruct (err =? MCAST_SUCCESS); simpl.
  2: { rewrite app_nil_r. split; [done |]. right. destruct Hg as [-> ->]. auto. }
  destruct Hg as [Hfd Ho]. eapply always_bind; [apply reposition_opens |].
  intros r tr2 [[-> H2] | (H1 & (p & Hp1 & Hp2) & H3)]; simpl.
  - intros r2 _. split; [done |]. right. split; [by left |].
    rewrite !opened_app, Ho, H2. unfold opened. simpl. apply only_remove.
  - destruct (r =? -1) eqn:Hr; [zbool; lia |]. simpl. intros r2 _. split; [done |]. left.
    split; [by exists p |]. rewrite !opened_app, Ho, H3. simpl.
    assert (r <> sockfd (g_multicast_ctx g')) by lia. set_solver.
Qed.

(** [np_socket_init] reports success whatever the kernel answers, its failures included;
    afterwards exactly one socket is open, at a descriptor that is a power of two, or none. *)
Theorem socket_init_reports_success k g : 
  match run (traced k) (np_socket_init g) [] with
  | Done (ok, g') tr =>
      ok = true /\ let fd := sockfd (g_multicast_ctx g') in
      ((exists p, (p <= 30)%nat /\ fd = 2 ^ Z.of_nat p) /\ opened ∅ tr = {[fd]}) \/
      ((fd = -1 \/ fd = sockfd (g_multicast_ctx g)) /\ opened ∅ tr = ∅)
  | Stopped _ _ => False
  end.
Proof.
  pose proof (always_run anything nothing k _ _ [] ltac:(done) (socket_init_spec g)) as H.
  destruct (run _ _ _) as [[ok g'] tr | s tr]; [| done]. destruct H as (new & -> & H). exact H.
Qed.

(** ** The round trip *)

(** A socket whose next datagram is [msg], peeked at without being consumed, and
    an allocator that has memory. *)
Definition peeks (msg : list Z) : forall R, npE R -> R -> Prop := fun R e =>
  match e in npE R return R -> Prop with
  | Recv _ len _ => fun r => r = (Z.min len (zlen msg), take (Z.to_nat len) msg)
  | Malloc _ => fun p => p <> 0
  | _ => fun _ => True
  end.

Lemma message_length sf text : zlen (np_message_t sf text) = sizeof_snowflake + zlen text.
Proof. unfold np_message_t. rewrite zlen_app. unfold zlen. rewrite le_split_length. done. Qed.

Lemma message_snowflake sf text rest : 0 <= sf < 2 ^ 64 ->
  le_combine (take 8 (np_message_t sf text ++ rest)) = sf.
Proof.
  intros Hsf. unfold np_message_t. rewrite <-app_assoc, take_app_length'.
  - rewrite le_combine_split. by apply Z.mod_small.
  - by rewrite le_split_length.
Qed.

(** C17. What a peer reads is the text of the message, NUL-terminated, whatever was on
    its stack. *)
Theorem peek_reads_message text seq junk fd :
  0 < zlen text < 2 ^ 32 - 1 -> 0 <= seq < 2 ^ 32 -> length junk = 8%nat ->
  always (peeks (np_message_t (create_snowflake (zlen text) seq) text)) nothing
    (peek_socket junk fd) (fun r _ => r = Some (text ++ [0])).
Proof.
  intros Ht Hs Hj. destruct (snowflake_fields (zlen text) seq) as (Hp & Hr & _); [lia | done |].
  set (sf := create_snowflake (zlen text) seq) in *.
  set (msg := np_message_t sf text).
  pose proof (message_length sf text) as Hl. fold msg in Hl.
  unfold peek_socket. cbn [always bind trigger]. intros r ->. unfold sizeof_snowflake in *.
  rewrite Z.min_l by lia. rewrite (proj2 (Z.leb_gt 8 0)) by lia.
  assert (length (take (Z.to_nat 8) msg) = 8%nat) as Hlen.
  { rewrite length_take. unfold zlen in Hl. lia. }
  rewrite Hlen, drop_ge, app_nil_r by lia.
  pose proof (message_snowflake sf text [] Hr) as Hsf. rewrite app_nil_r in Hsf. fold msg in Hsf.
  change (Z.to_nat 8) with 8%nat. rewrite Hsf, Hp.
  rewrite (proj2 (Z.eqb_neq (zlen text) 0)) by lia. cbn [always bind trigger negb].
  intros b1 Hb1. rewrite (proj2 (Z.eqb_neq b1 0)) by done. cbn [always bind trigger]. intros r ->.
  rewrite <-Hl, Z.min_id. rewrite (proj2 (Z.ltb_ge (zlen msg) 0)), Z.eqb_refl by lia. cbn [always bind trigger negb].
  assert (take (Z.to_nat (zlen msg)) msg = msg) as ->.
  { unfold zlen. by rewrite Nat2Z.id, firstn_all. }
  rewrite Hsf, Hp, !Z.eqb_refl. cbn [always bind trigger negb orb].
  rewrite wrap_small by lia. intros b2 Hb2. rewrite (proj2 (Z.eqb_neq b2 0)) by done.
  rewrite (proj2 (Z.ltb_ge _ _)) by lia. cbn [always bind trigger]. intros _ _.
  unfold msg, np_message_t. rewrite drop_app_length' by (by rewrite le_split_length).
  unfold zlen. by rewrite Nat2Z.id, firstn_all.
Qed.

Lemma peek_reads_message_witness :
  always (peeks (np_message_t (create_snowflake 2 9) [72; 105])) nothing
    (peek_socket (replicate 8 0) 5) (fun r _ => r = Some [72; 105; 0]).
Proof.
  apply (peek_reads_message [72; 105] 9 (replicate 8 0) 5); unfold zlen; simpl; lia.
Defined.

(** The sends of a history. *)
Definition send_of (e : event npE) : option (Z * list Z) :=
  match e with
  | existT _ (op, _) => match op with Send fd data _ => Some (fd, data) | _ => None end
  end.

Definition sends (tr : list (event npE)) : list (Z * list Z) := omap send_of tr.

Lemma drain_sends fuel fd :
  always anything (eq OutOfFuel) (drain fuel fd) (fun _ tr => sends tr = []).
Proof.
  induction fuel as [| n IH]; simpl; [done |]. intros [len bytes] _. simpl.
  destruct (0 <? len); simpl; [| done]. eapply always_mono; [exact IH |]. by intros a tr H.
Qed.

(** C18. [np_modify_message] sends exactly one datagram, the message under the next
    sequence number, or nothing, when it also keeps its sequence number; the numbers wrap
    at 2^32. *)
Theorem modify_sends_message fuel g m : 0 <= g_sequence_id g < 2 ^ 32 -> zlen (bytes_of m) < 2 ^ 32 ->
  let text := bytes_of m in
  let fd := sockfd (g_multicast_ctx g) in
  always anything (eq OutOfFuel) (np_modify_message fuel g (Some m)) (fun r tr =>
    (r = (false, g) /\ sends tr = []) \/
    (0 <= fd /\ sends tr = [(fd, np_message_t (create_snowflake (zlen text) (g_sequence_id g)) text)] /\
     g_sequence_id r.2 = (g_sequence_id g + 1) mod 2 ^ 32 /\ g_multicast_ctx r.2 = g_multicast_ctx g)).
Proof.
  intros Hs Hl text fd. unfold np_modify_message. fold text fd.
  assert (u32 (zlen text) = zlen text) as ->.
  { apply wrap_small. pose proof (zlen_nonneg text). unfold text in *. lia. }
  assert (take (Z.to_nat (zlen text)) text = text) as -> by (unfold zlen; by rewrite Nat2Z.id, firstn_all).
  destruct (fd <? 0) eqn:Hfd; [by left |]. zbool. cbn [always bind trigger]. intros b _.
  destruct (b =? 0); [by left |].
  eapply (always_bind _ _ _ _ (fun _ tr => sends tr = [])); [apply drain_sends |].
  intros [] tr Htr. cbn [always bind trigger]. intros sent _ u _. right.
  split; [done |]. unfold sends in *. simpl. rewrite omap_app, Htr. done.
Qed.

Lemma modify_sends_message_witness :
  let g := Globals (Ctx 5 (SockAddr 0 0 0) "" 0) 7 false in
  always anything (eq OutOfFuel) (np_modify_message 3 g (Some "Hi"%string)) (fun r tr =>
    (r = (false, g) /\ sends tr = []) \/
    (0 <= 5 /\ sends tr = [(5, np_message_t (create_snowflake 2 7) [72; 105])] /\
     g_sequence_id r.2 = 8 mod 2 ^ 32 /\ g_multicast_ctx r.2 = g_multicast_ctx g)).
Proof.
  exact (modify_sends_message 3 (Globals (Ctx 5 (SockAddr 0 0 0) "" 0) 7 false) "Hi"
    ltac:(simpl; lia) ltac:(vm_compute; done)).
Defined.

(** ** Finding a peer's socket *)

(** A [socket] call answers -1 or a descriptor. *)
Definition socket_answers : forall R, npE R -> R -> Prop := fun R e =>
  match e in npE R return R -> Prop with
  | Socket _ _ _ => fun r => r = -1 \/ 0 <= r
  | _ => fun _ => True
  end.

(** Files opened and not closed. *)
Definition files_step (n : Z) (e : event npE) : Z :=
  match e with
  | existT _ (op, r) =>
      match op in npE R return R -> Z with
      | Fopen _ => fun fp => if fp =? 0 then n else n + 1
      | Fclose _ => fun _ => n - 1
      | _ => fun _ => n
      end r
  end.

Definition files (n : Z) (tr : list (event npE)) : Z := fold_left files_step tr n.

Lemma files_app n t1 t2 : files n (t1 ++ t2) = files (files n t1) t2.
Proof. apply fold_left_app. Qed.

#[local] Arguments le_split : simpl never.
#[local] Arguments pack_addr : simpl never.
#[local] Arguments is_multicast_word : simpl never.
#[local] Arguments inet_ntop : simpl never.

(** On success the context holds the one socket opened and the address text of
    the zeroed context; on failure nothing is left open. The file is closed exactly when the
    search ends here. *)
Lemma open_group_spec ctx fp u :
  always socket_answers nothing (open_group ctx fp u) (fun r tr =>
    if r.1 =? 0 then (forall S, opened S tr = {[sockfd r.2]} ∪ S) /\ (forall n, files n tr = n) /\
                     multicast_addr r.2 = inet_ntop (s_addr (addr ctx))
    else (opened ∅ tr = ∅) /\ forall n, files n tr = n - 1).
Proof.
  unfold open_group. simpl.
  destruct (is_multicast_word _ || is_multicast_word _); simpl; [| by intros].
  intros fd Hfd. destruct (fd =? -1) eqn:E; simpl.
  { intros r4 _. zbool. subst fd. done. }
  assert ((fd <? 0) = false) as H0 by (zbool; destruct Hfd; [congruence | by apply Z.ltb_ge]).
  intros r _. destruct (r <? 0); simpl.
  { intros r4 _ r5 _. unfold opened. simpl. by rewrite H0, add_remove. }
  intros r2 _. destruct (r2 <? 0); simpl.
  { intros r4 _ r5 _. unfold opened. simpl. by rewrite H0, add_remove. }
  intros r3 _. destruct (r3 <? 0); simpl.
  { intros r4 _ r5 _. unfold opened. simpl. by rewrite H0, add_remove. }
  split; [| done]. intros S. unfold opened. simpl. by rewrite H0.
Qed.

Abbreviation Searching := (always socket_answers (eq OutOfFuel)).

Definition found_spec (ctx : multicast_context) (r : (bool * multicast_context) + (Z * multicast_context))
    (tr : list (event npE)) : Prop :=
  match r with
  | inl (true, c) => opened ∅ tr = {[sockfd c]} /\ (forall n, files n tr = n) /\
      multicast_addr c = inet_ntop (s_addr (addr ctx))
  | inl (false, _) => opened ∅ tr = ∅ /\ forall n, files n tr = n
  | inr (err, _) => err <> 0 /\ opened ∅ tr = ∅ /\ forall n, files n tr = n - 1
  end.

Lemma search_udp_spec fuel ctx fp inode :
  Searching (search_udp fuel ctx fp inode) (found_spec ctx).
Proof.
  induction fuel as [| n IH]; simpl; [done |].
  intros [line |] _; simpl; [| done].
  assert (Searching (search_udp n ctx fp inode) (fun a tr =>
    found_spec ctx a (ev (Fgets fp) (Some line) :: tr))) as Hnext.
  { eapply always_mono; [exact IH |]. intros [[[] c] | [err c]] tr; exact id. }
  destruct (scan_udp_line line) as [u |]; [| done].
  destruct (socket_inode u =? inode); [| done].
  eapply always_bind; [eapply always_weaken; [| | apply open_group_spec]; done |].
  intros [err c] tr H. simpl in H. destruct (err =? 0) eqn:E; simpl.
  - destruct H as (Ho & Hf & Hm). split; [| split; [| done]].
    + rewrite app_nil_r. etrans; [apply (Ho ∅) |]. set_solver.
    + intros m. rewrite app_nil_r. apply Hf.
  - destruct H as [Ho Hf]. zbool. split; [done |]. rewrite app_nil_r. by split.
Qed.

(** Looking for a peer's socket: on success exactly one socket is left open and
    the file is closed; on failure nothing is. The textual address is always [0.0.0.0]: it is
    formatted before [sin_addr] is set. *)
Lemma context_from_pid_spec fuel ctx pid fd :
  Searching (init_multicast_context_from_pid_fd fuel ctx pid fd) (fun r tr =>
    (forall n, files n tr = n) /\
    ((r.1 = 0 /\ exists c, r.2 = Some c /\ opened ∅ tr = {[sockfd c]} /\ multicast_addr c = "0.0.0.0"%string) \/
     (r.1 <> 0 /\ opened ∅ tr = ∅))).
Proof.
  unfold init_multicast_context_from_pid_fd. destruct ctx as [ctx |].
  2: { split; [done |]. by right. }
  unfold get_socket_inode. cbn [always bind trigger]. intros l _. generalize (inode_of_link l). intros inode.
  intros u _. destruct (inode =? UINT_MAX); [split; [done |]; by right |].
  cbn [always bind trigger]. intros fp _. destruct (fp =? 0) eqn:Efp.
  { split; [intros n; simpl; by rewrite Efp |]. by right. }
  cbn [always bind trigger]. intros line0 _.
  eapply always_bind; [apply search_udp_spec |].
  intros [[found c] | [err c]] tr H.
  - cbn [always bind trigger]. intros z _. split.
    { intros n. simpl. rewrite Efp, files_app. destruct found; destruct H as [_ H];
        [destruct H as [H _] |]; rewrite H; simpl; lia. }
    unfold opened. simpl. fold (opened ∅ (tr ++ [ev (Fclose fp) z])). rewrite opened_app.
    destruct found; [left | right].
    + destruct H as (Ho & _ & Hm). split; [done |]. exists c. rewrite Ho. split; [done |].
      split; [done |]. by rewrite Hm.
    + destruct H as [Ho _]. rewrite Ho. done.
  - cbn [always]. destruct H as (He & Ho & Hf). split.
    { intros n. simpl. rewrite Efp, app_nil_r, Hf. lia. }
    right. split; [done |]. unfold opened. simpl. rewrite app_nil_r. exact Ho.
Qed.

#[local] Arguments parse_snowflake : simpl never.

(** [peek_socket] opens and closes nothing. *)
Lemma peek_socket_opens junk fd :
  always anything (fun _ => True) (peek_socket junk fd) (fun _ tr => forall S, opened S tr = S).
Proof.
  unfold peek_socket. cbn [always bind trigger]. intros [n stored] _.
  destruct (n <=? 0); [done |]. destruct (parse_snowflake _) as [size seq].
  destruct (size =? 0); [done |]. cbn [always bind trigger]. intros b _.
  destruct (b =? 0); [done |]. cbn [always bind trigger]. intros [n2 contents] _.
  destruct (_ || _); [done |]. destruct (parse_snowflake _) as [size2 seq2].
  destruct (_ || _); [done |]. cbn [always bind trigger]. intros b2 _.
  destruct (b2 =? 0); [done |]. by destruct (_ <? _).
Qed.

(** [np_peek_message] never closes the socket it opened: whenever the lookup
    succeeded, and in particular whenever it returns a message, a descriptor is left open. *)
Theorem peek_leaks_socket fuel junk g pid :
  always socket_answers (fun _ => True) (np_peek_message fuel junk g pid) (fun r tr =>
    (r = None /\ opened ∅ tr = ∅) \/ exists fd, opened ∅ tr = {[fd]}).
Proof.
  unfold np_peek_message.
  eapply always_bind; [eapply always_weaken; [| | apply context_from_pid_spec]; done |].
  intros [err ctx] tr [_ [[E (c & Ec & Ho & _)] | [E Ho]]]; simpl in E.
  - subst err. simpl in Ec. subst ctx. rewrite Z.eqb_refl. cbn [negb].
    eapply always_mono; [eapply always_weaken; [| | apply peek_socket_opens]; done |].
    intros r tr2 Hp. right. exists (sockfd c). by rewrite opened_app, Ho, Hp.
  - rewrite (proj2 (Z.eqb_neq err 0)) by done. left. by rewrite app_nil_r.
Qed.

(** The lookup of a socket whose link cannot be read is not stopped by the check
    against [UINT_MAX]: it goes on to search [/proc/net/udp]. *)
Theorem unreadable_link_not_detected (k : kernel npE) fuel ctx pid fd :
  (forall tr path, k (option string) tr (Readlink path) = None) ->
  match run (traced k) (init_multicast_context_from_pid_fd fuel (Some ctx) pid fd) [] with
  | Done _ tr | Stopped _ tr => exists fp, ev (Fopen "/proc/net/udp") fp ∈ tr
  end.
Proof.
  intros Hk. unfold init_multicast_context_from_pid_fd, get_socket_inode.
  cbn [bind trigger run]. unfold traced at 1. rewrite Hk. cbn [obind bind run].
  unfold traced at 1. cbn [obind inode_of_link].
  change (u64 (-1) =? UINT_MAX) with false. cbn [bind trigger run].
  unfold traced at 1. cbn [obind].
  set (fp := k Z _ _). set (p := if fp =? 0 then _ else _). set (tr := _ ++ [ev _ fp]).
  pose proof (run_traced_grows k p tr) as Hg.
  assert (ev (Fopen "/proc/net/udp") fp ∈ tr) as Hfp.
  { apply elem_of_app. right. by apply list_elem_of_singleton. }
  destruct (run _ p tr); destruct Hg as [new ->]; exists fp; apply elem_of_app; by left.
Qed.

(** A machine where every lookup fails. *)
Definition bare_kernel : kernel npE := fun R _ e =>
  match e in npE R return R with
  | Rand | Socket _ _ _ | Setsockopt _ _ _ _ | Connect _ _ | Bind _ _ | Send _ _ _ | Close _
  | Dup2 _ _ | Malloc _ | Getpid | Getchar => -1
  | Fopen _ | Fclose _ => 0
  | Recv _ _ _ => (-1, [])
  | Readlink _ => None
  | Fgets _ => None
  | Srand | Free _ | Printf _ => tt
  end.

Lemma unreadable_link_not_detected_witness :
  match run (traced bare_kernel) (init_multicast_context_from_pid_fd 1 (Some zero_ctx) 7 3) [] with
  | Done _ tr | Stopped _ tr => exists fp, ev (Fopen "/proc/net/udp") fp ∈ tr
  end.
Proof. apply unreadable_link_not_detected. reflexivity. Defined.
