(* ===== verification/Getpwuid.v ===== *)
(** * getpwuid_r: user names and numbers without allocation

    [src/getpwuid_r/test.c]: hand-written number printing, path building in a static
    buffer and a search of [/proc/<pid>/status], at the level of bytes; an access
    outside an object stops with [Undefined]. *)
From stdpp Require Import base gmap sets list strings pretty.
From Stdlib Require Import ZArith Lia Ascii.
From S2P Require Import Prelude Prog Sys.

Inductive pwE : Type -> Type :=
| Write (s : list Z) (n : Z) : pwE Z                       (* write(1, s, n) *)
| Getpwnam_r (user : list Z) : pwE (option Z * Z)          (* pw_uid unless NULL; errno *)
| Getpwuid_r (id : Z) : pwE (option (list Z) * Z)          (* pw_name unless NULL; errno *)
| Strerror (errno : Z) : pwE (list Z)
| Open (path : list Z) : pwE Z
| Read (fd n : Z) : pwE (Z * list Z)
| Close (fd : Z) : pwE Z
| Opendir (path : list Z) : pwE Z
| Readdir (dir : Z) : pwE (option (bool * list Z))         (* d_type == DT_DIR, d_name *)
| Closedir (dir : Z) : pwE Z.

Abbreviation pw := (prog pwE).

(** What a [char *] expression denotes: an array (a string literal), a pointer to a
    live string, or a pointer into a frame that has returned. *)
Inductive cstr := Literal (s : list Z) | Pointer (s : list Z) | Dangling.

Definition sizeof_pointer : Z := 8.

(** For a pointer [typeof(x)] is [typeof(&(x)[0])], so the first branch writes
    [sizeof(x)] bytes; an array takes the second. *)
Definition LOG (x : cstr) : pw unit :=
  match x with
  | Pointer s => trigger (Write s sizeof_pointer) ;; Ret tt
  | Literal s => trigger (Write s (zlen s)) ;; Ret tt
  | Dangling => Halt Undefined
  end.

Definition text (s : string) : cstr := Literal (bytes_of s).

(** The flag and [*id]; [user = None] is a [NULL] pointer. *)
Definition uid_from_user (user : option (list Z)) (id : Z) : pw (bool * Z) :=
  match user with
  | None | Some [] => Ret (false, id)
  | Some user =>
      r <- trigger (Getpwnam_r user) ;;
      let '(result, stashed_errno) := r in
      match result with
      | None =>
          LOG (text "`getpwnam_r()` failed.  Printing errno: ") ;;
          e <- trigger (Strerror stashed_errno) ;;
          LOG (Pointer e) ;;
          LOG (Literal [10]) ;;
          Ret (false, u32 (-1))
      | Some pw_uid =>
          LOG (Literal (bytes_of "Successfully got user ID" ++ [10])) ;;
          Ret (true, pw_uid)
      end
  end.

(** The name returned points into the local [buf]. *)
Definition user_from_uid (id : Z) : pw (option cstr) :=
  r <- trigger (Getpwuid_r id) ;;
  let '(result, stashed_errno) := r in
  match result with
  | None =>
      LOG (text "`getpwuid_r()` failed.  Printing errno: ") ;;
      e <- trigger (Strerror stashed_errno) ;;
      LOG (Pointer e) ;;
      LOG (Literal [10]) ;;
      Ret None
  | Some pw_name => Ret (Some Dangling)
  end.

Definition digit_byte (b : Z) : bool := (48 <=? b) && (b <=? 57).

Fixpoint all_digits (s : list Z) : bool :=
  match s with
  | [] => true
  | b :: s' => if digit_byte b then all_digits s' else false
  end.

Definition is_number (str : option (list Z)) : bool :=
  match str with
  | None | Some [] => false
  | Some s => all_digits s
  end.

(** ** Printing a number *)

Definition number_size : nat := 21.      (* sizeof("18446744073709551616") *)

(** The digits, from the last byte of the buffer down; [None] is a store outside it. *)
Fixpoint put_digits (fuel : nat) (buf : list Z) (sz num : Z) : option (list Z * Z) :=
  if num =? 0 then Some (buf, sz)
  else match fuel with
  | O => None
  | S n =>
      if (0 <=? sz) && (sz <? zlen buf)
      then put_digits n (<[Z.to_nat sz := u8 (48 + Z.rem num 10)]> buf) (sz - 1) (Z.quot num 10)
      else None
  end.

(** The bytes written for [num]: from [buf[sz]] to the end. *)
Definition number_bytes (num : Z) : option (list Z) :=
  let buf := replicate number_size 0 in
  let sz := Z.of_nat number_size - 1 in
  r ← (if num =? 0 then Some (<[Z.to_nat sz := 48]> buf, sz - 1)
       else put_digits number_size buf sz num);
  let '(buf, sz) := r in
  if 0 <=? sz then Some (drop (Z.to_nat sz) buf) else None.

Definition write_number (num : Z) : pw unit :=
  match number_bytes num with
  | Some bytes => trigger (Write bytes (zlen bytes)) ;; Ret tt
  | None => Halt Undefined
  end.

(** [strtol(str, NULL, 10)] of a string of digits. *)
Definition digits_value (s : list Z) : Z := fold_left (fun acc b => acc * 10 + (b - 48)) s 0.
Definition strtol (s : list Z) : Z := Z.min (digits_value s) (2 ^ 63 - 1).

Definition process_argument (str : option (list Z)) : pw unit :=
  match str with
  | None | Some [] => Ret tt
  | Some s =>
  if is_number (Some s)
  then
    let uid := u32 (strtol s) in
    LOG (text "Running test on UID: ") ;;
    write_number uid ;;
    LOG (Literal [10]) ;;
    user <- user_from_uid uid ;;
    match user with
    | None => LOG (Literal (bytes_of "Failed to get user" ++ [10]))
    | Some user =>
        LOG (text "Got user: `") ;;
        LOG user ;;
        LOG (Literal (bytes_of "`" ++ [10]))
    end
  else
    LOG (text "Running test on user `") ;;
    LOG (Pointer s) ;;
    LOG (Literal (bytes_of "`" ++ [10])) ;;
    r <- uid_from_user (Some s) 0 ;;
    let '(ok, uid) := r in
    if negb ok then LOG (Literal (bytes_of "Failed to get UID" ++ [10]))
    else LOG (text "Got UID: ") ;; write_number uid ;; LOG (Literal [10])
  end.

(** ** Paths *)

Definition path_size : Z := 18.          (* sizeof("/proc//stat") + sizeof("32768") *)

(** [memcpy(dst + at, src, n)] into an object; [None] when it leaves the object. *)
Definition blit (at_ : Z) (src dst : list Z) : option (list Z) :=
  if (0 <=? at_) && (at_ + zlen src <=? zlen dst)
  then Some (take (Z.to_nat at_) dst ++ src ++ drop (Z.to_nat (at_ + zlen src)) dst)
  else None.

(** The C string at the start of an object. *)
Fixpoint c_string (l : list Z) : option (list Z) :=
  match l with
  | [] => None
  | b :: l' => if b =? 0 then Some [] else s ← c_string l'; Some (b :: s)
  end.

Definition procpath_from_pid (pid : list Z) : option (list Z) :=
  let path := replicate (Z.to_nat path_size) 32 in
  let sz := 0 in
  path ← blit sz (bytes_of "/proc/" ++ [0]) path;
  let sz := sz + 6 in
  path ← blit sz pid path;
  let sz := sz + zlen pid in
  path ← blit sz (bytes_of "/status" ++ [0]) path;
  c_string path.

(** The search for [Uid] from [idx], having counted [n] tests of the loop:
    the final [n] and index. [None] is a read outside [buf]. *)
Fixpoint find_uid (fuel : nat) (buf : list Z) (bound n idx : Z) : option (Z * Z) :=
  if n <? bound
  then
    let n := n + 1 in
    match fuel with
    | O => None
    | S f =>
        b0 ← znth buf idx;
        if negb (b0 =? 85) then find_uid f buf bound n (idx + 1)
        else
        b1 ← znth buf (idx + 1);
        if negb (b1 =? 105) then find_uid f buf bound n (idx + 1)
        else
        b2 ← znth buf (idx + 2);
        if negb (b2 =? 100) then find_uid f buf bound n (idx + 1)
        else Some (n, idx)
    end
  else Some (n + 1, idx).

(** The first run of digits in [buf], which must contain one. *)
Fixpoint skip_to_digit (buf : list Z) : option (list Z) :=
  match buf with
  | [] => None
  | b :: buf' => if digit_byte b then Some buf else skip_to_digit buf'
  end.

Fixpoint digit_run (buf : list Z) : option (list Z) :=
  match buf with
  | [] => None
  | b :: buf' => if digit_byte b then s ← digit_run buf'; Some (b :: s) else Some []
  end.

Definition status_size : nat := Z.to_nat 4096.

(** What is found in the [sz] bytes read into the zeroed buffer: [None] is
    undefined behaviour, [Some None] a [NULL] result. *)
Definition uid_in_status (sz : Z) (contents : list Z) : option (option (list Z)) :=
  let buf := take status_size (contents ++ replicate status_size 0) in
  let bound := u64 (sz + 5) in
  '(n, idx) ← find_uid (S status_size) buf bound 0 0;
  if bound <=? n then Some None
  else
  at_digits ← skip_to_digit (drop (Z.to_nat idx) buf);
  uid ← digit_run at_digits;
  (* with 21 digits or more no terminator is left *)
  if zlen uid <? Z.of_nat number_size then Some (Some uid) else None.

Definition uid_from_pid (pid : list Z) : pw (option (list Z)) :=
  match procpath_from_pid pid with
  | None => Halt Undefined
  | Some path =>
  fd <- trigger (Open path) ;;
  if -1 =? fd then Ret None
  else
  r <- trigger (Read fd 4096) ;;
  let '(n, contents) := r in
  let sz := u64 n in
  if sz <=? 0 then trigger (Close fd) ;; Ret None
  else
  match uid_in_status sz contents with
  | None => Halt Undefined
  | Some r => trigger (Close fd) ;; Ret r
  end
  end.

Fixpoint poll_entries (fuel : nat) (proc : Z) : pw unit :=
  match fuel with
  | O => Halt OutOfFuel
  | S n =>
      entry <- trigger (Readdir proc) ;;
      match entry with
      | None => Ret tt
      | Some (is_dir, d_name) =>
          (if is_dir && match d_name with b :: _ => digit_byte b | [] => false end
           then s <- uid_from_pid d_name ;; process_argument s
           else Ret tt) ;;
          poll_entries n proc
      end
  end.

Definition poll_proc (fuel : nat) : pw unit :=
  proc <- trigger (Opendir (bytes_of "/proc")) ;;
  if proc =? 0 then LOG (Literal (bytes_of "Couldn't open /proc" ++ [10]))
  else poll_entries fuel proc ;; trigger (Closedir proc) ;; Ret tt.

(** One pass of the endless loop of [main], on the arguments after the program's
    name and the counter [i]. *)
Definition main_pass (fuel : nat) (V : list (list Z)) (i : Z) : pw Z :=
  match V with
  | [] => poll_proc fuel ;; Ret i
  | _ => process_argument (znth V (i mod zlen V)) ;; Ret (i32 (i + 1))
  end.

(** ** The number printer *)

Lemma digits_value_app s b : digits_value (s ++ [b]) = digits_value s * 10 + (b - 48).
Proof. unfold digits_value. by rewrite fold_left_app. Qed.

Lemma all_digits_app s t : all_digits (s ++ t) = all_digits s && all_digits t.
Proof. induction s as [| b s IH]; simpl; [done |]. by destruct (digit_byte b). Qed.

Lemma put_digits_spec m : forall fuel buf sz num, (m <= fuel)%nat ->
  0 <= num < 10 ^ Z.of_nat m -> Z.of_nat m <= sz + 1 -> sz < zlen buf ->
  exists buf' ds, put_digits fuel buf sz num = Some (buf', sz - zlen ds) /\
    drop (Z.to_nat (sz - zlen ds + 1)) buf' = ds ++ drop (Z.to_nat (sz + 1)) buf /\
    take (Z.to_nat (sz - zlen ds + 1)) buf' = take (Z.to_nat (sz - zlen ds + 1)) buf /\
    all_digits ds = true /\ digits_value ds = num /\ zlen ds <= Z.of_nat m.
Proof.
  induction m as [| m IH]; intros fuel buf sz num Hf Hn Hm Hsz.
  { assert (num = 0) as -> by (simpl in Hn; lia). exists buf, [].
    unfold zlen. simpl. rewrite Z.sub_0_r. by destruct fuel. }
  destruct (decide (num = 0)) as [-> | Hne].
  { exists buf, []. unfold zlen. simpl. rewrite Z.sub_0_r. destruct fuel; repeat split; lia. }
  destruct fuel as [| fuel]; [lia |]. simpl.
  rewrite (proj2 (Z.eqb_neq num 0)) by done.
  rewrite (proj2 (Z.leb_le 0 sz)), (proj2 (Z.ltb_lt sz _)) by lia. simpl.
  rewrite Z.rem_mod_nonneg, Z.quot_div_nonneg by lia.
  pose proof (Z.mod_pos_bound num 10 ltac:(lia)) as Hd.
  rewrite wrap_small by lia. set (b := 48 + num mod 10).
  rewrite Nat2Z.inj_succ, Z.pow_succ_r in Hn by lia.
  assert (0 <= num / 10 < 10 ^ Z.of_nat m) as Hq.
  { split; [apply Z.div_pos; lia | apply Z.div_lt_upper_bound; lia]. }
  assert (zlen (<[Z.to_nat sz := b]> buf) = zlen buf) as Hl by (unfold zlen; by rewrite length_insert).
  destruct (IH fuel (<[Z.to_nat sz := b]> buf) (sz - 1) (num / 10))
    as (buf' & ds & E & Hdr & Htk & Ha & Hv & Hz); [lia | done | lia | lia |].
  exists buf', (ds ++ [b]). rewrite zlen_app. change (zlen [b]) with 1.
  replace (sz - (zlen ds + 1)) with (sz - 1 - zlen ds) by lia. split; [done |].
  unfold zlen in Hsz, Hz, Hm.
  split; [| split; [| split; [| split]]].
  - rewrite Hdr, <-app_assoc. f_equal. simpl. replace (sz - 1 + 1) with sz by lia.
    replace (Z.to_nat (sz + 1)) with (S (Z.to_nat sz)) by lia.
    rewrite (drop_S _ b) by (apply list_lookup_insert_eq; lia).
    by rewrite drop_insert_lt by lia.
  - rewrite Htk. apply take_insert_ge. unfold zlen. lia.
  - rewrite all_digits_app, Ha. unfold b. simpl. unfold digit_byte.
    rewrite (proj2 (Z.leb_le _ _)), (proj2 (Z.leb_le _ _)) by lia. done.
  - rewrite digits_value_app, Hv. unfold b. pose proof (Z.div_mod num 10). lia.
  - unfold zlen. lia.
Qed.

Lemma number_bytes_digits num : 0 <= num < 2 ^ 63 ->
  exists ds, number_bytes num = Some (0 :: ds) /\ all_digits ds = true /\
    digits_value ds = num /\ 0 < zlen ds <= 19.
Proof.
  intros Hn. unfold number_bytes. destruct (decide (num = 0)) as [-> | Hne].
  { exists [48]. vm_compute. repeat split; congruence. }
  rewrite (proj2 (Z.eqb_neq num 0)) by done.
  destruct (put_digits_spec 19 number_size (replicate number_size 0)
    (Z.of_nat number_size - 1) num) as (buf' & ds & E & Hdr & Htk & Ha & Hv & Hz).
  - unfold number_size. lia.
  - split; [lia |]. etrans; [apply Hn |]. reflexivity.
  - done.
  - unfold zlen. rewrite length_replicate. lia.
  - rewrite E. simpl mbind. cbv beta.
    change (Z.of_nat number_size - 1) with 20 in *. change (Z.of_nat 19) with 19 in Hz.
    rewrite (proj2 (Z.leb_le 0 _)) by lia. exists ds.
    split; [| split; [done | split; [done |]]].
    + f_equal. rewrite (drop_ge (replicate number_size 0)) in Hdr
        by (rewrite length_replicate; unfold number_size; lia).
      rewrite app_nil_r in Hdr. pose proof (zlen_nonneg ds).
      rewrite (drop_S _ 0).
      * f_equal. etrans; [| exact Hdr]. f_equal. lia.
      * rewrite <-(take_drop (Z.to_nat (20 - zlen ds + 1)) buf'), Htk.
        rewrite lookup_app_l.
        { rewrite lookup_take_lt, lookup_replicate_2; [done | unfold number_size; lia | lia]. }
        rewrite length_take. change (length (replicate _ _)) with 21%nat. lia.
    + split; [| done]. destruct ds; [| unfold zlen; simpl; lia]. exfalso. apply Hne. by rewrite <-Hv.
Qed.

(** [write_number] prints, for every non-negative [long], a NUL byte and then
    decimal digits whose value is the number; it never leaves its buffer. *)
Theorem number_bytes_spec num : 0 <= num < 2 ^ 63 ->
  exists ds, number_bytes num = Some (0 :: ds) /\ all_digits ds = true /\
    digits_value ds = num /\ 0 < zlen ds <= 19.
Proof. exact (number_bytes_digits num). Qed.

Lemma number_bytes_spec_witness : number_bytes 1000 = Some [0; 49; 48; 48; 48] /\
  exists ds, number_bytes 65534 = Some (0 :: ds) /\ digits_value ds = 65534.
Proof.
  split; [reflexivity |].
  destruct (number_bytes_spec 65534 ltac:(lia)) as (ds & E & _ & Hv & _). by exists ds.
Defined.

(** ** Names of numeric arguments *)

(** [user_from_uid] hands out a pointer into its own frame: printing the user of
    a numeric argument that exists is undefined behaviour, and nothing else can happen. *)
Theorem numeric_argument_uses_dead_frame s : s <> [] -> all_digits s = true ->
  always (fun R (e : pwE R) => match e in pwE R return R -> Prop with
                               | Getpwuid_r _ => fun r => is_Some r.1
                               | _ => fun _ => True
                               end) (eq Undefined) (process_argument (Some s)) (fun _ _ => False).
Proof.
  intros Hne Hd. destruct s as [| b s]; [done |]. unfold process_argument.
  cbn [is_number]. rewrite Hd. unfold text, LOG. cbn [always bind trigger]. intros r1 _.
  destruct (number_bytes_digits (u32 (strtol (b :: s)))) as (ds & E & _).
  { pose proof (wrap_range 32 ltac:(lia) (strtol (b :: s))). lia. }
  unfold write_number. rewrite E. cbn [always bind trigger]. intros r2 _ r3 _.
  unfold user_from_uid. cbn [always bind trigger]. intros [[name |] e] Hr; [| by destruct Hr].
  cbn [always bind]. intros r4 _. done.
Qed.

Lemma numeric_argument_uses_dead_frame_witness :
  always (fun R (e : pwE R) => match e in pwE R return R -> Prop with
                               | Getpwuid_r _ => fun r => is_Some r.1
                               | _ => fun _ => True
                               end) (eq Undefined) (process_argument (Some [48])) (fun _ _ => False).
Proof. apply (numeric_argument_uses_dead_frame [48]); [discriminate | reflexivity]. Defined.

(** ** The path of a process *)

Lemma c_string_app l r : Forall (fun b => b <> 0) l -> c_string (l ++ 0 :: r) = Some l.
Proof.
  induction 1 as [| b l Hb _ IH]; simpl; [done |].
  rewrite (proj2 (Z.eqb_neq b 0)) by done. by rewrite IH.
Qed.

(** The static buffer holds the path of a process of at most four digits; a
    longer number, five digits included, overflows it. *)
Theorem procpath_fits pid : Forall (fun b => b <> 0) pid ->
  (zlen pid <= 4 ->
   procpath_from_pid pid = Some (bytes_of "/proc/" ++ pid ++ bytes_of "/status")) /\
  (4 < zlen pid -> procpath_from_pid pid = None).
Proof.
  intros Hpid. unfold procpath_from_pid.
  set (p1 := bytes_of "/proc/" ++ 0 :: replicate 11 32).
  change (blit 0 (bytes_of "/proc/" ++ [0]) (replicate (Z.to_nat path_size) 32)) with (Some p1).
  cbn [mbind option_bind]. change (0 + 6) with 6.
  assert (blit 6 pid p1 = if 6 + zlen pid <=? 18
    then Some (take (Z.to_nat 6) p1 ++ pid ++ drop (Z.to_nat (6 + zlen pid)) p1) else None)
    as -> by done.
  pose proof (zlen_nonneg pid). destruct (decide (zlen pid <= 12)) as [Hle | Hgt].
  2: { rewrite (proj2 (Z.leb_gt _ 18)) by lia. split; [lia | done]. }
  rewrite (proj2 (Z.leb_le _ 18)) by lia. cbn [mbind option_bind].
  set (p2 := take (Z.to_nat 6) p1 ++ pid ++ drop (Z.to_nat (6 + zlen pid)) p1).
  assert (zlen p2 = 18) as Hp2.
  { unfold p2. rewrite !zlen_app. unfold zlen in *. rewrite length_take, length_drop.
    change (length p1) with 18%nat. lia. }
  unfold blit. rewrite Hp2. change (zlen (bytes_of "/status" ++ [0])) with 8.
  rewrite (proj2 (Z.leb_le 0 _)) by lia. cbn [andb].
  split; intros Hl; [| by rewrite (proj2 (Z.leb_gt _ 18)) by lia].
  rewrite (proj2 (Z.leb_le _ 18)) by lia. cbn [mbind option_bind].
  assert (take (Z.to_nat (6 + zlen pid)) p2 = bytes_of "/proc/" ++ pid) as ->.
  { unfold p2. change (take (Z.to_nat 6) p1) with (bytes_of "/proc/").
    rewrite app_assoc, take_app_length'; [done |]. rewrite length_app. unfold zlen. simpl. lia. }
  set (rest := drop _ p2).
  replace ((bytes_of "/proc/" ++ pid) ++ (bytes_of "/status" ++ [0]) ++ rest)
    with ((bytes_of "/proc/" ++ pid ++ bytes_of "/status") ++ 0 :: rest)
    by (by rewrite <-!app_assoc).
  apply c_string_app. rewrite !Forall_app. split; [| split; [done |]];
    vm_compute; repeat constructor; discriminate.
Qed.

Lemma procpath_fits_witness :
  procpath_from_pid (bytes_of "1234") = Some (bytes_of "/proc/1234/status") /\
  procpath_from_pid (bytes_of "32768") = None.
Proof.
  assert (Forall (fun b => b <> 0) (bytes_of "32768")) as H5.
  { vm_compute. repeat constructor; discriminate. }
  assert (Forall (fun b => b <> 0) (bytes_of "1234")) as H4.
  { vm_compute. repeat constructor; discriminate. }
  split.
  - apply (proj1 (procpath_fits (bytes_of "1234") H4)). vm_compute. discriminate.
  - apply (proj2 (procpath_fits (bytes_of "32768") H5)). vm_compute. reflexivity.
Defined.

(** ** The real user of a process *)

Definition uid_at (buf : list Z) (j : Z) : Prop :=
  znth buf j = Some 85 /\ znth buf (j + 1) = Some 105 /\ znth buf (j + 2) = Some 100.

Lemma znth_some {A} (l : list A) j : 0 <= j < zlen l -> exists b, znth l j = Some b.
Proof.
  intros Hj. unfold znth, zlen in *. rewrite (proj2 (Z.leb_le 0 j)) by lia.
  destruct (lookup_lt_is_Some_2 l (Z.to_nat j)) as [b Hb]; [lia | by exists b].
Qed.

Lemma find_uid_skip buf bound k : forall fuel n idx, 0 <= idx -> idx + Z.of_nat k + 2 < zlen buf ->
  n + Z.of_nat k <= bound -> (forall j, idx <= j < idx + Z.of_nat k -> ~ uid_at buf j) ->
  find_uid (k + fuel) buf bound n idx = find_uid fuel buf bound (n + Z.of_nat k) (idx + Z.of_nat k).
Proof.
  induction k as [| k IH]; intros fuel n idx Hi Hlen Hn Hno.
  { by rewrite !Z.add_0_r. }
  assert (find_uid (S k + fuel) buf bound n idx = find_uid (k + fuel) buf bound (n + 1) (idx + 1)) as ->.
  { simpl find_uid. rewrite (proj2 (Z.ltb_lt n bound)) by lia.
    destruct (znth_some buf idx) as [b0 E0]; [lia |].
    destruct (znth_some buf (idx + 1)) as [b1 E1]; [lia |].
    destruct (znth_some buf (idx + 2)) as [b2 E2]; [lia |].
    rewrite E0, E1, E2. cbn [mbind option_bind].
    destruct (b0 =? 85) eqn:H0; [| done]. destruct (b1 =? 105) eqn:H1; [| done].
    destruct (b2 =? 100) eqn:H2; [| done]. zbool. subst. destruct (Hno idx); [lia | done]. }
  rewrite IH; [f_equal; lia | lia | lia | lia |]. intros j Hj. apply Hno. lia.
Qed.

Lemma skip_to_digit_app mid d rest : Forall (fun b => digit_byte b = false) mid ->
  digit_byte d = true -> skip_to_digit (mid ++ d :: rest) = Some (d :: rest).
Proof. induction 1 as [| b mid Hb _ IH]; simpl; intros Hd; [by rewrite Hd | rewrite Hb; auto]. Qed.

Lemma digit_run_app ds b rest : all_digits ds = true -> digit_byte b = false ->
  digit_run (ds ++ b :: rest) = Some ds.
Proof.
  induction ds as [| d ds IH]; simpl; intros Hd Hb; [by rewrite Hb |].
  destruct (digit_byte d); [| done]. by rewrite IH.
Qed.

Lemma znth_app_r {A} (l1 l2 : list A) k : 0 <= k -> znth (l1 ++ l2) (zlen l1 + k) = znth l2 k.
Proof.
  intros Hk. pose proof (zlen_nonneg l1). unfold znth.
  rewrite !(proj2 (Z.leb_le 0 _)) by lia. unfold zlen in *. rewrite lookup_app_r by lia. f_equal. lia.
Qed.

(** When the text read has a [Uid] line and no earlier [Uid], the result is the first
    number after it; the search stays inside the buffer. *)
Theorem uid_in_status_finds pre mid d ds b rest :
  let contents := pre ++ bytes_of "Uid" ++ mid ++ (d :: ds) ++ b :: rest in
  zlen contents <= 4096 -> (forall j, 0 <= j < zlen pre -> ~ uid_at contents j) ->
  Forall (fun b => digit_byte b = false) mid ->
  all_digits (d :: ds) = true -> zlen (d :: ds) < 21 -> digit_byte b = false ->
  uid_in_status (zlen contents) contents = Some (Some (d :: ds)).
Proof.
  intros contents Hlen Hno Hmid Hds Hdl Hb. unfold uid_in_status.
  pose proof (zlen_nonneg contents). rewrite wrap_small by lia.
  set (tail_ := mid ++ (d :: ds) ++ b :: rest) in *.
  assert (exists pad, take status_size (contents ++ replicate status_size 0) = contents ++ pad
    /\ zlen (contents ++ pad) = 4096) as (pad & -> & Hbuf).
  { exists (take (status_size - length contents) (replicate status_size 0)). split.
    - rewrite take_app. f_equal. apply take_ge. unfold zlen, status_size in *. lia.
    - unfold zlen in *. rewrite length_app, length_take, length_replicate.
      unfold status_size. lia. }
  assert (zlen contents = zlen pre + (3 + zlen tail_)) as Hc.
  { unfold contents. rewrite !zlen_app. done. }
  assert (0 < zlen tail_) as Ht.
  { unfold tail_, zlen. rewrite !length_app. simpl. lia. }
  pose proof (zlen_nonneg pre) as Hp0.
  assert (forall k, 0 <= k < zlen contents -> znth (contents ++ pad) k = znth contents k) as Hz.
  { intros k Hk. unfold znth, zlen in *. case_if; [| done]. by rewrite lookup_app_l by lia. }
  replace (S status_size) with (length pre + S (status_size - length pre))%nat
    by (unfold zlen, status_size in *; lia).
  rewrite find_uid_skip; [| lia | rewrite Hbuf; unfold zlen in *; lia | unfold zlen in *; lia |].
  2: { intros j Hj (H1 & H2 & H3). apply (Hno j); [unfold zlen; lia |].
       unfold zlen in *. rewrite Hz in H1, H2, H3 by lia. done. }
  rewrite !Z.add_0_l. change (Z.of_nat (length pre)) with (zlen pre).
  assert (forall k, 0 <= k < 3 -> znth (contents ++ pad) (zlen pre + k) = znth (bytes_of "Uid") k) as Hu.
  { intros k Hk. rewrite Hz by lia. unfold contents. rewrite znth_app_r by lia.
    unfold znth. rewrite (proj2 (Z.leb_le 0 k)) by lia.
    rewrite lookup_app_l; [done |]. change (length (bytes_of "Uid")) with 3%nat. lia. }
  cbn [find_uid]. rewrite (proj2 (Z.ltb_lt (zlen pre) _)) by lia.
  pose proof (Hu 0 ltac:(lia)) as H0. pose proof (Hu 1 ltac:(lia)) as H1.
  pose proof (Hu 2 ltac:(lia)) as H2. rewrite Z.add_0_r in H0. rewrite H0, H1, H2.
  change (znth (bytes_of "Uid") 0) with (Some 85). change (znth (bytes_of "Uid") 1) with (Some 105).
  change (znth (bytes_of "Uid") 2) with (Some 100). cbn [mbind option_bind Z.eqb Pos.eqb negb].
  rewrite (proj2 (Z.leb_gt _ _)) by lia.
  assert (drop (Z.to_nat (zlen pre)) (contents ++ pad) = (bytes_of "Uid" ++ mid) ++
    d :: (ds ++ b :: (rest ++ pad))) as ->.
  { unfold contents, tail_. rewrite <-!app_assoc. rewrite drop_app_length' by (unfold zlen; lia).
    cbn. by rewrite <-?app_assoc. }
  assert (digit_byte d = true) as Hd by (simpl in Hds; by destruct (digit_byte d)).
  rewrite skip_to_digit_app; [| apply Forall_app; split; [| done] | done].
  2: { vm_compute. repeat constructor. }
  cbn [mbind option_bind]. change (d :: ds ++ b :: rest ++ pad) with ((d :: ds) ++ b :: rest ++ pad).
  rewrite digit_run_app by done. cbn [mbind option_bind].
  by rewrite (proj2 (Z.ltb_lt _ _)).
Qed.

Lemma uid_in_status_finds_witness :
  let contents := bytes_of "Umask:0022 " ++ bytes_of "Uid" ++ [58; 9] ++ (49 :: [48; 48]) ++ 10 :: [] in
  uid_in_status (zlen contents) contents = Some (Some [49; 48; 48]).
Proof.
  apply (uid_in_status_finds (bytes_of "Umask:0022 ") [58; 9] 49 [48; 48] 10 []).
  - vm_compute. discriminate.
  - intros j Hj (H1 & H2 & _). change (zlen (bytes_of "Umask:0022 ")) with 11 in Hj.
    assert (j = 0 \/ 1 <= j) as [-> | H] by lia; [vm_compute in H2; discriminate |].
    assert (forall j, 0 <= j < 11 -> 
      (if decide (j = 0) then true else negb (bool_decide (znth (bytes_of "Umask:0022 ") j = Some 85))) = true) as Hb.
    { apply (below_forallb 11). vm_compute. reflexivity. }
    specialize (Hb j ltac:(lia)). destruct (decide (j = 0)); [lia |].
    apply negb_true_iff, bool_decide_eq_false in Hb. apply Hb.
    rewrite <-H1. unfold znth. rewrite (proj2 (Z.leb_le 0 j)) by lia.
    symmetry. apply lookup_app_l. change (length _) with 11%nat. lia.
  - repeat constructor.
  - reflexivity.
  - vm_compute. reflexivity.
  - reflexivity.
Defined.
