(* ===== verification/Watchseg.v ===== *)
(** * sigsegv_return_from_kill: raising SIGSEGV again inside its own handler

    [src/sigsegv_return_from_kill/watchseg.c] as programs over its system calls; the
    process that runs them (threads, pending signals, dispositions) is a step relation. *)
From stdpp Require Import base gmap sets list strings relations.
From Stdlib Require Import ZArith Lia.
From S2P Require Import Prelude Prog Sys.

(** ** Data *)

Definition SIGSEGV : Z := 11.
Definition SA_SIGINFO : Z := 4.
Definition SA_ONSTACK : Z := 134217728.
Definition SA_NODEFER : Z := 1073741824.

Record KillArgs := { ka_pid : Z; ka_tid : Z; ka_type : Z }.

(** The globals of the file other than [old_sa]; booleans are stored as 0 and 1,
    characters as their codes. *)
Inductive global :=
| extra_flags | crash_type | fastexit | signal_crash_type | pause_in_handler | skip_reraise.

#[global] Instance global_eq_dec : EqDecision global.
Proof. solve_decision. Defined.

Definition initial (x : global) : Z :=
  match x with
  | crash_type | signal_crash_type => 75             (* 'K' *)
  | _ => 0
  end.

Inductive disposition := SIG_DFL | SIG_IGN | Catch.  (* [Catch] is [segfault_handler] *)
Record sigact := { sa_handler : disposition; sa_flags : Z }.

Inductive routine := BgThread (msg : string) | KillThread (ka : KillArgs).

Inductive arg := AInt (z : Z) | AStr (s : string).

Inductive wsE : Type -> Type :=
| Printf (fmt : string) (args : list arg) : wsE unit
| Fflush : wsE unit
| Perror (s : string) : wsE unit
| Getpid : wsE Z
| Gettid : wsE Z
| Kill (pid sig : Z) : wsE Z
| Tgkill (pid tid sig : Z) : wsE Z
| NullStore : wsE unit                               (* [*p = 0] with [p] null *)
| Unshare (flags : Z) : wsE Z
| Fork : wsE Z
| Malloc (n : Z) : wsE Z
| Sigaltstack (sp size flags : Z) : wsE Z
| Sleep (n : Z) : wsE unit
| Pthread_create (r : routine) : wsE Z
| Sigaction (act : sigact) : wsE (Z * sigact)        (* on SIGSEGV; the old action *)
| Sigreturn (was : bool)  : wsE unit                 (* the return from a handler *)
| Load (x : global) : wsE Z
| Store (x : global) (v : Z) : wsE unit
| LoadOld : wsE sigact
| StoreOld (a : sigact) : wsE unit.

Abbreviation ws := (prog wsE).

(** ** The program *)

(** [printf("[%d:%d] ...", getpid(), gettid(), ...); fflush(stdout);] *)
Definition say (fmt : string) (args : list arg) : ws unit :=
  pid <- trigger Getpid ;;
  tid <- trigger Gettid ;;
  trigger (Printf ("[%d:%d] " ++ fmt) (AInt pid :: AInt tid :: args)) ;;
  trigger Fflush.

Definition do_segfault (type pid tid : Z) : ws unit :=
  if type =? 75 then                                 (* 'K' *)
    say "SIGSEGV: kill %d" [AInt pid] ;; trigger (Kill pid SIGSEGV) ;; Ret tt
  else if type =? 84 then                            (* 'T' *)
    say "SIGSEGV: tgkill %d" [AInt tid] ;; trigger (Tgkill pid tid SIGSEGV) ;; Ret tt
  else if type =? 83 then                            (* 'S' *)
    say "SIGSEGV: segfault" [] ;; trigger NullStore
  else say "Unknown type: '%c'" [AInt type].

Definition CLONE_NEWPID : Z := 536870912.

Definition pretend_to_be_in_container : ws unit :=
  r <- trigger (Unshare CLONE_NEWPID) ;;
  if r =? -1 then trigger (Perror "unshare") ;; Halt (Exited 1)
  else
  pid <- trigger Fork ;;
  if pid =? -1 then trigger (Perror "fork") ;; Halt (Exited 1)
  else if pid =? 0 then Ret tt
  else Halt (Exited 0).

Definition setup_sigaltstack : ws unit :=
  let sz := 4096 * 16 in
  sp <- trigger (Malloc sz) ;;
  r <- trigger (Sigaltstack sp sz 0) ;;
  if r =? -1 then trigger (Perror "sigaltstack") ;; Halt (Exited 1) else Ret tt.

Definition segfault_handler (signum : Z) : ws unit :=
  if negb (signum =? SIGSEGV) then say "Received wrong signal %d" [AInt signum]
  else
  pause <- trigger (Load pause_in_handler) ;;
  (if truthy pause then say "Pausing in the handler" [] ;; trigger (Sleep 5) else Ret tt) ;;
  say "Attempting to complete handler" [] ;;
  skip <- trigger (Load skip_reraise) ;;
  if negb (truthy skip)
  then
    old <- trigger LoadOld ;;
    trigger (Sigaction old) ;;
    pid <- trigger Getpid ;;
    tid <- trigger Gettid ;;
    type <- trigger (Load signal_crash_type) ;;
    do_segfault type pid tid
  else Ret tt.

Definition bg_thread (msg : string) : ws unit :=
  let say fmt :=
    pid <- trigger Getpid ;;
    tid <- trigger Gettid ;;
    trigger (Printf fmt [AInt pid; AInt tid; AStr msg]) ;;
    trigger Fflush in
  for_range 0 5 (fun _ => say "[%d:%d:%s] hello" ;; trigger (Sleep 1)) ;;
  say "[%d:%d:%s] goodbye".

Definition kill_thread (ka : KillArgs) : ws unit :=
  do_segfault (ka_type ka) (ka_pid ka) (ka_tid ka) ;;
  say "I raised a segfault, but I'm alive now." [].

Definition routine_body (r : routine) : ws unit :=
  match r with
  | BgThread msg => bg_thread msg
  | KillThread ka => kill_thread ka
  end.

Definition set (x : global) (v : Z) : ws unit := trigger (Store x v).

Definition action_altstack : ws unit :=
  setup_sigaltstack ;;
  flags <- trigger (Load extra_flags) ;;
  set extra_flags (Z.lor flags SA_ONSTACK).

Definition action_thread : ws unit := trigger (Pthread_create (BgThread "bg_thread")) ;; Ret tt.

(** [X(cmd, help, msg, action)] *)
Record command := { cmd : string; help : string; msg : string; action : ws unit }.

Definition X (c h m : string) (a : ws unit) : command :=
  {| cmd := c; help := h; msg := m; action := a |}.

Definition COMMANDS : list command :=
  [X "signal_tgkill" "Use tgkill in signal handler" "Using tgkill in signal handler"
     (set signal_crash_type 84);
   X "signal_kill" "Use kill in signal handler" "Using kill in signal handler"
     (set signal_crash_type 75);
   X "signal_segfault" "Use segfault in signal handler" "Using segfault in signal handler"
     (set signal_crash_type 83);
   X "do_kill" "Emit a kill signal" "Emitting a kill signal" (set crash_type 75);
   X "do_tgkill" "Emit a tgkill signal" "Emitting a tgkill signal" (set crash_type 84);
   X "do_segfault" "Emit a segfault" "Emitting a segfault" (set crash_type 83);
   X "container" "Pretend to be in a container" "Pretending to be in a container"
     pretend_to_be_in_container;
   X "altstack" "Use an alternate stack" "Using an alternate stack" action_altstack;
   X "thread" "Run a thread in the background" "Running a thread in background" action_thread;
   X "pause" "Pause in the signal handler" "Pausing in the signal handler"
     (set pause_in_handler 1);
   X "fastexit" "Exit ASAP rather than sitting in a loop" "Exiting ASAP" (set fastexit 1);
   X "noraise" "Do not re-raise the signal" "Not re-raising the signal" (set skip_reraise 1)].

Fixpoint dispatch (table : list command) (name : string) : ws unit :=
  match table with
  | c :: table' =>
      if String.eqb name (cmd c)
      then trigger (Printf "> %s" [AStr (msg c)]) ;; action c
      else dispatch table' name
  | [] => trigger (Printf "<<<< Unknown argument: %s" [AStr name]) ;; Ret tt
  end.

Definition process_command : string -> ws unit := dispatch COMMANDS.

Fixpoint each {A} (f : A -> ws unit) (l : list A) : ws unit :=
  match l with
  | a :: l' => f a ;; each f l'
  | [] => Ret tt
  end.

Definition print_help (arg0 : string) : ws unit :=
  trigger (Printf "Usage: %s [options]" [AStr arg0]) ;;
  trigger (Printf "Options:" []) ;;
  each (fun c => trigger (Printf "    %-15s - %s" [AStr (cmd c); AStr (help c)])) COMMANDS.

(** [main] on the program's name and its arguments. *)
Definition main (arg0 : string) (args : list string) : ws Z :=
  if existsb (fun a => String.eqb a "help") args
  then print_help arg0 ;; Ret 0
  else
  each process_command args ;;
  extra <- trigger (Load extra_flags) ;;
  let sa := {| sa_handler := Catch; sa_flags := Z.lor (Z.lor SA_NODEFER SA_SIGINFO) extra |} in
  r <- trigger (Sigaction sa) ;;
  let '(rc, old) := r in
  if rc =? -1 then trigger (Perror "sigaction") ;; Halt (Exited 1)
  else
  trigger (StoreOld old) ;;
  trigger (StoreOld {| sa_handler := sa_handler old; sa_flags := 0 |}) ;;
  pid <- trigger Getpid ;;
  tid <- trigger Gettid ;;
  type <- trigger (Load crash_type) ;;
  trigger (Pthread_create (KillThread {| ka_pid := pid; ka_tid := tid; ka_type := type |})) ;;
  fast <- trigger (Load fastexit) ;;
  (if negb (truthy fast) then bg_thread "main" else Ret tt) ;;
  Ret 0.

(** ** Options *)

Definition stored (e : event wsE) : option (global * Z) :=
  match e with existT _ (o, _) => match o with Store x v => Some (x, v) | _ => None end end.

Definition update (x : global) (acc : Z) (w : option (global * Z)) : Z :=
  match w with Some (y, v) => if decide (x = y) then v else acc | None => acc end.

(** The value of a global after a history. *)
Definition value (x : global) (tr : list (event wsE)) (start : Z) : Z :=
  fold_left (fun acc e => update x acc (stored e)) tr start.

(** What each option asks for. *)
Definition option_effect (name : string) : option (global * Z) :=
  if String.eqb name "signal_tgkill" then Some (signal_crash_type, 84)
  else if String.eqb name "signal_kill" then Some (signal_crash_type, 75)
  else if String.eqb name "signal_segfault" then Some (signal_crash_type, 83)
  else if String.eqb name "do_kill" then Some (crash_type, 75)
  else if String.eqb name "do_tgkill" then Some (crash_type, 84)
  else if String.eqb name "do_segfault" then Some (crash_type, 83)
  else if String.eqb name "pause" then Some (pause_in_handler, 1)
  else if String.eqb name "fastexit" then Some (fastexit, 1)
  else if String.eqb name "noraise" then Some (skip_reraise, 1)
  else None.

Definition chosen (x : global) (args : list string) (start : Z) : Z :=
  fold_left (fun acc name => update x acc (option_effect name)) args start.

Definition exits (s : stop) : Prop := s = Exited 0 \/ s = Exited 1.

Lemma value_app x t1 t2 z : value x (t1 ++ t2) z = value x t2 (value x t1 z).
Proof. apply fold_left_app. Qed.

(** One goal for each command whose action is not a single store, and the last one. *)
Ltac commands name :=
  match goal with
  | |- context [String.eqb name ?c] =>
      destruct (String.eqb_spec name c) as [-> | ?];
      [cbn [always bind trigger set]; intros [] _; cbn [always bind trigger set];
       try (by intros [] _ z)
      | commands name]
  | _ => idtac
  end.

Lemma process_command_effect x name : x <> extra_flags ->
  always anything exits (process_command name)
    (fun _ tr => forall z, value x tr z = update x z (option_effect name)).
Proof.
  intros Hx. unfold process_command, COMMANDS, X, option_effect. cbn [dispatch cmd msg action].
  commands name; [ | | by intros [] _ z].
  - unfold pretend_to_be_in_container. cbn [always bind trigger]. intros u _.
    destruct (u =? -1); cbn [always bind trigger]; [intros ? _; by right |].
    intros pid _. case_if; cbn [always bind trigger]; [intros ? _; by right |].
    case_if; cbn [always]; [by intros z | by left].
  - unfold action_altstack, setup_sigaltstack. cbn [always bind trigger]. intros sp _ rc _.
    case_if; cbn [always bind trigger]; [intros ? _; by right |]. intros flags _ ? _ z.
    unfold value. simpl. by destruct (decide (x = extra_flags)).
Qed.

Lemma each_settings x args : x <> extra_flags ->
  always anything exits (each process_command args)
    (fun _ tr => forall z, value x tr z = chosen x args z).
Proof.
  intros Hx. induction args as [| a args IH]; [done |]. cbn [each].
  eapply always_bind; [by apply process_command_effect |]. intros ? t1 H1.
  eapply always_mono; [exact IH |]. intros ? t2 H2 z.
  by rewrite value_app, H1, H2.
Qed.

(** After the command line is processed, every option group holds what its last
    option says, and its initial value without one; unknown options change nothing. *)
Theorem last_option_wins x args : x <> extra_flags ->
  always anything exits (each process_command args)
    (fun _ tr => value x tr (initial x) = chosen x args (initial x)).
Proof.
  intros Hx. eapply always_mono; [by apply each_settings |]. intros ? tr H. apply H.
Qed.

Lemma last_option_wins_witness :
  always anything exits (each process_command ["do_tgkill"; "bogus"; "do_segfault"; "noraise"])
    (fun _ tr => value crash_type tr (initial crash_type) = 83).
Proof. by apply (last_option_wins crash_type ["do_tgkill"; "bogus"; "do_segfault"; "noraise"]). Defined.

Definition prints (e : event wsE) : Prop :=
  match e with existT _ (o, _) => match o with Printf _ _ => True | _ => False end end.

Definition help_line (c : command) : event wsE :=
  ev (Printf "    %-15s - %s" [AStr (cmd c); AStr (help c)]) tt.

Lemma print_help_spec arg0 : always anything nothing (print_help arg0)
  (fun _ tr => Forall prints tr /\ forall c, c ∈ COMMANDS -> help_line c ∈ tr).
Proof.
  unfold print_help. cbn [always bind trigger]. intros [] _ [] _.
  assert (forall l, always anything nothing
    (each (fun c => trigger (Printf "    %-15s - %s" [AStr (cmd c); AStr (help c)])) l)
    (fun _ tr => Forall prints tr /\ forall c, c ∈ l -> help_line c ∈ tr)) as H.
  { induction l as [| c l IH]; [split; [done | by intros ? ?%elem_of_nil] |].
    cbn [each always bind trigger]. intros [] _. eapply always_mono; [exact IH |].
    intros ? tr [HF Hl]. split; [by constructor |].
    intros c' [-> | Hc]%elem_of_cons; [by left | right; auto]. }
  eapply always_mono; [apply H |]. intros ? tr [HF Hl].
  split; [by repeat constructor | intros c Hc; do 2 right; auto].
Qed.

(** A [help] anywhere on the command line: usage and one line for each command are printed, nothing
    else happens (no option is acted on, no handler is installed), and [main] returns 0. *)
Theorem help_only_prints arg0 args : "help" ∈ args ->
  always anything nothing (main arg0 args)
    (fun r tr => r = 0 /\ Forall prints tr /\ forall c, c ∈ COMMANDS -> help_line c ∈ tr).
Proof.
  intros Hin. unfold main.
  rewrite (proj2 (existsb_exists _ args)); [| exists "help"; split; [by apply list_elem_of_In | done]].
  eapply always_bind; [apply print_help_spec |]. intros ? tr H. simpl. by rewrite app_nil_r.
Qed.

Lemma help_only_prints_witness :
  always anything nothing (main "watchseg" ["container"; "help"])
    (fun r tr => r = 0 /\ Forall prints tr /\ forall c, c ∈ COMMANDS -> help_line c ∈ tr).
Proof. apply help_only_prints. set_solver. Defined.
