(* ===== verification/Signals.v ===== *)
(** * Signals of the watchseg process

    The process that runs [Watchseg.main] as a step relation: threads that interleave,
    SIGSEGV pending for the process or for one thread, and its disposition. The
    delivery of a caught signal runs [segfault_handler] on top of the interrupted thread. *)
From stdpp Require Import base gmap sets list strings relations.
From Stdlib Require Import ZArith Lia.
From S2P Require Import Prelude Prog Sys Watchseg.

(** The first thread returns from [main] with [Some code]; the others return [None]. *)
Record thread := { code : ws (option Z); tid : Z; masked : bool; own_pending : bool }.

Record process := {
  pid : Z; threads : list thread; action : sigact; vars : global -> Z; old_sa : sigact;
  pending : bool;                  (* SIGSEGV sent to the process *)
  entries : nat;                   (* times a handler was entered *)
  dead : option stop }.

Definition with_threads (st : process) (ts : list thread) : process :=
  {| pid := pid st; threads := ts; action := action st; vars := vars st; old_sa := old_sa st;
     pending := pending st; entries := entries st; dead := dead st |}.

Definition with_pending (st : process) (b : bool) : process :=
  {| pid := pid st; threads := threads st; action := action st; vars := vars st;
     old_sa := old_sa st; pending := b; entries := entries st; dead := dead st |}.

Definition with_old (st : process) (a : sigact) : process :=
  {| pid := pid st; threads := threads st; action := action st; vars := vars st;
     old_sa := a; pending := pending st; entries := entries st; dead := dead st |}.

Definition with_var (st : process) (x : global) (v : Z) : process :=
  {| pid := pid st; threads := threads st; action := action st;
     vars := fun y => if decide (y = x) then v else vars st y;
     old_sa := old_sa st; pending := pending st; entries := entries st; dead := dead st |}.

Definition with_action (st : process) (a : sigact) : process :=
  {| pid := pid st; threads := threads st; action := a; vars := vars st;
     old_sa := old_sa st; pending := pending st; entries := entries st; dead := dead st |}.

Definition entered (st : process) : process :=
  {| pid := pid st; threads := threads st; action := action st; vars := vars st;
     old_sa := old_sa st; pending := pending st; entries := S (entries st); dead := dead st |}.

Definition die (st : process) (s : stop) : process :=
  {| pid := pid st; threads := threads st; action := action st; vars := vars st;
     old_sa := old_sa st; pending := pending st; entries := entries st; dead := Some s |}.

Definition with_code (t : thread) (c : ws (option Z)) : thread :=
  {| code := c; tid := tid t; masked := masked t; own_pending := own_pending t |}.

Definition with_own (b : bool) (t : thread) : thread :=
  {| code := code t; tid := tid t; masked := masked t; own_pending := b |}.

Definition with_mask (b : bool) (t : thread) : thread :=
  {| code := code t; tid := tid t; masked := b; own_pending := own_pending t |}.

(** The program of a new thread. *)
Definition routine_code (r : routine) : ws (option Z) := routine_body r ;; Ret None.

(** A system call of thread [i]: the answer and the new state, before the thread goes on.
    Ignoring a signal discards it where it is pending. *)
Definition syscall (st : process) (i : nat) (t : thread) {R} (e : wsE R) : R -> process -> Prop :=
  match e in wsE R return R -> process -> Prop with
  | Getpid => fun r st' => r = pid st /\ st' = st
  | Gettid => fun r st' => r = tid t /\ st' = st
  | Kill p sig => fun _ st' =>
      st' = if (p =? pid st) && (sig =? SIGSEGV) then with_pending st true else st
  | Tgkill p id sig => fun _ st' =>
      (st' = st /\ ~ (p = pid st /\ sig = SIGSEGV /\ id ∈ map tid (threads st))) \/
      (p = pid st /\ sig = SIGSEGV /\ exists j, tid <$> threads st !! j = Some id /\
         st' = with_threads st (alter (with_own true) j (threads st)))
  | NullStore => fun _ _ => False                    (* faults: [step_fault] *)
  | Fork => fun r st' => r <> 0 /\ st' = st          (* the child: [step_child] *)
  | Pthread_create b => fun r st' =>
      (r <> 0 /\ st' = st) \/
      (r = 0 /\ exists id, st' = with_threads st (threads st ++
         [{| code := routine_code b; tid := id; masked := masked t; own_pending := false |}]))
  | Sigaction act => fun r st' =>
      r = (0, action st) /\
      st' = match sa_handler act with
            | SIG_IGN => with_action (with_pending
                (with_threads st (map (with_own false) (threads st))) false) act
            | _ => with_action st act
            end
  | Sigreturn mask => fun _ st' => st' = with_threads st (alter (with_mask mask) i (threads st))
  | Load x => fun r st' => r = vars st x /\ st' = st
  | Store x v => fun _ st' => st' = with_var st x v
  | LoadOld => fun r st' => r = old_sa st /\ st' = st
  | StoreOld a => fun _ st' => st' = with_old st a
  | _ => fun _ st' => st' = st
  end.

(** The code of a thread that enters the handler: the handler, the return from it, and
    what was interrupted. *)
Definition interrupted (t : thread) : ws (option Z) :=
  segfault_handler SIGSEGV ;; trigger (Sigreturn (masked t)) ;; code t.

Definition enter (act : sigact) (t : thread) : thread :=
  {| code := interrupted t; tid := tid t;
     masked := negb (Z.testbit (sa_flags act) 30);   (* SA_NODEFER *)
     own_pending := own_pending t |}.

(** SIGSEGV that was sent reaches thread [i]. The default action does nothing to the first process of a PID
    namespace, which is number 1 there; one that the kernel raises for a fault kills it as well ([step_fault]). *)
Definition deliver (st : process) (i : nat) : process :=
  match sa_handler (action st) with
  | SIG_DFL => if pid st =? 1 then st else die st (Signaled SIGSEGV)
  | SIG_IGN => st
  | Catch => entered (with_threads st (alter (enter (action st)) i (threads st)))
  end.

(** An unmasked signal of its own is delivered before a thread goes on. *)
Definition interrupts (t : thread) : bool := own_pending t && negb (masked t).

Inductive step (st : process) : process -> Prop :=
| step_syscall i t R (e : wsE R) k r st' :
    dead st = None -> threads st !! i = Some t -> code t = Vis e k -> interrupts t = false ->
    syscall st i t e r st' ->
    step st (with_threads st' (alter (fun t => with_code t (k r)) i (threads st')))
| step_child t k p :
    dead st = None -> threads st !! 0%nat = Some t -> code t = Vis Fork k -> interrupts t = false ->
    step st {| pid := p;
      threads := [{| code := k 0; tid := p; masked := masked t; own_pending := false |}];
      action := action st; vars := vars st; old_sa := old_sa st; pending := false;
      entries := entries st; dead := None |}
| step_fault i t k :
    dead st = None -> threads st !! i = Some t -> code t = Vis NullStore k -> interrupts t = false ->
    step st (if masked t then die st (Signaled SIGSEGV)
             else match sa_handler (action st) with
                  | Catch => deliver st i
                  | _ => die st (Signaled SIGSEGV)
                  end)
| step_own i t :
    dead st = None -> threads st !! i = Some t -> interrupts t = true ->
    step st (deliver (with_threads st (alter (with_own false) i (threads st))) i)
| step_shared i t :
    dead st = None -> threads st !! i = Some t -> masked t = false -> pending st = true ->
    step st (deliver (with_pending st false) i)
| step_exit i t s :
    dead st = None -> threads st !! i = Some t -> code t = Halt s -> step st (die st s)
| step_return i t n :
    dead st = None -> threads st !! i = Some t -> code t = Ret (Some n) ->
    step st (die st (Exited n)).

(** The process at the start of [main]. *)
Definition start (p : Z) (arg0 : string) (args : list string) (inherited : sigact) : process :=
  {| pid := p;
     threads := [{| code := n <- main arg0 args ;; Ret (Some n); tid := p;
                    masked := false; own_pending := false |}];
     action := inherited; vars := initial; old_sa := {| sa_handler := SIG_DFL; sa_flags := 0 |};
     pending := false; entries := 0; dead := None |}.

(** ** How many signals a thread may still raise

    [Idle]: before the handler is installed; [Quiet]: none; [Raising n]: at most [n]
    raises before the old action is restored; [Restored]: the old action is back. *)
Inductive mode := Idle | Quiet | Raising (n : nat) | Restored.

Definition catches (a : sigact) : bool :=
  match sa_handler a with Catch => true | _ => false end.

Definition spend (m : mode) : option mode :=
  match m with
  | Raising (S n) => Some (Raising n)
  | Restored => Some Restored
  | _ => None
  end.

(** The mode after an operation, [None] for one that is not allowed. *)
Definition next (m : mode) {R} (e : wsE R) : option mode :=
  match e with
  | Kill _ _ | Tgkill _ _ _ | NullStore | Pthread_create (KillThread _) => spend m
  | Sigaction a =>
      if catches a then match m with Idle => Some (Raising 1) | _ => None end
      else match m with Idle => Some Idle | Quiet => None | _ => Some Restored end
  | Store x v => if decide (x = skip_reraise /\ v <> 0) then None else Some m
  | StoreOld a => if catches a then None else Some m
  | Fork => match m with Idle => Some Idle | _ => None end
  | _ => Some m
  end.

(** The answers of a process without [noraise] that did not inherit the handler. *)
Definition answer (m : mode) {R} (e : wsE R) : R -> Prop :=
  match e in wsE R return R -> Prop with
  | Load x => fun v => x = skip_reraise -> v = 0
  | LoadOld => fun a => catches a = false
  | Sigaction _ => fun r => m = Idle -> catches r.2 = false
  | _ => fun _ => True
  end.

Fixpoint tame {A} (m : mode) (p : ws A) (Q : A -> mode -> Prop) : Prop :=
  match p with
  | Ret a => Q a m
  | Halt _ => True
  | Vis e k =>
      match next m e with
      | Some m' => forall r, answer m e r -> tame m' (k r) Q
      | None => False
      end
  end.

Lemma tame_bind {A B} m (p : ws A) (f : A -> ws B) P Q :
  tame m p P -> (forall a m', P a m' -> tame m' (f a) Q) -> tame m (bind p f) Q.
Proof.
  intros Hp Hf. revert m Hp. induction p as [a | s | R e k IH]; simpl; intros m Hp; [auto | done |].
  destruct (next m e); [| done]. intros r Hr. apply IH, Hp, Hr.
Qed.

(** A thread with more raises left, or in a restored process, is less restricted. *)
Inductive le_mode : mode -> mode -> Prop :=
| le_raising n n' : (n <= n')%nat -> le_mode (Raising n) (Raising n')
| le_restored n : le_mode (Raising n) Restored
| le_quiet n : le_mode Quiet (Raising n)
| le_quiet_restored : le_mode Quiet Restored.

Lemma next_le m m' {R} (e : wsE R) m1 : le_mode m m' -> next m e = Some m1 ->
  exists m1', next m' e = Some m1' /\ (m1 = m1' \/ le_mode m1 m1') /\
    forall r, answer m' e r -> answer m e r.
Proof.
  intros [n n' Hn | n | n |] E; destruct e; try (destruct r); simpl in *; try done;
    try (destruct n; [done |]); try (destruct n'; [lia |]); try case_match; simplify_eq;
    eexists; repeat split; try done; try (right; constructor; lia); by left.
Qed.

Definition any {A} : A -> mode -> Prop := fun _ _ => True.

Lemma tame_le {A} (p : ws A) m m' : le_mode m m' -> tame m p any -> tame m' p any.
Proof.
  revert m m'. induction p as [a | s | R e k IH]; intros m m' Hle; simpl; [done | done |].
  destruct (next m e) as [m1 |] eqn:E; [| done].
  destruct (next_le _ _ e _ Hle E) as (m1' & -> & Hm & Ha). intros H r Hr.
  destruct Hm as [<- | Hm]; [auto | eapply IH; [exact Hm | auto]].
Qed.

(** *** The parts of the program *)

Lemma say_tame m fmt args Q : Q tt m -> tame m (say fmt args) Q.
Proof. intros HQ. simpl. by intros pid _ tid _ [] _ [] _. Qed.

Lemma do_segfault_tame m m' type p t Q : spend m = Some m' -> Q tt m -> Q tt m' ->
  tame m (do_segfault type p t) Q.
Proof.
  intros Hm HQ HQ'. unfold do_segfault.
  repeat case_if; [| | | by apply say_tame]; eapply tame_bind;
    try apply (say_tame _ _ _ (fun _ m1 => m1 = m)); try done; intros ? ? ->; simpl;
    rewrite Hm; [done | done |]. by intros [] _.
Qed.

Lemma for_range_tame m n lo (f : Z -> ws unit) :
  (forall i, tame m (f i) (fun _ m' => m' = m)) -> tame m (for_range lo n f) (fun _ m' => m' = m).
Proof.
  intros Hf. revert lo. induction n as [| n IH]; intros lo; [done |]. cbn [for_range].
  eapply tame_bind; [apply Hf |]. by intros _ ? ->.
Qed.

Lemma bg_thread_tame msg m Q : Q tt m -> tame m (bg_thread msg) Q.
Proof.
  intros HQ. unfold bg_thread. eapply tame_bind.
  - apply for_range_tame. intros _. simpl. by intros p _ t _ [] _ [] _ [] _.
  - intros _ ? ->. simpl. by intros p _ t _ [] _ [] _.
Qed.

Lemma kill_thread_tame m m' ka : spend m = Some m' -> tame m (kill_thread ka) any.
Proof.
  intros Hm. unfold kill_thread. eapply tame_bind; [by apply (do_segfault_tame m m' _ _ _ any) |].
  intros _ m1 _. by apply say_tame.
Qed.

(** Without [noraise] the handler puts the old action back before it raises. *)
Lemma segfault_handler_tame m : m <> Idle -> m <> Quiet ->
  tame m (segfault_handler SIGSEGV) (fun _ m' => m' = Restored).
Proof.
  intros Hm Hm'. unfold segfault_handler. cbn [negb Z.eqb SIGSEGV Pos.eqb].
  cbn [bind trigger tame next]. intros pause _.
  eapply tame_bind with (P := fun _ m' => m' = m).
  { case_if; [| done]. eapply tame_bind; [by apply (say_tame _ _ _ (fun _ m1 => m1 = m)) |].
    intros _ ? ->. simpl. by intros [] _. }
  intros _ ? ->. eapply tame_bind; [by apply (say_tame _ _ _ (fun _ m1 => m1 = m)) |].
  intros _ ? ->. cbn [bind trigger tame next]. intros skip ->; [| done]. simpl. intros old ->.
  destruct m; [done | done | |]; simpl; intros r _ pid _ tid _ type _;
    by apply (do_segfault_tame Restored Restored).
Qed.

Lemma set_tame m x v : (x = skip_reraise -> v = 0) -> tame m (set x v) (fun _ m' => m' = m).
Proof. intros Hx. simpl. case_decide as H; [| done]. destruct H as [? []]. auto. Qed.

Lemma process_command_tame a : a <> "noraise" ->
  tame Idle (process_command a) (fun _ m => m = Idle).
Proof.
  intros Ha. unfold process_command, COMMANDS, X. cbn [dispatch cmd msg action].
  repeat case_if; (eapply tame_bind with (P := fun _ m => m = Idle); [by intros [] _ |]);
    intros _ ? ->; try (by apply set_tame); [| | | | done].
  - unfold pretend_to_be_in_container. simpl. intros u _. case_if; [by intros [] _ |].
    simpl. intros p _. case_if; [by intros [] _ |]. by case_if.
  - unfold action_altstack, setup_sigaltstack. simpl. intros sp _ r _.
    case_if; [by intros [] _ |]. by intros flags _ [] _.
  - unfold action_thread. by intros r _.
  - exfalso. apply Ha. by apply String.eqb_eq.
Qed.

Lemma main_tame arg0 args : "noraise" ∉ args -> tame Idle (main arg0 args) any.
Proof.
  intros Hn. unfold main. case_if.
  { unfold print_help. eapply tame_bind with (P := any); [| done].
    simpl. by repeat intros [] _. }
  eapply tame_bind with (P := fun _ m => m = Idle).
  { induction args as [| a args IH]; [done |]. cbn [each].
    apply not_elem_of_cons in Hn as [Ha Hn]. cbn [existsb] in *. zbool.
    eapply tame_bind; [apply process_command_tame; by intros -> |]. intros _ ? ->. auto. }
  intros _ ? ->. cbn [bind trigger tame next]. intros extra _. simpl.
  intros [rc old] Hold. simpl in Hold. specialize (Hold eq_refl).
  case_if; [by intros [] _ |]. simpl. rewrite Hold. intros [] _. unfold catches in *. simpl.
  rewrite Hold. intros [] _ p _ t _ type _ r _ fast _.
  eapply tame_bind with (P := any); [| done]. case_if; [| done].
  by apply bg_thread_tame.
Qed.


(** ** The invariant of the process *)

Definition ok (m : mode) (t : thread) : Prop := tame m (code t) any.

Definition vars_ok (st : process) : Prop :=
  vars st skip_reraise = 0 /\ catches (old_sa st) = false.

(** A thread that accounts for at most [n] entries of the handler. *)
Definition holds (t : thread) (n : nat) : Prop :=
  exists k, ok (Raising k) t /\ (k + Nat.b2n (own_pending t) <= n)%nat.

Inductive inv (st : process) : Prop :=
| inv_dead : dead st <> None -> (entries st <= 1)%nat -> inv st
| inv_idle t ts : vars_ok st -> threads st = t :: ts -> ok Idle t -> Forall (ok Quiet) ts ->
    Forall (fun t => own_pending t = false) (threads st) -> catches (action st) = false ->
    pending st = false -> entries st = 0%nat -> inv st
| inv_armed ns : vars_ok st -> catches (action st) = true -> Forall2 holds (threads st) ns ->
    (sum_list ns + Nat.b2n (pending st) + entries st <= 1)%nat -> inv st
| inv_restored : vars_ok st -> catches (action st) = false -> Forall (ok Restored) (threads st) ->
    (entries st <= 1)%nat -> inv st.

Lemma sum_list_insert (ns : list nat) i n n' : ns !! i = Some n ->
  (sum_list (<[i := n']> ns) + n = sum_list ns + n')%nat.
Proof.
  revert i. induction ns as [| m ns IH]; intros [| i] H; simplify_eq/=; [lia |].
  specialize (IH i H). lia.
Qed.

Lemma alter_insert {A} (f : A -> A) (l : list A) i x :
  l !! i = Some x -> alter f i l = <[i := f x]> l.
Proof.
  revert i. induction l as [| y l IH]; intros [| i] H; simplify_eq/=; [done |].
  f_equal. by apply IH.
Qed.

(** Thread [i] becomes [t'], which accounts for [d] entries less and [c] more. *)
Lemma holds_insert ts ns i t t' c d :
  Forall2 holds ts ns -> ts !! i = Some t ->
  (forall n, holds t n -> exists n', holds t' n' /\ (n' + d <= n + c)%nat) ->
  exists ns', Forall2 holds (<[i := t']> ts) ns' /\ (sum_list ns' + d <= sum_list ns + c)%nat.
Proof.
  intros HF Ht Hh. destruct (Forall2_lookup_l _ _ _ _ _ HF Ht) as (n & Hn & Hold).
  destruct (Hh n Hold) as (n' & Hn' & Hle). exists (<[i := n']> ns). split.
  - by apply Forall2_insert.
  - pose proof (sum_list_insert ns i n n' Hn). lia.
Qed.

Lemma ok_step m t {R} (e : wsE R) k : ok m t -> code t = Vis e k ->
  exists m1, next m e = Some m1 /\ forall r, answer m e r -> ok m1 (with_code t (k r)).
Proof.
  unfold ok. intros H E. rewrite E in H. simpl in H. destruct (next m e) as [m1 |]; [by exists m1 | done].
Qed.

Lemma ok_le m m' t : le_mode m m' -> ok m t -> ok m' t.
Proof. intros Hle. by apply tame_le. Qed.

(** A change of thread [i] that keeps its mode and its pending signal. *)
Lemma inv_thread st i t t' : inv st -> dead st = None -> threads st !! i = Some t ->
  (forall m, ok m t -> ok m t') -> own_pending t' = own_pending t ->
  inv (with_threads st (<[i := t']> (threads st))).
Proof.
  intros HI Hd Ht Hok Hown. destruct HI as [Hd' | t0 ts Hv E H0 Hts Ho Ha Hp He | ns Hv Ha HF Hs | Hv Ha HF He].
  - done.
  - rewrite E in *. destruct i as [| i]; simplify_eq/=.
    + eapply inv_idle; try done; [by apply Hok |]. inversion Ho; subst. constructor; [congruence | done].
    + eapply inv_idle; try done.
      * apply Forall_insert; [done |]. apply Hok. by eapply Forall_lookup_1.
      * inversion Ho; subst. constructor; [done |]. apply Forall_insert; [done |].
        rewrite Hown. by eapply (Forall_lookup_1 (fun t => own_pending t = false)).
  - destruct (holds_insert _ ns i t t' 0 0 HF Ht) as (ns' & HF' & Hs').
    { intros n (k & Hk & Hn). exists n. split; [| lia]. exists k. rewrite Hown. auto. }
    eapply inv_armed; try done. simpl in *. lia.
  - apply inv_restored; try done. simpl. apply Forall_insert; [done |].
    apply Hok. by eapply Forall_lookup_1.
Qed.

Lemma inv_ok st i t : inv st -> dead st = None -> threads st !! i = Some t -> exists m, ok m t.
Proof.
  intros [Hd' | t0 ts Hv E H0 Hts Ho Ha Hp He | ns Hv Ha HF Hs | Hv Ha HF He] Hd Ht; [done | | |].
  - rewrite E in Ht. destruct i as [| i]; simplify_eq/=; [by eexists |].
    eexists. by eapply Forall_lookup_1.
  - destruct (Forall2_lookup_l _ _ _ _ _ HF Ht) as (n & _ & k & Hk & _). by eexists.
  - eexists. by eapply Forall_lookup_1.
Qed.

(** New values of the globals. *)
Lemma inv_vars st st' : inv st -> threads st' = threads st -> action st' = action st ->
  pending st' = pending st -> entries st' = entries st -> dead st' = dead st ->
  (vars_ok st -> vars_ok st') -> inv st'.
Proof.
  intros HI Et Ea Ep Ee Ed Hv'. destruct HI.
  - apply inv_dead; congruence.
  - eapply inv_idle; eauto; try congruence.
  - eapply inv_armed; rewrite ?Et, ?Ea, ?Ep, ?Ee; eauto.
  - eapply inv_restored; rewrite ?Et, ?Ea, ?Ee; eauto.
Qed.

Lemma inv_vars_ok st : inv st -> dead st = None -> vars_ok st.
Proof. by intros []. Qed.

(** *** Delivery *)

Lemma enter_ok act m t : m <> Idle -> ok m t -> ok (Raising 0) (enter act t).
Proof.
  intros Hm Ht. change (tame (Raising 0) (interrupted t) any). unfold interrupted.
  eapply tame_bind; [by apply segfault_handler_tame |]. intros _ ? ->. simpl. intros [] _.
  destruct m; [done | | | done]; (eapply tame_le; [| exact Ht]); constructor.
Qed.

(** Thread [i] enters the handler, using [d] of its own raises. *)
Lemma inv_enter st i t ns d : vars_ok st -> catches (action st) = true ->
  Forall2 holds (threads st) ns -> threads st !! i = Some t ->
  (forall n, holds t n -> (Nat.b2n (own_pending t) + d <= n)%nat) ->
  (sum_list ns + Nat.b2n (pending st) + entries st <= d)%nat ->
  inv (entered (with_threads st (alter (enter (action st)) i (threads st)))).
Proof.
  intros Hv Ha HF Ht Hd Hs. rewrite (alter_insert _ _ _ _ Ht).
  destruct (holds_insert _ ns i t (enter (action st) t) 0 d HF Ht) as (ns' & HF' & Hs').
  { intros n Hn. exists (Nat.b2n (own_pending t)). specialize (Hd n Hn). split; [| lia].
    destruct Hn as (k & Hk & _). exists 0%nat. split; [by apply (enter_ok _ (Raising k)) | simpl; lia]. }
  eapply (inv_armed _ ns'); [done | done | done |]. simpl. lia.
Qed.

Lemma inv_die st s : (entries st <= 1)%nat -> inv (die st s).
Proof. intros He. by apply inv_dead. Qed.

Lemma inv_entries st : inv st -> (entries st <= 1)%nat.
Proof. intros []; lia. Qed.

(** A pending signal that is no longer counted is delivered. *)
Lemma inv_deliver st i t : threads st !! i = Some t ->
  (catches (action st) = false /\ inv st) \/
  (vars_ok st /\ catches (action st) = true /\ exists ns, Forall2 holds (threads st) ns /\
   (sum_list ns + Nat.b2n (pending st) + entries st <= 0)%nat) ->
  inv (deliver st i).
Proof.
  intros Ht [[Ha HI] | (Hv & Ha & ns & HF & Hs)]; unfold deliver, catches in *.
  - destruct (sa_handler (action st)); [| done | done]. case_if; [done | by apply inv_die, inv_entries].
  - destruct (sa_handler (action st)) eqn:E; try done.
    eapply (inv_enter _ _ _ _ 0); try done; [by unfold catches; rewrite E |].
    intros n (k & _ & Hn). lia.
Qed.

Lemma inv_shared st i t : inv st -> dead st = None -> threads st !! i = Some t ->
  pending st = true -> inv (deliver (with_pending st false) i).
Proof.
  intros [Hd' | t0 ts Hv E H0 Hts Ho Ha Hp He | ns Hv Ha HF Hs | Hv Ha HF He] Hd Ht Hp';
    [done | congruence | |]; eapply inv_deliver; try exact Ht.
  - right. split; [done |]. split; [done |]. exists ns. split; [done |].
    rewrite Hp' in Hs. simpl in *. lia.
  - left. split; [done |]. by apply inv_restored.
Qed.

Lemma inv_own st i t : inv st -> dead st = None -> threads st !! i = Some t ->
  own_pending t = true ->
  inv (deliver (with_threads st (alter (with_own false) i (threads st))) i).
Proof.
  intros HI Hd Ht Hp. rewrite (alter_insert _ _ _ _ Ht).
  assert (<[i:=with_own false t]> (threads st) !! i = Some (with_own false t)) as Ht'.
  { apply list_lookup_insert_eq. by eapply lookup_lt_Some. }
  eapply inv_deliver; [exact Ht' |].
  destruct HI as [Hd' | t0 ts Hv E H0 Hts Ho Ha Hp' He | ns Hv Ha HF Hs | Hv Ha HF He]; [done | | |].
  - exfalso. rewrite Forall_lookup in Ho. specialize (Ho i t Ht). simpl in Ho. congruence.
  - right. split; [done |]. split; [done |].
    destruct (holds_insert _ ns i t (with_own false t) 0 1 HF Ht) as (ns' & HF' & Hs').
    { intros n (k & Hk & Hn). rewrite Hp in Hn. simpl in Hn. exists k. split; [| lia].
      exists k. split; [done |]. simpl. lia. }
    exists ns'. split; [done |]. simpl. lia.
  - left. split; [done |]. apply inv_restored; try done. simpl. apply Forall_insert; [done |].
    by eapply (Forall_lookup_1 (ok Restored)) in Ht.
Qed.

Lemma inv_fault st i t k : inv st -> dead st = None -> threads st !! i = Some t ->
  code t = Vis NullStore k -> inv (deliver st i).
Proof.
  intros HI Hd Ht Hc.
  destruct HI as [Hd' | t0 ts Hv E H0 Hts Ho Ha Hp' He | ns Hv Ha HF Hs | Hv Ha HF He]; [done | | |].
  - eapply inv_deliver; [done |]. left. split; [done |]. by eapply inv_idle.
  - unfold deliver. assert (sa_handler (action st) = Catch) as E.
    { unfold catches in Ha. by destruct (sa_handler (action st)). }
    rewrite E. eapply (inv_enter _ _ _ ns 1); try done.
    intros n (m & Hm & Hn). destruct (ok_step _ _ _ _ Hm Hc) as (m1 & Hm1 & _).
    destruct m; [done |]. lia.
  - eapply inv_deliver; [done |]. left. split; [done |]. by apply inv_restored.
Qed.

(** *** System calls *)

Lemma inv_raise st i t t' : inv st -> dead st = None -> threads st !! i = Some t ->
  own_pending t' = own_pending t ->
  (forall m, ok m t -> exists m1, spend m = Some m1 /\ ok m1 t') ->
  vars_ok st /\
  ((exists ns, catches (action st) = true /\ Forall2 holds (<[i := t']> (threads st)) ns /\
      (sum_list ns + Nat.b2n (pending st) + entries st <= 0)%nat) \/
   (catches (action st) = false /\ Forall (ok Restored) (<[i := t']> (threads st)) /\
      (entries st <= 1)%nat)).
Proof.
  intros [Hd' | t0 ts Hv E H0 Hts Ho Ha Hp He | ns Hv Ha HF Hs | Hv Ha HF He] Hd Ht Hown Hok;
    [done | | |].
  - rewrite E in Ht. exfalso. destruct i as [| i]; simplify_eq/=.
    + by destruct (Hok _ H0) as (m1 & Hm & _).
    + rewrite Forall_lookup in Hts. by destruct (Hok _ (Hts _ _ Ht)) as (m1 & Hm & _).
  - split; [done |]. left. destruct (holds_insert _ ns i t t' 0 1 HF Ht) as (ns' & HF' & Hs').
    { intros n (m & Hm & Hn). destruct (Hok _ Hm) as (m1 & Hm1 & Ht').
      destruct m as [| m]; simplify_eq/=. exists (m + Nat.b2n (own_pending t))%nat.
      split; [| lia]. exists m. rewrite Hown. auto. }
    exists ns'. split; [done |]. split; [done | lia].
  - split; [done |]. right. split; [done |]. split; [| done]. apply Forall_insert; [done |].
    rewrite Forall_lookup in HF. destruct (Hok _ (HF _ _ Ht)) as (m1 & Hm & Hm1). by simplify_eq/=.
Qed.

Lemma inv_spawn st t : inv st -> dead st = None -> ok Quiet t -> own_pending t = false ->
  inv (with_threads st (threads st ++ [t])).
Proof.
  intros [Hd' | t0 ts Hv E H0 Hts Ho Ha Hp He | ns Hv Ha HF Hs | Hv Ha HF He] Hd Ht Hown; [done | | |].
  - rewrite E. eapply (inv_idle _ t0 (ts ++ [t])); try done; simpl.
    + by apply Forall_app_2; [| constructor].
    + rewrite app_comm_cons, <-E. by apply Forall_app_2; [| constructor].
  - eapply (inv_armed _ (ns ++ [0%nat])); try done.
    + simpl. apply Forall2_app; [done |]. constructor; [| done]. exists 0%nat.
      rewrite Hown. split; [| done]. eapply ok_le; [apply le_quiet | done].
    + rewrite sum_list_with_app. simpl. lia.
  - apply inv_restored; try done. simpl. apply Forall_app_2; [done |]. constructor; [| done].
    eapply ok_le; [apply le_quiet_restored | done].
Qed.

(** The operations after which a thread stays in its mode. *)
Definition keeps {R} (e : wsE R) : Prop := forall m m', next m e = Some m' -> m' = m.

Lemma keeps_ok st i t {R} (e : wsE R) k r : inv st -> dead st = None ->
  threads st !! i = Some t -> code t = Vis e k -> keeps e -> (forall m, answer m e r) ->
  forall m, ok m t -> ok m (with_code t (k r)).
Proof.
  intros HI Hd Ht Hc Hk Ha m Hm. destruct (ok_step _ _ _ _ Hm Hc) as (m1 & E & H).
  rewrite <-(Hk _ _ E) at 1. by apply H.
Qed.

Lemma inv_keeps st st' i t {R} (e : wsE R) k r : inv st -> dead st = None ->
  threads st !! i = Some t -> code t = Vis e k -> keeps e -> (forall m, answer m e r) ->
  inv st' -> dead st' = None -> threads st' = threads st ->
  inv (with_threads st' (alter (fun t => with_code t (k r)) i (threads st'))).
Proof.
  intros HI Hd Ht Hc Hk Ha HI' Hd' E. rewrite (alter_insert _ _ _ t) by congruence.
  eapply inv_thread; [done | done | by rewrite E | | done]. exact (keeps_ok st i t e k r HI Hd Ht Hc Hk Ha).
Qed.

Lemma alter_comm {A} (f g : A -> A) (l : list A) i j : (forall x, f (g x) = g (f x)) ->
  alter f i (alter g j l) = alter g j (alter f i l).
Proof.
  intros Hfg. revert i j. induction l as [| x l IH]; intros [| i] [| j]; simpl; try done.
  - by rewrite Hfg.
  - f_equal. apply IH.
Qed.

Lemma alter_app_l' {A} (f : A -> A) (l k : list A) i x : l !! i = Some x ->
  alter f i (l ++ k) = alter f i l ++ k.
Proof. revert i. induction l; intros [| i] ?; simplify_eq/=; [done |]. f_equal. auto. Qed.

Lemma alter_None' {A} (f : A -> A) (l : list A) i : l !! i = None -> alter f i l = l.
Proof. revert i. induction l; intros [| i] ?; simplify_eq/=; [done | done |]. f_equal. auto. Qed.

Lemma inv_kill st i t t' : inv st -> dead st = None -> threads st !! i = Some t ->
  own_pending t' = own_pending t ->
  (forall m, ok m t -> exists m1, spend m = Some m1 /\ ok m1 t') ->
  inv (with_threads st (<[i := t']> (threads st))) /\
  inv (with_threads (with_pending st true) (<[i := t']> (threads st))) /\
  (forall j, inv (with_threads st (alter (with_own true) j (<[i := t']> (threads st))))) /\
  (forall u, own_pending u = false -> ok (Raising 1) u -> ok Restored u ->
     inv (with_threads st (<[i := t']> (threads st) ++ [u]))).
Proof.
  intros HI Hd Ht Hown Hok.
  destruct (inv_raise st i t t' HI Hd Ht Hown Hok) as [Hv [(ns & Ha & HF & Hs) | (Ha & HF & He)]].
  - split; [| split; [| split]].
    + eapply inv_armed; try done. simpl. lia.
    + eapply inv_armed; try done. simpl. lia.
    + intros j. destruct (<[i:=t']> (threads st) !! j) as [u |] eqn:Hu.
      * rewrite (alter_insert _ _ _ u) by done.
        destruct (holds_insert _ ns j u (with_own true u) 1 0 HF Hu) as (ns' & HF' & Hs').
        { intros n (k & Hk & Hn). exists (n + 1)%nat. split; [| lia]. exists k.
          split; [done | simpl; lia]. }
        eapply (inv_armed _ ns'); try done. simpl. lia.
      * rewrite alter_None' by done.
        eapply inv_armed; try done. simpl. lia.
    + intros u Hu H1 H2. eapply (inv_armed _ (ns ++ [1%nat])); try done.
      * simpl. apply Forall2_app; [done |]. constructor; [| done]. exists 1%nat. by rewrite Hu.
      * rewrite sum_list_with_app. simpl. lia.
  - split; [| split; [| split]]; [by apply inv_restored .. | |].
    + intros j. apply inv_restored; try done. simpl. by apply Forall_alter.
    + intros u _ _ Hu. apply inv_restored; try done. simpl. apply Forall_app_2; [done |].
      by constructor.
Qed.

(** The state after [sigaction(SIGSEGV, &act, ...)]. *)
Definition acted (st : process) (act : sigact) : process :=
  match sa_handler act with
  | SIG_IGN => with_action (with_pending
      (with_threads st (map (with_own false) (threads st))) false) act
  | _ => with_action st act
  end.

Lemma acted_idle st t ts i u act k : vars_ok st -> threads st = t :: ts -> ok Idle t ->
  Forall (ok Quiet) ts -> Forall (fun t => own_pending t = false) (threads st) ->
  catches (action st) = false -> pending st = false -> entries st = 0%nat ->
  threads st !! i = Some u -> code u = Vis (Sigaction act) k ->
  inv (with_threads (acted st act)
         (alter (fun t => with_code t (k (0, action st))) i (threads (acted st act)))).
Proof.
  intros Hv E H0 Hts Ho Ha Hp He Ht Hc.
  rewrite E in Ht. destruct i as [| i]; simpl in Ht.
  2: { rewrite Forall_lookup in Hts. by destruct (ok_step _ _ _ _ (Hts _ _ Ht) Hc) as (m & Hm & _);
       simpl in Hm; case_match. }
  simplify_eq/=. destruct (ok_step _ _ _ _ H0 Hc) as (m & Hm & Hk). simpl in Hm, Hk.
  specialize (Hk (0, action st) (fun _ => Ha)). unfold acted, catches in *.
  rewrite E in Ho. apply Forall_cons in Ho as [Ho0 Ho].
  destruct (sa_handler act) eqn:Eh; simplify_eq; simpl; rewrite E; simpl.
  - eapply (inv_idle _ _ ts); try done;
      [by constructor | by unfold catches; simpl; rewrite Eh].
  - eapply (inv_idle _ _ (map (with_own false) ts)); [done | done | done | | | | done | done].
    + apply Forall_map. eapply Forall_impl; [exact Hts |]. done.
    + simpl. constructor; [done |]. apply Forall_map. by apply Forall_true.
    + unfold catches. simpl. by rewrite Eh.
  - eapply (inv_armed _ (1%nat :: replicate (length ts) 0%nat));
      [done | by unfold catches; simpl; rewrite Eh | |].
    + simpl. constructor; [exists 1%nat; simpl; split; [done | by rewrite Ho0] |].
      clear -Hts Ho. induction Hts as [| u ts Hu Hts IH]; [constructor |].
      apply Forall_cons in Ho as [Ho0 Ho]. simpl. constructor; [| auto]. exists 0%nat.
      rewrite Ho0. split; [| done]. eapply ok_le; [apply le_quiet | done].
    + simpl. rewrite He, Hp. simpl. clear. induction (length ts); simpl; lia.
Qed.

Lemma holds_restored ts ns : Forall2 holds ts ns -> Forall (ok Restored) ts.
Proof.
  induction 1 as [| t n ts ns (k & Hk & _) _ IH]; [constructor |].
  constructor; [| done]. eapply ok_le; [apply le_restored | done].
Qed.

Lemma acted_restored st i t act k m : vars_ok st -> Forall (ok Restored) (threads st) ->
  (entries st <= 1)%nat -> threads st !! i = Some t -> code t = Vis (Sigaction act) k ->
  m <> Idle -> ok m t ->
  inv (with_threads (acted st act)
         (alter (fun t => with_code t (k (0, action st))) i (threads (acted st act)))).
Proof.
  intros Hv HF He Ht Hc Hm Hok. destruct (ok_step _ _ _ _ Hok Hc) as (m1 & Hm1 & Hk).
  simpl in Hm1. destruct (catches act) eqn:Ha; [by destruct m |].
  assert (m1 = Restored) as -> by (destruct m; simplify_eq; done).
  specialize (Hk (0, action st) ltac:(by intros ->)).
  unfold acted, catches in *. destruct (sa_handler act) eqn:Eh; try done;
    apply inv_restored; simpl; try done; try (by unfold catches; simpl; rewrite Eh);
    apply Forall_alter; try done.
  by apply Forall_map.
Qed.

Lemma inv_sigaction st i t act k : inv st -> dead st = None -> threads st !! i = Some t ->
  code t = Vis (Sigaction act) k ->
  inv (with_threads (acted st act)
         (alter (fun t => with_code t (k (0, action st))) i (threads (acted st act)))).
Proof.
  intros [Hd' | t0 ts Hv E H0 Hts Ho Ha Hp He | ns Hv Ha HF Hs | Hv Ha HF He] Hd Ht Hc; [done | | |].
  - by eapply acted_idle.
  - destruct (Forall2_lookup_l _ _ _ _ _ HF Ht) as (n & _ & m & Hm & _).
    eapply (acted_restored _ _ _ _ _ (Raising m)); try done; [by eapply holds_restored | lia].
  - eapply (acted_restored _ _ _ _ _ Restored); try done.
    by eapply (Forall_lookup_1 (ok Restored)) in Ht.
Qed.

Lemma with_threads_same st : with_threads st (threads st) = st.
Proof. by destruct st. Qed.

Lemma inv_pthread st i t r k x st' : inv st -> dead st = None -> threads st !! i = Some t ->
  code t = Vis (Pthread_create r) k -> syscall st i t (Pthread_create r) x st' ->
  inv (with_threads st' (alter (fun t => with_code t (k x)) i (threads st'))).
Proof.
  intros HI Hd Ht Hc Hs.
  set (new id := {| code := routine_code r; tid := id; masked := masked t; own_pending := false |}).
  assert (exists ts, threads st' = threads st ++ ts /\ st' = with_threads st (threads st ++ ts) /\
    (ts = [] \/ exists id, ts = [new id])) as (ts & E & -> & Hts).
  { destruct Hs as [[_ ->] | (_ & id & ->)]; [exists [] | exists [new id]].
    - rewrite app_nil_r, with_threads_same. auto.
    - split; [done |]. split; [done |]. right. by eexists. }
  simpl. erewrite alter_app_l', alter_insert by done.
  destruct r as [m | ka].
  - assert (inv (with_threads st (<[i := with_code t (k x)]> (threads st)))) as HI'.
    { eapply inv_thread; try done. apply (keeps_ok st i t (Pthread_create (BgThread m)) k x); try done.
      by intros ? ? [= ->]. }
    destruct Hts as [-> | [id ->]]; [by rewrite !app_nil_r |].
    apply (inv_spawn _ (new id) HI' Hd); [| done]. unfold ok, new. simpl code.
    unfold routine_code. eapply tame_bind; [by apply (bg_thread_tame _ _ any) | done].
  - destruct (inv_kill st i t (with_code t (k x)) HI Hd Ht) as (H1 & _ & _ & H2); [done | |].
    { intros m Hm. destruct (ok_step _ _ _ _ Hm Hc) as (m1 & Hm1 & Hk). exists m1. by split; [| apply Hk]. }
    destruct Hts as [-> | [id ->]]; [by rewrite !app_nil_r |].
    apply H2; [done | |]; unfold ok, new; simpl code; unfold routine_code.
    + eapply tame_bind; [by eapply kill_thread_tame | done].
    + eapply tame_bind; [by eapply kill_thread_tame | done].
Qed.

Lemma inv_syscall st i t {R} (e : wsE R) k r st' : inv st -> dead st = None ->
  threads st !! i = Some t -> code t = Vis e k -> syscall st i t e r st' ->
  inv (with_threads st' (alter (fun t => with_code t (k r)) i (threads st'))).
Proof.
  intros HI Hd Ht Hc Hs. pose proof (inv_vars_ok st HI Hd) as [Hv Ho].
  destruct (inv_ok st i t HI Hd Ht) as [m0 Hm0].
  destruct (ok_step _ _ _ _ Hm0 Hc) as (m1 & Hm1 & _).
  assert (keeps e -> (forall m, answer m e r) -> st' = st ->
    inv (with_threads st' (alter (fun t => with_code t (k r)) i (threads st')))) as Hsame.
  { intros Hk Ha ->. by eapply inv_keeps. }
  destruct e; simpl in Hs;
    try (apply Hsame; [by intros ? ? [= ->] | done | by (done || destruct Hs)]).
  - destruct (inv_kill st i t (with_code t (k r)) HI Hd Ht) as (H1 & H2 & _); [done | |].
    { intros m Hm. destruct (ok_step _ _ _ _ Hm Hc) as (m2 & Hm2 & Hk). exists m2. by split; [| apply Hk]. }
    rewrite Hs. case_if; rewrite (alter_insert _ _ i t) by done; [exact H2 | exact H1].
  - destruct (inv_kill st i t (with_code t (k r)) HI Hd Ht) as (H1 & _ & H2 & _); [done | |].
    { intros m Hm. destruct (ok_step _ _ _ _ Hm Hc) as (m2 & Hm2 & Hk). exists m2. by split; [| apply Hk]. }
    destruct Hs as [[-> _] | (_ & _ & j & _ & ->)]; [by rewrite (alter_insert _ _ i t) by done |].
    simpl. rewrite alter_comm by done. rewrite (alter_insert _ _ i t) by done. apply H2.
  - done.
  - apply Hsame; [| done | by destruct Hs]. by intros [] ? [= <-].
  - by eapply inv_pthread.
  - destruct Hs as [-> ->]. by apply (inv_sigaction st i t).
  - subst st'. simpl. rewrite (alter_insert (with_mask was) _ i t) by done.
    erewrite alter_insert; [| apply list_lookup_insert_eq; by eapply lookup_lt_Some].
    rewrite list_insert_insert_eq.
    apply (inv_thread st i t (with_code (with_mask was t) (k r))); try done.
    apply (keeps_ok st i t (Sigreturn was) k r); try done. by intros ? ? [= ->].
  - destruct Hs as [-> ->]. eapply inv_keeps; try done; [by intros ? ? [= ->] |].
    intros m. simpl. by intros ->.
  - simpl in Hm1. case_decide as Hx; [done |]. subst st'.
    eapply inv_keeps; try done; [intros ? ?; simpl; case_decide; congruence |].
    eapply inv_vars; try done. intros _. split; [| done]. simpl.
    case_decide as Hy; [| done]. destruct (decide (v = 0)); [done | by destruct Hx].
  - destruct Hs as [-> ->]. eapply inv_keeps; try done. by intros ? ? [= ->].
  - simpl in Hm1. destruct (catches a) eqn:Ea; [done |]. subst st'.
    eapply inv_keeps; try done; [intros ? ?; simpl; rewrite Ea; congruence |].
    by eapply inv_vars.
Qed.

Lemma inv_child st i t k p : inv st -> dead st = None -> threads st !! i = Some t ->
  code t = Vis Fork k ->
  inv {| pid := p;
         threads := [{| code := k 0; tid := p; masked := masked t; own_pending := false |}];
         action := action st; vars := vars st; old_sa := old_sa st; pending := false;
         entries := entries st; dead := None |}.
Proof.
  intros [Hd' | t0 ts Hv E H0 Hts Ho Ha Hp He | ns Hv Ha HF Hs | Hv Ha HF He] Hd Ht Hc; [done | | |].
  - rewrite E in Ht. destruct i as [| i]; simpl in Ht.
    + simplify_eq. destruct (ok_step _ _ _ _ H0 Hc) as (m & [= <-] & Hk).
      eapply (inv_idle _ _ []); try done; [exact (Hk 0 I) | by constructor].
    + rewrite Forall_lookup in Hts. by destruct (ok_step _ _ _ _ (Hts _ _ Ht) Hc) as (m & Hm & _).
  - destruct (Forall2_lookup_l _ _ _ _ _ HF Ht) as (n & _ & m & Hm & _).
    by destruct (ok_step _ _ _ _ Hm Hc) as (? & ? & _).
  - eapply (Forall_lookup_1 (ok Restored)) in Ht; [| done].
    by destruct (ok_step _ _ _ _ Ht Hc) as (? & ? & _).
Qed.

Lemma step_inv st st' : inv st -> step st st' -> inv st'.
Proof.
  intros HI Hs. pose proof (inv_entries st HI).
  destruct Hs as [i t R e k r st' Hd Ht Hc _ Hsys | i t k p Hd Ht Hc _ | i t k Hd Ht Hc _
    | i t Hd Ht Hi | i t Hd Ht _ Hp | | ]; try by apply inv_die.
  - by eapply inv_syscall.
  - by eapply inv_child.
  - pose proof (inv_fault st i t k HI Hd Ht Hc).
    destruct (masked t); [by apply inv_die |]. destruct (sa_handler _); [by apply inv_die .. | done].
  - unfold interrupts in Hi. apply andb_prop in Hi as [Hi _]. by eapply inv_own.
  - by eapply inv_shared.
Qed.

Lemma start_inv p arg0 args a : "noraise" ∉ args -> catches a = false ->
  inv (start p arg0 args a).
Proof.
  intros Hn Ha. eapply (inv_idle _ _ []); try done; [| by constructor].
  unfold ok. simpl code. eapply tame_bind; [by apply main_tame | done].
Qed.

(** C15. Without [noraise], and unless it inherited the handler, the process enters [segfault_handler] at
    most once, however its threads interleave and wherever the signals are delivered: the
    old action is back before the signal is raised again. *)
Theorem handler_entered_once p arg0 args a st : "noraise" ∉ args -> catches a = false ->
  rtc step (start p arg0 args a) st -> (entries st <= 1)%nat.
Proof.
  intros Hn Ha Hr. apply inv_entries. pose proof (start_inv p arg0 args a Hn Ha) as HI.
  clear -Hr HI. induction Hr as [| st1 st2 st3 Hs _ IH]; [done |]. apply IH. by eapply step_inv.
Qed.

(** ** Executions *)

(** Who moves next. *)
Inductive choice := Go (i : nat) | Fault (i : nat) | Own (i : nat) | Shared (i : nat).

(** One answer of the kernel to each system call: calls succeed, thread ids count up. *)
Definition answered (st : process) (i : nat) (t : thread) {R} (e : wsE R) : option (R * process) :=
  match e in wsE R return option (R * process) with
  | Getpid => Some (pid st, st)
  | Gettid => Some (tid t, st)
  | Kill p sig => Some (0, if (p =? pid st) && (sig =? SIGSEGV) then with_pending st true else st)
  | Tgkill p id sig =>
      match list_find (fun t => tid t = id) (threads st) with
      | Some (j, _) =>
          if (p =? pid st) && (sig =? SIGSEGV)
          then Some (0, with_threads st (alter (with_own true) j (threads st))) else None
      | None => None
      end
  | Pthread_create b => Some (0, with_threads st (threads st ++
      [{| code := routine_code b; tid := tid t + zlen (threads st); masked := masked t;
          own_pending := false |}]))
  | Sigaction act => Some ((0, action st), acted st act)
  | Sigreturn b => Some (tt, with_threads st (alter (with_mask b) i (threads st)))
  | Load x => Some (vars st x, st)
  | Store x v => Some (tt, with_var st x v)
  | LoadOld => Some (old_sa st, st)
  | StoreOld a => Some (tt, with_old st a)
  | NullStore | Fork => None
  | Printf _ _ => Some (tt, st)
  | Fflush => Some (tt, st)
  | Perror _ => Some (tt, st)
  | Unshare _ => Some (0, st)
  | Malloc _ => Some (4096, st)
  | Sigaltstack _ _ _ => Some (0, st)
  | Sleep _ => Some (tt, st)
  end.

Lemma answered_syscall st i t {R} (e : wsE R) r st' :
  answered st i t e = Some (r, st') -> syscall st i t e r st'.
Proof.
  destruct e; simpl; intros E; simplify_eq; try done.
  - destruct (list_find _ _) as [[j u] |] eqn:Ej; [| done].
    apply list_find_Some in Ej as (Ej & <- & _).
    destruct ((pid0 =? pid st) && (sig =? SIGSEGV)) eqn:Ep; [| done]. zbool. simplify_eq.
    right. split; [done |]. split; [done |]. exists j. by rewrite Ej.
  - right. split; [done |]. by eexists.
Qed.

Definition move (st : process) (c : choice) : option process :=
  match dead st with Some _ => None | None =>
  match c with
  | Go i =>
      t ← threads st !! i;
      match code t with
      | Vis e k =>
          if interrupts t then None else
          '(r, st') ← answered st i t e;
          Some (with_threads st' (alter (fun t => with_code t (k r)) i (threads st')))
      | Halt s => Some (die st s)
      | Ret (Some n) => Some (die st (Exited n))
      | Ret None => None
      end
  | Fault i =>
      t ← threads st !! i;
      match code t with
      | Vis NullStore k =>
          if interrupts t then None else
          Some (if masked t then die st (Signaled SIGSEGV)
                else match sa_handler (action st) with
                     | Catch => deliver st i
                     | _ => die st (Signaled SIGSEGV)
                     end)
      | _ => None
      end
  | Own i =>
      t ← threads st !! i;
      if interrupts t then Some (deliver (with_threads st (alter (with_own false) i (threads st))) i)
      else None
  | Shared i =>
      t ← threads st !! i;
      if negb (masked t) && pending st then Some (deliver (with_pending st false) i) else None
  end end.

Lemma move_step st c st' : move st c = Some st' -> step st st'.
Proof.
  unfold move. destruct (dead st) eqn:Hd; [done |].
  destruct c as [i | i | i | i]; destruct (threads st !! i) as [t |] eqn:Ht; simpl; try done.
  - destruct (code t) as [[n |] | s | R e k] eqn:Hc; intros E; simplify_eq.
    + by eapply step_return.
    + by eapply step_exit.
    + destruct (interrupts t) eqn:Hi; [done |].
      destruct (answered st i t e) as [[r st1] |] eqn:Ea; simplify_eq/=.
      eapply step_syscall; try done. by apply answered_syscall.
  - destruct (code t) as [| | R e k] eqn:Hc; try done. destruct e; try done.
    destruct (interrupts t) eqn:Hi; [done |]. intros [= <-]. by eapply step_fault.
  - destruct (interrupts t) eqn:Hi; [| done]. intros [= <-]. by eapply step_own.
  - destruct (negb (masked t) && pending st) eqn:Hp; [| done]. intros [= <-].
    apply andb_prop in Hp as [Hm Hp]. apply negb_true_iff in Hm. by eapply step_shared.
Qed.

Fixpoint moves (st : process) (cs : list choice) : option process :=
  match cs with
  | [] => Some st
  | c :: cs' => st' ← move st c; moves st' cs'
  end.

Lemma moves_steps st cs st' : moves st cs = Some st' -> rtc step st st'.
Proof.
  revert st. induction cs as [| c cs IH]; simpl; intros st E; [by simplify_eq |].
  destruct (move st c) as [st1 |] eqn:Em; [| done]. eapply rtc_l; [by eapply move_step | auto].
Qed.

(** Thread 0 sets up and is hit by [kill] from thread 1; its handler raises again. *)
Definition demo_moves : list choice :=
  replicate 8 (Go 0%nat) ++ replicate 5 (Go 1%nat) ++ [Shared 0%nat] ++ replicate 16 (Go 0%nat) ++ [Shared 1%nat].

Definition demo : option process :=
  moves (start 100 "watchseg" [] {| sa_handler := SIG_DFL; sa_flags := 0 |}) demo_moves.

Lemma signal_demo_steps st : demo = Some st ->
  rtc step (start 100 "watchseg" [] {| sa_handler := SIG_DFL; sa_flags := 0 |}) st.
Proof. unfold demo. apply moves_steps. Qed.

Lemma signal_demo_killed :
  (st ← demo; Some (dead st, entries st)) = Some (Some (Signaled 11), 1%nat).
Proof. vm_compute. reflexivity. Qed.

(** In a container the process is number 1: it survives the same signals, and goes on with the old action. *)
Lemma first_process_survives :
  (st ← moves (start 1 "watchseg" [] {| sa_handler := SIG_DFL; sa_flags := 0 |}) demo_moves;
   Some (dead st, pending st, entries st, sa_handler (action st))) = Some (None, false, 1%nat, SIG_DFL).
Proof. vm_compute. reflexivity. Qed.

Lemma signal_demo_end : exists st,
  rtc step (start 100 "watchseg" [] {| sa_handler := SIG_DFL; sa_flags := 0 |}) st /\
  dead st = Some (Signaled 11) /\ entries st = 1%nat.
Proof.
  pose proof signal_demo_killed as H. destruct demo as [st |] eqn:E; simpl in H; [| done].
  injection H as Hd He. exists st. split; [exact (signal_demo_steps st E) | exact (conj Hd He)].
Qed.

Lemma handler_entered_once_witness : exists st,
  rtc step (start 100 "watchseg" [] {| sa_handler := SIG_DFL; sa_flags := 0 |}) st /\
  dead st = Some (Signaled 11) /\ entries st = 1%nat /\ (entries st <= 1)%nat.
Proof.
  destruct signal_demo_end as (st & Hr & Hd & He).
  exists st. split; [exact Hr |]. split; [exact Hd |]. split; [exact He |].
  apply (handler_entered_once 100 "watchseg" [] {| sa_handler := SIG_DFL; sa_flags := 0 |} st);
    [intros H; inversion H | reflexivity | exact Hr].
Defined.

(** *** Faulting for ever *)

(** [st] with [t] for thread [i]. *)
Definition at_thread (st : process) (i : nat) (t : thread) : process :=
  with_threads st (<[i := t]> (threads st)).

Lemma step_at st i t {R} (e : wsE R) k r : dead st = None -> (i < length (threads st))%nat ->
  code t = Vis e k -> own_pending t = false ->
  (forall st', st' = at_thread st i t -> syscall st' i t e r st') ->
  step (at_thread st i t) (at_thread st i (with_code t (k r))).
Proof.
  intros Hd Hi Hc Ho Hs.
  assert (threads (at_thread st i t) !! i = Some t) as Ht by (by apply list_lookup_insert_eq).
  replace (at_thread st i (with_code t (k r))) with
    (with_threads (at_thread st i t) (alter (fun t => with_code t (k r)) i (threads (at_thread st i t)))).
  - eapply step_syscall; [done | exact Ht | done | by unfold interrupts; rewrite Ho |]. by apply Hs.
  - rewrite (alter_insert _ _ _ _ Ht). unfold at_thread. simpl. by rewrite list_insert_insert_eq.
Qed.

Lemma step_sigreturn st i t b k : dead st = None -> (i < length (threads st))%nat ->
  code t = Vis (Sigreturn b) k -> own_pending t = false ->
  step (at_thread st i t) (at_thread st i (with_code (with_mask b t) (k tt))).
Proof.
  intros Hd Hi Hc Ho.
  assert (threads (at_thread st i t) !! i = Some t) as Ht by (by apply list_lookup_insert_eq).
  set (st1 := with_threads (at_thread st i t) (alter (with_mask b) i (threads (at_thread st i t)))).
  replace (at_thread st i (with_code (with_mask b t) (k tt))) with
    (with_threads st1 (alter (fun t => with_code t (k tt)) i (threads st1))).
  - eapply step_syscall; [done | exact Ht | done | by unfold interrupts; rewrite Ho | done].
  - unfold st1. rewrite (alter_insert _ _ _ _ Ht). unfold at_thread. simpl.
    rewrite list_insert_insert_eq, (alter_insert _ _ _ (with_mask b t))
      by (by apply list_lookup_insert_eq). by rewrite list_insert_insert_eq.
Qed.

(** The next operation of the thread and its answer. *)
Ltac solo e r :=
  eapply rtc_l;
  [eapply (step_at _ _ _ e _ r);
   [done | done | reflexivity | done
   | intros ? ->; simpl; first [done | split; [congruence | done]]] |].

(** One fault of a thread about to store through the null pointer, and the return
    from the handler to the same store. *)
Lemma fault_round st i t k : dead st = None -> (i < length (threads st))%nat ->
  code t = Vis NullStore k -> masked t = false -> own_pending t = false ->
  catches (action st) = true -> vars st skip_reraise = 1 -> vars st pause_in_handler = 0 ->
  rtc step (at_thread st i t) (at_thread (entered st) i t).
Proof.
  intros Hd Hi Hc Hm Ho Ha Hs Hp. unfold catches in Ha.
  assert (threads (at_thread st i t) !! i = Some t) as Ht by (by apply list_lookup_insert_eq).
  eapply rtc_l.
  { eapply (step_fault _ i t); [done | exact Ht | done | by unfold interrupts; rewrite Ho]. }
  rewrite Hm. simpl. unfold deliver. simpl. destruct (sa_handler (action st)); try done.
  rewrite (alter_insert _ _ _ _ Ht). simpl. rewrite list_insert_insert_eq.
  set (st' := entered st).
  change (rtc step (at_thread st' i (enter (action st) t)) (at_thread st' i t)).
  assert (dead st' = None) as Hd' by done.
  assert ((i < length (threads st'))%nat) as Hi' by done.
  assert (vars st' = vars st) as Hvars by done. clearbody st'.
  assert (own_pending (enter (action st) t) = false) as Hu by done.
  solo (Load pause_in_handler) 0. solo Getpid (pid st'). solo Gettid (tid t).
  solo (Printf ("[%d:%d] " ++ "Attempting to complete handler") [AInt (pid st'); AInt (tid t)]) tt.
  solo Fflush tt. solo (Load skip_reraise) 1.
  eapply rtc_l; [eapply (step_sigreturn _ _ _ (masked t)); [done | done | reflexivity | done] |].
  assert (forall u, u = t -> rtc step (at_thread st' i u) (at_thread st' i t)) as Hr
    by (intros ? ->; apply rtc_refl).
  apply Hr. destruct t. simpl in *. by subst.
Qed.

(** With [noraise] a real fault never ends: a thread at the null store, with the handler installed, enters the handler
    any number of times and is back at the same store. *)
Theorem noraise_faults_forever st i t k : dead st = None -> threads st !! i = Some t ->
  code t = Vis NullStore k -> masked t = false -> own_pending t = false ->
  catches (action st) = true -> vars st skip_reraise = 1 -> vars st pause_in_handler = 0 ->
  forall n, exists st', rtc step st st' /\ entries st' = (entries st + n)%nat /\
    threads st' = threads st.
Proof.
  intros Hd Ht Hc Hm Ho Ha Hs Hp n.
  assert (st = at_thread st i t) as E.
  { unfold at_thread. rewrite list_insert_id by done. by rewrite with_threads_same. }
  assert (i < length (threads st))%nat as Hi by (by eapply lookup_lt_Some).
  assert (forall st, dead st = None -> (i < length (threads st))%nat ->
    catches (action st) = true -> vars st skip_reraise = 1 -> vars st pause_in_handler = 0 ->
    forall n, exists st', rtc step (at_thread st i t) st' /\ entries st' = (entries st + n)%nat /\
      threads st' = <[i := t]> (threads st)) as H.
  { clear -Hc Hm Ho. intros st Hd Hi Ha Hs Hp m. revert st Hd Hi Ha Hs Hp.
    induction m as [| m IH]; intros st Hd Hi Ha Hs Hp.
    - exists (at_thread st i t). simpl. split; [done |]. split; [lia | done].
    - destruct (IH (entered st)) as (st' & Hr & He & Et); [done .. |].
      exists st'. split; [| split; [simpl in He; lia | done]].
      etrans; [by eapply fault_round | done]. }
  destruct (H st Hd Hi Ha Hs Hp n) as (st' & Hr & He & Et). exists st'.
  rewrite <-E in Hr. by rewrite list_insert_id in Et.
Qed.

Lemma noraise_faults_forever_witness :
  let t := {| code := Vis NullStore (fun _ => Ret None); tid := 2; masked := false; own_pending := false |} in
  let st := {| pid := 1; threads := [t];
    action := {| sa_handler := Catch; sa_flags := Z.lor SA_NODEFER SA_SIGINFO |};
    vars := fun x => if decide (x = skip_reraise) then 1 else initial x;
    old_sa := {| sa_handler := SIG_DFL; sa_flags := 0 |};
    pending := false; entries := 0; dead := None |} in
  exists st', rtc step st st' /\ entries st' = 1000%nat /\ threads st' = [t].
Proof.
  intros t st.
  apply (noraise_faults_forever st 0%nat t (fun _ => Ret None)); reflexivity.
Defined.
