(* ===== verification/ResUid.v ===== *)
(** * procmap_setresuid: looking at another process under switched user ids

    [src/procmap_setresuid/test.c] over its library and system calls. The credentials
    of the process and the static storage [getpwuid] and [getpwnam] return pointers into are state, and
    a field is read from the storage when the code reads it; what else the environment answers is arbitrary. *)
From stdpp Require Import base gmap sets list strings pretty.
From Stdlib Require Import ZArith Lia.
From S2P Require Import Prelude Prog Sys.

(** [resuid_t] *)
Record resuid_t := { ruid : Z; euid : Z; suid : Z }.

(** The fields of [struct passwd] that are used. *)
Record passwd := { pw_name : string; pw_uid : Z; pw_gid : Z }.

Inductive arg := AInt (z : Z) | AStr (s : string).

Inductive resE : Type -> Type :=
| Getresuid : resE (Z * resuid_t)
| Setresuid (r e s : Z) : resE Z
| Getpwuid (uid : Z) : resE bool                (* whether not NULL; fills its static storage *)
| PwName : resE string                          (* [pw_name] in the storage of [getpwuid], read now *)
| Getgrgid (gid : Z) : resE (option string)     (* [gr_name] *)
| Getpwnam (name : string) : resE bool          (* whether not NULL; fills its static storage *)
| UserName : resE string                        (* the fields of the storage of [getpwnam], read now *)
| UserUid : resE Z
| UserGid : resE Z
| Statx (path : string) : resE (Z * Z * Z)      (* the result, stx_uid and stx_gid *)
| Strerror : resE string                        (* of the current errno *)
| GetErrno : resE Z
| SetErrno (e : Z) : resE unit
| Getpid : resE Z
| Geteuid : resE Z
| Open (path : string) : resE Z
| Close (fd : Z) : resE Z
| Setgid (gid : Z) : resE Z
| Initgroups (user : string) (gid : Z) : resE Z
| Setuid (uid : Z) : resE Z
| Poll (fd ms : Z) : resE Z
| Fork : resE Z
| Usleep (us : Z) : resE Z
| Printf (fmt : string) (args : list arg) : resE unit.

Abbreviation res := (prog resE).

Definition zero_res : resuid_t := {| ruid := 0; euid := 0; suid := 0 |}.

(** The result; [*res] is filled when the call succeeds. *)
Definition getres (old : resuid_t) : res (Z * resuid_t) :=
  r <- trigger Getresuid ;;
  let '(rc, cur) := r in
  Ret (rc, if rc =? 0 then cur else old).

Definition setres (r : resuid_t) : res Z := trigger (Setresuid (ruid r) (euid r) (suid r)).

(** A [char *]: the literal ["???"] or [pw_name] of the static storage. *)
Inductive name := unknown | pw_static.

Definition uid2name (uid : Z) : res name :=
  found <- trigger (Getpwuid uid) ;;
  Ret (if (found : bool) then pw_static else unknown).

(** The characters a pointer points to when it is used. *)
Definition deref (n : name) : res string :=
  match n with
  | unknown => Ret "???"%string
  | pw_static => trigger PwName
  end.

(** The flag and [*old]. *)
Definition resuid_switch (r : resuid_t) (msg : string) : res (bool * resuid_t) :=
  g <- getres zero_res ;;
  let '(rc, old) := g in
  if negb (rc =? 0) then
    stashed_errno <- trigger GetErrno ;;
    pid <- trigger Getpid ;;
    trigger (Printf "(%d) %s [SWITCH] FAIL getting current UIDs" [AInt pid; AStr msg]) ;;
    trigger (SetErrno stashed_errno) ;;
    Ret (false, old)
  else
  rc <- setres r ;;
  if negb (rc =? 0) then
    stashed_errno <- trigger GetErrno ;;
    pid <- trigger Getpid ;;
    trigger (Printf "(%d) %s [SWITCH] FAIL setting new UIDs" [AInt pid; AStr msg]) ;;
    trigger (SetErrno stashed_errno) ;;
    Ret (false, old)
  else
  new_r <- uid2name (ruid r) ;;
  new_e <- uid2name (euid r) ;;
  new_s <- uid2name (suid r) ;;
  old_r <- uid2name (ruid old) ;;
  old_e <- uid2name (euid old) ;;
  old_s <- uid2name (suid old) ;;
  pid <- trigger Getpid ;;
  new_r <- deref new_r ;; new_e <- deref new_e ;; new_s <- deref new_s ;;
  old_r <- deref old_r ;; old_e <- deref old_e ;; old_s <- deref old_s ;;
  trigger (Printf "(%d) %s [SWITCH] PASS (%s/%s/%s) -> (%s/%s/%s)"
    [AInt pid; AStr msg; AStr new_r; AStr new_e; AStr new_s; AStr old_r; AStr old_e; AStr old_s]) ;;
  Ret (true, old).

(** [getpwuid(uid)->pw_name] *)
Definition name_of_uid (uid : Z) : res string :=
  found <- trigger (Getpwuid uid) ;;
  if (found : bool) then trigger PwName else Halt Undefined.

Definition print_res (msg : string) : res unit :=
  g <- getres zero_res ;;
  let '(_, r) := g in
  pid <- trigger Getpid ;;
  a <- name_of_uid (ruid r) ;;
  b <- name_of_uid (ruid r) ;;
  c <- name_of_uid (ruid r) ;;
  trigger (Printf "(%d) %s [CUR UID] %s/%s/%s" [AInt pid; AStr msg; AStr a; AStr b; AStr c]).

(** Declared [bool], but it returns nothing and no caller uses a result. *)
Definition stat_check (path msg : string) : res unit :=
  s <- trigger (Statx path) ;;
  let '(rc, stx_uid, stx_gid) := s in
  pid <- trigger Getpid ;;
  if rc =? 0 then
    user <- name_of_uid stx_uid ;;
    group <- trigger (Getgrgid stx_gid) ;;
    match group with
    | None => Halt Undefined
    | Some group =>
        trigger (Printf "(%d) %s [STAT] PASS (%s) (%s:%s)"
          [AInt pid; AStr msg; AStr path; AStr user; AStr group])
    end
  else
    e <- trigger Strerror ;;
    trigger (Printf "(%d) %s [STAT] FAIL (%s)<%s>" [AInt pid; AStr msg; AStr path; AStr e]).

Definition maps_path (pid : Z) : string := "/proc/" ++ pretty pid ++ "/maps".

(** [user_pwd] points into the storage of [getpwnam], and [username] to the name in it. *)
Definition start_server : res unit :=
  pid <- trigger Getpid ;;
  stat_check (maps_path pid) "[SERVER]" ;;
  uid <- trigger UserUid ;;
  gid <- trigger UserGid ;;
  rc <- trigger (Setgid gid) ;;
  (if negb (rc =? 0)
   then pid <- trigger Getpid ;; e <- trigger Strerror ;;
        trigger (Printf "(%d) [SERVER] FAIL setgid (%s)" [AInt pid; AStr e])
   else Ret tt) ;;
  username <- trigger UserName ;;
  rc <- trigger (Initgroups username gid) ;;
  (if negb (rc =? 0)
   then pid <- trigger Getpid ;;
        group <- trigger (Getgrgid gid) ;;
        match group with
        | None => Halt Undefined
        | Some group =>
            e <- trigger Strerror ;;
            username <- trigger UserName ;;
            trigger (Printf "(%d) [SERVER] FAIL initgroups (%s/%s) (%s)"
              [AInt pid; AStr username; AStr group; AStr e])
        end
   else Ret tt) ;;
  rc <- trigger (Setuid uid) ;;
  (if negb (rc =? 0)
   then pid <- trigger Getpid ;; e <- trigger Strerror ;;
        trigger (Printf "(%d) [SERVER] FAIL setuid (%s)" [AInt pid; AStr e])
   else Ret tt) ;;
  trigger (Poll 0 3000) ;;
  Halt (Exited (-1)).

Definition no_uid : Z := u32 (-1).

(** [user_pwd] is [NULL] or the pointer into the storage of [getpwnam]. *)
Definition inspect_server (user_pwd : bool) (pid : Z) : res bool :=
  let procfs_buf := maps_path pid in
  stat_check procfs_buf "[INSPECT 0]" ;;
  forward <- (if user_pwd
              then r <- trigger UserUid ;;
                   e <- trigger UserUid ;;
                   resuid_switch {| ruid := r; euid := e; suid := no_uid |} "[INSPECT FORWARD]"
              else Ret (true, zero_res)) ;;
  let '(switched, old) := forward in
  if negb (switched : bool) then Ret false
  else
  fd <- trigger (Open procfs_buf) ;;
  ret <- (if -1 =? fd then print_res "  " ;; Ret false
          else stat_check procfs_buf "[INSPECT 1]" ;; print_res "  " ;; Ret true) ;;
  trigger (Close fd) ;;
  back <- (if user_pwd then resuid_switch old "[INSPECT BACK]" else Ret (true, zero_res)) ;;
  let '(switched, _) := back in
  let ret := if (switched : bool) then ret else false in
  stat_check procfs_buf "[INSPECT 2]" ;;
  Ret (ret : bool).

(** [main] on the arguments after the program's name. *)
Definition main (v : list string) : res Z :=
  match v with
  | [] =>
      pid <- trigger Getpid ;;
      trigger (Printf "(%d) [MAIN] Please enter a user" [AInt pid]) ;;
      Ret (-1)
  | user_name :: _ =>
      user_pwd <- trigger (Getpwnam user_name) ;;
      if negb (user_pwd : bool) then
        pid <- trigger Getpid ;;
        trigger (Printf "(%d) [MAIN] Couldn't get user (%s) information." [AInt pid; AStr user_name]) ;;
        Ret (-1)
      else
      e <- trigger Geteuid ;;
      pid <- trigger Getpid ;;
      old_name <- name_of_uid e ;;
      new_name <- trigger UserName ;;
      trigger (Printf "(%d) [MAIN] User <%s> switch to <%s>" [AInt pid; AStr old_name; AStr new_name]) ;;
      self <- trigger Getpid ;;
      stat_check (maps_path self) "[INFO]" ;;
      pid <- trigger Fork ;;
      (if pid =? 0 then start_server else Ret tt) ;;
      trigger (Usleep 1000000) ;;
      inspect_server false pid ;;
      inspect_server true pid ;;
      Ret 0
  end.

(** ** Credentials, names and output *)

(** [pwd_static] and [user_static] are the storage of [getpwuid] and of [getpwnam]. *)
Record world := {
  creds : resuid_t; pwd_static : passwd; user_static : passwd; printed : list (string * list arg) }.

Definition with_creds (w : world) (c : resuid_t) : world :=
  {| creds := c; pwd_static := pwd_static w; user_static := user_static w; printed := printed w |}.
Definition with_line (w : world) (fmt : string) (args : list arg) : world :=
  {| creds := creds w; pwd_static := pwd_static w; user_static := user_static w;
     printed := printed w ++ [(fmt, args)] |}.

(** [setresuid]: an argument of -1 leaves that id alone. *)
Definition choose (new old : Z) : Z := if new =? no_uid then old else new.
Definition switched (c r : resuid_t) : resuid_t :=
  {| ruid := choose (ruid r) (ruid c); euid := choose (euid r) (euid c);
     suid := choose (suid r) (suid c) |}.

Section World.
(** The user and group databases; what a lookup that finds nothing leaves in the storage; whether the two functions share
    their storage, as their documentation permits. *)
Context (users : Z -> option passwd) (by_name : string -> option passwd) (groups : Z -> option string).
Context (leftover : passwd -> passwd) (shared : bool).
(** The kernel's permissions: which switches, which files, which attributes. *)
Context (may : resuid_t -> resuid_t -> bool).
Context (opens : resuid_t -> string -> Z) (stats : resuid_t -> string -> Z * Z * Z).
Context (other : forall R, resE R -> R).

(** The storage of [getpwuid] after a lookup. *)
Definition looked_up (uid : Z) (old : passwd) : passwd := default (leftover old) (users uid).

Definition getpwuid (uid : Z) (w : world) : world :=
  let p := looked_up uid (pwd_static w) in
  {| creds := creds w; pwd_static := p; user_static := if shared then p else user_static w; printed := printed w |}.

Definition getpwnam (name : string) (w : world) : world :=
  let p := default (leftover (user_static w)) (by_name name) in
  {| creds := creds w; pwd_static := if shared then p else pwd_static w; user_static := p; printed := printed w |}.

Definition is_some {A} (o : option A) : bool := match o with Some _ => true | None => false end.

Definition os : handler resE world := fun R e =>
  match e in resE R return world -> outcome world R with
  | Getresuid => fun w => Done (0, creds w) w
  | Setresuid r e s => fun w =>
      let new := {| ruid := r; euid := e; suid := s |} in
      if may (creds w) new then Done 0 (with_creds w (switched (creds w) new)) else Done (-1) w
  | Getpwuid uid => fun w => Done (is_some (users uid)) (getpwuid uid w)
  | PwName => fun w => Done (pw_name (pwd_static w)) w
  | Getpwnam n => fun w => Done (is_some (by_name n)) (getpwnam n w)
  | UserName => fun w => Done (pw_name (user_static w)) w
  | UserUid => fun w => Done (pw_uid (user_static w)) w
  | UserGid => fun w => Done (pw_gid (user_static w)) w
  | Getgrgid gid => fun w => Done (groups gid) w
  | Statx path => fun w => Done (stats (creds w) path) w
  | Open path => fun w => Done (opens (creds w) path) w
  | Printf fmt args => fun w => Done tt (with_line w fmt args)
  | e => fun w => Done (other _ e) w
  end.

(** [getpwuid(uid)->pw_name] with an id no user has, or [getgrgid(gid)->gr_name] with an id no group has, reads
    through a null pointer. *)
Definition stat_faults (c : resuid_t) (path : string) : bool :=
  let '(rc, uid, gid) := stats c path in (rc =? 0) && negb (is_some (users uid) && is_some (groups gid)).

(** The entry [user_pwd] points to after [stat_check]. *)
Definition user_after_stat (w : world) (path : string) : passwd :=
  let '(rc, uid, _) := stats (creds w) path in
  if shared && (rc =? 0) then looked_up uid (pwd_static w) else user_static w.

(** What a part of the program does: it returns and leaves the credentials as [Q] says, or it reads through a null pointer. *)
Definition ends {A} (p : res A) (w : world) (fault : bool) (Q : A -> world -> Prop) : Prop :=
  if fault then exists w', run os p w = Stopped Undefined w' else returns (run os p w) Q.

Lemma ends_bind {A B} (p : res A) (f : A -> res B) w b fault P Q :
  ends p w b P -> (b = true -> fault = true) ->
  (forall a w', b = false -> P a w' -> ends (f a) w' fault Q) -> ends (bind p f) w fault Q.
Proof.
  unfold ends. intros Hp Hb Hf. rewrite run_bind. destruct b.
  - rewrite Hb by done. destruct Hp as [w' ->]. by exists w'.
  - destruct (run os p w) as [a w' | s w']; [| done]. by apply Hf.
Qed.

Lemma name_of_uid_ends uid w : ends (name_of_uid uid) w (negb (is_some (users uid)))
  (fun _ w' => w' = getpwuid uid w).
Proof. unfold ends, name_of_uid. cbn. destruct (users uid); cbn; [done | by eexists]. Qed.

Lemma stat_check_ends path msg w : ends (stat_check path msg) w (stat_faults (creds w) path)
  (fun _ w' => creds w' = creds w /\ user_static w' = user_after_stat w path).
Proof.
  unfold ends, stat_check, stat_faults, user_after_stat. cbn.
  destruct (stats (creds w) path) as [[rc u] g]. cbn. destruct (rc =? 0); cbn; [| by destruct shared].
  destruct (users u) eqn:Eu; cbn; [| by eexists]. destruct (groups g); cbn; [by destruct shared | by eexists].
Qed.

Lemma print_res_ends msg w : ends (print_res msg) w (negb (is_some (users (ruid (creds w)))))
  (fun _ w' => creds w' = creds w).
Proof.
  unfold ends, print_res. cbn. destruct (users (ruid (creds w))) eqn:E; cbn; [| by eexists]. rewrite E; cbn. by rewrite E.
Qed.

Lemma resuid_switch_ends r msg w : ends (resuid_switch r msg) w false (fun b w' =>
  b = (may (creds w) r, creds w) /\ creds w' = if may (creds w) r then switched (creds w) r else creds w).
Proof.
  unfold ends, resuid_switch. cbn. destruct r as [r1 r2 r3]. cbn. destruct (may (creds w) _); cbn; [| done].
  repeat (case_match; cbn); done.
Qed.

Definition valid_res (c : resuid_t) : Prop :=
  ruid c <> no_uid /\ euid c <> no_uid /\ suid c <> no_uid.

Lemma switched_back c c' : valid_res c -> switched c' c = c.
Proof.
  intros (H1 & H2 & H3). unfold switched, choose.
  rewrite !(proj2 (Z.eqb_neq _ _)) by done. by destruct c.
Qed.

(** The result and the credentials [inspect_server] leaves; [None]: it reads through a null pointer. *)
Definition inspection (user : bool) (pid : Z) (w : world) : option (bool * resuid_t) :=
  let path := maps_path pid in
  let c := creds w in
  let uid := pw_uid (user_after_stat w path) in
  let as_user := {| ruid := uid; euid := uid; suid := no_uid |} in
  let c' := if user then switched c as_user else c in
  let opened := negb (opens c' path =? -1) in
  if stat_faults c path then None
  else if user && negb (may c as_user) then Some (false, c)
  else if opened && stat_faults c' path || negb (is_some (users (ruid c'))) then None
  else if user && negb (may c' c) then if stat_faults c' path then None else Some (false, c')
  else Some (opened, c).

(** What it does under the new ids, from the open to the close. *)
Lemma under_new_ids path w (k : bool -> res bool) fault Q :
  let opened := negb (opens (creds w) path =? -1) in
  (opened && stat_faults (creds w) path || negb (is_some (users (ruid (creds w)))) = true -> fault = true) ->
  (opened && stat_faults (creds w) path || negb (is_some (users (ruid (creds w)))) = false ->
    forall w', creds w' = creds w -> ends (k opened) w' fault Q) ->
  ends (fd <- trigger (Open path) ;;
    ret <- (if -1 =? fd then print_res "  " ;; Ret false
            else stat_check path "[INSPECT 1]" ;; print_res "  " ;; Ret true) ;;
    trigger (Close fd) ;; k ret) w fault Q.
Proof.
  intros opened Hbad Hgood.
  apply (ends_bind _ _ _ false _ (fun fd w' => w' = w /\ fd = opens (creds w) path)); [done | done |].
  intros fd ? _ [-> ->]. subst opened. rewrite Z.eqb_sym. destruct (opens _ _ =? -1); cbn [negb andb orb] in *.
  - eapply (ends_bind _ _ _ _ _ (fun r w' => r = false /\ creds w' = creds w)); cycle 1; [exact Hbad | |].
    + intros ret w' Hok [-> E]. apply (ends_bind _ _ _ false _ (fun _ w'' => w'' = w')); [done | done |].
      intros _ ? _ ->. by apply Hgood.
    + apply (ends_bind _ _ _ _ _ _ _ (print_res_ends "  " w)); [done |]. by intros _ w' -> E.
  - eapply (ends_bind _ _ _ _ _ (fun r w' => r = true /\ creds w' = creds w)); cycle 1; [exact Hbad | |].
    + intros ret w' Hok [-> E]. apply (ends_bind _ _ _ false _ (fun _ w'' => w'' = w')); [done | done |].
      intros _ ? _ ->. by apply Hgood.
    + apply (ends_bind _ _ _ _ _ _ _ (stat_check_ends path "[INSPECT 1]" w)); [by intros -> |].
      intros _ w1 -> [E1 _]. cbn [orb]. rewrite <-E1.
      apply (ends_bind _ _ _ _ _ _ _ (print_res_ends "  " w1)); [done |]. by intros _ w2 -> E2.
Qed.

(** C21. Whatever the databases of users and groups hold, the outcome of [inspect_server] is that of [inspection]: the first look at the file,
    whose owner's entry may replace the user's where the two lookups share their storage; the switch, which if refused ends the
    function with false and the credentials as they were; the open, with the report under the new ids; the switch back, which
    if refused leaves the credentials switched and gives false; otherwise the credentials are restored and the result says
    whether the file could be opened. Where the owner, his group or the user in force has no entry, a null
    pointer is read. *)
Theorem inspect_server_spec user pid w : valid_res (creds w) ->
  match inspection user pid w with
  | Some r => returns (run os (inspect_server user pid) w) (fun b w' => (b, creds w') = r)
  | None => exists w', run os (inspect_server user pid) w = Stopped Undefined w'
  end.
Proof.
  intros Hc. enough (ends (inspect_server user pid) w (negb (is_some (inspection user pid w)))
    (fun b w' => inspection user pid w = Some (b, creds w'))) as H.
  { unfold ends in H. destruct (inspection user pid w) as [r |]; cbn [is_some negb] in H; [| done].
    eapply returns_mono; [exact H |]. intros b w' E. by injection E. }
  unfold inspect_server. set (path := maps_path pid) in *. set (i := inspection user pid w).
  assert (inspection user pid w = i) as Hi by done. clearbody i. unfold inspection in Hi. fold path in Hi. cbn zeta in Hi.
  apply (ends_bind _ _ _ _ _ _ _ (stat_check_ends path "[INSPECT 0]" w)); [intros E; by rewrite E in Hi; subst |].
  intros _ w1 E [Hc1 Hu1]. rewrite E in Hi. rewrite <-Hu1, <-Hc1 in Hi. rewrite <-Hc1 in Hc, E. clear Hu1.
  set (uid := pw_uid (user_static w1)) in *. set (as_user := {| ruid := uid; euid := uid; suid := no_uid |}) in *.
  apply (ends_bind _ _ _ false _ (fun b w2 => b = (if user then may (creds w1) as_user else true, if user then creds w1 else zero_res) /\
    creds w2 = if user && may (creds w1) as_user then switched (creds w1) as_user else creds w1)); [| done |].
  { destruct user; [| done]. exact (resuid_switch_ends as_user "[INSPECT FORWARD]" w1). }
  intros [ok old] w2 _ [[= -> ->] Hc2].
  destruct user; cbn [andb] in *.
  - destruct (may (creds w1) as_user); cbn [negb] in *; [| by rewrite <-Hi, <-Hc2].
    rewrite <-Hc2 in Hi. apply under_new_ids; [intros Eb; by rewrite Eb in Hi; subst |].
    intros Eg w3 Hc3. rewrite Eg in Hi.
    apply (ends_bind _ _ _ false _ _ _ (resuid_switch_ends (creds w1) "[INSPECT BACK]" w3)); [done |].
    intros [back old'] w4 _ [[= -> ->] Hc4]. rewrite Hc3 in *. rewrite (switched_back _ _ Hc) in Hc4.
    destruct (may (creds w2) (creds w1)); cbn [negb] in Hi.
    + apply (ends_bind _ _ _ _ _ _ _ (stat_check_ends path "[INSPECT 2]" w4)); [by rewrite Hc4, E |].
      intros _ w5 _ [Hc5 _]. rewrite <-Hi. unfold ends. cbn. by rewrite Hc5, Hc4.
    + apply (ends_bind _ _ _ _ _ _ _ (stat_check_ends path "[INSPECT 2]" w4));
        [rewrite Hc4; intros Eb; by rewrite Eb in Hi; subst |].
      intros _ w5 Eb [Hc5 _]. rewrite Hc4 in Eb. rewrite Eb in Hi. rewrite <-Hi. unfold ends. cbn. by rewrite Hc5, Hc4.
  - rewrite <-Hc2 in Hi. apply under_new_ids; [intros Eb; by rewrite Eb in Hi; subst |].
    intros Eg w3 Hc3. rewrite Eg in Hi. cbn [andb] in Hi.
    apply (ends_bind _ _ _ false _ (fun b w4 => b.1 = true /\ w4 = w3)); [done | done |].
    intros [back old'] ? _ [E2 ->]. cbn in E2. subst back.
    apply (ends_bind _ _ _ _ _ _ _ (stat_check_ends path "[INSPECT 2]" w3)); [by rewrite Hc3, Hc2, E |].
    intros _ w5 _ [Hc5 _]. rewrite <-Hi. unfold ends. cbn. by rewrite Hc5, Hc3.
Qed.

(** The storage after looking up several ids. *)
Definition storage (uids : list Z) (p : passwd) : passwd := foldl (fun p uid => looked_up uid p) p uids.

(** A successful switch prints, for each id that has a user, the name that the last of its six lookups left in the storage, since every
    such name is a pointer into it, and "???" for the others. *)
Theorem switch_prints_one_name r msg w : may (creds w) r = true ->
  let c := creds w in
  let uids := [ruid r; euid r; suid r; ruid c; euid c; suid c] in
  let last := pw_name (storage uids (pwd_static w)) in
  returns (run os (resuid_switch r msg) w) (fun b w' =>
    b = (true, c) /\
    printed w' = printed w ++
      [("(%d) %s [SWITCH] PASS (%s/%s/%s) -> (%s/%s/%s)"%string,
        AInt (other Z Getpid) :: AStr msg ::
        ((fun uid => AStr (if is_some (users uid) then last else "???")) <$> uids))]).
Proof.
  intros Hm. unfold resuid_switch. cbn. destruct r as [r1 r2 r3]. cbn in *. rewrite Hm. cbn.
  unfold getpwuid. cbn.
  destruct (is_some (users r1)), (is_some (users r2)), (is_some (users r3)), (is_some (users (ruid (creds w)))),
    (is_some (users (euid (creds w)))), (is_some (users (suid (creds w)))); done.
Qed.
End World.

(** A machine with two users on which root may switch at will and only the owner may open; -1 has no name. *)
Definition demo_users (uid : Z) : option passwd :=
  if uid =? 0 then Some {| pw_name := "root"; pw_uid := 0; pw_gid := 0 |}
  else if uid =? 1000 then Some {| pw_name := "user"; pw_uid := 1000; pw_gid := 1000 |} else None.
Definition demo_groups (gid : Z) : option string := if gid =? 1000 then Some "users"%string else None.
Definition demo_may (c r : resuid_t) : bool := (ruid c =? 0) || (euid c =? 0) || (suid c =? 0).
(** One on which the way back is refused. *)
Definition strict_may (c r : resuid_t) : bool := euid c =? 0.
Definition demo_opens (c : resuid_t) (path : string) : Z := if euid c =? 1000 then 3 else -1.
Definition demo_stats (owner : Z) (c : resuid_t) (path : string) : Z * Z * Z := (0, owner, 1000).
Definition demo_other R (e : resE R) : R :=
  match e in resE R return R with
  | Getresuid => (0, zero_res)
  | Statx _ => (0, 0, 0)
  | Getpwuid _ | Getpwnam _ => true
  | PwName | UserName | Strerror => ""%string
  | Getgrgid _ => None
  | SetErrno _ | Printf _ _ => tt
  | _ => 0
  end.
Definition demo_user : passwd := {| pw_name := "user"; pw_uid := 1000; pw_gid := 1000 |}.
Definition demo_state : world :=
  {| creds := zero_res; pwd_static := demo_user; user_static := demo_user; printed := [] |}.
Definition demo_os (may : resuid_t -> resuid_t -> bool) (owner : Z) (shared : bool) : handler resE world :=
  os demo_users (fun _ => Some demo_user) demo_groups (fun p => p) shared may demo_opens (demo_stats owner) demo_other.
Definition user_ids : resuid_t := {| ruid := 1000; euid := 1000; suid := 0 |}.

(** Evaluates the expected outcome. *)
Ltac expected H := match type of H with match ?i with _ => _ end =>
  let v := eval vm_compute in i in replace i with v in H by (vm_compute; reflexivity); exact H end.

(** Both switches granted; the way back refused; a file of root where the storage is shared, so that the program switches to root
    and cannot open it; an owner without a name. *)
Lemma inspect_server_spec_witness :
  returns (run (demo_os demo_may 1000 false) (inspect_server true 42) demo_state)
    (fun b w' => (b, creds w') = (true, zero_res)) /\
  returns (run (demo_os strict_may 1000 false) (inspect_server true 42) demo_state)
    (fun b w' => (b, creds w') = (false, user_ids)) /\
  returns (run (demo_os demo_may 0 true) (inspect_server true 42) demo_state)
    (fun b w' => (b, creds w') = (false, zero_res)) /\
  exists w', run (demo_os demo_may 77 false) (inspect_server true 42) demo_state = Stopped Undefined w'.
Proof.
  assert (valid_res (creds demo_state)) as Hv by (split; [| split]; vm_compute; discriminate).
  split; [| split; [| split]]; unfold demo_os.
  - pose proof (inspect_server_spec demo_users (fun _ => Some demo_user) demo_groups (fun p => p) false demo_may demo_opens
      (demo_stats 1000) demo_other true 42 demo_state Hv) as H. expected H.
  - pose proof (inspect_server_spec demo_users (fun _ => Some demo_user) demo_groups (fun p => p) false strict_may demo_opens
      (demo_stats 1000) demo_other true 42 demo_state Hv) as H. expected H.
  - pose proof (inspect_server_spec demo_users (fun _ => Some demo_user) demo_groups (fun p => p) true demo_may demo_opens
      (demo_stats 0) demo_other true 42 demo_state Hv) as H. expected H.
  - pose proof (inspect_server_spec demo_users (fun _ => Some demo_user) demo_groups (fun p => p) false demo_may demo_opens
      (demo_stats 77) demo_other true 42 demo_state Hv) as H. expected H.
Defined.

Lemma switch_prints_one_name_witness :
  returns (run (demo_os demo_may 1000 false)
    (resuid_switch {| ruid := 1000; euid := 1000; suid := no_uid |} "[INSPECT FORWARD]") demo_state) (fun b w' =>
    b = (true, zero_res) /\
    printed w' =
      [("(%d) %s [SWITCH] PASS (%s/%s/%s) -> (%s/%s/%s)"%string,
        [AInt 0; AStr "[INSPECT FORWARD]"; AStr "root"; AStr "root"; AStr "???"; AStr "root";
         AStr "root"; AStr "root"])]).
Proof.
  exact (switch_prints_one_name demo_users (fun _ => Some demo_user) demo_groups (fun p => p) false demo_may demo_opens (demo_stats 1000) demo_other
    {| ruid := 1000; euid := 1000; suid := no_uid |} "[INSPECT FORWARD]" demo_state eq_refl).
Defined.
