(* ===== verification/Text.v ===== *)
(** * Text of the log tests: decimal numbers, lines, C strings in buffers

    What the test programs of [src/fastlog/eg] use of the C library's formatted input and
    output, on bytes. *)
From stdpp Require Import base gmap sets list strings.
From Stdlib Require Import ZArith Lia.
From S2P Require Import Prelude.

(** ** Decimal numbers *)

Definition digit (b : Z) : bool := (48 <=? b) && (b <=? 57).

Fixpoint dec_fuel (fuel : nat) (n : Z) : list Z :=
  match fuel with
  | O => [48 + n mod 10]
  | S f => if n <? 10 then [48 + n] else dec_fuel f (n / 10) ++ [48 + n mod 10]
  end.

(** [%d] and [%lu]. *)
Definition dec (n : Z) : list Z :=
  if n <? 0 then 45 :: dec_fuel (Z.to_nat (Z.log2 (- n))) (- n)
  else dec_fuel (Z.to_nat (Z.log2 n)) n.

(** Digits at the front: how many, the value, the rest. *)
Fixpoint scan_digits (s : list Z) (acc : Z) (n : nat) : nat * Z * list Z :=
  match s with
  | b :: s' => if digit b then scan_digits s' (acc * 10 + (b - 48)) (S n) else (n, acc, s)
  | [] => (n, acc, s)
  end.

Definition space (b : Z) : bool := (b =? 32) || ((9 <=? b) && (b <=? 13)).

Fixpoint skip_space (s : list Z) : list Z :=
  match s with
  | b :: s' => if space b then skip_space s' else s
  | [] => []
  end.

(** [%d] of [sscanf]: a [long] that saturates, stored in an [int]. *)
Definition scan_int (s : list Z) : option (Z * list Z) :=
  let s := skip_space s in
  let '(neg, s) := match s with
                   | b :: s' => if b =? 45 then (true, s') else if b =? 43 then (false, s')
                                else (false, s)
                   | [] => (false, s)
                   end in
  let '(n, v, rest) := scan_digits s 0 0 in
  match n with
  | O => None
  | _ => let v := if neg then Z.max (- v) (- 2 ^ 63) else Z.min v (2 ^ 63 - 1) in
         Some (i32 v, rest)
  end.

Definition value (acc : Z) (ds : list Z) : Z := fold_left (fun a b => a * 10 + (b - 48)) ds acc.

Lemma scan_digits_app ds rest acc k : Forall (fun b => digit b = true) ds ->
  scan_digits (ds ++ rest) acc k = scan_digits rest (value acc ds) (k + length ds).
Proof.
  intros H. revert acc k. induction H as [| b ds Hb _ IH]; intros acc k; simpl; [f_equal; lia |].
  rewrite Hb, IH. f_equal. lia.
Qed.

Lemma scan_digits_end rest acc k : (forall b r, rest = b :: r -> digit b = false) ->
  scan_digits rest acc k = (k, acc, rest).
Proof. destruct rest as [| b r]; intros Hr; simpl; [done | by rewrite (Hr b r)]. Qed.

Lemma digit_of d : 0 <= d < 10 -> digit (48 + d) = true.
Proof. intros Hd. unfold digit. by rewrite (proj2 (Z.leb_le _ _)), (proj2 (Z.leb_le _ _)) by lia. Qed.

Lemma dec_fuel_spec f n : 0 <= n < 2 ^ (Z.of_nat f + 1) ->
  Forall (fun b => digit b = true) (dec_fuel f n) /\ value 0 (dec_fuel f n) = n /\
  dec_fuel f n <> [] /\ zlen (dec_fuel f n) <= Z.of_nat f + 1.
Proof.
  revert n. induction f as [| f IH]; intros n Hn; simpl dec_fuel.
  - simpl in Hn. rewrite Z.mod_small by lia. split; [| split; [| split]]; [| | done | done].
    + constructor; [apply digit_of; lia | done].
    + unfold value. simpl. lia.
  - rewrite Nat2Z.inj_succ in *. destruct (n <? 10) eqn:Hlt; zbool.
    + split; [constructor; [apply digit_of; lia | done] |]. unfold value. simpl.
      split; [lia | split; [done |]]. unfold zlen. simpl. lia.
    + destruct (IH (n / 10)) as (HF & Hv & Hne & Hl).
      { split; [apply Z.div_pos; lia |]. apply Z.div_lt_upper_bound; [lia |].
        replace (Z.succ (Z.of_nat f) + 1) with (Z.succ (Z.of_nat f + 1)) in Hn by lia.
        rewrite Z.pow_succ_r in Hn by lia. lia. }
      pose proof (Z.mod_pos_bound n 10 ltac:(lia)). split; [| split; [| split]].
      * apply Forall_app_2; [done |]. constructor; [by apply digit_of | done].
      * unfold value in *. rewrite fold_left_app, Hv. simpl. pose proof (Z.div_mod n 10). lia.
      * by destruct (dec_fuel f (n / 10)).
      * rewrite zlen_app. unfold zlen in *. simpl. lia.
Qed.

Lemma dec_spec n : 0 <= n ->
  Forall (fun b => digit b = true) (dec n) /\ value 0 (dec n) = n /\ dec n <> [] /\
  zlen (dec n) <= Z.log2 n + 1.
Proof.
  intros Hn. unfold dec. rewrite (proj2 (Z.ltb_ge _ _)) by done.
  pose proof (Z.log2_nonneg n).
  destruct (dec_fuel_spec (Z.to_nat (Z.log2 n)) n) as (HF & Hv & Hne & Hl).
  - split; [done |]. rewrite Z2Nat.id by done. destruct (decide (n = 0)) as [-> | Hne]; [done |].
    apply Z.log2_spec; lia.
  - rewrite Z2Nat.id in Hl by done. done.
Qed.

Lemma dec_fuel_length f n (d : nat) : 0 <= n < 10 ^ Z.of_nat (S d) ->
  zlen (dec_fuel f n) <= Z.of_nat (S d).
Proof.
  revert n d. induction f as [| f IH]; intros n d Hn; [unfold zlen; simpl; lia |]. cbn [dec_fuel].
  destruct (n <? 10) eqn:E; zbool; [unfold zlen; simpl; lia |]. destruct d as [| d]; [simpl in Hn; lia |].
  rewrite zlen_app. specialize (IH (n / 10) d). rewrite Nat2Z.inj_succ, Z.pow_succ_r in Hn by lia.
  assert (0 <= n / 10 < 10 ^ Z.of_nat (S d)) as Hq.
  { split; [apply Z.div_pos; lia | apply Z.div_lt_upper_bound; lia]. }
  specialize (IH Hq). unfold zlen in *. simpl length in *. lia.
Qed.

(** At most as many characters as a power of ten above the number has zeros. *)
Lemma dec_length n (d : nat) : 0 <= n < 10 ^ Z.of_nat (S d) -> zlen (dec n) <= Z.of_nat (S d).
Proof. intros Hn. unfold dec. rewrite (proj2 (Z.ltb_ge _ _)) by lia. by apply dec_fuel_length. Qed.

Lemma digit_not_space b : digit b = true -> space b = false /\ (b =? 45) = false /\ (b =? 43) = false.
Proof. unfold digit, space. intros H. zbool. split; [| split]; zbool; lia. Qed.

(** What [%d] prints is what [%d] reads. *)
Lemma scan_dec n rest : 0 <= n < 2 ^ 31 -> (forall b r, rest = b :: r -> digit b = false) ->
  scan_int (dec n ++ rest) = Some (n, rest).
Proof.
  intros Hn Hr. destruct (dec_spec n) as (HF & Hv & Hne & _); [lia |].
  destruct (dec n) as [| b ds] eqn:E; [done |].
  pose proof (Forall_inv HF) as Hb. simpl in Hb.
  destruct (digit_not_space b Hb) as (H1 & H2 & H3). unfold scan_int. simpl app. cbn [skip_space].
  rewrite H1, H2, H3. change (b :: ds ++ rest) with ((b :: ds) ++ rest).
  rewrite scan_digits_app, scan_digits_end, Hv by done. simpl.
  rewrite Z.min_l by lia. unfold swrap. f_equal. f_equal.
  rewrite Z.mod_small by lia. lia.
Qed.

(** [atoi]: 0 where there is no number. *)
Definition atoi (s : list Z) : Z := match scan_int s with Some (v, _) => v | None => 0 end.

(** ** Hexadecimal numbers *)

Definition hexval (b : Z) : option Z :=
  if (48 <=? b) && (b <=? 57) then Some (b - 48)
  else if (65 <=? b) && (b <=? 70) then Some (b - 55)
  else if (97 <=? b) && (b <=? 102) then Some (b - 87)
  else None.

Fixpoint hex_digits (s : list Z) (acc : Z) (n : nat) : nat * Z * list Z :=
  match s with
  | b :: s' => match hexval b with
               | Some v => hex_digits s' (acc * 16 + v) (S n)
               | None => (n, acc, s)
               end
  | [] => (n, acc, s)
  end.

Definition value16 (ds : list Z) : Z := fold_left (fun a b => a * 16 + default 0 (hexval b)) ds 0.

Lemma hexval_some b : hexval b <> None ->
  space b = false /\ (b =? 45) = false /\ (b =? 43) = false /\ (b =? 120) = false /\ (b =? 88) = false /\
  (b =? 0) = false /\ (b =? 32) = false /\ (b =? 10) = false.
Proof.
  unfold hexval, space. intros H.
  assert (48 <= b <= 57 \/ 65 <= b <= 70 \/ 97 <= b <= 102) as Hb.
  { destruct ((48 <=? b) && (b <=? 57)) eqn:E1; [zbool; lia |].
    destruct ((65 <=? b) && (b <=? 70)) eqn:E2; [zbool; lia |].
    destruct ((97 <=? b) && (b <=? 102)) eqn:E3; [zbool; lia | done]. }
  repeat split; try (apply Z.eqb_neq; lia). apply orb_false_intro; [apply Z.eqb_neq; lia |].
  apply andb_false_iff. right. apply Z.leb_gt. lia.
Qed.

Lemma hex_digits_app ds rest acc n : Forall (fun b => hexval b <> None) ds ->
  (forall b r, rest = b :: r -> hexval b = None) ->
  hex_digits (ds ++ rest) acc n = ((n + length ds)%nat, fold_left (fun a b => a * 16 + default 0 (hexval b)) ds acc, rest).
Proof.
  intros Hd Hr. revert acc n. induction Hd as [| b ds Hb _ IH]; intros acc n; cbn [app fold_left length].
  - rewrite Nat.add_0_r. destruct rest as [| b r]; cbn; [done |]. by rewrite (Hr b r).
  - cbn [hex_digits]. destruct (hexval b) as [v |]; [| done]. cbn [default]. rewrite IH. f_equal. f_equal. lia.
Qed.

Lemma value16_nonneg ds : 0 <= value16 ds.
Proof.
  unfold value16. assert (forall acc, 0 <= acc -> 0 <= fold_left (fun a b => a * 16 + default 0 (hexval b)) ds acc) as H; [| by apply H].
  induction ds as [| b ds IH]; intros acc Ha; cbn; [done |]. apply IH.
  assert (0 <= default 0 (hexval b)); [| lia]. unfold hexval. repeat case_if; cbn; lia.
Qed.

Definition hex_char (d : Z) : Z := if d <? 10 then 48 + d else 87 + d.

Fixpoint hex_fuel (fuel : nat) (n : Z) : list Z :=
  match fuel with
  | O => [hex_char (n mod 16)]
  | S f => if n <? 16 then [hex_char n] else hex_fuel f (n / 16) ++ [hex_char (n mod 16)]
  end.

(** [%x] of a number that is not negative. *)
Definition hex (n : Z) : list Z := hex_fuel (Z.to_nat (Z.log2 n / 4)) n.

(** [%p]. *)
Definition pointer (p : Z) : list Z := if p =? 0 then [40; 110; 105; 108; 41] else 48 :: 120 :: hex p.

Fixpoint octal_digits (s : list Z) (acc : Z) : Z :=
  match s with
  | b :: s' => if (48 <=? b) && (b <=? 55) then octal_digits s' (acc * 8 + (b - 48)) else acc
  | [] => acc
  end.

(** [strtoull(s, NULL, 0)]: a prefix tells the base; a number that is too large gives the largest. *)
Definition strtoull (s : list Z) : Z :=
  let s := skip_space s in
  let '(neg, s) := match s with
                   | b :: s' => if b =? 45 then (true, s') else if b =? 43 then (false, s') else (false, s)
                   | [] => (false, s)
                   end in
  let v := match s with
           | z :: x :: s' =>
               if z =? 48 then if (x =? 120) || (x =? 88) then (hex_digits s' 0 0).1.2 else octal_digits s 0
               else (scan_digits s 0 0).1.2
           | _ => (scan_digits s 0 0).1.2
           end in
  if 2 ^ 64 <=? v then 2 ^ 64 - 1 else if (neg : bool) then u64 (- v) else v.

Lemma hex_char_spec d : 0 <= d < 16 -> hexval (hex_char d) = Some d.
Proof.
  intros Hd. assert (forallb (fun d => bool_decide (hexval (hex_char d) = Some d)) (map Z.of_nat (seq 0 16)) = true) as H by done.
  rewrite forallb_forall in H. apply (bool_decide_eq_true_1 _), H.
  apply in_map_iff. exists (Z.to_nat d). rewrite in_seq. lia.
Qed.

Lemma hex_fuel_spec f n : 0 <= n < 16 ^ (Z.of_nat f + 1) ->
  Forall (fun b => hexval b <> None) (hex_fuel f n) /\ value16 (hex_fuel f n) = n /\ hex_fuel f n <> [] /\
  zlen (hex_fuel f n) <= Z.of_nat f + 1.
Proof.
  assert (forall d, 0 <= d < 16 -> Forall (fun b => hexval b <> None) [hex_char d] /\ value16 [hex_char d] = d) as H1.
  { intros d Hd. unfold value16. cbn [fold_left]. rewrite hex_char_spec by done. split; [| cbn; lia].
    constructor; [by rewrite hex_char_spec | done]. }
  revert n. induction f as [| f IH]; intros n Hn; cbn [hex_fuel].
  - rewrite Z.mod_small by lia. destruct (H1 n) as [H2 H3]; [lia | done].
  - rewrite Nat2Z.inj_succ in *. destruct (n <? 16) eqn:Hlt; zbool.
    + destruct (H1 n) as [H2 H3]; [lia |]. repeat split; [done.. |]. unfold zlen. simpl. lia.
    + destruct (IH (n / 16)) as (HF & Hv & Hne & Hl).
      { split; [apply Z.div_pos; lia |]. apply Z.div_lt_upper_bound; [lia |].
        rewrite <-Z.pow_succ_r by lia. replace (Z.succ (Z.of_nat f + 1)) with (Z.succ (Z.of_nat f) + 1) by lia. lia. }
      pose proof (Z.mod_pos_bound n 16 ltac:(lia)) as Hm. destruct (H1 _ Hm) as [H2 H3]. repeat split.
      * by apply Forall_app_2.
      * unfold value16 in *. rewrite fold_left_app, Hv. cbn [fold_left] in *. pose proof (Z.div_mod n 16). lia.
      * by destruct (hex_fuel f (n / 16)).
      * rewrite zlen_app. unfold zlen in *. simpl. lia.
Qed.

Lemma hex_spec n : 0 <= n < 2 ^ 64 ->
  Forall (fun b => hexval b <> None) (hex n) /\ value16 (hex n) = n /\ hex n <> [] /\ zlen (hex n) <= 16.
Proof.
  intros Hn. unfold hex. pose proof (Z.log2_nonneg n) as Hl.
  assert (0 <= Z.log2 n / 4) as Hq by (apply Z.div_pos; lia).
  destruct (hex_fuel_spec (Z.to_nat (Z.log2 n / 4)) n) as (H1 & H2 & H3 & H4); rewrite Z2Nat.id in * by done.
  - split; [lia |]. change 16 with (2 ^ 4). rewrite <-Z.pow_mul_r by lia. destruct (decide (n = 0)) as [-> | Hne].
    { apply Z.pow_pos_nonneg; lia. }
    destruct (Z.log2_spec n) as [_ Hs]; [lia |]. eapply Z.lt_le_trans; [exact Hs |]. apply Z.pow_le_mono_r; [lia |].
    pose proof (Z.div_mod (Z.log2 n) 4). pose proof (Z.mod_pos_bound (Z.log2 n) 4). lia.
  - repeat split; [done.. |]. assert (Z.log2 n < 64) as Hb.
    { destruct (decide (n = 0)) as [-> | Hne]; [done |]. apply Z.log2_lt_pow2; lia. }
    assert (Z.log2 n / 4 < 16); [apply Z.div_lt_upper_bound |]; lia.
Qed.

(** What [%p] prints is what [strtoull] reads, and it is short. *)
Lemma strtoull_pointer p : 0 < p < 2 ^ 64 -> strtoull (pointer p) = p /\ zlen (pointer p) <= 18.
Proof.
  intros Hp. destruct (hex_spec p) as (HF & Hv & Hne & Hl); [lia |]. unfold pointer.
  rewrite (proj2 (Z.eqb_neq p 0)) by lia. split; [| unfold zlen in *; simpl; lia].
  unfold strtoull. cbn -[hex hex_digits Z.pow]. rewrite <-(app_nil_r (hex p)), hex_digits_app by done. cbn [fst snd].
  change (fold_left _ _ 0) with (value16 (hex p)). rewrite Hv. by rewrite (proj2 (Z.leb_gt _ _)) by lia.
Qed.

Lemma atoi_dec n : 0 <= n < 2 ^ 31 -> atoi (dec n) = n.
Proof. intros Hn. unfold atoi. rewrite <-(app_nil_r (dec n)). by rewrite scan_dec. Qed.

(** ** Lines *)

(** One call of [fgets] with room for [n] characters, and what is left of the file. *)
Fixpoint fgets (n : nat) (s : list Z) : list Z * list Z :=
  match n, s with
  | S m, b :: s' => if b =? 10 then ([b], s') else let '(l, r) := fgets m s' in (b :: l, r)
  | _, _ => ([], s)
  end.

(** The buffers of [while (fgets(buffer, n + 1, file) != NULL)]. *)
Fixpoint fgets_all (fuel n : nat) (s : list Z) : list (list Z) :=
  match fuel, s with
  | S f, _ :: _ => let '(l, r) := fgets n s in l :: fgets_all f n r
  | _, _ => []
  end.

Definition lines (n : nat) (s : list Z) : list (list Z) := fgets_all (length s) n s.

(** A line as the tests write it: no newline but its last byte. *)
Definition text_line (n : nat) (l : list Z) : Prop :=
  exists body, l = body ++ [10] /\ Forall (fun b => b <> 10) body /\ (length l <= n)%nat.

Lemma fgets_line n l s : text_line n l -> fgets n (l ++ s) = (l, s).
Proof.
  intros (body & -> & HF & Hn). rewrite <-app_assoc. revert n Hn.
  induction HF as [| b body Hb _ IH]; intros n Hn; simpl in Hn.
  - by destruct n; [lia |].
  - destruct n as [| n]; [lia |]. simpl. rewrite (proj2 (Z.eqb_neq b 10)) by done.
    rewrite IH by lia. done.
Qed.

Lemma fgets_all_concat n ls f : Forall (text_line n) ls -> (length (concat ls) <= f)%nat ->
  fgets_all f n (concat ls) = ls.
Proof.
  intros H. revert f. induction H as [| l ls Hl _ IH]; intros f Hf; [by destruct f |].
  simpl in *. rewrite length_app in Hf. assert (l <> []) as Hne.
  { destruct Hl as (body & -> & _). by destruct body. }
  destruct f as [| f]; [destruct l; [done | simpl in Hf; lia] |].
  cbn [fgets_all]. destruct (l ++ concat ls) as [| b r] eqn:E; [by destruct l |].
  rewrite <-E, fgets_line by done. f_equal. apply IH. destruct l; [done | simpl in Hf; lia].
Qed.

Lemma lines_concat n ls : Forall (text_line n) ls -> lines n (concat ls) = ls.
Proof. intros H. by apply fgets_all_concat. Qed.

(** ** Buffers *)

(** [strlen]; [None] when no NUL follows. *)
Fixpoint strlen (s : list Z) : option Z :=
  match s with
  | [] => None
  | b :: s' => if b =? 0 then Some 0 else n ← strlen s'; Some (1 + n)
  end.

(** The string a buffer holds. *)
Fixpoint c_str (s : list Z) : list Z :=
  match s with
  | [] => []
  | b :: s' => if b =? 0 then [] else b :: c_str s'
  end.

Lemma c_str_plain l : Forall (fun b => b <> 0) l -> c_str l = l.
Proof. induction 1 as [| b l Hb _ IH]; [done |]. cbn. by rewrite (proj2 (Z.eqb_neq b 0)), IH. Qed.

Lemma c_str_nul l rest : Forall (fun b => b <> 0) l -> c_str (l ++ 0 :: rest) = l.
Proof. induction 1 as [| b l Hb _ IH]; [done |]. cbn [app c_str]. by rewrite (proj2 (Z.eqb_neq b 0)), IH. Qed.

Lemma strlen_nul l rest : Forall (fun b => b <> 0) l -> strlen (l ++ 0 :: rest) = Some (zlen l).
Proof.
  induction 1 as [| b l Hb _ IH]; [done |]. cbn [app strlen].
  rewrite (proj2 (Z.eqb_neq b 0)), IH by done. cbn. f_equal. unfold zlen. simpl. lia.
Qed.

Lemma strlen_ends s : is_Some (strlen s) <-> 0 ∈ s.
Proof.
  induction s as [| b s IH]; [split; [by intros [] | by intros ?%elem_of_nil] |]. cbn. rewrite elem_of_cons, <-IH.
  destruct (b =? 0) eqn:E; zbool; [split; [by left | done] |].
  split; [intros H; right; by destruct (strlen s) as [n |]; [| destruct H] | intros [H | [n ->]]; [congruence | done]].
Qed.

(** Store [data] into [buf] from [at_]; [None] outside it. *)
Definition store (at_ : Z) (data buf : list Z) : option (list Z) :=
  if (0 <=? at_) && (at_ + zlen data <=? zlen buf)
  then Some (take (Z.to_nat at_) buf ++ data ++ drop (Z.to_nat (at_ + zlen data)) buf)
  else None.

(** [snprintf(buf + at_, n, ...)] of [text]: the buffer and the result. *)
Definition snprintf (at_ n : Z) (text buf : list Z) : option (list Z * Z) :=
  if n =? 0 then Some (buf, zlen text)
  else buf ← store at_ (take (Z.to_nat (n - 1)) text ++ [0]) buf; Some (buf, zlen text).

(** Bytes stored where the prefix [l] ends. *)
Lemma store_app l data junk : zlen data <= zlen junk ->
  store (zlen l) data (l ++ junk) = Some (l ++ data ++ drop (Z.to_nat (zlen data)) junk).
Proof.
  intros Hd. pose proof (zlen_nonneg l). pose proof (zlen_nonneg data). unfold store.
  rewrite zlen_app, (proj2 (Z.leb_le 0 _)), (proj2 (Z.leb_le _ _)) by lia. simpl. f_equal.
  rewrite take_app_length' by (unfold zlen; lia). f_equal. f_equal.
  rewrite drop_app_ge by (unfold zlen; lia). f_equal. unfold zlen in *. lia.
Qed.
