(* ===== verification/LogTest.v ===== *)
(** * The environment of the log's test programs

    The calls of [src/fastlog/eg] that are not of mmlog.h, and their combination with the
    operations of mmlog.h. *)
From stdpp Require Import base gmap sets list strings.
From Stdlib Require Import ZArith Lia.
From S2P Require Import Prelude Prog MmlogTypes MmlogOs MmlogOpen MmlogInsert Sys Text.

Inductive arg := AInt (z : Z) | ABytes (s : list Z) | AStr (s : string).

Inductive testE : Type -> Type :=
| Fprintf (fmt : string) (args : list arg) : testE unit      (* to stderr *)
| Printf (fmt : string) (args : list arg) : testE unit
| Perror (s : string) : testE unit
| Strerror (errno : option Z) : testE string                 (* [None]: of errno *)
| Unlink (path : string) : testE Z
| Fopen (path mode : string) : testE (option (list Z))       (* what the file holds *)
| Fclose : testE unit
| Calloc (n size : Z) : testE bool                           (* not NULL *)
| Malloc (n : Z) : testE bool
| Free : testE unit
| Seq_fetch_add : testE Z                                    (* [global_seq_counter], plus 1 *)
| Seq_store (v : Z) : testE unit
| Pthread_create (i : Z) : testE Z
| Pthread_join (i : Z) : testE (Z * bool)                    (* then the worker's args *)
| Fork : testE Z
| Waitpid (pid : Z) : testE Z                                (* the status *)
| Getpid : testE Z
| Time : testE Z
| Srand (seed : Z) : testE unit
| Rand : testE Z
| Usleep (us : Z) : testE unit.

Abbreviation tp := (prog (sumE mmE testE)).

(** A call of mmlog.h, and a call of the environment. *)
Definition mmlog {A} (p : mm A) : tp A := lift p.
Definition call {R} (e : testE R) : tp R := trigger (inr1 e).

Definition any_stop (s : stop) : Prop := True.

(** Nothing is assumed of a call of mmlog.h but that it returns, if it does. *)
Lemma always_mmlog {A B} (ans : forall R, sumE mmE testE R -> R -> Prop) (p : mm A)
    (f : A -> tp B) (Q : B -> Prop) :
  (forall a, always ans any_stop (f a) (fun b _ => Q b)) ->
  always ans any_stop (bind (mmlog p) f) (fun b _ => Q b).
Proof.
  intros Hf. induction p as [a | s | R e k IH]; simpl; [done | done |]. intros r _. apply IH.
Qed.

(** The answers of the environment alone are constrained. *)
Definition env (ans : forall R, testE R -> R -> Prop) : forall R, sumE mmE testE R -> R -> Prop :=
  fun R e => match e with
             | inl1 _ => fun _ => True
             | inr1 f => ans R f
             end.

Lemma always_ignore {E : Type -> Type} {A} (ans : forall R, E R -> R -> Prop) halts
    (p : prog E A) (P : A -> Prop) (Q : A -> list (event E) -> Prop) :
  always ans halts p (fun a _ => P a) -> (forall a tr, P a -> Q a tr) -> always ans halts p Q.
Proof. intros Hp HPQ. eapply always_mono; [exact Hp |]. auto. Qed.
