(* ===== verification/ThreadsMain.v ===== *)
(** * The threads test of the log

    [src/fastlog/eg/threads/src/main.c]: workers, the validation of what they wrote and
    the test of mixed message sizes. Each local C array is a list of its elements. *)
From stdpp Require Import base gmap sets list strings.
From Stdlib Require Import ZArith Lia.
From S2P Require Import Prelude Prog MmlogTypes MmlogOs MmlogOpen MmlogInsert Sys Text LogTest.

Definition NUM_THREADS : Z := 16.
Definition MESSAGES_PER_THREAD : Z := 500.
Definition MAX_MESSAGE_SIZE : nat := Z.to_nat 512.
Definition CHUNK_SIZE : Z := 4096.
Definition NUM_CHUNKS : Z := 16.

(** ["%d,%d,aaa...a\n"], which fits the [MAX_MESSAGE_SIZE] bytes of [message]
    ([message_text_line] below). *)
Definition message_text (thread_num seq_num : Z) : list Z :=
  dec thread_num ++ 44 :: dec seq_num ++ 44 :: replicate (Z.to_nat 129) 97 ++ [10].

Definition strerror_text (s : option string) : arg := AStr (default "" s).

(** The loop of a worker, [n] messages from message [i]: [args->messages_written]
    so far is [written]; the result is its final value and [args->success]. *)
Fixpoint write_messages (fuel : nat) (handle thread_num : Z) (n : nat) (i written : Z) :
    tp (Z * bool) :=
  match n with
  | O =>
      mmlog (trigger (FreeHandle handle)) ;;
      Ret (written, true)
  | S n =>
      seq_num <- call Seq_fetch_add ;;
      ok <- mmlog (mmlog_insert fuel handle (Some (message_text thread_num seq_num))) ;;
      if negb ok
      then
        s <- mmlog mmlog_strerror_cur ;;
        call (Fprintf "Thread %d: Failed to insert message %d: %s"
                [AInt thread_num; AInt i; strerror_text s]) ;;
        mmlog (trigger (FreeHandle handle)) ;;
        Ret (written, false)
      else write_messages fuel handle thread_num n (i + 1) (written + 1)
  end.

(** A worker of [count] messages: the final [messages_written] and [success] of its arguments. *)
Definition worker (count : nat) (fuel : nat) (log_filename : string) (thread_num : Z) : tp (Z * bool) :=
  handle <- mmlog (mmlog_open fuel (Some log_filename) CHUNK_SIZE NUM_CHUNKS) ;;
  if handle =? NULL
  then
    s <- mmlog mmlog_strerror_cur ;;
    call (Fprintf "Thread %d: Failed to open log: %s" [AInt thread_num; strerror_text s]) ;;
    Ret (0, false)
  else write_messages fuel handle thread_num count 0 0.

Definition thread_worker : nat -> string -> Z -> tp (Z * bool) := worker (Z.to_nat MESSAGES_PER_THREAD).

(** ** Validation *)

(** The variables of the loop of [validate_log] over the lines. [line_count] is an [int] in the source; it is exact for files of
    fewer than [2 ^ 31] lines. *)
Record tally := {
  line_count : Z;
  thread_message_counts : list Z;
  seen_sequences : list bool;
  duplicate_sequences : Z;
  max_sequence : Z }.

(** [sscanf(buffer, "%d,%d", ...) == 2]: the two numbers. *)
Definition parse_line (buffer : list Z) : option (Z * Z) :=
  '(thread_id, rest) ← scan_int (c_str buffer);
  match rest with
  | b :: rest => if b =? 44 then '(seq_num, _) ← scan_int rest; Some (thread_id, seq_num) else None
  | [] => None
  end.

Definition count_thread (thread_id : Z) (t : tally) : tally :=
  {| line_count := line_count t;
     thread_message_counts := alter (Z.add 1) (Z.to_nat thread_id) (thread_message_counts t);
     seen_sequences := seen_sequences t; duplicate_sequences := duplicate_sequences t;
     max_sequence := max_sequence t |}.

(** The sequence number of a line, when it is in range. *)
Definition count_sequence (seq_num : Z) (t : tally) : tally :=
  {| line_count := line_count t; thread_message_counts := thread_message_counts t;
     seen_sequences := <[Z.to_nat seq_num := true]> (seen_sequences t);
     duplicate_sequences :=
       if default false (znth (seen_sequences t) seq_num)
       then duplicate_sequences t + 1 else duplicate_sequences t;
     max_sequence := if max_sequence t <? seq_num then seq_num else max_sequence t |}.

Definition count_line (t : tally) : tally :=
  {| line_count := line_count t + 1; thread_message_counts := thread_message_counts t;
     seen_sequences := seen_sequences t; duplicate_sequences := duplicate_sequences t;
     max_sequence := max_sequence t |}.

(** The body of the loop over the lines. *)
Definition validate_line (expected_total_messages : Z) (t : tally) (buffer : list Z) : tp tally :=
  let t := count_line t in
  match parse_line buffer with
  | None => call (Fprintf "Invalid log line format: %s" [ABytes buffer]) ;; Ret t
  | Some (thread_id, seq_num) =>
      t <- (if (0 <=? thread_id) && (thread_id <? NUM_THREADS)
            then Ret (count_thread thread_id t)
            else call (Fprintf "Invalid thread ID in log: %d" [AInt thread_id]) ;; Ret t) ;;
      if (0 <=? seq_num) && (seq_num <? expected_total_messages)
      then
        (if default false (znth (seen_sequences t) seq_num)
         then call (Fprintf "Duplicate sequence number: %d" [AInt seq_num]) else Ret tt) ;;
        Ret (count_sequence seq_num t)
      else
        call (Fprintf "Sequence number out of range: %d/%d"
                [AInt seq_num; AInt expected_total_messages]) ;;
        Ret t
  end.

Fixpoint validate_lines (expected : Z) (t : tally) (buffers : list (list Z)) : tp tally :=
  match buffers with
  | [] => Ret t
  | b :: buffers => t <- validate_line expected t b ;; validate_lines expected t buffers
  end.

(** The [i <= max_sequence] that were not seen. *)
Definition count_missing (t : tally) : Z :=
  zlen (filter (fun b => b = false) (take (Z.to_nat (max_sequence t + 1)) (seen_sequences t))).

Fixpoint report_threads (i : Z) (counts : list Z) : tp unit :=
  match counts with
  | [] => Ret tt
  | n :: counts =>
      call (Printf "Thread %2d: %4d messages" [AInt i; AInt n]) ;;
      (if negb (n =? MESSAGES_PER_THREAD)
       then call (Fprintf "Thread %d: Expected %d messages but found %d"
                    [AInt i; AInt MESSAGES_PER_THREAD; AInt n])
       else Ret tt) ;;
      report_threads (i + 1) counts
  end.

Definition validate_log (log_filename : string) (expected_total_messages : Z) : tp bool :=
  file <- call (Fopen log_filename "r") ;;
  match file with
  | None => call (Perror "Failed to open log file for validation") ;; Ret false
  | Some contents =>
  ok <- call (Calloc (u64 expected_total_messages) 1) ;;
  if negb ok
  then
    call (Perror "Failed to allocate sequence tracking array") ;;
    call Fclose ;;
    Ret false
  else
  t <- validate_lines expected_total_messages
         {| line_count := 0; thread_message_counts := replicate (Z.to_nat NUM_THREADS) 0;
            seen_sequences := replicate (Z.to_nat expected_total_messages) false;
            duplicate_sequences := 0; max_sequence := -1 |}
         (lines (MAX_MESSAGE_SIZE - 1) contents) ;;
  call Fclose ;;
  let missing_sequences := count_missing t in
  call (Printf "Validation: Found %d messages, expected %d"
          [AInt (line_count t); AInt expected_total_messages]) ;;
  call (Printf "Sequence validation: max=%d, duplicates=%d, missing=%d"
          [AInt (max_sequence t); AInt (duplicate_sequences t); AInt missing_sequences]) ;;
  call (Printf "Messages per thread:" []) ;;
  report_threads 0 (thread_message_counts t) ;;
  call Free ;;
  Ret ((line_count t =? expected_total_messages) && (duplicate_sequences t =? 0) &&
       (missing_sequences =? 0))
  end.

(** ** Messages of mixed sizes *)

Definition sizes : list Z := [16; 128; 512; 2048; 8192].
Definition count_per_size : nat := 50.

(** [malloc]ed memory, filled with [junk]: the pattern of size [size] with letter [i]. *)
Definition fill_buffer (junk : list Z) (size i : Z) : option (list Z) :=
  '(buffer, _) ← snprintf 0 size (bytes_of "[SIZE " ++ dec size ++ bytes_of "d] ") junk;
  n ← strlen buffer;
  buffer ← store n (replicate (Z.to_nat (size - n - 1)) (65 + i)) buffer;
  store (size - 1) [0] buffer.

(** The sequence number at the end of the buffer, where there is room. *)
Definition append_seq (size seq_num : Z) (buffer : list Z) : option (list Z) :=
  let seq_suffix := take 31 (bytes_of " [SEQ " ++ dec seq_num ++ bytes_of "]") in
  let seq_len := zlen seq_suffix in
  n ← strlen buffer;
  if n + seq_len <? size
  then store (n - seq_len) (seq_suffix ++ [0]) buffer
  else Some buffer.

Fixpoint write_copies (fuel : nat) (handle size : Z) (n : nat) (buffer : list Z) : tp unit :=
  match n with
  | O => Ret tt
  | S n =>
      seq_num <- call Seq_fetch_add ;;
      match append_seq size seq_num buffer with
      | None => Halt Undefined
      | Some buffer =>
          ok <- mmlog (mmlog_insert fuel handle (Some buffer)) ;;
          if negb ok
          then
            s <- mmlog mmlog_strerror_cur ;;
            call (Fprintf "Failed to insert message of size %lud: %s" [AInt size; strerror_text s])
          else write_copies fuel handle size n buffer
      end
  end.

Fixpoint write_sizes (fuel : nat) (junk : Z -> list Z) (handle i : Z) (l : list Z) : tp unit :=
  match l with
  | [] => Ret tt
  | size :: l =>
      ok <- call (Malloc size) ;;
      (if negb ok
       then call (Fprintf "Failed to allocate buffer of size %lud" [AInt size])
       else
         match fill_buffer (junk i) size i with
         | None => Halt Undefined
         | Some buffer =>
             call (Printf "Writing %d messages of size %lud bytes" [AInt 50; AInt size]) ;;
             write_copies fuel handle size count_per_size buffer ;;
             call Free
         end) ;;
      write_sizes fuel junk handle (i + 1) l
  end.

(** [junk i] is what [malloc] finds in the buffer of size number [i]. *)
Definition run_mixed_size_test (fuel : nat) (junk : Z -> list Z) (log_filename : string) : tp unit :=
  call (Printf "Running mixed message size test..." []) ;;
  call (Unlink log_filename) ;;
  call (Seq_store 0) ;;
  handle <- mmlog (mmlog_open fuel (Some log_filename) CHUNK_SIZE NUM_CHUNKS) ;;
  if handle =? NULL
  then
    s <- mmlog mmlog_strerror_cur ;;
    call (Fprintf "Failed to open log for mixed size test: %s" [strerror_text s])
  else
    write_sizes fuel junk handle 0 sizes ;;
    mmlog (trigger (FreeHandle handle)).

(** ** The test *)

Fixpoint start_threads (i : Z) (n : nat) : tp unit :=
  match n with
  | O => Ret tt
  | S n =>
      result <- call (Pthread_create i) ;;
      if negb (result =? 0)
      then
        e <- call (Strerror (Some result)) ;;
        call (Fprintf "Failed to create thread %d: %s" [AInt i; AStr e]) ;;
        Halt (Exited 1)
      else
        call (Printf "Started thread %d" [AInt i]) ;;
        start_threads (i + 1) n
  end.

(** The threads that succeeded and the messages they wrote. *)
Fixpoint join_threads (i : Z) (n : nat) (success_count total_messages : Z) : tp (Z * Z) :=
  match n with
  | O => Ret (success_count, total_messages)
  | S n =>
      r <- call (Pthread_join i) ;;
      let '(messages_written, success) := r in
      if (success : bool)
      then
        call (Printf "Thread %d completed successfully, wrote %d messages"
                [AInt i; AInt messages_written]) ;;
        join_threads (i + 1) n (success_count + 1) (total_messages + messages_written)
      else
        call (Printf "Thread %d failed, wrote only %d messages" [AInt i; AInt messages_written]) ;;
        join_threads (i + 1) n success_count total_messages
  end.

Definition main (fuel : nat) (junk : Z -> list Z) : tp Z :=
  let log_filename := "thread_test.log"%string in
  call (Printf "Starting thread-based mmlog test with %d threads" [AInt NUM_THREADS]) ;;
  call (Printf "Each thread will write %d messages" [AInt MESSAGES_PER_THREAD]) ;;
  call (Unlink log_filename) ;;
  call (Seq_store 0) ;;
  start_threads 0 (Z.to_nat NUM_THREADS) ;;
  r <- join_threads 0 (Z.to_nat NUM_THREADS) 0 0 ;;
  let '(success_count, total_messages) := r in
  call (Printf "%d/%d threads completed successfully" [AInt success_count; AInt NUM_THREADS]) ;;
  call (Printf "Total messages written: %d" [AInt total_messages]) ;;
  handle <- mmlog (mmlog_open fuel (Some log_filename) CHUNK_SIZE NUM_CHUNKS) ;;
  mmlog (mmlog_trim handle) ;;
  validation_result <- validate_log log_filename total_messages ;;
  call (Printf "Threaded test %s!"
          [AStr (if (validation_result : bool) then "PASSED" else "FAILED")]) ;;
  run_mixed_size_test fuel junk "mixed_size_test.log" ;;
  Ret (if validation_result then 0 else 1).
