(* ===== verification/ThreadsProps.v ===== *)
(** * The threads test: what its validation accepts

    The lines of a log against the counters of [ThreadsMain.validate_log], the messages
    of the workers, and the buffers of the mixed-size test. *)
From stdpp Require Import base gmap sets list strings list_numbers.
From Stdlib Require Import ZArith Lia.
From S2P Require Import Prelude Prog MmlogTypes MmlogOs MmlogOpen MmlogInsert Sys Text LogTest.
From S2P Require Import ThreadsMain.

(** ** The counters *)

(** The in-range sequence number of a line. *)
Definition line_seq (N : Z) (buffer : list Z) : option Z :=
  '(_, seq_num) ← parse_line buffer;
  if (0 <=? seq_num) && (seq_num <? N) then Some seq_num else None.

Definition seqs (N : Z) (buffers : list (list Z)) : list Z := omap (line_seq N) buffers.

(** What the counters say of the [n] lines read, with the sequence numbers [ss]. *)
Record counted (N : Z) (n : Z) (ss : list Z) (t : tally) : Prop := {
  c_lines : line_count t = n;
  c_range : forall s, s ∈ ss -> 0 <= s < N;
  c_seen : forall s, 0 <= s < N -> znth (seen_sequences t) s = Some (bool_decide (s ∈ ss));
  c_length : zlen (seen_sequences t) = Z.max 0 N;
  c_dups : 0 <= duplicate_sequences t;
  c_nodup : duplicate_sequences t = 0 <-> NoDup ss;
  c_max : forall s, s ∈ ss -> s <= max_sequence t;
  c_max_in : max_sequence t ∈ ss \/ (max_sequence t = -1 /\ ss = []) }.

Lemma counted_line N n ss t : counted N n ss t -> counted N (n + 1) ss (count_line t).
Proof. intros []. split; simpl; [lia | done ..]. Qed.

Lemma counted_thread N n ss t id : counted N n ss t -> counted N n ss (count_thread id t).
Proof. by intros []. Qed.

Lemma counted_sequence N n ss t s : counted N n ss t -> 0 <= s < N ->
  counted N n (ss ++ [s]) (count_sequence s t).
Proof.
  intros [] Hs. pose proof (c_seen0 s Hs) as Hseen. split; simpl.
  - done.
  - intros s' [? | ->%list_elem_of_singleton]%elem_of_app; auto.
  - intros s' Hs'. unfold znth. rewrite (proj2 (Z.leb_le 0 s')) by lia.
    destruct (decide (s' = s)) as [-> | Hne].
    + rewrite list_lookup_insert_eq by (unfold zlen in *; lia). f_equal. symmetry.
      apply bool_decide_eq_true. apply elem_of_app. right. by apply list_elem_of_singleton.
    + rewrite list_lookup_insert_ne by lia. pose proof (c_seen0 s' Hs') as H.
      unfold znth in H. rewrite (proj2 (Z.leb_le 0 s')) in H by lia. rewrite H. f_equal.
      apply bool_decide_ext. rewrite elem_of_app, list_elem_of_singleton. naive_solver.
  - unfold zlen in *. by rewrite length_insert.
  - rewrite Hseen. simpl. case_match; lia.
  - rewrite Hseen. simpl. rewrite NoDup_app. destruct (bool_decide (s ∈ ss)) eqn:Hb.
    + apply bool_decide_eq_true in Hb. split; [lia |]. intros (_ & Hd & _). exfalso.
      apply (Hd s Hb). by apply list_elem_of_singleton.
    + apply bool_decide_eq_false in Hb. rewrite c_nodup0. split; [| by intros [? _]].
      intros Hnd. split; [done |]. split; [| apply NoDup_singleton].
      intros x Hx ->%list_elem_of_singleton. done.
  - intros s' [Hs' | ->%list_elem_of_singleton]%elem_of_app; [pose proof (c_max0 s' Hs') |];
      case_if; lia.
  - left. apply elem_of_app. rewrite list_elem_of_singleton. case_if; [by right |].
    destruct c_max_in0 as [H | [H _]]; [by left | lia].
Qed.

Lemma counted_start N : counted N 0 []
  {| line_count := 0; thread_message_counts := replicate (Z.to_nat NUM_THREADS) 0;
     seen_sequences := replicate (Z.to_nat N) false; duplicate_sequences := 0;
     max_sequence := -1 |}.
Proof.
  split; simpl; try done.
  - by intros s Hs%elem_of_nil.
  - intros s Hs. unfold znth. rewrite (proj2 (Z.leb_le 0 s)), lookup_replicate_2 by lia. done.
  - unfold zlen. rewrite length_replicate. lia.
  - split; [intros _; constructor | done].
  - by intros s Hs%elem_of_nil.
  - by right.
Qed.

(** ** The verdict *)

Lemma count_missing_zero t : count_missing t = 0 <->
  forall i, 0 <= i <= max_sequence t -> znth (seen_sequences t) i <> Some false.
Proof.
  unfold count_missing, zlen. split.
  - intros H i Hi Hz. assert (false ∈ filter (fun b => b = false)
      (take (Z.to_nat (max_sequence t + 1)) (seen_sequences t))) as Hin.
    { apply list_elem_of_filter. split; [done |]. apply list_elem_of_lookup. exists (Z.to_nat i).
      unfold znth in Hz. rewrite (proj2 (Z.leb_le 0 i)) in Hz by lia.
      rewrite lookup_take_lt by lia. done. }
    destruct (filter _ _); [by apply elem_of_nil in Hin | simpl in H; lia].
  - intros H. destruct (filter _ _) as [| b l] eqn:E; [done |]. exfalso.
    assert (b ∈ b :: l) as Hin by left. rewrite <-E in Hin.
    apply list_elem_of_filter in Hin as [-> Hin]. apply list_elem_of_lookup in Hin as [i Hi].
    apply lookup_take_Some in Hi as [Hi Hlt]. apply (H (Z.of_nat i)); [lia |].
    unfold znth. rewrite (proj2 (Z.leb_le 0 _)), Nat2Z.id by lia. done.
Qed.

(** No duplicate and none missing: the sequence numbers are 0, 1, ... in some order. *)
Lemma counted_complete N n ss t : counted N n ss t ->
  (duplicate_sequences t = 0 /\ count_missing t = 0) <-> ss ≡ₚ seqZ 0 (zlen ss).
Proof.
  intros []. rewrite c_nodup0, count_missing_zero. split.
  - intros [Hnd Hm].
    assert (ss ≡ₚ seqZ 0 (max_sequence t + 1)) as HP.
    { apply NoDup_Permutation; [done | apply NoDup_seqZ |]. intros x. rewrite elem_of_seqZ. split.
      - intros Hx. pose proof (c_max0 x Hx). pose proof (c_range0 x Hx). lia.
      - intros Hx. assert (0 <= x < N) as HxN.
        { destruct c_max_in0 as [H | [H _]]; [| lia]. pose proof (c_range0 _ H). lia. }
        specialize (Hm x ltac:(lia)). rewrite c_seen0 in Hm by done.
        destruct (bool_decide (x ∈ ss)) eqn:E; [by apply bool_decide_eq_true in E | done]. }
    assert (zlen ss = Z.max 0 (max_sequence t + 1)) as ->.
    { unfold zlen. rewrite HP, length_seqZ. lia. }
    destruct (decide (0 <= max_sequence t + 1)); [by rewrite Z.max_r by lia |].
    destruct c_max_in0 as [H | [H _]]; [| lia]. pose proof (c_range0 _ H). lia.
  - intros HP. split; [rewrite HP; apply NoDup_seqZ |]. intros i Hi.
    destruct c_max_in0 as [H | [H _]]; [| lia].
    pose proof (c_range0 _ H). rewrite c_seen0 by lia. intros [= Hb].
    apply bool_decide_eq_false in Hb. apply Hb. rewrite HP in H |- *.
    apply elem_of_seqZ in H. apply elem_of_seqZ. lia.
Qed.

(** The file can be opened and read, and the array allocated. *)
Definition readable (contents : list Z) : forall R, testE R -> R -> Prop :=
  fun R e => match e in testE R return R -> Prop with
             | Fopen _ _ => fun r => r = Some contents
             | Calloc _ _ => fun r => r = true
             | _ => fun _ => True
             end.

Lemma validate_line_spec c N n ss t b : counted N n ss t ->
  always (env (readable c)) nothing (validate_line N t b)
    (fun t' _ => counted N (n + 1) (ss ++ option_list (line_seq N b)) t').
Proof.
  intros Ht. apply counted_line in Ht. unfold validate_line, line_seq.
  destruct (parse_line b) as [[id s] |]; cbn [mbind option_bind].
  2: { intros [] _. simpl. by rewrite app_nil_r. }
  assert (forall t, counted N (n + 1) ss t -> always (env (readable c)) nothing
    (if (0 <=? s) && (s <? N) then
       (if default false (znth (seen_sequences t) s)
        then call (Fprintf "Duplicate sequence number: %d" [AInt s]) else Ret tt) ;;
       Ret (count_sequence s t)
     else call (Fprintf "Sequence number out of range: %d/%d" [AInt s; AInt N]) ;; Ret t)
    (fun t' _ => counted N (n + 1)
       (ss ++ option_list (if (0 <=? s) && (s <? N) then Some s else None)) t')) as H.
  { intros t' Ht'. destruct ((0 <=? s) && (s <? N)) eqn:Hs; simpl.
    - zbool. case_if; simpl; [intros [] _ |]; apply counted_sequence; (done || lia).
    - intros [] _. by rewrite app_nil_r. }
  case_if; cbn [bind call trigger always].
  - by apply H, counted_thread.
  - intros [] _. by apply H.
Qed.

Lemma validate_lines_spec c N bs : forall n ss t, counted N n ss t ->
  always (env (readable c)) nothing (validate_lines N t bs)
    (fun t' _ => counted N (n + zlen bs) (ss ++ seqs N bs) t').
Proof.
  induction bs as [| b bs IH]; intros n ss t Ht; simpl.
  - rewrite app_nil_r. unfold zlen. simpl. by rewrite Z.add_0_r.
  - eapply always_bind; [by eapply validate_line_spec |]. intros t1 tr Ht1. simpl.
    eapply always_mono; [exact (IH _ _ _ Ht1) |]. intros t2 tr2 Ht2. simpl.
    replace (n + zlen (b :: bs)) with (n + 1 + zlen bs) by (unfold zlen; simpl; lia).
    unfold seqs in *. simpl. rewrite <-app_assoc in Ht2. by destruct (line_seq N b).
Qed.

Lemma report_threads_spec c i counts :
  always (env (readable c)) nothing (report_threads i counts) (fun _ _ => True).
Proof.
  revert i. induction counts as [| n counts IH]; intros i; [done |]. cbn [report_threads].
  eapply always_bind with (P := fun _ _ => True); [done |]. intros _ ? _.
  eapply always_bind with (P := fun _ _ => True); [by case_if |]. intros _ ? _. apply IH.
Qed.

Lemma validate_log_verdict name N contents :
  always (env (readable contents)) nothing (validate_log name N) (fun r _ =>
    let buffers := lines (MAX_MESSAGE_SIZE - 1) contents in
    r = true <-> zlen buffers = N /\ seqs N buffers ≡ₚ seqZ 0 (zlen (seqs N buffers))).
Proof.
  unfold validate_log. cbn [call trigger bind always env readable]. intros file ->.
  cbn [bind always]. intros ok ->. cbn [negb].
  eapply always_bind; [apply validate_lines_spec, counted_start |]. intros t tr Ht. cbn beta.
  cbn [call trigger bind always]. intros [] _ [] _ [] _ [] _.
  eapply always_bind; [apply report_threads_spec |]. intros _ tr' _.
  cbn [call trigger bind always]. intros [] _. rewrite <-(counted_complete _ _ _ _ Ht).
  pose proof (c_lines _ _ _ _ Ht) as Hn. simpl in Hn. rewrite Hn.
  rewrite !andb_true_iff, !Z.eqb_eq. tauto.
Qed.

(** ** The lines the workers write *)

Lemma digits_no b ds : digit b = false -> Forall (fun c => digit c = true) ds ->
  Forall (fun c => c <> b) ds.
Proof. intros Hb HF. eapply Forall_impl; [exact HF |]. intros c Hc ->. simpl in Hc. congruence. Qed.

Section Message.
Context (t s : Z) (Ht : 0 <= t < 2 ^ 31) (Hs : 0 <= s < 2 ^ 31).

Let body : list Z := dec t ++ 44 :: dec s ++ 44 :: replicate (Z.to_nat 129) 97.

Lemma message_text_body : message_text t s = body ++ [10].
Proof. unfold message_text, body. by rewrite <-!app_assoc, <-!app_comm_cons, <-!app_assoc. Qed.

Lemma body_no b : digit b = false -> b <> 44 -> b <> 97 -> Forall (fun c => c <> b) body.
Proof using Ht Hs.
  intros Hb H1 H2. destruct (dec_spec t) as (Ft & _), (dec_spec s) as (Fs & _); try lia.
  unfold body. apply Forall_app. split; [by apply digits_no |]. constructor; [done |].
  apply Forall_app. split; [by apply digits_no |]. constructor; [done |].
  by apply Forall_replicate.
Qed.

Lemma log2_31 n : 0 <= n < 2 ^ 31 -> Z.log2 n <= 30.
Proof.
  intros Hn. destruct (decide (n = 0)) as [-> | Hne]; [done |].
  pose proof (Z.log2_lt_pow2 n 31). lia.
Qed.

(** A message fits its buffer and is one line. *)
Lemma message_text_line : text_line (MAX_MESSAGE_SIZE - 1) (message_text t s).
Proof using Ht Hs.
  rewrite message_text_body. exists body. split; [done |]. split; [by apply body_no |].
  destruct (dec_spec t) as (_ & _ & _ & Lt), (dec_spec s) as (_ & _ & _ & Ls); try lia.
  pose proof (log2_31 t Ht). pose proof (log2_31 s Hs). unfold zlen in *. unfold body.
  rewrite !length_app. simpl length. rewrite length_app. simpl length. rewrite ?length_replicate.
  unfold MAX_MESSAGE_SIZE. lia.
Qed.

Lemma parse_message : parse_line (message_text t s) = Some (t, s).
Proof using Ht Hs.
  unfold parse_line. rewrite c_str_plain.
  2: { rewrite message_text_body. apply Forall_app. split; [by apply body_no | by constructor]. }
  unfold message_text. rewrite scan_dec by (done || by intros ? ? [= <- _]).
  cbn [mbind option_bind Z.eqb Pos.eqb].
  by rewrite scan_dec by (done || by intros ? ? [= <- _]).
Qed.
End Message.

(** C19. [validate_log] accepts a readable log exactly when it has the expected number of lines and the
    in-range sequence numbers found in them are 0, 1, 2, ... without repetition, in any
    order. Lines without such a number only count as lines. *)
Theorem validate_log_spec name N contents :
  always (env (readable contents)) nothing (validate_log name N) (fun r _ =>
    let buffers := lines (MAX_MESSAGE_SIZE - 1) contents in
    r = true <-> zlen buffers = N /\ seqs N buffers ≡ₚ seqZ 0 (zlen (seqs N buffers))).
Proof. apply validate_log_verdict. Qed.

Lemma seqs_messages N ms : Forall (fun m => 0 <= m.1 < 2 ^ 31 /\ 0 <= m.2 < 2 ^ 31 /\ m.2 < N) ms ->
  seqs N (map (fun m => message_text m.1 m.2) ms) = ms.*2.
Proof.
  induction 1 as [| [t s] ms (Ht & Hs & HN) _ IH]; [done |]. unfold seqs in *. simpl in *.
  unfold line_seq at 1. rewrite parse_message by done. cbn [mbind option_bind].
  rewrite (proj2 (Z.leb_le 0 s)), (proj2 (Z.ltb_lt s N)) by lia. simpl. by f_equal.
Qed.

Lemma complete_log_verdict name ms :
  Forall (fun m => 0 <= m.1 < 2 ^ 31) ms -> zlen ms < 2 ^ 31 ->
  ms.*2 ≡ₚ seqZ 0 (zlen ms) ->
  always (env (readable (concat (map (fun m => message_text m.1 m.2) ms)))) nothing
    (validate_log name (zlen ms)) (fun r _ => r = true).
Proof.
  intros Ht HN HP.
  assert (Forall (fun m => 0 <= m.1 < 2 ^ 31 /\ 0 <= m.2 < 2 ^ 31 /\ m.2 < zlen ms) ms) as Hm.
  { apply Forall_forall. intros m Hin. rewrite Forall_forall in Ht. split; [by apply Ht |].
    assert (m.2 ∈ ms.*2) as H2 by (apply list_elem_of_fmap; by exists m).
    rewrite HP in H2. apply elem_of_seqZ in H2. lia. }
  eapply always_mono; [apply validate_log_verdict |]. intros r tr Hr. apply Hr. clear r tr Hr.
  rewrite lines_concat.
  - rewrite seqs_messages by done. unfold zlen. rewrite !length_map. split; [done |]. exact HP.
  - apply Forall_map. eapply Forall_impl; [exact Hm |]. intros m (H1 & H2 & _).
    by apply message_text_line.
Qed.

(** C20. The messages of the workers, in the order the log happened to give them, pass the validation
    when the counter handed out each of the numbers below their count once. *)
Theorem complete_log_validates name ms :
  Forall (fun m => 0 <= m.1 < 2 ^ 31) ms -> zlen ms < 2 ^ 31 ->
  ms.*2 ≡ₚ seqZ 0 (zlen ms) ->
  always (env (readable (concat (map (fun m => message_text m.1 m.2) ms)))) nothing
    (validate_log name (zlen ms)) (fun r _ => r = true).
Proof. apply complete_log_verdict. Qed.

Lemma complete_log_validates_witness :
  always (env (readable (message_text 3 1 ++ message_text 15 2 ++ message_text 3 0))) nothing
    (validate_log "thread_test.log" 3) (fun r _ => r = true).
Proof.
  apply (complete_log_validates "thread_test.log" [(3, 1); (15, 2); (3, 0)]).
  - repeat constructor; simpl; lia.
  - reflexivity.
  - change (seqZ 0 (zlen [(3, 1); (15, 2); (3, 0)])) with [0; 1; 2].
    change ([1; 2; 0] ≡ₚ [0; 1; 2]). symmetry. apply (Permutation_cons_append [1; 2] 0).
Defined.

(** ** Mixed sizes *)

Definition size_text (size : Z) : list Z := bytes_of "[SIZE " ++ dec size ++ bytes_of "d] ".

(** The buffer of a size: the text, the letters, one NUL. *)
Definition filled (size i : Z) : list Z :=
  size_text size ++ replicate (Z.to_nat (size - zlen (size_text size) - 1)) (65 + i) ++ [0].

Lemma fill_buffer_spec junk size i : zlen junk = size -> zlen (size_text size) < size ->
  Forall (fun b => b <> 0) (size_text size) -> fill_buffer junk size i = Some (filled size i).
Proof.
  intros Hj Hlt H0. pose proof (zlen_nonneg (size_text size)) as Hp.
  unfold fill_buffer. fold (size_text size). set (text := size_text size) in *.
  unfold snprintf. rewrite (proj2 (Z.eqb_neq size 0)) by lia.
  rewrite take_ge by (unfold zlen in *; lia).
  pose proof (store_app [] (text ++ [0]) junk) as E1. rewrite zlen_app in E1.
  change (zlen []) with 0 in E1. change (zlen [0]) with 1 in E1. rewrite !app_nil_l in E1.
  rewrite E1 by lia. cbn [mbind option_bind].
  rewrite <-app_assoc. rewrite <-app_comm_cons, app_nil_l. rewrite strlen_nul by done. cbn [mbind option_bind].
  set (junk1 := 0 :: drop _ junk).
  assert (zlen junk1 = size - zlen text) as Hj1.
  { unfold junk1, zlen in *. cbn [length]. rewrite length_drop. lia. }
  set (letters := replicate (Z.to_nat (size - zlen text - 1)) (65 + i)).
  assert (zlen letters = size - zlen text - 1) as Hl by (unfold letters, zlen in *; rewrite length_replicate; lia).
  rewrite store_app by lia. cbn [mbind option_bind].
  set (junk2 := drop _ junk1).
  assert (zlen junk2 = 1) as Hj2 by (unfold junk2, zlen in *; rewrite length_drop; lia).
  rewrite app_assoc. replace (size - 1) with (zlen (text ++ letters)) by (rewrite zlen_app; lia).
  rewrite store_app by (rewrite Hj2; done). f_equal. unfold filled. fold text letters.
  rewrite <-!app_assoc. f_equal. f_equal. simpl. f_equal.
  apply nil_length_inv. rewrite length_drop. unfold zlen in *. simpl. lia.
Qed.

Lemma filled_strlen size i : 0 <= i -> zlen (size_text size) < size ->
  Forall (fun b => b <> 0) (size_text size) -> strlen (filled size i) = Some (size - 1).
Proof.
  intros Hi Hlt H0. unfold filled. rewrite app_assoc, strlen_nul.
  - f_equal. rewrite zlen_app. unfold zlen in *. rewrite length_replicate. lia.
  - apply Forall_app. split; [done |]. apply Forall_replicate. lia.
Qed.

Lemma sizes_fit : Forall (fun size => zlen (size_text size) < size /\
  Forall (fun b => b <> 0) (size_text size)) sizes.
Proof. vm_compute. repeat constructor; discriminate. Qed.

(** The mixed-size test never writes a sequence number: the filled buffer holds a string of [size - 1] characters,
    so no suffix ever fits before [size] and all messages of a size are the same. *)
Theorem mixed_sizes_have_no_sequence junk size i seq_num :
  size ∈ sizes -> 0 <= i -> zlen junk = size -> 0 <= seq_num ->
  exists buffer, fill_buffer junk size i = Some buffer /\ zlen buffer = size /\
    append_seq size seq_num buffer = Some buffer.
Proof.
  intros Hsize Hi Hj Hs. pose proof sizes_fit as HF. rewrite Forall_forall in HF.
  destruct (HF size Hsize) as [Hlt H0]. exists (filled size i).
  split; [by apply fill_buffer_spec |]. split.
  - unfold filled. rewrite !zlen_app. unfold zlen in *. rewrite length_replicate. cbn [length]. lia.
  - unfold append_seq. rewrite filled_strlen by done. cbn [mbind option_bind].
    rewrite (proj2 (Z.ltb_ge _ _)); [done |].
    assert (0 < zlen (take 31 (bytes_of " [SEQ " ++ dec seq_num ++ bytes_of "]"))); [| lia].
    unfold zlen. rewrite length_take, length_app. change (length (bytes_of " [SEQ ")) with 6%nat. lia.
Qed.

Lemma mixed_sizes_have_no_sequence_witness : exists buffer,
  fill_buffer (replicate 16 204) 16 0 = Some buffer /\ zlen buffer = 16 /\
  append_seq 16 7 buffer = Some buffer.
Proof.
  apply (mixed_sizes_have_no_sequence (replicate 16 204) 16 0 7);
    [left | lia | reflexivity | lia].
Defined.

(** ** Workers *)

Lemma write_messages_reports ans fuel h t n : forall i w,
  always ans any_stop (write_messages fuel h t n i w)
    (fun r _ => w <= r.1 <= w + Z.of_nat n /\ (r.2 = true <-> r.1 = w + Z.of_nat n)).
Proof.
  induction n as [| n IH]; intros i w; cbn [write_messages].
  - apply (always_mmlog ans _ _ (fun r => w <= r.1 <= w + Z.of_nat 0 /\ (r.2 = true <-> r.1 = w + Z.of_nat 0))).
    intros _. cbn [always fst snd]. lia.
  - set (Q := fun r : Z * bool => w <= r.1 <= w + Z.of_nat (S n) /\ (r.2 = true <-> r.1 = w + Z.of_nat (S n))).
    change (always ans any_stop (seq_num <- call Seq_fetch_add ;;
      ok <- mmlog (mmlog_insert fuel h (Some (message_text t seq_num))) ;;
      if negb ok then
        s <- mmlog mmlog_strerror_cur ;;
        call (Fprintf "Thread %d: Failed to insert message %d: %s" [AInt t; AInt i; strerror_text s]) ;;
        mmlog (trigger (FreeHandle h)) ;; Ret (w, false)
      else write_messages fuel h t n (i + 1) (w + 1)) (fun r _ => Q r)).
    cbn [call bind trigger always]. intros seq_num _. apply (always_mmlog ans _ _ Q).
    intros [|]; cbn [negb].
    + eapply always_mono; [apply IH |]. unfold Q. intros [w' b] tr. cbn [fst snd]. intros [H1 H2].
      split; [lia | rewrite H2; lia].
    + apply (always_mmlog ans _ _ Q). intros s. cbn [call bind trigger always]. intros _ _.
      apply (always_mmlog ans _ _ Q). intros _. unfold Q. simpl. split; [lia |].
      split; [done | lia].
Qed.

(** A worker that returns reports success exactly when it counted all its messages as written, and counts at most
    those, whatever mmlog.h and the environment do. *)
Theorem worker_reports ans fuel name t :
  always ans any_stop (thread_worker fuel name t)
    (fun r _ => 0 <= r.1 <= MESSAGES_PER_THREAD /\ (r.2 = true <-> r.1 = MESSAGES_PER_THREAD)).
Proof.
  set (Q := fun r : Z * bool => 0 <= r.1 <= MESSAGES_PER_THREAD /\ (r.2 = true <-> r.1 = MESSAGES_PER_THREAD)).
  apply (always_mmlog ans _ _ Q). intros handle. case_if.
  - apply (always_mmlog ans _ _ Q). intros s. cbn [call bind trigger always]. intros _ _.
    unfold Q, MESSAGES_PER_THREAD. simpl. split; [lia |]. split; [done | lia].
  - eapply always_mono; [apply write_messages_reports |]. unfold Q, MESSAGES_PER_THREAD.
    intros [w b] tr. cbn [fst snd]. intros [H1 H2]. split; [lia | rewrite H2; lia].
Qed.
