(* ===== verification/ForksMain.v ===== *)
(** * The forks test of the log

    [src/fastlog/eg/forks/src/main.c]: processes that write random messages, and the
    validation of the file. The bytes of a local array are a list; a store outside it
    stops with [Undefined]. *)
From stdpp Require Import base gmap sets list strings.
From Stdlib Require Import ZArith Lia.
From S2P Require Import Prelude Prog MmlogTypes MmlogOs MmlogOpen MmlogInsert Sys Text LogTest.

Definition NUM_PROCESSES : Z := 8.
Definition MESSAGES_PER_PROCESS : Z := 1000.
Definition MAX_MESSAGE_SIZE : Z := 512.
Definition CHUNK_SIZE : Z := 4 * 4096.
Definition NUM_CHUNKS : Z := 16.

Definition word_list : list string :=
  ["atomic"; "memory"; "mapped"; "log"; "concurrent"; "process"; "thread";
   "synchronization"; "lock"; "append"; "only"; "ftruncate"; "mmap"; "file";
   "metadata"; "chunk"; "buffer"; "ring"; "head"; "tail"; "write"; "read"]%string.

Definition NUM_WORDS : Z := zlen word_list.

(** An object's new contents, or undefined behaviour. *)
Definition defined {A} (o : option A) : tp A :=
  match o with Some a => Ret a | None => Halt Undefined end.

(** The words still to be added to [buffer] after position [pos], at most [n] of them. *)
Fixpoint add_words (max_size : Z) (n : nat) (pos : Z) (buffer : list Z) : tp (Z * list Z) :=
  match n with
  | O => Ret (pos, buffer)
  | S n =>
      if pos <? max_size - 1
      then
        r <- call Rand ;;
        word <- defined (znth word_list (r mod NUM_WORDS)) ;;
        b <- defined (snprintf pos (max_size - pos) (bytes_of word ++ [32]) buffer) ;;
        let '(buffer, k) := b in
        add_words max_size n (pos + k) buffer
      else Ret (pos, buffer)
  end.

Definition prefix_text (pid time : Z) : list Z :=
  bytes_of "[PID " ++ dec pid ++ bytes_of "] [" ++ dec time ++ bytes_of "] ".

(** The new contents of [buffer]. *)
Definition generate_random_message (max_size : Z) (buffer : list Z) : tp (list Z) :=
  r <- call Rand ;;
  let word_count := 3 + Z.rem r 8 in
  pid <- call Getpid ;;
  time <- call Time ;;
  b <- defined (snprintf 0 max_size (prefix_text pid time) buffer) ;;
  let '(buffer, pos) := b in
  r <- add_words max_size (Z.to_nat word_count) pos buffer ;;
  let '(pos, buffer) := r in
  defined (store pos [0] buffer).

(** The message with a newline instead of its terminator: the bytes and the array. *)
Definition with_newline (message : list Z) : option (list Z * list Z) :=
  msg_len ← strlen message;
  message ← store msg_len [10] message;
  let msg_len := msg_len + 1 in
  message ← store msg_len [0] message;
  Some (take (Z.to_nat msg_len) message, message).

(** [n] messages from message [i]. *)
Fixpoint write_messages (fuel : nat) (handle process_num : Z) (n : nat) (i : Z) (message : list Z) :
    tp unit :=
  match n with
  | O => mmlog (trigger (FreeHandle handle)) ;; Halt (Exited 0)
  | S n =>
      message <- generate_random_message MAX_MESSAGE_SIZE message ;;
      r <- defined (with_newline message) ;;
      let '(data, message) := r in
      ok <- mmlog (mmlog_insert fuel handle (Some data)) ;;
      if negb ok
      then
        e <- call (Strerror None) ;;
        call (Fprintf "Process %d: Failed to insert message %d: %s" [AInt process_num; AInt i; AStr e]) ;;
        mmlog (trigger (FreeHandle handle)) ;;
        Halt (Exited 1)
      else
        r <- call Rand ;;
        (if Z.rem r 10 =? 0 then us <- call Rand ;; call (Usleep (Z.rem us 1000)) else Ret tt) ;;
        write_messages fuel handle process_num n (i + 1) message
  end.

(** [junk] is what the array [message] holds at first. *)
Definition child_process (fuel : nat) (junk : list Z) (log_filename : string) (process_num : Z) : tp unit :=
  time <- call Time ;;
  pid <- call Getpid ;;
  call (Srand (u32 (time + pid))) ;;
  handle <- mmlog (mmlog_open fuel (Some log_filename) CHUNK_SIZE NUM_CHUNKS) ;;
  if handle =? NULL
  then
    e <- call (Strerror None) ;;
    call (Fprintf "Process %d: Failed to open log: %s" [AInt process_num; AStr e]) ;;
    Halt (Exited 1)
  else write_messages fuel handle process_num (Z.to_nat MESSAGES_PER_PROCESS) 0 junk.

(** [strstr(s, pat) != NULL] *)
Fixpoint is_prefix (pat s : list Z) : bool :=
  match pat, s with
  | [], _ => true
  | p :: pat, b :: s => (p =? b) && is_prefix pat s
  | _ :: _, [] => false
  end.

Fixpoint strstr (s pat : list Z) : bool :=
  is_prefix pat s || match s with _ :: s => strstr s pat | [] => false end.

Fixpoint count_lines (n : Z) (buffers : list (list Z)) : tp Z :=
  match buffers with
  | [] => Ret n
  | buffer :: buffers =>
      (if strstr (c_str buffer) (bytes_of "[PID ") then Ret tt
       else call (Fprintf "Invalid log line: %s" [ABytes buffer])) ;;
      count_lines (n + 1) buffers
  end.

Definition validate_log (log_filename : string) (expected_total_messages : Z) : tp bool :=
  file <- call (Fopen log_filename "rb") ;;
  match file with
  | None => call (Perror "Failed to open log file for validation") ;; Ret false
  | Some contents =>
      line_count <- count_lines 0 (lines (Z.to_nat (MAX_MESSAGE_SIZE - 1)) contents) ;;
      call Fclose ;;
      call (Printf "Validation: Found %d messages, expected %d"
              [AInt line_count; AInt expected_total_messages]) ;;
      Ret (line_count =? expected_total_messages)
  end.

(** The child of each [fork] runs [child_process], which does not return; the parent
    gets the process ids. *)
Fixpoint start_processes (fuel : nat) (junk : list Z) (log_filename : string) (i : Z) (n : nat) :
    tp (list Z) :=
  match n with
  | O => Ret []
  | S n =>
      pid <- call Fork ;;
      if pid <? 0 then call (Perror "Fork failed") ;; Halt (Exited 1)
      else
      (if pid =? 0 then child_process fuel junk log_filename i
       else call (Printf "Started child process %d with PID %d" [AInt i; AInt pid])) ;;
      pids <- start_processes fuel junk log_filename (i + 1) n ;;
      Ret (pid :: pids)
  end.

Definition WIFEXITED (status : Z) : bool := Z.land status 127 =? 0.
Definition WEXITSTATUS (status : Z) : Z := Z.land (Z.shiftr status 8) 255.

Fixpoint wait_processes (i success_count : Z) (child_pids : list Z) : tp Z :=
  match child_pids with
  | [] => Ret success_count
  | pid :: child_pids =>
      status <- call (Waitpid pid) ;;
      if WIFEXITED status && (WEXITSTATUS status =? 0)
      then
        call (Printf "Child process %d (PID %d) completed successfully" [AInt i; AInt pid]) ;;
        wait_processes (i + 1) (success_count + 1) child_pids
      else
        call (Printf "Child process %d (PID %d) failed with status %d"
                [AInt i; AInt pid; AInt (WEXITSTATUS status)]) ;;
        wait_processes (i + 1) success_count child_pids
  end.

Definition main (fuel : nat) (junk : list Z) : tp Z :=
  let log_filename := "fork_test.log"%string in
  call (Printf "Starting fork-based mmlog test with %d processes" [AInt NUM_PROCESSES]) ;;
  call (Printf "Each process will write %d messages" [AInt MESSAGES_PER_PROCESS]) ;;
  call (Unlink log_filename) ;;
  child_pids <- start_processes fuel junk log_filename 0 (Z.to_nat NUM_PROCESSES) ;;
  success_count <- wait_processes 0 0 child_pids ;;
  call (Printf "%d/%d processes completed successfully" [AInt success_count; AInt NUM_PROCESSES]) ;;
  handle <- mmlog (mmlog_open fuel (Some log_filename) CHUNK_SIZE NUM_CHUNKS) ;;
  if handle =? NULL
  then
    e <- call (Strerror None) ;;
    call (Fprintf "Failed to open log for validation: %s" [AStr e]) ;;
    Ret 1
  else
  mmlog (mmlog_trim handle) ;;
  validation_result <- validate_log log_filename (NUM_PROCESSES * MESSAGES_PER_PROCESS) ;;
  call (Printf "Test %s!" [AStr (if (validation_result : bool) then "PASSED" else "FAILED")]) ;;
  Ret (if validation_result then 0 else 1).

(** ** Messages *)

(** A string of [n] characters in a buffer of [size] bytes, none of them a newline. *)
Definition holds_text (size n : Z) (buffer : list Z) : Prop :=
  exists text rest, buffer = text ++ 0 :: rest /\ zlen text = n /\ zlen buffer = size /\
    Forall (fun b => b <> 0 /\ b <> 10) text.

Lemma strlen_text l r : Forall (fun b => b <> 0 /\ b <> 10) l -> strlen (l ++ 0 :: r) = Some (zlen l).
Proof.
  induction 1 as [| b l [Hb _] _ IH]; simpl; [done |].
  rewrite (proj2 (Z.eqb_neq b 0)), IH by done. simpl. unfold zlen. simpl. f_equal. lia.
Qed.

(** [snprintf] of a text that fits, where the buffer's string ends. *)
Lemma snprintf_text size n text buffer : holds_text size n buffer ->
  Forall (fun b => b <> 0 /\ b <> 10) text -> n + zlen text < size ->
  exists buffer', snprintf n (size - n) text buffer = Some (buffer', zlen text) /\
    holds_text size (n + zlen text) buffer'.
Proof.
  intros (l & rest & -> & <- & Hs & Hl) Ht Hfit. unfold snprintf.
  pose proof (zlen_nonneg text). rewrite (proj2 (Z.eqb_neq _ 0)) by lia.
  rewrite take_ge by (unfold zlen in *; lia).
  assert (zlen (0 :: rest) = size - zlen l) as Hr by (rewrite zlen_app in Hs; lia).
  rewrite store_app by (rewrite zlen_app; change (zlen [0]) with 1; lia).
  cbn [mbind option_bind]. eexists. split; [done |]. rewrite zlen_app. change (zlen [0]) with 1.
  eexists (l ++ text), _. split; [by rewrite <-!app_assoc |]. split; [by rewrite zlen_app |].
  split; [| by apply Forall_app].
  rewrite !zlen_app. unfold zlen in *. rewrite length_drop. simpl length in *. lia.
Qed.

(** The answers of the C library and the kernel that are non-negative [int]s and a time. *)
Definition sane : forall R, testE R -> R -> Prop :=
  fun R e => match e in testE R return R -> Prop with
             | Rand | Getpid => fun r => 0 <= r < 2 ^ 31
             | Time => fun r => 0 <= r < 2 ^ 63
             | _ => fun _ => True
             end.

Definition clean (b : Z) : bool := negb (b =? 0) && negb (b =? 10).

Lemma clean_text l : forallb clean l = true -> Forall (fun b => b <> 0 /\ b <> 10) l.
Proof.
  rewrite forallb_forall. intros H. apply Forall_forall. intros b Hb. apply list_elem_of_In in Hb.
  specialize (H b Hb). unfold clean in H. zbool. done.
Qed.

Lemma word_fits r word : znth word_list (r mod NUM_WORDS) = Some word ->
  Forall (fun b => b <> 0 /\ b <> 10) (bytes_of word ++ [32]) /\ zlen (bytes_of word ++ [32]) <= 16.
Proof.
  intros H. assert (word ∈ word_list) as Hin.
  { unfold znth in H. case_match; [| done]. by eapply list_elem_of_lookup_2. }
  assert (forallb (fun w => forallb clean (bytes_of w ++ [32]) && (zlen (bytes_of w ++ [32]) <=? 16))
    word_list = true) as HF by (vm_compute; reflexivity).
  rewrite forallb_forall in HF. apply list_elem_of_In in Hin. specialize (HF word Hin).
  apply andb_prop in HF as [H1 H2]. zbool. split; [by apply clean_text | done].
Qed.

Lemma word_exists r : is_Some (znth word_list (r mod NUM_WORDS)).
Proof.
  pose proof (Z.mod_pos_bound r NUM_WORDS ltac:(reflexivity)) as Hr.
  destruct (znth_is_Some word_list (r mod NUM_WORDS)) as [v Hv]; [exact Hr | by exists v].
Qed.

Lemma add_words_spec n : forall pos buffer, holds_text MAX_MESSAGE_SIZE pos buffer ->
  pos + 16 * Z.of_nat n < MAX_MESSAGE_SIZE ->
  always (env sane) nothing (add_words MAX_MESSAGE_SIZE n pos buffer)
    (fun r _ => holds_text MAX_MESSAGE_SIZE r.1 r.2 /\ r.1 <= pos + 16 * Z.of_nat n).
Proof.
  induction n as [| n IH]; intros pos buffer Hb Hn; cbn [add_words]; [simpl; split; [done | lia] |].
  case_if; [| split; [done | simpl; lia]].
  cbn [call bind trigger always]. intros r _. destruct (word_exists r) as [word Hw]. rewrite Hw.
  destruct (word_fits r word Hw) as [Hc Hl]. cbn [defined bind].
  destruct (snprintf_text _ _ _ _ Hb Hc) as (buffer' & -> & Hb'); [lia |]. cbn [defined bind].
  eapply always_mono; [apply IH; [done | lia] |]. intros [pos' b'] tr. simpl. lia || intros [H1 H2].
  split; [done | lia].
Qed.

Lemma dec_clean n : 0 <= n -> Forall (fun b => b <> 0 /\ b <> 10) (dec n).
Proof.
  intros Hn. destruct (dec_spec n Hn) as (HF & _). eapply Forall_impl; [exact HF |].
  intros b Hb. unfold digit in Hb. zbool. lia.
Qed.

Lemma prefix_fits pid time : 0 <= pid < 2 ^ 31 -> 0 <= time < 2 ^ 63 ->
  Forall (fun b => b <> 0 /\ b <> 10) (prefix_text pid time) /\ zlen (prefix_text pid time) <= 104.
Proof.
  intros Hp Ht. destruct (dec_spec pid) as (_ & _ & _ & Lp), (dec_spec time) as (_ & _ & _ & Lt); try lia.
  assert (Z.log2 pid <= 30 /\ Z.log2 time <= 62) as [H1 H2].
  { split; [destruct (decide (pid = 0)) as [-> |]; [done | pose proof (Z.log2_lt_pow2 pid 31); lia]
           | destruct (decide (time = 0)) as [-> |]; [done | pose proof (Z.log2_lt_pow2 time 63); lia]]. }
  unfold prefix_text. split.
  - repeat (apply Forall_app; split); try (apply dec_clean; lia); by apply clean_text.
  - rewrite !zlen_app. change (zlen (bytes_of "[PID ")) with 5.
    change (zlen (bytes_of "] [")) with 3. change (zlen (bytes_of "] ")) with 2. lia.
Qed.

Lemma generate_fits buffer : zlen buffer = MAX_MESSAGE_SIZE ->
  always (env sane) nothing (generate_random_message MAX_MESSAGE_SIZE buffer)
    (fun b _ => exists n, holds_text MAX_MESSAGE_SIZE n b /\ n <= 264).
Proof.
  intros Hb. unfold generate_random_message. cbn [call bind trigger always env sane].
  intros r Hr pid Hpid time Htime. destruct (prefix_fits pid time Hpid Htime) as [Hc Hl].
  set (text := prefix_text pid time) in *. clearbody text. pose proof (zlen_nonneg text).
  assert (exists b, snprintf 0 MAX_MESSAGE_SIZE text buffer = Some (b, zlen text) /\
    holds_text MAX_MESSAGE_SIZE (zlen text) b) as (b & -> & Hb').
  { unfold snprintf. rewrite (proj2 (Z.eqb_neq _ 0)) by done.
    rewrite take_ge by (unfold zlen, MAX_MESSAGE_SIZE in *; lia).
    pose proof (store_app [] (text ++ [0]) buffer) as E. rewrite !app_nil_l in E.
    rewrite zlen_app in E. change (zlen [0]) with 1 in E. change (zlen []) with 0 in E.
    rewrite E by (rewrite Hb; unfold MAX_MESSAGE_SIZE; lia). cbn [mbind option_bind].
    eexists. split; [done |]. eexists text, _. rewrite <-app_assoc. split; [done |].
    split; [done |]. split; [| done].
    rewrite !zlen_app. unfold zlen, MAX_MESSAGE_SIZE in *. rewrite length_drop. simpl length. lia. }
  cbn [defined bind].
  assert (3 <= 3 + Z.rem r 8 <= 10) as Hw.
  { rewrite Z.rem_mod_nonneg by lia. pose proof (Z.mod_pos_bound r 8). lia. }
  eapply always_bind.
  { apply add_words_spec; [exact Hb' |]. rewrite Z2Nat.id by lia. unfold MAX_MESSAGE_SIZE. lia. }
  intros [pos b2] tr [(l & rest & Eb & Hpos & Hs & Hcl) Hle]. simpl in Eb, Hpos, Hs, Hle. subst b2.
  rewrite Z2Nat.id in Hle by lia. cbv beta iota. rewrite <-Hpos.
  rewrite store_app by (change (zlen [0]) with 1; pose proof (zlen_nonneg rest); unfold zlen; simpl; lia).
  simpl. exists pos. split; [| lia]. exists l, (drop 0 rest). split; [done |].
  split; [done |]. split; [| done]. by rewrite drop_0.
Qed.

Lemma with_newline_line n b : holds_text MAX_MESSAGE_SIZE n b -> n <= 264 ->
  exists data message, with_newline b = Some (data, message) /\
    text_line (Z.to_nat (MAX_MESSAGE_SIZE - 1)) data /\ zlen message = MAX_MESSAGE_SIZE.
Proof.
  intros (l & rest & -> & Hn & Hs & Hc) Hle. unfold with_newline. rewrite strlen_text by done.
  cbn [mbind option_bind].
  assert (zlen rest = MAX_MESSAGE_SIZE - n - 1) as Hr.
  { rewrite zlen_app in Hs. unfold zlen in *. simpl in *. lia. }
  rewrite store_app by (change (zlen [10]) with 1; unfold zlen; simpl; lia).
  cbn [mbind option_bind]. change (drop (Z.to_nat (zlen [10])) (0 :: rest)) with (drop 0 rest).
  rewrite drop_0, app_assoc.
  replace (zlen l + 1) with (zlen (l ++ [10])) by (rewrite zlen_app; done).
  rewrite store_app by (change (zlen [0]) with 1; rewrite Hr; unfold MAX_MESSAGE_SIZE; lia).
  cbn [mbind option_bind]. eexists _, _. split; [done |].
  rewrite take_app_length' by (unfold zlen; lia). split.
  - exists l. split; [done |]. split; [eapply Forall_impl; [exact Hc |]; by intros b [_ ?] |].
    rewrite length_app. unfold zlen, MAX_MESSAGE_SIZE in *. simpl length. lia.
  - rewrite !zlen_app. unfold zlen in *. rewrite length_drop. simpl length. unfold MAX_MESSAGE_SIZE in *. lia.
Qed.

(** C22. Every random message fits its array of 512 bytes, the newline and the terminator added
    after it included, and is one line of the log; nothing is stored outside the array. *)
Theorem random_messages_are_lines buffer : zlen buffer = MAX_MESSAGE_SIZE ->
  always (env sane) nothing
    (b <- generate_random_message MAX_MESSAGE_SIZE buffer ;; defined (with_newline b))
    (fun r _ => text_line (Z.to_nat (MAX_MESSAGE_SIZE - 1)) r.1 /\ zlen r.2 = MAX_MESSAGE_SIZE).
Proof.
  intros Hb. eapply always_bind; [by apply generate_fits |]. intros b tr (n & Hn & Hle).
  by destruct (with_newline_line n b Hn Hle) as (data & message & -> & Hd & Hm).
Qed.

Lemma random_messages_are_lines_witness :
  always (env sane) nothing
    (b <- generate_random_message MAX_MESSAGE_SIZE (replicate 512 255) ;; defined (with_newline b))
    (fun r _ => text_line (Z.to_nat (MAX_MESSAGE_SIZE - 1)) r.1 /\ zlen r.2 = MAX_MESSAGE_SIZE).
Proof. apply (random_messages_are_lines (replicate 512 255)). reflexivity. Defined.

(** ** Validation *)

Lemma count_lines_spec ans n bs :
  always ans nothing (count_lines n bs) (fun r _ => r = n + zlen bs).
Proof.
  revert n. induction bs as [| b bs IH]; intros n; [unfold zlen; simpl; lia |].
  cbn [count_lines]. eapply always_bind with (P := fun _ _ => True); [by case_if |].
  intros _ ? _. eapply always_mono; [apply IH |]. unfold zlen. simpl. intros r ?. lia.
Qed.

(** The forks test only counts lines: a readable file validates exactly when it has the expected number of lines,
    whatever they say. *)
Theorem validate_log_counts name N contents :
  always (env (fun R (e : testE R) => match e in testE R return R -> Prop with
                                      | Fopen _ _ => fun r => r = Some contents
                                      | _ => fun _ => True
                                      end)) nothing (validate_log name N)
    (fun r _ => r = (zlen (lines (Z.to_nat (MAX_MESSAGE_SIZE - 1)) contents) =? N)).
Proof.
  unfold validate_log. cbn [call bind trigger always env]. intros file ->.
  eapply always_bind; [apply count_lines_spec |]. intros n tr ->.
  cbn [call bind trigger always]. by intros _ _ _ _.
Qed.
