(* ===== verification/Mapping.v ===== *)
(** * Shared mappings, page by page

    The calls by which the experiments map files into memory, and a machine that gives them
    meaning: which page of which file each page of the address space shows. A page without
    an entry is not accessible. *)
From stdpp Require Import base gmap sets list strings.
From Stdlib Require Import ZArith Lia.
From S2P Require Import Prelude Prog.

#[local] Arguments Z.mul : simpl never.
#[local] Arguments Z.add : simpl never.
#[local] Arguments Z.div : simpl never.

(** Files are numbered; a page of the address space shows a page of a file. *)
Inductive mapE : Type -> Type :=
| MemfdCreate : mapE Z
| OpenTmpfile (dir : string) : mapE Z
| FtruncateFd (fd len : Z) : mapE Z
| MmapAny (len fd : Z) : mapE Z
| MmapReserve (len : Z) : mapE Z           (* anonymous, PROT_NONE *)
| MmapFixed (addr len fd : Z) : mapE Z
| MunmapRange (addr len : Z) : mapE unit
| CloseFd (fd : Z) : mapE unit.

Abbreviation mapM := (prog mapE).

Definition MAP_FAILED : Z := -1.

(** The descriptors and the files behind them, the size of each file, the pages of the
    address space, the next unused number and address, and what the kernel decides
    about the next fallible calls. *)
Record space := MkSpace {
  s_fds : gmap Z Z;
  s_sizes : gmap Z Z;
  s_pages : gmap Z (Z * Z);
  s_next : Z;
  s_brk : Z;
  s_ok : list bool }.

(** Does the next fallible call succeed? An exhausted list means yes. *)
Definition pop_ok (s : space) : bool * space :=
  match s_ok s with
  | [] => (true, s)
  | b :: l => (b, MkSpace (s_fds s) (s_sizes s) (s_pages s) (s_next s) (s_brk s) l)
  end.

Definition pages_of (len : Z) : nat := Z.to_nat ((len + 4095) / 4096).

(** Show the pages of [ino] from its start at the [n] pages from page [pg] on. *)
Fixpoint map_pages (pg ino off : Z) (n : nat) (m : gmap Z (Z * Z)) : gmap Z (Z * Z) :=
  match n with
  | O => m
  | S k => map_pages (pg + 1) ino (off + 1) k (<[pg := (ino, off)]> m)
  end.

Fixpoint unmap_pages (pg : Z) (n : nat) (m : gmap Z (Z * Z)) : gmap Z (Z * Z) :=
  match n with
  | O => m
  | S k => unmap_pages (pg + 1) k (delete pg m)
  end.

Definition new_file (s : space) : outcome space Z :=
  let '(ok, s) := pop_ok s in
  if negb ok then Done (-1) s
  else Done (s_next s) (MkSpace (<[s_next s := s_next s]> (s_fds s)) (<[s_next s := 0]> (s_sizes s))
                       (s_pages s) (s_next s + 1) (s_brk s) (s_ok s)).

Definition map_h : handler mapE space := fun R e s =>
  match e in mapE R return outcome space R with
  | MemfdCreate => new_file s
  | OpenTmpfile _ => new_file s
  | FtruncateFd fd len =>
      let '(ok, s) := pop_ok s in
      match ok, s_fds s !! fd with
      | true, Some ino => Done 0 (MkSpace (s_fds s) (<[ino := len]> (s_sizes s)) (s_pages s)
                                    (s_next s) (s_brk s) (s_ok s))
      | _, _ => Done (-1) s
      end
  | MmapAny len fd =>
      let '(ok, s) := pop_ok s in
      match ok && (0 <? len), s_fds s !! fd with
      | true, Some ino =>
          let n := pages_of len in
          Done (s_brk s * 4096) (MkSpace (s_fds s) (s_sizes s) (map_pages (s_brk s) ino 0 n (s_pages s))
                                  (s_next s) (s_brk s + Z.of_nat n) (s_ok s))
      | _, _ => Done MAP_FAILED s
      end
  | MmapReserve len =>
      let '(ok, s) := pop_ok s in
      if ok && (0 <? len)
      then Done (s_brk s * 4096) (MkSpace (s_fds s) (s_sizes s) (s_pages s) (s_next s)
                                    (s_brk s + Z.of_nat (pages_of len)) (s_ok s))
      else Done MAP_FAILED s
  | MmapFixed addr len fd =>
      let '(ok, s) := pop_ok s in
      match ok && (0 <? len) && (addr mod 4096 =? 0), s_fds s !! fd with
      | true, Some ino =>
          Done addr (MkSpace (s_fds s) (s_sizes s) (map_pages (addr / 4096) ino 0 (pages_of len) (s_pages s))
                      (s_next s) (s_brk s) (s_ok s))
      | _, _ => Done MAP_FAILED s
      end
  | MunmapRange addr len =>
      Done tt (MkSpace (s_fds s) (s_sizes s) (unmap_pages (addr / 4096) (pages_of len) (s_pages s))
                (s_next s) (s_brk s) (s_ok s))
  | CloseFd fd => Done tt (MkSpace (delete fd (s_fds s)) (s_sizes s) (s_pages s)
                            (s_next s) (s_brk s) (s_ok s))
  end.

(** ** Pages *)

Lemma map_pages_lookup pg ino off n m k : map_pages pg ino off n m !! k =
  if decide (pg <= k < pg + Z.of_nat n) then Some (ino, off + (k - pg)) else m !! k.
Proof.
  revert pg off m. induction n as [| n IH]; intros pg off m.
  - rewrite decide_False by lia. done.
  - cbn [map_pages]. rewrite IH. destruct (decide (k = pg)) as [-> |].
    + rewrite decide_False, decide_True by lia. rewrite lookup_insert_eq. do 2 f_equal. lia.
    + rewrite lookup_insert_ne by done. destruct (decide (pg + 1 <= k < pg + 1 + Z.of_nat n)).
      * rewrite decide_True by lia. do 2 f_equal. lia.
      * by rewrite decide_False by lia.
Qed.

Lemma unmap_pages_lookup pg n m k : unmap_pages pg n m !! k =
  if decide (pg <= k < pg + Z.of_nat n) then None else m !! k.
Proof.
  revert pg m. induction n as [| n IH]; intros pg m.
  - rewrite decide_False by lia. done.
  - cbn [unmap_pages]. rewrite IH. destruct (decide (k = pg)) as [-> |].
    + rewrite decide_False, decide_True by lia. by rewrite lookup_delete_eq.
    + rewrite lookup_delete_ne by done. destruct (decide (pg + 1 <= k < pg + 1 + Z.of_nat n)).
      * by rewrite decide_True by lia.
      * by rewrite decide_False by lia.
Qed.

(** Addresses and numbers from the next ones on are unused. *)
Record clean (s : space) : Prop := {
  cl_pages : forall k, s_brk s <= k -> s_pages s !! k = None;
  cl_fds : forall fd, s_next s <= fd -> s_fds s !! fd = None;
  cl_brk : 0 <= s_brk s;
  cl_next : 0 <= s_next s }.

(** The kernel's decision about one call. *)
Lemma pop_cases s : exists b l, pop_ok s =
  (b, MkSpace (s_fds s) (s_sizes s) (s_pages s) (s_next s) (s_brk s) l).
Proof. unfold pop_ok. destruct s as [? ? ? ? ? [| b l]]; by eexists _, _. Qed.
