(* ===== verification/RingBuffer.v ===== *)
(** * simple_ringbuffer: a ring buffer in mirrored shared memory

    [src/simple_ringbuffer/ring_buffer.hpp] and its demonstration [main.cpp]. The header
    declares the template [Buffer] without defining its members, so they are a
    parameter: the operations are the class [BufferOps], and what [RBIn] relies on is
    [BufferLaws]. *)
From stdpp Require Import base gmap sets list strings.
From Stdlib Require Import ZArith Lia.
From S2P Require Import Prelude Prog Sys Mapping.

(** [ALIGN(x, 4096)] on a [size_t]: the mask is sign-extended to 64 bits. *)
Definition PAGE_ALIGN (x : Z) : Z := Z.land (u64 (u64 (x + 4096) - 1)) (u64 (Z.lnot (4096 - 1))).

(** ** Entries on the writer's side *)

Class BufferOps (V B : Type) := {
  b_add : V -> B -> B;
  b_serializedSize : B -> Z;
  b_data : B -> list Z;
  b_clear : B -> B;
  b_size : B -> Z }.

(** What [RBIn] expects of a buffer: it accumulates values, and [data()] points to
    [serializedSize()] bytes that hold the encoded values one after another. *)
Class BufferLaws (V B : Type) `{BufferOps V B} (enc : V -> list Z) (contents : B -> list V) : Prop := {
  b_add_contents v b : contents (b_add v b) = contents b ++ [v];
  b_clear_contents b : contents (b_clear b) = [];
  b_size_contents b : b_size b = zlen (contents b);
  b_data_contents b : take (Z.to_nat (b_serializedSize b)) (b_data b) = concat (map enc (contents b));
  b_serializedSize_data b : 0 <= b_serializedSize b <= zlen (b_data b) }.

(** How the reader finds a line and a string: 8 bytes, and the characters up to a NUL. *)
Definition enc_word (v : Z) : list Z := le_split 8 v.
Definition enc_str (s : list Z) : list Z := s ++ [0].

(** ** Operations on the shared region

    Positions are offsets from [buffer]. *)
Inductive rbE : Type -> Type :=
| LoadWritePos : rbE Z
| LoadReadPos : rbE Z
| StoreReadPos (v : Z) : rbE unit
| CasWritePos (expected desired : Z) : rbE bool
| Yield : rbE unit
| StoreByte (p b : Z) : rbE unit
| LoadByte (p : Z) : rbE Z
| Iterate (filename name : list Z) (line : Z) : rbE unit.

Abbreviation rbM := (prog rbE).

(** ** The entry that is written *)

Section RBIn.
Context {LB FB : Type} `{BufferOps Z LB} `{BufferOps (list Z) FB}.

Record RBIn := MkRBIn {
  lines : LB;
  filenames : FB;
  names : FB;
  values : list Z }.

Definition sizeof_size_t : Z := 8.

Definition serializedSize (rb : RBIn) : Z :=
  u64 (sizeof_size_t * 7 + b_serializedSize (lines rb) + b_serializedSize (filenames rb)
       + b_serializedSize (names rb) + zlen (values rb) * 8).

Definition push (filename name : list Z) (line : Z) (rb : RBIn) : RBIn :=
  MkRBIn (b_add line (lines rb)) (b_add filename (filenames rb)) (b_add name (names rb)) (values rb).

Definition get_size (rb : RBIn) : Z := b_size (lines rb).

Definition clear (rb : RBIn) : RBIn :=
  MkRBIn (b_clear (lines rb)) (b_clear (filenames rb)) (b_clear (names rb)) [].

Fixpoint memcpy (p : Z) (data : list Z) : rbM unit :=
  match data with
  | [] => Ret tt
  | b :: data' => trigger (StoreByte p b) ;; memcpy (p + 1) data'
  end.

(** The overloads of [serialize] and the two copies: each returns the advanced
    [write_ptr]. *)
Definition serialize_word (val write_ptr : Z) : rbM Z :=
  memcpy write_ptr (enc_word val) ;; Ret (write_ptr + sizeof_size_t).

Definition serialize_buffer {V B} `{BufferOps V B} (buffer : B) (write_ptr : Z) : rbM Z :=
  let sz := b_serializedSize buffer in
  memcpy write_ptr (take (Z.to_nat sz) (b_data buffer)) ;; Ret (write_ptr + sz).

Definition serialize_vector (buffer : list Z) (write_ptr : Z) : rbM Z :=
  let sz := zlen buffer * 8 in
  memcpy write_ptr (concat (map enc_word buffer)) ;; Ret (write_ptr + sz).

Definition serialize (rb : RBIn) (write_ptr : Z) : rbM unit :=
  let serialized_sz := serializedSize rb in
  write_ptr <- serialize_word serialized_sz write_ptr ;;
  write_ptr <- serialize_word (get_size rb) write_ptr ;;
  write_ptr <- serialize_word (zlen (values rb)) write_ptr ;;
  let lines_offset := 7 * sizeof_size_t in
  let filenames_offset := u64 (lines_offset + b_serializedSize (lines rb)) in
  let names_offset := u64 (filenames_offset + b_serializedSize (filenames rb)) in
  let values_offset := u64 (names_offset + b_serializedSize (names rb)) in
  write_ptr <- serialize_word lines_offset write_ptr ;;
  write_ptr <- serialize_word filenames_offset write_ptr ;;
  write_ptr <- serialize_word names_offset write_ptr ;;
  write_ptr <- serialize_word values_offset write_ptr ;;
  write_ptr <- serialize_buffer (lines rb) write_ptr ;;
  write_ptr <- serialize_buffer (filenames rb) write_ptr ;;
  write_ptr <- serialize_buffer (names rb) write_ptr ;;
  write_ptr <- serialize_vector (values rb) write_ptr ;;
  Ret tt.

(** ** Entries on the reader's side *)

Fixpoint load_bytes (p : Z) (n : nat) : rbM (list Z) :=
  match n with
  | O => Ret []
  | S m => b <- trigger (LoadByte p) ;; bs <- load_bytes (p + 1) m ;; Ret (b :: bs)
  end.

(** [read<size_t>], without the advance of the pointer. *)
Definition read_word (p : Z) : rbM Z := bs <- load_bytes p 8 ;; Ret (le_combine bs).

(** The characters of the string at [p]; [strlen] is their number. *)
Fixpoint load_str (fuel : nat) (p : Z) : rbM (list Z) :=
  match fuel with
  | O => Halt OutOfFuel
  | S n => b <- trigger (LoadByte p) ;;
           if b =? 0 then Ret [] else bs <- load_str n (p + 1) ;; Ret (b :: bs)
  end.

Definition load_strlen (fuel : nat) (p : Z) : rbM Z := s <- load_str fuel p ;; Ret (zlen s).

(** The loop over the entries; [lines], [filenames] and [names] are pointers. *)
Fixpoint iterate_entries (fuel : nat) (i : Z) (n : nat) (lines filenames names : Z) : rbM unit :=
  match n with
  | O => Ret tt
  | S m =>
      filename <- load_str fuel filenames ;;
      name <- load_str fuel names ;;
      line <- read_word (lines + i * 8) ;;
      trigger (Iterate filename name (i64 line)) ;;
      l1 <- load_strlen fuel filenames ;;
      l2 <- load_strlen fuel names ;;
      iterate_entries fuel (i + 1) m lines (filenames + (l1 + 1)) (names + (l2 + 1))
  end.

(** [RBOut]: the constructor reads the entry at [buffer_start], calls the
    function on each of its elements and keeps [buffer_size]. *)
Definition deserialize (fuel : nat) (buffer_start : Z) : rbM Z :=
  buffer_size <- read_word buffer_start ;;
  num_entries <- read_word (buffer_start + 8) ;;
  num_values <- read_word (buffer_start + 16) ;;
  lines_offset <- read_word (buffer_start + 24) ;;
  filenames_offset <- read_word (buffer_start + 32) ;;
  names_offset <- read_word (buffer_start + 40) ;;
  values_offset <- read_word (buffer_start + 48) ;;
  for_range 0 (Z.to_nat num_values) (fun i =>
    read_word (buffer_start + values_offset + i * 8) ;; Ret tt) ;;
  iterate_entries fuel 0 (Z.to_nat num_entries) (buffer_start + lines_offset)
    (buffer_start + filenames_offset) (buffer_start + names_offset) ;;
  Ret buffer_size.

(** ** The ring buffer *)

Section Ring.
Context (size : Z).

(** One pass of the loop of [write]: [inl tries] tries again, [inr (Some p)] has
    reserved the entry at [p], [inr None] returns false. *)
Definition write_step (serialized_sz tries : Z) : rbM (Z + option Z) :=
  saved_write <- trigger LoadWritePos ;;
  saved_read <- trigger LoadReadPos ;;
  let next_write := u64 (saved_write + serialized_sz) in
  if next_write <? u64 (saved_read + size)
  then
    ok <- trigger (CasWritePos saved_write (next_write mod size)) ;;
    if (ok : bool) then Ret (inr (Some saved_write))
    else
    let tries := tries - 1 in
    if 0 <? tries then trigger Yield ;; Ret (inl tries) else Ret (inr None)
  else Ret (inr None).

(** The loop makes at most three passes. *)
Definition write (entry : RBIn) : rbM bool :=
  let serialized_sz := serializedSize entry in
  r <- loop 3 (write_step serialized_sz) 3 ;;
  match r with
  | Some saved_write => serialize entry saved_write ;; Ret true
  | None => Ret false
  end.

Definition read (fuel : nat) : rbM bool :=
  r <- trigger LoadReadPos ;;
  w <- trigger LoadWritePos ;;
  if r =? w then Ret false
  else
  start <- trigger LoadReadPos ;;
  serialized_sz <- deserialize fuel start ;;
  saved_read <- trigger LoadReadPos ;;
  let next_read := u64 (saved_read + serialized_sz) in
  trigger (StoreReadPos (next_read mod size)) ;;
  Ret true.

(** The parent's and the child's loops in [main]. *)
Definition write_all (fuel : nat) (entry : RBIn) : rbM unit :=
  loop fuel (fun _ => ok <- write entry ;; Ret (if (ok : bool) then inl tt else inr tt)) tt.

Definition read_all (fuel : nat) : rbM unit :=
  loop fuel (fun _ => ok <- read fuel ;; Ret (if (ok : bool) then inl tt else inr tt)) tt.

(** ** The shared region *)

(** The file behind the mapping (bytes never stored are zero), the two
    positions, and the calls of the reader's function, oldest first. *)
Record ring := MkRing {
  mem : gmap Z Z;
  read_pos : Z;
  write_pos : Z;
  delivered : list (list Z * list Z * Z) }.

(** The byte at an address of the mirrored mapping: the two halves show the same file. *)
Definition byte_at (m : gmap Z Z) (p : Z) : Z := default 0 (m !! (p mod size)).

Definition in_mapping (p : Z) : bool := (0 <=? p) && (p <? size * 2).

Definition SIGSEGV : Z := 11.

Definition rb_h : handler rbE (unit * ring) := fun R e s =>
  let '(u, st) := s in
  match e in rbE R return outcome (unit * ring) R with
  | LoadWritePos => Done (write_pos st) s
  | LoadReadPos => Done (read_pos st) s
  | StoreReadPos v => Done tt (u, MkRing (mem st) v (write_pos st) (delivered st))
  | CasWritePos expected desired =>
      if write_pos st =? expected
      then Done true (u, MkRing (mem st) (read_pos st) desired (delivered st))
      else Done false s
  | Yield => Done tt s
  | StoreByte p b =>
      if in_mapping p
      then Done tt (u, MkRing (<[p mod size := b]> (mem st)) (read_pos st) (write_pos st) (delivered st))
      else Stopped (Signaled SIGSEGV) s
  | LoadByte p =>
      if in_mapping p then Done (byte_at (mem st) p) s else Stopped (Signaled SIGSEGV) s
  | Iterate filename name line =>
      Done tt (u, MkRing (mem st) (read_pos st) (write_pos st) (delivered st ++ [(filename, name, line)]))
  end.
End Ring.
End RBIn.

Arguments RBIn LB FB : clear implicits.

(** ** Mapping the region *)

(** [None] is false; [Some (buffer, buffer_mirror)] sets the members. *)
Definition try_map (size fd : Z) : mapM (option (Z * Z)) :=
  buffer <- trigger (MmapAny (size * 2) fd) ;;
  if buffer =? MAP_FAILED then trigger (CloseFd fd) ;; Ret None
  else
  buffer_mirror <- trigger (MmapFixed (buffer + size) size fd) ;;
  if buffer_mirror =? MAP_FAILED
  then trigger (MunmapRange buffer (size * 2)) ;; trigger (CloseFd fd) ;; Ret None
  else Ret (Some (buffer, buffer_mirror)).

Definition buffer_from_memfd (size : Z) : mapM (option (Z * Z)) :=
  fd <- trigger MemfdCreate ;;
  if fd =? -1 then Ret None
  else
  r <- trigger (FtruncateFd fd size) ;;
  if r =? -1 then trigger (CloseFd fd) ;; Ret None
  else
  ret <- try_map size fd ;;
  trigger (CloseFd fd) ;;
  Ret ret.

(** The four initialisers: the first is two adjacent literals, which the
    compiler concatenates. *)
Definition dirs : list string :=
  [String.append "/tmp" "/dev/shm"; "/run/shm"; "/var/tmp"; "."]%string.

Fixpoint open_first (dirs : list string) : mapM Z :=
  match dirs with
  | [] => Ret (-1)
  | dir :: rest =>
      fd <- trigger (OpenTmpfile dir) ;;
      if negb (fd =? -1) then Ret fd else open_first rest
  end.

Definition buffer_from_tmpfile (size : Z) : mapM (option (Z * Z)) :=
  fd <- open_first dirs ;;
  if fd =? -1 then Ret None
  else
  r <- trigger (FtruncateFd fd size) ;;
  if r =? -1 then trigger (CloseFd fd) ;; Ret None
  else
  ret <- try_map size fd ;;
  trigger (CloseFd fd) ;;
  Ret ret.

(** The constructor; [None] is the exception it throws. *)
Definition RingBuffer (size : Z) : mapM (option (Z * Z * Z)) :=
  let size := PAGE_ALIGN size in
  r <- buffer_from_memfd size ;;
  match r with
  | Some (buffer, buffer_mirror) => Ret (Some (size, buffer, buffer_mirror))
  | None =>
      r <- buffer_from_tmpfile size ;;
      match r with
      | Some (buffer, buffer_mirror) => Ret (Some (size, buffer, buffer_mirror))
      | None => Ret None
      end
  end.

(** The destructor. *)
Definition RingBuffer_destroy (size buffer : Z) : mapM unit := trigger (MunmapRange buffer (size * 2)).
