(* ===== verification/RingProps.v ===== *)
(** * simple_ringbuffer: properties

    Alone, the ring is a bounded queue of entries: [write] appends an entry and [read]
    delivers the oldest one ([ring_refines_queue]). The free-space check is exact until the write
    position wraps ([write_decision]); then it accepts entries that overwrite
    unread ones. *)
From stdpp Require Import base gmap sets list strings relations.
From Stdlib Require Import ZArith Lia.
From S2P Require Import Prelude Prog Conc Sys RingBuffer.

#[local] Arguments Z.mul : simpl never.
#[local] Arguments Z.add : simpl never.
#[local] Arguments le_split : simpl never.
#[local] Arguments bind : simpl never.
#[local] Arguments trigger : simpl never.

(** ** Words *)

Lemma le_split_word v : length (enc_word v) = 8%nat.
Proof. apply le_split_length. Qed.

Lemma enc_word_zlen v : zlen (enc_word v) = 8.
Proof. unfold zlen. by rewrite le_split_word. Qed.

Lemma word_roundtrip v : le_combine (enc_word v) = u64 v.
Proof. unfold enc_word. by rewrite le_combine_split. Qed.

Lemma i64_u64 v : - 2 ^ 63 <= v < 2 ^ 63 -> i64 (u64 v) = v.
Proof.
  intros Hv. unfold swrap, wrap. rewrite Zplus_mod_idemp_l. change (64 - 1) with 63.
  rewrite Z.mod_small by lia. lia.
Qed.

Lemma words_zlen ws : zlen (concat (map enc_word ws)) = 8 * zlen ws.
Proof.
  induction ws as [| w ws IH]; [done |]. cbn [map concat]. rewrite zlen_app, zlen_cons, enc_word_zlen, IH. lia.
Qed.

(** ** The mirrored memory *)

Section Mem.
Context (S : Z) (HS : 0 < S).
Implicit Types m : gmap Z Z.

Abbreviation byte_at := (byte_at S).

(** [data] stored from position [p] on. *)
Fixpoint ring_put (p : Z) (data : list Z) m : gmap Z Z :=
  match data with
  | [] => m
  | b :: data' => ring_put (p + 1) data' (<[p mod S := b]> m)
  end.

(** The bytes [l] are found from position [p] on. *)
Definition bytes_from m (p : Z) (l : list Z) : Prop :=
  forall k b, znth l k = Some b -> byte_at m (p + k) = b.

Lemma ring_put_app p d1 d2 m : ring_put p (d1 ++ d2) m = ring_put (p + zlen d1) d2 (ring_put p d1 m).
Proof.
  revert p m. induction d1 as [| b d1 IH]; intros p m; [by rewrite zlen_nil, Z.add_0_r |].
  simpl. rewrite IH, zlen_cons. f_equal. lia.
Qed.

Lemma byte_at_mod m p q : p mod S = q mod S -> byte_at m p = byte_at m q.
Proof. intros E. unfold RingBuffer.byte_at. by rewrite E. Qed.

Lemma ring_put_other p data m x :
  (forall k, 0 <= k < zlen data -> (p + k) mod S <> x mod S) ->
  byte_at (ring_put p data m) x = byte_at m x.
Proof.
  revert p m. induction data as [| b data IH]; intros p m Hx; [done |]. simpl.
  rewrite IH.
  - unfold RingBuffer.byte_at. rewrite lookup_insert_ne; [done |].
    specialize (Hx 0). rewrite Z.add_0_r in Hx. apply Hx. rewrite zlen_cons. pose proof (zlen_nonneg data). lia.
  - intros k Hk. replace (p + 1 + k) with (p + (1 + k)) by lia. apply Hx. rewrite zlen_cons. lia.
Qed.

(** Different positions less than [S] apart are different bytes. *)
Lemma mod_apart p a b : a <> b -> - S < a - b < S -> (p + a) mod S <> (p + b) mod S.
Proof.
  intros Hne Hd E. pose proof (Z.div_mod (p + a) S ltac:(lia)). pose proof (Z.div_mod (p + b) S ltac:(lia)).
  assert (a - b = S * ((p + a) / S - (p + b) / S)) as Hab by lia.
  assert ((p + a) / S - (p + b) / S = 0) by nia. lia.
Qed.

Lemma znth_cons {A} (x : A) l k : znth (x :: l) k = if k =? 0 then Some x else znth l (k - 1).
Proof.
  unfold znth. destruct (0 <=? k) eqn:Hk; zbool.
  - destruct (k =? 0) eqn:E; zbool; [by subst |]. rewrite (proj2 (Z.leb_le 0 _)) by lia.
    replace (Z.to_nat k) with (Datatypes.S (Z.to_nat (k - 1))) by lia. done.
  - rewrite (proj2 (Z.eqb_neq k 0)) by lia. by rewrite (proj2 (Z.leb_gt 0 (k - 1))) by lia.
Qed.

Lemma znth_range {A} (l : list A) k x : znth l k = Some x -> 0 <= k < zlen l.
Proof.
  unfold znth. destruct (0 <=? k) eqn:Hk; [| done]. zbool. intros Hl.
  apply lookup_lt_Some in Hl. unfold zlen. lia.
Qed.

Lemma bytes_from_cons m p b l : bytes_from m p (b :: l) <-> byte_at m p = b /\ bytes_from m (p + 1) l.
Proof.
  split.
  - intros Hb. split.
    + rewrite <-(Z.add_0_r p). apply Hb. done.
    + intros k c Hk. pose proof (znth_range _ _ _ Hk). replace (p + 1 + k) with (p + (1 + k)) by lia.
      apply Hb. rewrite znth_cons, (proj2 (Z.eqb_neq _ 0)) by lia. by replace (1 + k - 1) with k by lia.
  - intros [H0 Hl] k c Hk. rewrite znth_cons in Hk. destruct (k =? 0) eqn:E; zbool.
    + subst k. rewrite Z.add_0_r. congruence.
    + replace (p + k) with (p + 1 + (k - 1)) by lia. by apply Hl.
Qed.

Lemma bytes_from_nil m p : bytes_from m p [].
Proof. intros k b Hk. apply znth_range in Hk. unfold zlen in Hk. simpl in Hk. lia. Qed.

Lemma bytes_from_app m p l1 l2 :
  bytes_from m p (l1 ++ l2) <-> bytes_from m p l1 /\ bytes_from m (p + zlen l1) l2.
Proof.
  revert p. induction l1 as [| b l1 IH]; intros p; simpl.
  - rewrite zlen_nil, Z.add_0_r. split; [intros ?; split; [apply bytes_from_nil | done] | by intros [_ ?]].
  - rewrite !bytes_from_cons, IH, zlen_cons.
    replace (p + 1 + zlen l1) with (p + (1 + zlen l1)) by lia. tauto.
Qed.

Lemma bytes_from_mod m p q l : p mod S = q mod S -> bytes_from m p l -> bytes_from m q l.
Proof.
  intros E Hl k b Hk. rewrite (byte_at_mod _ _ (p + k)); [by apply Hl |].
  by rewrite <-(Zplus_mod_idemp_l q), <-E, Zplus_mod_idemp_l.
Qed.

Lemma ring_put_same p data m : zlen data <= S -> bytes_from (ring_put p data m) p data.
Proof.
  revert p m. induction data as [| b data IH]; intros p m Hd; [apply bytes_from_nil |].
  rewrite zlen_cons in Hd. pose proof (zlen_nonneg data). simpl. rewrite bytes_from_cons. split.
  - rewrite ring_put_other.
    + unfold RingBuffer.byte_at. by rewrite lookup_insert_eq.
    + intros k Hk. replace (p + 1 + k) with (p + (1 + k)) by lia. rewrite <-(Z.add_0_r p) at 2.
      apply mod_apart; lia.
  - apply IH. lia.
Qed.

(** Data stored from [p + n] on leaves the [n] bytes before it alone. *)
Lemma ring_put_before p l data m :
  zlen l + zlen data <= S -> bytes_from m p l -> bytes_from (ring_put (p + zlen l) data m) p l.
Proof.
  intros Hs Hl k b Hk. rewrite ring_put_other; [by apply Hl |]. apply znth_range in Hk.
  intros j Hj. rewrite <-Z.add_assoc. apply mod_apart; lia.
Qed.

Lemma ring_put_mod p q data m : p mod S = q mod S -> ring_put p data m = ring_put q data m.
Proof.
  revert p q m. induction data as [| b data IH]; intros p q m E; [done |]. simpl. rewrite E.
  apply IH. by rewrite <-(Zplus_mod_idemp_l p), E, Zplus_mod_idemp_l.
Qed.

(** ** Loads and stores, alone *)

Abbreviation RH := (rb_h S).
Implicit Types st : ring.

Definition with_mem (f : gmap Z Z -> gmap Z Z) st : ring :=
  MkRing (f (mem st)) (read_pos st) (write_pos st) (delivered st).

Lemma in_mapping_true p : 0 <= p < S * 2 -> in_mapping S p = true.
Proof. intros Hp. unfold in_mapping. rewrite (proj2 (Z.leb_le 0 p)), (proj2 (Z.ltb_lt p _)) by lia. done. Qed.

Lemma h_store p b u st : 0 <= p < S * 2 ->
  RH _ (StoreByte p b) (u, st) = Done tt (u, with_mem <[p mod S := b]> st).
Proof. intros Hp. simpl. by rewrite in_mapping_true. Qed.

Lemma h_load p u st : 0 <= p < S * 2 ->
  RH _ (LoadByte p) (u, st) = Done (byte_at (mem st) p) (u, st).
Proof. intros Hp. simpl. by rewrite in_mapping_true. Qed.

Lemma run_memcpy p data u st : 0 <= p -> p + zlen data <= S * 2 ->
  run RH (memcpy p data) (u, st) = Done tt (u, with_mem (ring_put p data) st).
Proof.
  revert p st. induction data as [| b data IH]; intros p st Hp Hd; [by destruct st |].
  rewrite zlen_cons in Hd. pose proof (zlen_nonneg data).
  cbn [memcpy]. rewrite run_bind, run_trigger, h_store by lia. cbn [obind]. by rewrite IH by lia.
Qed.

Lemma run_load_bytes p n l u st :
  length l = n -> bytes_from (mem st) p l -> 0 <= p -> p + zlen l <= S * 2 ->
  run RH (load_bytes p n) (u, st) = Done l (u, st).
Proof.
  revert p n. induction l as [| b l IH]; intros p n <- Hl Hp Hd; [done |].
  rewrite zlen_cons in Hd. pose proof (zlen_nonneg l). apply bytes_from_cons in Hl as [Hb Hl].
  cbn [length load_bytes]. rewrite run_bind, run_trigger, h_load by lia. cbn [obind].
  rewrite Hb, run_bind, (IH (p + 1) (length l)) by (done || lia). done.
Qed.

Lemma run_read_word p v u st : bytes_from (mem st) p (enc_word v) ->
  0 <= p -> p + 8 <= S * 2 -> run RH (read_word p) (u, st) = Done (u64 v) (u, st).
Proof.
  intros Hb Hp Hd. unfold read_word. rewrite run_bind.
  rewrite (run_load_bytes _ _ (enc_word v)) by (rewrite ?enc_word_zlen, ?le_split_word; done || lia).
  cbn. by rewrite word_roundtrip.
Qed.

Lemma run_load_str fuel p s u st : Forall (fun b => b <> 0) s -> (length s < fuel)%nat ->
  bytes_from (mem st) p (enc_str s) -> 0 <= p -> p + zlen s + 1 <= S * 2 ->
  run RH (load_str fuel p) (u, st) = Done s (u, st).
Proof.
  intros Hs. revert fuel p. induction Hs as [| b s Hb Hs IH]; intros fuel p Hf Hl Hp Hd;
    (destruct fuel as [| fuel]; [simpl in Hf; lia |]); cbn [load_str enc_str app] in *;
    apply bytes_from_cons in Hl as [H0 Hl]; rewrite run_bind, run_trigger.
  - rewrite zlen_nil in Hd. rewrite h_load by lia. cbn. by rewrite H0.
  - rewrite zlen_cons in Hd. pose proof (zlen_nonneg s). rewrite h_load by lia. cbn [obind].
    rewrite H0, (proj2 (Z.eqb_neq b 0)) by done. rewrite run_bind, IH; [done | | done | lia | lia].
    simpl in Hf. lia.
Qed.

End Mem.

(** ** Entries *)

Section Entries.
Context {LB FB : Type} `{BufferOps Z LB} `{BufferOps (list Z) FB}.
Context (ls_of : LB -> list Z) (ss_of : FB -> list (list Z)).
Context `{!BufferLaws Z LB enc_word ls_of} `{!BufferLaws (list Z) FB enc_str ss_of}.
Context (S : Z) (HS : 0 < S).

Abbreviation entry := (RBIn LB FB).
Abbreviation RH := (rb_h S).

Definition strs (ss : list (list Z)) : list Z := concat (map enc_str ss).

(** The seven words at the front of an entry, its bytes, and what it holds. *)
Definition header (e : entry) : list Z :=
  let l := zlen (ls_of (lines e)) in
  let f := zlen (strs (ss_of (filenames e))) in
  let n := zlen (strs (ss_of (names e))) in
  [56 + 8 * l + f + n + 8 * zlen (values e); l; zlen (values e);
   56; 56 + 8 * l; 56 + 8 * l + f; 56 + 8 * l + f + n].

Definition image (e : entry) : list Z :=
  concat (map enc_word (header e)) ++ concat (map enc_word (ls_of (lines e))) ++
  strs (ss_of (filenames e)) ++ strs (ss_of (names e)) ++ concat (map enc_word (values e)).

Definition elements (e : entry) : list (list Z * list Z * Z) :=
  zip (zip (ss_of (filenames e)) (ss_of (names e))) (ls_of (lines e)).

(** Entries as [push] builds them, from lines of 64 bits and C strings, that fit a
    region of [S] bytes. *)
Record entry_ok (e : entry) : Prop := {
  eo_files : length (ss_of (filenames e)) = length (ls_of (lines e));
  eo_names : length (ss_of (names e)) = length (ls_of (lines e));
  eo_lines : Forall (fun v => - 2 ^ 63 <= v < 2 ^ 63) (ls_of (lines e));
  eo_fstrs : Forall (Forall (fun b => b <> 0)) (ss_of (filenames e));
  eo_nstrs : Forall (Forall (fun b => b <> 0)) (ss_of (names e)) }.

Lemma image_zlen e : zlen (image e) =
  56 + 8 * zlen (ls_of (lines e)) + zlen (strs (ss_of (filenames e)))
  + zlen (strs (ss_of (names e))) + 8 * zlen (values e).
Proof.
  unfold image. rewrite !zlen_app, !words_zlen. change (zlen (header e)) with 7. lia.
Qed.

Lemma image_pos e : 56 <= zlen (image e).
Proof.
  rewrite image_zlen. pose proof (zlen_nonneg (ls_of (lines e))).
  pose proof (zlen_nonneg (strs (ss_of (filenames e)))). pose proof (zlen_nonneg (strs (ss_of (names e)))).
  pose proof (zlen_nonneg (values e)). lia.
Qed.

Lemma buffer_bytes {V B} `{BufferOps V B} enc (co : B -> list V) `{!BufferLaws V B enc co} b :
  take (Z.to_nat (b_serializedSize b)) (b_data b) = concat (map enc (co b)) /\
  b_serializedSize b = zlen (concat (map enc (co b))).
Proof.
  split; [apply b_data_contents |]. rewrite <-b_data_contents.
  pose proof (b_serializedSize_data (enc := enc) (contents := co) b) as Hb.
  unfold zlen in *. rewrite length_take. lia.
Qed.

Lemma sizes e : b_serializedSize (lines e) = 8 * zlen (ls_of (lines e)) /\
  b_serializedSize (filenames e) = zlen (strs (ss_of (filenames e))) /\
  b_serializedSize (names e) = zlen (strs (ss_of (names e))) /\
  get_size e = zlen (ls_of (lines e)).
Proof.
  split; [| split; [| split]].
  - rewrite (proj2 (buffer_bytes enc_word ls_of (lines e))). apply words_zlen.
  - apply (proj2 (buffer_bytes enc_str ss_of (filenames e))).
  - apply (proj2 (buffer_bytes enc_str ss_of (names e))).
  - apply (b_size_contents (enc := enc_word)).
Qed.

Lemma serializedSize_image e : zlen (image e) < 2 ^ 64 -> serializedSize e = zlen (image e).
Proof.
  intros Hz. pose proof (image_pos e). unfold serializedSize. destruct (sizes e) as (-> & -> & -> & _).
  rewrite image_zlen in *. unfold sizeof_size_t. rewrite wrap_small by lia. lia.
Qed.

(** *** Writing *)

Lemma with_mem_app p d1 d2 st :
  with_mem (ring_put S (p + zlen d1) d2) (with_mem (ring_put S p d1) st) =
  with_mem (ring_put S p (d1 ++ d2)) st.
Proof. unfold with_mem. simpl. by rewrite ring_put_app. Qed.

(** One copy of [serialize], after the bytes [d1]. *)
Lemma run_copy {A} p d1 d2 q k (f : Z -> rbM A) u st :
  0 <= p -> q = p + zlen d1 -> k = zlen d2 -> q + k <= S * 2 ->
  run RH (r <- (memcpy q d2 ;; Ret (q + k)) ;; f r) (u, with_mem (ring_put S p d1) st) =
  run RH (f (q + k)) (u, with_mem (ring_put S p (d1 ++ d2)) st).
Proof.
  intros Hp -> -> Hd. pose proof (zlen_nonneg d1). rewrite !run_bind, run_memcpy by lia. cbn [obind run].
  by rewrite with_mem_app.
Qed.

Lemma run_serialize e p u st : 0 <= p -> p + zlen (image e) <= S * 2 -> zlen (image e) < 2 ^ 64 ->
  run RH (serialize e p) (u, st) = Done tt (u, with_mem (ring_put S p (image e)) st).
Proof.
  intros Hp Hd Hz. pose proof (image_pos e) as Hpos. unfold serialize. rewrite (serializedSize_image e Hz).
  unfold serialize_word, serialize_buffer, serialize_vector.
  destruct (buffer_bytes enc_word ls_of (lines e)) as [-> _].
  destruct (buffer_bytes enc_str ss_of (filenames e)) as [-> _].
  destruct (buffer_bytes enc_str ss_of (names e)) as [-> _].
  fold (strs (ss_of (filenames e))) (strs (ss_of (names e))).
  destruct (sizes e) as (-> & -> & -> & ->).
  rewrite image_zlen in *.
  pose proof (zlen_nonneg (ls_of (lines e))). pose proof (zlen_nonneg (strs (ss_of (filenames e)))).
  pose proof (zlen_nonneg (strs (ss_of (names e)))). pose proof (zlen_nonneg (values e)).
  assert (st = with_mem (ring_put S p []) st) as Hst by (by destruct st).
  rewrite Hst at 1. change sizeof_size_t with 8. rewrite !(wrap_small 64) by lia.
  repeat (rewrite (run_copy p) by (rewrite ?zlen_app, ?enc_word_zlen, ?words_zlen, ?zlen_nil; lia)).
  cbn [run]. f_equal. f_equal. f_equal. f_equal. unfold image, header. cbn [map concat].
  rewrite <-!app_assoc. repeat f_equal; lia.
Qed.
(** *** Reading *)

Definition deliver (es : list (list Z * list Z * Z)) st : ring :=
  MkRing (mem st) (read_pos st) (write_pos st) (delivered st ++ es).

Lemma bytes_from_words m p ws i w : bytes_from S m p (concat (map enc_word ws)) -> znth ws i = Some w ->
  bytes_from S m (p + i * 8) (enc_word w).
Proof.
  revert p i. induction ws as [| w0 ws IH]; intros p i Hb Hi; [by apply znth_range in Hi; unfold zlen in Hi; simpl in Hi; lia |].
  cbn [map concat] in Hb. apply bytes_from_app in Hb as [H1 H2]. rewrite enc_word_zlen in H2.
  rewrite znth_cons in Hi. destruct (i =? 0) eqn:E; zbool.
  - subst i. injection Hi as ->. by rewrite Z.mul_0_l, Z.add_0_r.
  - replace (p + i * 8) with (p + 8 + (i - 1) * 8) by lia. by apply IH.
Qed.

Lemma run_values p vs u st : bytes_from S (mem st) p (concat (map enc_word vs)) ->
  0 <= p -> p + 8 * zlen vs <= S * 2 -> forall n i, 0 <= i -> i + Z.of_nat n = zlen vs ->
  run RH (for_range i n (fun i => read_word (p + i * 8) ;; Ret tt)) (u, st) = Done tt (u, st).
Proof.
  intros Hb Hp Hd n. induction n as [| n IH]; intros i Hi Hn; [done |].
  cbn [for_range]. destruct (znth vs i) as [v |] eqn:Hv.
  2: { destruct (Nat.lt_irrefl 0). unfold znth in Hv. rewrite (proj2 (Z.leb_le 0 i)) in Hv by lia.
       apply lookup_ge_None in Hv. unfold zlen in *. lia. }
  rewrite !run_bind, (run_read_word S _ v) by (lia || by eapply bytes_from_words).
  cbn. apply IH; lia.
Qed.

Lemma strs_cons s ss : strs (s :: ss) = enc_str s ++ strs ss.
Proof. done. Qed.

Lemma enc_str_zlen s : zlen (enc_str s) = zlen s + 1.
Proof. unfold enc_str. rewrite zlen_app. done. Qed.

Lemma run_iterate fuel lp ls fs ns u st :
  S * 2 < Z.of_nat fuel -> 0 <= lp -> lp + 8 * zlen ls <= S * 2 ->
  bytes_from S (mem st) lp (concat (map enc_word ls)) ->
  Forall (fun v => - 2 ^ 63 <= v < 2 ^ 63) ls ->
  forall i fp np, 0 <= i -> 0 <= fp -> 0 <= np ->
  fp + zlen (strs fs) <= S * 2 -> np + zlen (strs ns) <= S * 2 ->
  bytes_from S (mem st) fp (strs fs) -> bytes_from S (mem st) np (strs ns) ->
  Forall (Forall (fun b => b <> 0)) fs -> Forall (Forall (fun b => b <> 0)) ns ->
  length fs = length (drop (Z.to_nat i) ls) -> length ns = length fs ->
  run RH (iterate_entries fuel i (length fs) lp fp np) (u, st) =
  Done tt (u, deliver (zip (zip fs ns) (drop (Z.to_nat i) ls)) st).
Proof.
  intros Hf Hlp Hld Hlb Hlr. revert ns st Hlb. induction fs as [| f fs IH];
    intros [| n ns] st Hlb i fp np Hi Hfp Hnp Hfd Hnd Hfb Hnb Hfz Hnz Hfl Hnl; try done.
  { destruct st. unfold deliver. simpl. by rewrite app_nil_r. }
  rewrite strs_cons in *. rewrite zlen_app, enc_str_zlen in *.
  pose proof (zlen_nonneg (strs fs)). pose proof (zlen_nonneg (strs ns)).
  pose proof (zlen_nonneg f). pose proof (zlen_nonneg n).
  apply bytes_from_app in Hfb as [Hf1 Hf2]. apply bytes_from_app in Hnb as [Hn1 Hn2].
  rewrite enc_str_zlen in *. apply Forall_cons in Hfz as [Hfz Hfzs]. apply Forall_cons in Hnz as [Hnz Hnzs].
  assert (exists v, ls !! Z.to_nat i = Some v) as [v Hv].
  { apply lookup_lt_is_Some. rewrite length_drop in Hfl. simpl in Hfl. lia. }
  rewrite (drop_S _ _ _ Hv) in Hfl |- *. cbn [length iterate_entries] in *.
  assert (znth ls i = Some v) as Hv' by (unfold znth; by rewrite (proj2 (Z.leb_le 0 i)) by lia).
  pose proof (znth_range _ _ _ Hv') as Hir.
  assert (forall d, run RH (load_str fuel fp) (u, deliver d st) = Done f (u, deliver d st)) as Ef.
  { intros d. apply run_load_str; try done; [| lia]. unfold zlen in *. lia. }
  assert (forall d, run RH (load_str fuel np) (u, deliver d st) = Done n (u, deliver d st)) as En.
  { intros d. apply run_load_str; try done; [| lia]. unfold zlen in *. lia. }
  assert (st = deliver [] st) as Hst by (destruct st; unfold deliver; simpl; by rewrite app_nil_r).
  rewrite Hst at 1. rewrite run_bind, Ef. cbn [obind]. rewrite run_bind, En. cbn [obind].
  rewrite run_bind, (run_read_word S _ v) by (lia || by eapply bytes_from_words). cbn [obind].
  rewrite i64_u64 by (by apply (proj1 (Forall_lookup _ _) Hlr _ _ Hv)).
  rewrite run_bind, run_trigger. cbn [rb_h obind]. rewrite <-Hst.
  change (MkRing (mem st) (read_pos st) (write_pos st) (delivered st ++ [(f, n, v)]))
    with (deliver [(f, n, v)] st).
  unfold load_strlen. rewrite run_bind, run_bind, Ef. cbn [obind run]. rewrite run_bind, run_bind, En.
  cbn [obind run]. replace (Datatypes.S (Z.to_nat i)) with (Z.to_nat (i + 1)) in * by lia.
  rewrite (IH ns); try done; try lia; try (by simpl in *; lia).
  { unfold deliver. simpl. by rewrite <-app_assoc. }
  all: eapply bytes_from_mod; [| done]; f_equal; lia.
Qed.
Lemma bytes_from_shift m p q l : p = q -> bytes_from S m p l -> bytes_from S m q l.
Proof. by intros ->. Qed.

(** The reader finds what the writer stored, and calls its function on each element. *)
Lemma run_deserialize e fuel p u st : S * 2 < Z.of_nat fuel -> entry_ok e ->
  0 <= p -> p + zlen (image e) <= S * 2 -> zlen (image e) < 2 ^ 64 ->
  bytes_from S (mem st) p (image e) ->
  run RH (deserialize fuel p) (u, st) = Done (zlen (image e)) (u, deliver (elements e) st).
Proof.
  intros Hf [] Hp Hd Hz Hb. pose proof (image_zlen e) as Hsz. unfold image in Hb.
  pose proof (zlen_nonneg (ls_of (lines e))). pose proof (zlen_nonneg (strs (ss_of (filenames e)))).
  pose proof (zlen_nonneg (strs (ss_of (names e)))). pose proof (zlen_nonneg (values e)).
  rewrite !bytes_from_app, !words_zlen in Hb. change (zlen (header e)) with 7 in Hb.
  destruct Hb as (Hh & Hl & Hfs & Hns & Hv).
  assert (forall i w, znth (header e) i = Some w -> forall q, q = p + i * 8 ->
    run RH (read_word q) (u, st) = Done (u64 w) (u, st)) as Hw.
  { intros i w Hi q ->. apply znth_range in Hi as Hir. change (zlen (header e)) with 7 in Hir.
    apply run_read_word; [by eapply bytes_from_words | lia | lia]. }
  unfold deserialize.
  rewrite run_bind, (Hw 0 _ eq_refl) by lia. cbn [obind]. rewrite run_bind, (Hw 1 _ eq_refl) by lia. cbn [obind].
  rewrite run_bind, (Hw 2 _ eq_refl) by lia. cbn [obind]. rewrite run_bind, (Hw 3 _ eq_refl) by lia. cbn [obind].
  rewrite run_bind, (Hw 4 _ eq_refl) by lia. cbn [obind]. rewrite run_bind, (Hw 5 _ eq_refl) by lia. cbn [obind].
  rewrite run_bind, (Hw 6 _ eq_refl) by lia. cbn [obind]. rewrite !(wrap_small 64) by lia.
  rewrite run_bind, (run_values _ (values e)); [| | lia | lia | lia | lia].
  2: { eapply bytes_from_shift; [| exact Hv]. lia. }
  cbn [obind]. assert (Z.to_nat (zlen (ls_of (lines e))) = length (ss_of (filenames e))) as Hn.
  { unfold zlen. rewrite Nat2Z.id. done. }
  rewrite Hn, run_bind, (run_iterate _ _ (ls_of (lines e)) _ (ss_of (names e))); try done; try lia;
    try (by eapply bytes_from_shift; [| done]; lia); try (by rewrite ?drop_0; congruence).
  cbn [obind run]. unfold elements. rewrite Z2Nat.inj_0, drop_0. f_equal. lia.
Qed.
(** ** The queue *)

Context (HS2 : S <= 2 ^ 62).

Definition images (q : list entry) : list Z := concat (map image q).
Definition used (q : list entry) : Z := zlen (images q).

(** The ring holds the entries [q], oldest first. *)
Record holds (q : list entry) (st : ring) : Prop := {
  ho_read : 0 <= read_pos st < S;
  ho_write : write_pos st = (read_pos st + used q) mod S;
  ho_room : used q < S;
  ho_bytes : bytes_from S (mem st) (read_pos st) (images q);
  ho_ok : Forall entry_ok q }.

Lemma used_app q1 q2 : used (q1 ++ q2) = used q1 + used q2.
Proof. unfold used, images. by rewrite map_app, concat_app, zlen_app. Qed.

Lemma used_one e : used [e] = zlen (image e).
Proof. unfold used, images. cbn [map concat]. by rewrite app_nil_r. Qed.

Lemma used_cons e q : used (e :: q) = zlen (image e) + used q.
Proof. change (e :: q) with ([e] ++ q). by rewrite used_app, used_one. Qed.

Lemma used_nonneg q : 0 <= used q.
Proof. apply zlen_nonneg. Qed.

(** The positions of a ring that holds [q]. *)
Lemma holds_positions q st : holds q st -> 0 <= write_pos st < S /\
  (read_pos st <= write_pos st -> write_pos st = read_pos st + used q) /\
  (write_pos st < read_pos st -> write_pos st = read_pos st + used q - S).
Proof.
  intros []. pose proof (used_nonneg q). rewrite ho_write0.
  split; [apply Z.mod_pos_bound; lia |].
  destruct (decide (read_pos st + used q < S)).
  - rewrite Z.mod_small by lia. lia.
  - replace ((read_pos st + used q) mod S) with (read_pos st + used q - S); [lia |].
    apply (Z.mod_unique _ _ 1); lia.
Qed.

Definition reserve (e : entry) (st : ring) : ring :=
  MkRing (mem st) (read_pos st) ((write_pos st + zlen (image e)) mod S) (delivered st).

(** The outcome of [write], alone. *)
Lemma run_write e u st : 0 <= read_pos st < S -> 0 <= write_pos st < S -> zlen (image e) < 2 ^ 63 ->
  run RH (write S e) (u, st) =
  if write_pos st + zlen (image e) <? read_pos st + S
  then Done true (u, with_mem (ring_put S (write_pos st) (image e)) (reserve e st))
  else Done false (u, st).
Proof.
  intros Hr Hw He. pose proof (image_pos e). unfold write. rewrite (serializedSize_image e) by lia.
  rewrite run_bind. change (loop 3 (write_step S (zlen (image e))) 3) with
    (r <- write_step S (zlen (image e)) 3 ;; match r with
       | inl s' => loop 2 (write_step S (zlen (image e))) s' | inr a => Ret a end).
  unfold write_step at 1. rewrite run_bind, run_bind, run_trigger. cbn [rb_h obind].
  rewrite run_bind, run_trigger. cbn [rb_h obind]. rewrite !(wrap_small 64) by lia.
  destruct (write_pos st + zlen (image e) <? read_pos st + S) eqn:E; zbool; [| done].
  rewrite run_bind, run_trigger. cbn [rb_h]. rewrite Z.eqb_refl. cbn [obind run].
  rewrite run_bind. change (MkRing (mem st) (read_pos st) ((write_pos st + zlen (image e)) mod S)
    (delivered st)) with (reserve e st).
  rewrite run_serialize by lia. done.
Qed.

Lemma run_read_empty fuel u st : read_pos st = write_pos st ->
  run RH (read S fuel) (u, st) = Done false (u, st).
Proof.
  intros E. unfold read. rewrite run_bind, run_trigger. cbn [rb_h obind].
  rewrite run_bind, run_trigger. cbn [rb_h obind]. by rewrite E, Z.eqb_refl.
Qed.

(** [read] when the bytes at the read position are those of [e]. *)
Lemma run_read e fuel u st : S * 2 < Z.of_nat fuel -> 0 <= read_pos st < S ->
  read_pos st <> write_pos st -> entry_ok e -> zlen (image e) < S ->
  bytes_from S (mem st) (read_pos st) (image e) ->
  run RH (read S fuel) (u, st) =
  Done true (u, MkRing (mem st) ((read_pos st + zlen (image e)) mod S) (write_pos st)
                  (delivered st ++ elements e)).
Proof.
  intros Hf Hr Hne Hok Hz Hb. pose proof (image_pos e). unfold read.
  rewrite run_bind, run_trigger. cbn [rb_h obind]. rewrite run_bind, run_trigger. cbn [rb_h obind].
  rewrite (proj2 (Z.eqb_neq _ _) Hne). rewrite run_bind, run_trigger. cbn [rb_h obind].
  rewrite run_bind, (run_deserialize e) by (done || lia). cbn [obind].
  rewrite run_bind, run_trigger. cbn [rb_h obind]. rewrite run_bind, run_trigger. cbn [rb_h obind].
  rewrite wrap_small by (simpl; lia). done.
Qed.

Lemma write_pushes q e u st : holds q st -> entry_ok e -> used q + zlen (image e) < S ->
  exists st', run RH (write S e) (u, st) = Done true (u, st') /\ holds (q ++ [e]) st' /\
    delivered st' = delivered st /\ read_pos st' = read_pos st.
Proof.
  intros Hq He Hroom. destruct (holds_positions _ _ Hq) as (Hw & Hlo & Hhi). pose proof Hq as [].
  pose proof (image_pos e). eexists. split; [| split; [| split; cycle 1]].
  - rewrite run_write by lia. rewrite (proj2 (Z.ltb_lt _ _)); [done |].
    destruct (decide (read_pos st <= write_pos st)); lia.
  - split; cbn [with_mem reserve mem read_pos write_pos]; rewrite ?used_app, ?used_one; try assumption.
    + rewrite ho_write0, Zplus_mod_idemp_l, Z.add_assoc. reflexivity.
    + unfold images. rewrite map_app, concat_app. cbn [map concat]. rewrite app_nil_r. fold (images q).
      assert (ring_put S (write_pos st) (image e) (mem st) =
        ring_put S (read_pos st + zlen (images q)) (image e) (mem st)) as ->.
      { apply ring_put_mod. rewrite ho_write0, Z.mod_mod by lia. done. }
      apply bytes_from_app. unfold used in *. split.
      * apply ring_put_before; [done | lia | done].
      * apply ring_put_same; [done | lia].
    + by apply Forall_app_2; [| constructor].
  - reflexivity.
  - reflexivity.
Qed.

Lemma read_pops e q fuel u st : S * 2 < Z.of_nat fuel -> holds (e :: q) st ->
  exists st', run RH (read S fuel) (u, st) = Done true (u, st') /\ holds q st' /\
    delivered st' = delivered st ++ elements e.
Proof.
  intros Hf Hq. destruct (holds_positions _ _ Hq) as (Hw & Hlo & Hhi). pose proof Hq as [].
  pose proof (image_pos e). pose proof (used_nonneg q). rewrite used_cons in *.
  apply Forall_cons in ho_ok0 as [He Hes]. change (images (e :: q)) with (image e ++ images q) in *.
  apply bytes_from_app in ho_bytes0 as [Hb1 Hb2].
  eexists. split; [| split].
  - apply (run_read e); (assumption || lia).
  - split; cbn [mem read_pos write_pos].
    + apply Z.mod_pos_bound. lia.
    + rewrite ho_write0, Zplus_mod_idemp_l, Z.add_assoc. reflexivity.
    + lia.
    + eapply bytes_from_mod; [| exact Hb2]. by rewrite Z.mod_mod by lia.
    + done.
  - done.
Qed.

(** *** The abstract queue *)

Inductive op : Type := Write (e : entry) | Read.

(** What a bounded queue answers: the results, what [Read] delivered, and the entries left;
    [None] once an entry does not fit. *)
Fixpoint queue_run (ops : list op) (q : list entry) :
    option (list bool * list (list Z * list Z * Z) * list entry) :=
  match ops with
  | [] => Some ([], [], q)
  | Write e :: rest =>
      if used q + zlen (image e) <? S
      then r ← queue_run rest (q ++ [e]); let '(rs, ds, q') := r in Some (true :: rs, ds, q')
      else None
  | Read :: rest =>
      match q with
      | [] => r ← queue_run rest []; let '(rs, ds, q') := r in Some (false :: rs, ds, q')
      | e :: q => r ← queue_run rest q; let '(rs, ds, q') := r in Some (true :: rs, elements e ++ ds, q')
      end
  end.

Definition do_op (fuel : nat) (o : op) : rbM bool :=
  match o with Write e => write S e | Read => read S fuel end.

Fixpoint do_ops (fuel : nat) (ops : list op) : rbM (list bool) :=
  match ops with
  | [] => Ret []
  | o :: rest => b <- do_op fuel o ;; bs <- do_ops fuel rest ;; Ret (b :: bs)
  end.

Definition op_ok (o : op) : Prop := match o with Write e => entry_ok e | Read => True end.

Lemma do_ops_queue fuel ops : S * 2 < Z.of_nat fuel -> Forall op_ok ops ->
  forall q u st rs ds q', holds q st -> queue_run ops q = Some (rs, ds, q') ->
  exists st', run RH (do_ops fuel ops) (u, st) = Done rs (u, st') /\ holds q' st' /\
    delivered st' = delivered st ++ ds.
Proof.
  intros Hf Hops. induction Hops as [| o ops Ho _ IH]; intros q u st rs ds q' Hq Hr.
  { simpl in Hr. simplify_eq. exists st. by rewrite app_nil_r. }
  assert (exists b d q1 rs' ds', queue_run ops q1 = Some (rs', ds', q') /\ rs = b :: rs' /\
    ds = d ++ ds' /\ exists st1, run RH (do_op fuel o) (u, st) = Done b (u, st1) /\ holds q1 st1 /\
    delivered st1 = delivered st ++ d) as (b & d & q1 & rs' & ds' & H1 & -> & -> & st1 & E1 & Hq1 & Hd1).
  { destruct o as [e |]; cbn [queue_run do_op op_ok] in *.
    - destruct (used q + zlen (image e) <? S) eqn:E; zbool; [| done].
      destruct (queue_run ops (q ++ [e])) as [[[rs' ds'] q1] |] eqn:Eq; simplify_eq/=.
      destruct (write_pushes q e u st Hq Ho E) as (st1 & ? & ? & Hd & _).
      exists true, [], (q ++ [e]), rs', ds. rewrite app_nil_r. eauto 10.
    - destruct q as [| e q].
      + destruct (queue_run ops []) as [[[rs' ds'] q1] |] eqn:Eq; simplify_eq/=.
        exists false, [], [], rs', ds. rewrite app_nil_r. do 3 (split; [done |]). exists st.
        split; [| done]. apply run_read_empty. destruct Hq. unfold used, images in *. simpl in *.
        rewrite zlen_nil, Z.add_0_r, Z.mod_small in ho_write0 by lia. done.
      + destruct (queue_run ops q) as [[[rs' ds'] q1] |] eqn:Eq; simplify_eq/=.
        destruct (read_pops e q fuel u st Hf Hq) as (st1 & ? & ? & ?).
        exists true, (elements e), q, rs', ds'. eauto 10. }
  destruct (IH q1 u st1 rs' ds' q' Hq1 H1) as (st2 & E2 & Hq2 & Hd2).
  exists st2. split; [| split; [done |]].
  - cbn [do_ops]. rewrite run_bind, E1. cbn [obind]. by rewrite run_bind, E2.
  - by rewrite Hd2, Hd1, app_assoc.
Qed.
(** C9. As long as no entry is refused by a bounded queue of [S - 1] bytes, the ring answers
    and delivers exactly what the queue does. *)
Theorem ring_refines_queue fuel ops q u st rs ds q' :
  S * 2 < Z.of_nat fuel -> Forall op_ok ops -> holds q st -> queue_run ops q = Some (rs, ds, q') ->
  exists st', run RH (do_ops fuel ops) (u, st) = Done rs (u, st') /\ holds q' st' /\
    delivered st' = delivered st ++ ds.
Proof. intros Hf Hops. by apply do_ops_queue. Qed.

(** C12. [write] never leaves the two mappings, whatever the positions, and refuses or accepts by
    its comparison alone. While the write position has not wrapped behind the read position
    the comparison is exact: the entry is accepted when it fits with a byte to spare. Once it
    has, entries of up to a whole region more than the free space are accepted. *)
Theorem write_decision e u st : 0 <= read_pos st < S -> 0 <= write_pos st < S ->
  zlen (image e) < 2 ^ 63 ->
  let accepts := write_pos st + zlen (image e) <? read_pos st + S in
  (exists st', run RH (write S e) (u, st) = Done accepts (u, st') /\
    read_pos st' = read_pos st /\ delivered st' = delivered st /\ (accepts = false -> st' = st)) /\
  forall q, holds q st ->
    (read_pos st <= write_pos st -> accepts = (used q + zlen (image e) <? S)) /\
    (write_pos st < read_pos st -> accepts = (used q + zlen (image e) <? 2 * S)).
Proof.
  intros Hr Hw He accepts. split.
  - rewrite run_write by assumption. fold accepts. destruct accepts.
    + eexists. split; [reflexivity |]. split; [reflexivity |]. split; [reflexivity | discriminate].
    + exists st. split; [reflexivity |]. split; [reflexivity |]. split; reflexivity.
  - intros q Hq. destruct (holds_positions _ _ Hq) as (_ & Hlo & Hhi). unfold accepts.
    split; intros Hrw; apply eq_true_iff_eq; rewrite !Z.ltb_lt; lia.
Qed.

(** C11. An accepted entry that does not fit behind a wrapped write position replaces the first
    byte of the oldest unread entry by one of its own; one that fills the region exactly
    leaves a ring that looks empty, and every unread entry is lost. *)
Theorem wrapped_write_destroys q e u st : holds q st -> write_pos st < read_pos st ->
  S <= used q + zlen (image e) < 2 * S ->
  exists st', run RH (write S e) (u, st) = Done true (u, st') /\ read_pos st' = read_pos st /\
    (S < used q + zlen (image e) ->
      Some (byte_at S (mem st') (read_pos st')) = znth (image e) (S - used q)) /\
    (used q + zlen (image e) = S -> forall fuel,
      run RH (read S fuel) (u, st') = Done false (u, st')).
Proof.
  intros Hq Hwr Hsz. destruct (holds_positions _ _ Hq) as (Hw & _ & Hhi). pose proof Hq as [].
  specialize (Hhi Hwr). pose proof (image_pos e). pose proof (used_nonneg q).
  rewrite run_write by lia. rewrite (proj2 (Z.ltb_lt _ _)) by lia.
  eexists. split; [reflexivity |]. split; [reflexivity |]. split.
  - intros Hlt. cbn [with_mem reserve mem read_pos].
    assert (0 <= S - used q < zlen (image e)) as Hk by lia.
    rewrite <-(take_drop (Z.to_nat (S - used q)) (image e)) at 1. rewrite ring_put_app.
    assert (zlen (take (Z.to_nat (S - used q)) (image e)) = S - used q) as Ht.
    { unfold zlen in *. rewrite length_take. lia. }
    rewrite Ht. unfold znth. rewrite (proj2 (Z.leb_le 0 _)) by lia.
    destruct (lookup_lt_is_Some_2 (image e) (Z.to_nat (S - used q))) as [b Hb]; [unfold zlen in *; lia |].
    rewrite Hb. f_equal. rewrite (drop_S _ _ _ Hb). cbn [ring_put]. rewrite ring_put_other.
    + replace (write_pos st + (S - used q)) with (read_pos st) by lia.
      unfold RingBuffer.byte_at. by rewrite lookup_insert_eq.
    + intros k Hkr. replace (write_pos st + (S - used q) + 1 + k) with (read_pos st + (1 + k)) by lia.
      rewrite <-(Z.add_0_r (read_pos st)) at 2. apply mod_apart; [assumption | lia |].
      unfold zlen in Hkr. rewrite length_drop in Hkr. unfold zlen in *. lia.
  - intros Heq fuel. apply run_read_empty. cbn [with_mem reserve read_pos write_pos].
    rewrite Z.mod_small by lia. lia.
Qed.
(** [main]: the parent fills a fresh ring, then the child empties it. *)
Lemma run_write_all e u fuel : entry_ok e -> zlen (image e) < 2 ^ 62 -> forall q st,
  holds q st -> read_pos st = 0 -> S <= used q + Z.of_nat fuel * zlen (image e) ->
  exists n st', run RH (write_all S (Datatypes.S fuel) e) (u, st) = Done tt (u, st') /\
    holds (q ++ replicate n e) st' /\ delivered st' = delivered st /\
    S <= used q + (Z.of_nat n + 1) * zlen (image e).
Proof.
  intros He Hz. pose proof (image_pos e). unfold write_all. induction fuel as [| fuel IH]; intros q st Hq Hr0 Hf.
  { destruct Hq. lia. }
  destruct (holds_positions _ _ Hq) as (Hw & Hlo & _). specialize (Hlo ltac:(lia)).
  set (body := fun _ : unit => _) in *. change (loop (Datatypes.S (Datatypes.S fuel)) body tt) with
    (r <- body tt ;; match r with inl s' => loop (Datatypes.S fuel) body s' | inr a => Ret a end).
  destruct (decide (used q + zlen (image e) < S)) as [Hlt | Hge].
  - destruct (write_pushes q e u st Hq He Hlt) as (st1 & E1 & Hq1 & Hd1 & Hr1).
    rewrite Hr0 in Hr1.
    destruct (IH (q ++ [e]) st1 Hq1 Hr1) as (n & st2 & E2 & Hq2 & Hd2 & Hn).
    { rewrite used_app, used_one. lia. }
    exists (Datatypes.S n), st2. split; [| split; [| split; [congruence |]]].
    + rewrite run_bind. unfold body at 1. rewrite run_bind, E1. exact E2.
    + rewrite <-app_assoc in Hq2. exact Hq2.
    + rewrite used_app, used_one in Hn. lia.
  - exists 0%nat, st. split; [| split; [| split]].
    + rewrite run_bind. unfold body at 1. rewrite run_bind, run_write by lia.
      rewrite (proj2 (Z.ltb_ge _ _)) by lia. reflexivity.
    + rewrite app_nil_r. exact Hq.
    + reflexivity.
    + lia.
Qed.

Lemma run_read_all fuel u q : S * 2 < Z.of_nat fuel -> forall n st, holds q st -> (length q < n)%nat ->
  exists st', run RH (loop n (fun _ => ok <- read S fuel ;; Ret (if (ok : bool) then inl tt else inr tt)) tt)
    (u, st) = Done tt (u, st') /\ holds [] st' /\ delivered st' = delivered st ++ concat (map elements q).
Proof.
  intros Hf. set (body := fun _ : unit => _). induction q as [| e q IH]; intros [| n] st Hq Hn;
    try (simpl in Hn; lia);
    change (loop (Datatypes.S n) body tt) with
      (r <- body tt ;; match r with inl s' => loop n body s' | inr a => Ret a end);
    rewrite run_bind; unfold body at 1; rewrite run_bind.
  - exists st. split; [| split; [exact Hq | cbn [map concat]; by rewrite app_nil_r]].
    rewrite run_read_empty; [reflexivity |]. destruct Hq. unfold used, images in *. cbn [map concat] in *.
    change (zlen (@nil Z)) with 0 in ho_write0. rewrite Z.add_0_r, Z.mod_small in ho_write0 by lia. congruence.
  - destruct (read_pops e q fuel u st Hf Hq) as (st1 & E1 & Hq1 & Hd1).
    destruct (IH n st1 Hq1) as (st2 & E2 & Hq2 & Hd2); [simpl in Hn; lia |].
    exists st2. rewrite E1. split; [exact E2 |]. split; [exact Hq2 |].
    cbn [map concat]. by rewrite Hd2, Hd1, <-app_assoc.
Qed.

Definition fresh : ring := MkRing ∅ 0 0 [].

Lemma fresh_holds : holds [] fresh.
Proof.
  split; cbn [fresh read_pos write_pos mem].
  - lia.
  - unfold used, images. cbn [map concat]. change (zlen (@nil Z)) with 0. rewrite Z.mod_small; lia.
  - exact HS.
  - apply bytes_from_nil.
  - constructor.
Qed.

(** The demonstration: the parent writes one entry until it is refused, that is until another
    copy would fill the region; the child then delivers every copy in full. *)
Theorem main_delivers e u fuel : entry_ok e -> zlen (image e) < S -> S * 2 < Z.of_nat fuel ->
  exists n st', run RH (write_all S fuel e ;; read_all S fuel) (u, fresh) = Done tt (u, st') /\
    holds [] st' /\ delivered st' = concat (replicate n (elements e)) /\
    Z.of_nat n * zlen (image e) < S <= (Z.of_nat n + 1) * zlen (image e).
Proof.
  intros He Hz Hf. pose proof (image_pos e). destruct fuel as [| fuel]; [lia |].
  destruct (run_write_all e u fuel He ltac:(lia) [] fresh fresh_holds eq_refl) as
    (n & st1 & E1 & Hq1 & Hd1 & Hn).
  { change (used []) with 0. nia. }
  change (used []) with 0 in Hn. cbn [app] in Hq1.
  assert (used (replicate n e) = Z.of_nat n * zlen (image e)) as Hu.
  { clear. induction n as [| n IH]; [reflexivity |]. cbn [replicate]. rewrite used_cons, IH. lia. }
  pose proof (ho_room _ _ Hq1) as Hroom. rewrite Hu in Hroom.
  destruct (run_read_all (Datatypes.S fuel) u (replicate n e) Hf (Datatypes.S fuel) st1 Hq1) as
    (st2 & E2 & Hq2 & Hd2).
  { rewrite length_replicate. nia. }
  exists n, st2. split; [| split; [exact Hq2 | split]].
  - rewrite run_bind, E1. exact E2.
  - rewrite Hd2, Hd1. cbn [fresh delivered app]. rewrite fmap_replicate; reflexivity.
  - lia.
Qed.

(** ** A reader and a writer *)

Definition duet (e : entry) (fuel : nat) (st : ring) : config rbE unit ring bool :=
  ([(tt, write S e); (tt, read S fuel)], st).

Lemma writer_reserves e fuel st : 0 <= read_pos st < S -> 0 <= write_pos st < S ->
  zlen (image e) < 2 ^ 62 -> write_pos st + zlen (image e) < read_pos st + S ->
  pool_run (fun _ => RH) [0%nat; 0%nat; 0%nat] (duet e fuel st) =
  ([(tt, serialize e (write_pos st) ;; Ret true); (tt, read S fuel)], reserve e st).
Proof.
  intros Hr Hw He Hlt. pose proof (image_pos e). unfold duet.
  cbn [pool_run]. do 2 (erewrite pool_turn_vis by reflexivity). cbn beta zeta.
  rewrite (serializedSize_image e), !(wrap_small 64) by lia. rewrite (proj2 (Z.ltb_lt _ _)) by lia.
  erewrite (pool_turn_vis _ 0%nat).
  2: reflexivity.
  2: { cbn [rb_h]. rewrite Z.eqb_refl. reflexivity. }
  reflexivity.
Qed.

(** C10. [write] publishes the new write position before it has stored the entry. On a ring
    with nothing to read, a reader that runs between the two finds whatever an earlier
    lap left there: it delivers the old entry [e0] again, as if it were new, and moves on,
    while the writer has not stored a byte. *)
Theorem reader_sees_unwritten_entry e e0 fuel st : holds [] st ->
  zlen (image e) < S -> entry_ok e0 -> zlen (image e0) < S ->
  bytes_from S (mem st) (read_pos st) (image e0) -> S * 2 < Z.of_nat fuel ->
  exists schedule c, pool_run (fun _ => RH) schedule (duet e fuel st) = c /\
    c.1 = [(tt, serialize e (write_pos st) ;; Ret true); (tt, Ret true)] /\
    mem c.2 = mem st /\ delivered c.2 = delivered st ++ elements e0 /\
    read_pos c.2 = (read_pos st + zlen (image e0)) mod S.
Proof.
  intros Hq Hz He0 Hz0 Hb Hf. pose proof (image_pos e). destruct (holds_positions _ _ Hq) as (Hw & _).
  destruct Hq. change (used []) with 0 in *. rewrite Z.add_0_r, Z.mod_small in ho_write0 by lia.
  pose proof (writer_reserves e fuel st ho_read0 Hw ltac:(lia) ltac:(lia)) as Hres.
  assert (read_pos (reserve e st) <> write_pos (reserve e st)) as Hne.
  { cbn [reserve read_pos write_pos]. rewrite ho_write0. intros E.
    apply (mod_apart S HS (read_pos st) (zlen (image e)) 0); [lia | lia |].
    by rewrite <-E, Z.add_0_r, Z.mod_small by lia. }
  pose proof (run_read e0 fuel tt (reserve e st) Hf ho_read0 Hne He0 Hz0 Hb) as Hrd.
  destruct (pool_run_alone (fun _ => RH) 1%nat
    [(tt, serialize e (write_pos st) ;; Ret true); (tt, read S fuel)] (reserve e st) tt (read S fuel)
    true tt _ eq_refl Hrd) as [n Hn].
  eexists ([0%nat; 0%nat; 0%nat] ++ replicate n 1%nat), _. split; [reflexivity |].
  rewrite pool_run_app, Hres, Hn. cbn [fst snd mem delivered read_pos reserve]. auto.
Qed.
End Entries.
