(* ===== verification/RingDemo.v ===== *)
(** * simple_ringbuffer: the constructor, and a concrete ring

    [RingBuffer] maps the region twice in a row or leaves nothing behind. Then a
    buffer of lists, and rings at which the theorems about reading and writing apply. *)
From stdpp Require Import base gmap sets list strings relations.
From Stdlib Require Import ZArith Lia.
From S2P Require Import Prelude Prog Conc Sys Mapping RingBuffer RingProps.

#[local] Arguments Z.mul : simpl never.
#[local] Arguments Z.add : simpl never.
#[local] Arguments Z.div : simpl never.

(** ** Pages *)

Lemma PAGE_ALIGN_eq x : 0 <= x <= 2 ^ 62 -> PAGE_ALIGN x = (x + 4095) / 4096 * 4096.
Proof.
  intros Hx. unfold PAGE_ALIGN. rewrite (wrap_small 64 (x + 4096)), wrap_small by lia.
  rewrite (land_lnot_split 64) by lia. change (4096 - 1) with (Z.ones 12). rewrite Z.land_ones by lia.
  change (2 ^ 12) with 4096. replace (x + 4096 - 1) with (x + 4095) by lia.
  pose proof (Z.div_mod (x + 4095) 4096 ltac:(lia)). lia.
Qed.

(** ** The constructor *)

(** The pages of a region of [n] pages at [b], shown twice in a row, and nothing else new. *)
Definition mirrored (n ino b : Z) (old new : gmap Z (Z * Z)) : Prop :=
  forall k, new !! k =
    if decide (b <= k < b + n) then Some (ino, k - b)
    else if decide (b + n <= k < b + 2 * n) then Some (ino, k - b - n)
    else old !! k.

(** What an attempt to map [size] bytes leaves behind. *)
Definition attempt (size : Z) (s : space) (r : option (Z * Z)) (s' : space) : Prop :=
  s_fds s' = s_fds s /\ clean s' /\
  match r with
  | None => s_pages s' = s_pages s
  | Some (b, bm) => bm = b + size /\ b mod 4096 = 0 /\ exists ino,
      s_sizes s' !! ino = Some size /\
      mirrored (size / 4096) ino (b / 4096) (s_pages s) (s_pages s')
  end.

Section Attempt.
Context (n : Z) (Hn : 0 < n).
Abbreviation size := (n * 4096).

Lemma pages_of_size : pages_of size = Z.to_nat n /\ pages_of (size * 2) = Z.to_nat (2 * n).
Proof.
  unfold pages_of. split; f_equal.
  - rewrite (Z.div_add_l n 4096) by lia. change (4095 / 4096) with 0. lia.
  - replace (size * 2 + 4095) with (2 * n * 4096 + 4095) by lia.
    rewrite Z.div_add_l by lia. change (4095 / 4096) with 0. lia.
Qed.

(** A fresh file [fd] behind descriptor [fd], with [sz] bytes. *)
Definition with_file (s : space) (fd sz : Z) (pages : gmap Z (Z * Z)) (brk : Z) (l : list bool) : space :=
  MkSpace (<[fd := fd]> (s_fds s)) (<[fd := sz]> (s_sizes s)) pages (fd + 1) brk l.

Lemma closed_file s fd sz pages brk l : clean s -> fd = s_next s -> s_brk s <= brk ->
  (forall k, brk <= k -> pages !! k = None) ->
  let s' := MkSpace (delete fd (<[fd := fd]> (s_fds s))) (<[fd := sz]> (s_sizes s)) pages (fd + 1) brk l in
  s_fds s' = s_fds s /\ clean s'.
Proof.
  intros [cl_pages0 cl_fds0 cl_brk0 cl_next0] -> Hbrk Hp s'. assert (s_fds s' = s_fds s) as Hfd.
  { simpl. rewrite delete_insert_eq. apply delete_id. apply cl_fds0. lia. }
  split; [exact Hfd |]. split; rewrite ?Hfd; simpl; [exact Hp | | lia | lia].
  intros fd Hge. apply cl_fds0. lia.
Qed.

(** Both functions end alike, once they have a descriptor for a new file. *)
Lemma attempt_tail s fd l0 : clean s -> fd = s_next s ->
  returns (run map_h (r <- trigger (FtruncateFd fd size) ;;
    if r =? -1 then trigger (CloseFd fd) ;; Ret None
    else ret <- try_map size fd ;; trigger (CloseFd fd) ;; Ret ret)
    (with_file s fd 0 (s_pages s) (s_brk s) l0)) (attempt size s).
Proof.
  intros Hc Hfd. pose proof Hc as [cl_pages0 cl_fds0 cl_brk0 cl_next0]. destruct pages_of_size as [Hp1 Hp2].
  rewrite run_bind, run_trigger. cbn [map_h].
  destruct (pop_cases (with_file s fd 0 (s_pages s) (s_brk s) l0)) as (ok & l & ->).
  cbn [s_fds with_file]. rewrite lookup_insert_eq. destruct ok.
  2: { simpl. destruct (closed_file s fd 0 (s_pages s) (s_brk s) l Hc Hfd ltac:(lia) cl_pages0). done. }
  cbn [obind]. change (0 =? -1) with false. cbn iota. unfold try_map.
  rewrite run_bind, run_bind, run_trigger. cbn [map_h s_fds s_sizes s_pages s_next s_brk s_ok with_file].
  rewrite insert_insert_eq. change (MkSpace (<[fd := fd]> (s_fds s)) (<[fd := size]> (s_sizes s))
    (s_pages s) (fd + 1) (s_brk s) l) with (with_file s fd size (s_pages s) (s_brk s) l).
  destruct (pop_cases (with_file s fd size (s_pages s) (s_brk s) l)) as (ok & l2 & ->).
  cbn [s_fds s_sizes s_pages s_next s_brk s_ok with_file]. rewrite lookup_insert_eq.
  rewrite (proj2 (Z.ltb_lt 0 (size * 2))) by lia. destruct ok.
  2: { cbn. rewrite delete_delete_eq.
       destruct (closed_file s fd size (s_pages s) (s_brk s) l2 Hc Hfd ltac:(lia) cl_pages0). done. }
  cbn [obind andb]. set (brk := s_brk s + Z.of_nat (pages_of (size * 2))).
  set (pg := map_pages (s_brk s) fd 0 (pages_of (size * 2)) (s_pages s)).
  rewrite (proj2 (Z.eqb_neq (s_brk s * 4096) MAP_FAILED)) by (unfold MAP_FAILED; lia).
  rewrite run_bind, run_trigger. cbn [map_h].
  change (MkSpace (<[fd := fd]> (s_fds s)) (<[fd := size]> (s_sizes s)) pg (fd + 1) brk l2)
    with (with_file s fd size pg brk l2).
  destruct (pop_cases (with_file s fd size pg brk l2)) as (ok & l3 & ->).
  cbn [s_fds s_sizes s_pages s_next s_brk s_ok with_file]. rewrite lookup_insert_eq.
  rewrite (proj2 (Z.ltb_lt 0 size)) by lia.
  replace (s_brk s * 4096 + size) with ((s_brk s + n) * 4096) by lia. rewrite Z.mod_mul, Z.eqb_refl by lia.
  assert (forall k, brk <= k -> pg !! k = None) as Hpg.
  { intros k Hk. unfold pg, brk in *. rewrite map_pages_lookup, decide_False by lia. apply cl_pages0. lia. }
  destruct ok.
  - cbn [obind andb]. rewrite (proj2 (Z.eqb_neq ((s_brk s + n) * 4096) MAP_FAILED)) by (unfold MAP_FAILED; lia).
    cbn [run obind]. rewrite run_bind, run_trigger. cbn [map_h obind run returns].
    set (pg2 := map_pages _ _ _ _ pg). cbn [s_fds s_sizes s_pages s_next s_brk s_ok].
    destruct (closed_file s fd size pg2 brk l3 Hc Hfd) as [Hf Hc'].
    { unfold brk. lia. }
    { intros k Hk. unfold pg2. rewrite map_pages_lookup, decide_False; [by apply Hpg |].
      rewrite Z.div_mul by lia. unfold brk in *. lia. }
    split; [exact Hf |]. split; [exact Hc' |]. split; [lia |]. split; [by apply Z.mod_mul |].
    exists fd. split; [apply lookup_insert_eq |]. intros k. cbn [s_pages].
    unfold pg2, pg. rewrite !map_pages_lookup, !Z.div_mul, Hp1, Hp2, !Z2Nat.id by lia.
    repeat case_decide; try lia; try done; do 2 f_equal; lia.
  - cbn. rewrite delete_delete_eq, Z.div_mul by lia. set (pg2 := unmap_pages _ _ pg).
    assert (pg2 = s_pages s) as ->.
    { apply map_eq. intros k. unfold pg2, pg. rewrite unmap_pages_lookup, map_pages_lookup.
      repeat case_decide; try done. symmetry. apply cl_pages0. lia. }
    destruct (closed_file s fd size (s_pages s) brk l3 Hc Hfd) as [Hf Hc'].
    { unfold brk. lia. }
    { intros k Hk. apply cl_pages0. unfold brk in Hk. lia. }
    done.
Qed.

Lemma attempt_none s l : clean s ->
  attempt size s None (MkSpace (s_fds s) (s_sizes s) (s_pages s) (s_next s) (s_brk s) l).
Proof. intros []. done. Qed.

Lemma new_file_cases s : exists l,
  new_file s = Done (-1) (MkSpace (s_fds s) (s_sizes s) (s_pages s) (s_next s) (s_brk s) l) \/
  new_file s = Done (s_next s) (with_file s (s_next s) 0 (s_pages s) (s_brk s) l).
Proof.
  unfold new_file. destruct (pop_cases s) as ([] & l & ->); exists l; [by right | by left].
Qed.

Lemma memfd_attempt s : clean s -> returns (run map_h (buffer_from_memfd size) s) (attempt size s).
Proof.
  intros Hc. unfold buffer_from_memfd. rewrite run_bind, run_trigger. cbn [map_h].
  destruct (new_file_cases s) as [l [-> | ->]]; cbn [obind].
  - by apply attempt_none.
  - rewrite (proj2 (Z.eqb_neq (s_next s) (-1))) by (destruct Hc; lia). by apply attempt_tail.
Qed.

(** Trying the directories changes nothing but what the kernel decides next. *)
Lemma open_first_cases ds s : clean s -> exists l,
  run map_h (open_first ds) s =
    Done (-1) (MkSpace (s_fds s) (s_sizes s) (s_pages s) (s_next s) (s_brk s) l) \/
  run map_h (open_first ds) s = Done (s_next s) (with_file s (s_next s) 0 (s_pages s) (s_brk s) l).
Proof.
  revert s. induction ds as [| d ds IH]; intros s Hc.
  - exists (s_ok s). left. by destruct s.
  - cbn [open_first]. rewrite run_bind, run_trigger. cbn [map_h].
    destruct (new_file_cases s) as [l [-> | ->]]; cbn [obind].
    + change (negb (-1 =? -1)) with false. cbn iota.
      destruct (IH (MkSpace (s_fds s) (s_sizes s) (s_pages s) (s_next s) (s_brk s) l)) as [l2 Hl2];
        [by destruct Hc | by exists l2].
    + rewrite (proj2 (Z.eqb_neq (s_next s) (-1))) by (destruct Hc; lia). exists l. by right.
Qed.

Lemma tmpfile_attempt s : clean s -> returns (run map_h (buffer_from_tmpfile size) s) (attempt size s).
Proof.
  intros Hc. unfold buffer_from_tmpfile. rewrite run_bind.
  destruct (open_first_cases dirs s Hc) as [l [-> | ->]]; cbn [obind].
  - by apply attempt_none.
  - rewrite (proj2 (Z.eqb_neq (s_next s) (-1))) by (destruct Hc; lia). by apply attempt_tail.
Qed.
End Attempt.

(** C13. The constructor always returns or throws, and no descriptor is left open. When it throws
    the address space is as before; when it returns, [size] is the request rounded up to
    pages and the two halves of the region show the same file of that size, page by page. *)
Theorem constructor_maps_mirror request s : 0 < request <= 2 ^ 61 -> clean s ->
  returns (run map_h (RingBuffer request) s) (fun r s' =>
    s_fds s' = s_fds s /\
    match r with
    | None => s_pages s' = s_pages s
    | Some (size, buffer, buffer_mirror) =>
        request <= size < request + 4096 /\ size mod 4096 = 0 /\ buffer_mirror = buffer + size /\
        buffer mod 4096 = 0 /\ exists ino, s_sizes s' !! ino = Some size /\
        mirrored (size / 4096) ino (buffer / 4096) (s_pages s) (s_pages s')
    end).
Proof.
  intros Hr Hc. unfold RingBuffer. rewrite PAGE_ALIGN_eq by lia. set (n := (request + 4095) / 4096).
  pose proof (Z.div_mod (request + 4095) 4096 ltac:(lia)) as Hd. fold n in Hd.
  pose proof (Z.mod_pos_bound (request + 4095) 4096 ltac:(lia)).
  assert (0 < n) as Hn by nia.
  assert (n * 4096 mod 4096 = 0) as Hm by (by apply Z.mod_mul).
  eapply returns_run_bind; [by apply memfd_attempt |].
  intros [[b bm] |] s1 (Hf1 & Hc1 & H1); [| eapply returns_run_bind; [by apply tmpfile_attempt |]].
  - cbn. split; [done |]. destruct H1 as (-> & Hb & Hi). split; [lia |]. done.
  - intros [[b bm] |] s2 (Hf2 & Hc2 & H2); cbn; (split; [congruence |]); [| congruence].
    destruct H2 as (-> & Hb & Hi). rewrite H1 in Hi. split; [lia |]. done.
Qed.

(** Neither of the two directories written first is tried: the missing comma makes
    one path of them. *)
Theorem tmp_directories_not_tried :
  ~ ("/tmp"%string ∈ dirs) /\ ~ ("/dev/shm"%string ∈ dirs) /\ "/tmp/dev/shm"%string ∈ dirs.
Proof. split; [| split]; vm_compute; set_solver. Qed.

(** ** Buffers of lists *)

#[export] Instance words_ops : BufferOps Z (list Z) := {
  b_add v b := b ++ [v];
  b_serializedSize b := zlen (concat (map enc_word b));
  b_data b := concat (map enc_word b);
  b_clear b := [];
  b_size b := zlen b }.

#[export] Instance strs_ops : BufferOps (list Z) (list (list Z)) := {
  b_add v b := b ++ [v];
  b_serializedSize b := zlen (concat (map enc_str b));
  b_data b := concat (map enc_str b);
  b_clear b := [];
  b_size b := zlen b }.

Lemma take_zlen {A} (l : list A) : take (Z.to_nat (zlen l)) l = l.
Proof. apply take_ge. unfold zlen. lia. Qed.

#[export] Instance words_laws : BufferLaws Z (list Z) enc_word (fun b => b).
Proof.
  split; try done; intros; simpl; [apply take_zlen |].
  pose proof (zlen_nonneg (concat (map enc_word b))). lia.
Qed.

#[export] Instance strs_laws : BufferLaws (list Z) (list (list Z)) enc_str (fun b => b).
Proof.
  split; try done; intros; simpl; [apply take_zlen |].
  pose proof (zlen_nonneg (concat (map enc_str b))). lia.
Qed.

Abbreviation demo_rbin := (RBIn (list Z) (list (list Z))).
Abbreviation demo_holds := (holds (fun b : list Z => b) (fun b : list (list Z) => b) 4096).

(** The entry of [main]: ten elements, ["Hello<i>"], ["Checkers<i>"], [i]. *)
Definition demo_push (i : Z) : demo_rbin -> demo_rbin :=
  push (bytes_of "Hello" ++ [48 + i]) (bytes_of "Checkers" ++ [48 + i]) i.
Definition empty_rbin : demo_rbin := MkRBIn [] [] [] [].
Definition main_entry : demo_rbin :=
  fold_left (fun e i => demo_push i e) (map Z.of_nat (seq 0 10)) empty_rbin.

(** An entry of one element and [n] characters in its first string. *)
Definition long_entry (n : nat) : demo_rbin := push (replicate n 65) [66] 7 empty_rbin.

(** No string of [ss] holds a NUL. *)
Lemma no_zeros (ss : list (list Z)) :
  forallb (forallb (fun b => negb (b =? 0))) ss = true -> forall s, s ∈ ss -> forall b, b ∈ s -> b <> 0.
Proof.
  intros Hf s Hs b Hb E. rewrite forallb_forall in Hf. apply list_elem_of_In in Hs, Hb.
  specialize (Hf s Hs). rewrite forallb_forall in Hf. specialize (Hf b Hb). by subst b.
Qed.

Lemma main_entry_ok : entry_ok (fun b : list Z => b) (fun b : list (list Z) => b) main_entry.
Proof.
  split.
  - vm_compute. reflexivity.
  - vm_compute. reflexivity.
  - change (Forall (fun v => - 2 ^ 63 <= v < 2 ^ 63) [0; 1; 2; 3; 4; 5; 6; 7; 8; 9]).
    repeat constructor; lia.
  - apply Forall_forall. intros x Hx. apply Forall_forall. intros b Hb. revert x Hx b Hb.
    apply no_zeros. vm_compute. reflexivity.
  - apply Forall_forall. intros x Hx. apply Forall_forall. intros b Hb. revert x Hx b Hb.
    apply no_zeros. vm_compute. reflexivity.
Qed.

Lemma long_entry_ok n : entry_ok (fun b : list Z => b) (fun b : list (list Z) => b) (long_entry n).
Proof.
  split.
  - reflexivity.
  - reflexivity.
  - change (Forall (fun v => - 2 ^ 63 <= v < 2 ^ 63) [7]). repeat constructor; lia.
  - change (Forall (Forall (fun b => b <> 0)) [replicate n 65]). constructor; [| constructor].
    by apply Forall_replicate.
  - change (Forall (Forall (fun b => b <> 0)) [[66]]). repeat constructor. discriminate.
Qed.

Abbreviation ws := (fun b : list Z => b).
Abbreviation ss := (fun b : list (list Z) => b).
Definition demo_fuel : nat := Z.to_nat 9000.

Lemma demo_fuel_ok : 4096 * 2 < Z.of_nat demo_fuel.
Proof. unfold demo_fuel. lia. Qed.

Lemma main_delivers_witness : exists n st',
  run (rb_h 4096) (write_all 4096 demo_fuel main_entry ;; read_all 4096 demo_fuel) (tt, fresh) = Done tt (tt, st') /\
  delivered st' = concat (replicate n (elements ws ss main_entry)) /\
  Z.of_nat n * 306 < 4096 <= (Z.of_nat n + 1) * 306.
Proof.
  destruct (main_delivers ws ss 4096 ltac:(lia) ltac:(lia)
    main_entry tt demo_fuel main_entry_ok ltac:(vm_compute; reflexivity) demo_fuel_ok) as (n & st' & E & _ & Hd & Hn).
  exists n, st'. split; [exact E |]. split; [exact Hd |].
  replace 306 with (zlen (image ws ss main_entry))
    by (vm_compute; reflexivity). exact Hn.
Defined.

Abbreviation demo_op := (op (LB := list Z) (FB := list (list Z))).

Lemma ring_refines_queue_witness : exists st',
  run (rb_h 4096) (do_ops 4096 demo_fuel [Write main_entry; Read; Read]) (tt, fresh) =
    Done [true; true; false] (tt, st') /\
  delivered st' = elements ws ss main_entry.
Proof.
  assert (Forall (op_ok ws ss) [Write main_entry; Read; Read]) as Hops.
  { constructor; [exact main_entry_ok |]. constructor; [exact I |]. constructor; [exact I | constructor]. }
  destruct (ring_refines_queue ws ss 4096 ltac:(lia) ltac:(lia) demo_fuel [Write main_entry; Read; Read]
    [] tt fresh [true; true; false] (elements ws ss main_entry) [] demo_fuel_ok Hops
    (fresh_holds ws ss 4096 ltac:(lia)) ltac:(vm_compute; reflexivity)) as (st' & E & _ & Hd).
  exists st'. split; [exact E | exact Hd].
Defined.

Ltac ops_ok :=
  repeat first [apply Forall_nil_2 | apply Forall_cons_2; [first [exact I | exact (long_entry_ok _)] |]].

(** The ring after [ops]. *)
Definition after (ops : list demo_op) : ring :=
  match run (rb_h 4096) (do_ops 4096 demo_fuel ops) (tt, fresh) with
  | Done _ (_, st) => st
  | Stopped _ (_, st) => st
  end.

Lemma after_holds ops rs ds q : Forall (op_ok ws ss) ops ->
  queue_run ws ss 4096 ops [] = Some (rs, ds, q) -> demo_holds q (after ops).
Proof.
  intros Hops Hq. destruct (do_ops_queue ws ss 4096 ltac:(lia) ltac:(lia) demo_fuel ops demo_fuel_ok Hops
    [] tt fresh rs ds q (fresh_holds ws ss 4096 ltac:(lia)) Hq) as (st & E & Hh & _).
  unfold after. rewrite E. exact Hh.
Qed.

(** A write position that has wrapped: 2000 bytes written and read, then 2500 written. *)
Definition wrapped_ops : list demo_op := [Write (long_entry 1933); Read; Write (long_entry 2433)].
Definition wrapped : ring := after wrapped_ops.

Lemma wrapped_holds : demo_holds [long_entry 2433] wrapped.
Proof.
  eapply (after_holds wrapped_ops).
  - ops_ok.
  - vm_compute. reflexivity.
Qed.

Lemma wrapped_positions : read_pos wrapped = 2000 /\ write_pos wrapped = 404.
Proof. split; vm_compute; reflexivity. Qed.

Lemma long_used n : used ws ss [long_entry n] = 67 + Z.of_nat n /\ zlen (image ws ss (long_entry n)) = 67 + Z.of_nat n.
Proof.
  rewrite used_one, image_zlen. unfold long_entry, push, strs. cbn [lines filenames names values empty_rbin].
  assert (zlen (concat (map enc_str (b_add (replicate n 65) []))) = Z.of_nat n + 1) as ->.
  { simpl. unfold zlen, enc_str. rewrite app_nil_r, length_app, length_replicate. simpl. lia. }
  change (zlen (b_add 7 [])) with 1. change (zlen (concat (map enc_str (b_add [66] [])))) with 2.
  change (zlen (@nil Z)) with 0. lia.
Qed.

Lemma wrapped_write_destroys_witness : exists st',
  run (rb_h 4096) (write 4096 (long_entry 1633)) (tt, wrapped) = Done true (tt, st') /\
  Some (byte_at 4096 (mem st') (read_pos st')) = Some 65.
Proof.
  destruct (long_used 2433) as [Hu _]. destruct (long_used 1633) as [_ Hz].
  destruct (wrapped_write_destroys ws ss 4096 ltac:(lia) ltac:(lia) [long_entry 2433] (long_entry 1633) tt
    wrapped wrapped_holds) as (st' & E & _ & Hb & _).
  - destruct wrapped_positions as [-> ->]. reflexivity.
  - rewrite Hu, Hz. lia.
  - exists st'. split; [exact E |]. rewrite Hb by (rewrite Hu, Hz; lia). rewrite Hu.
    vm_compute. reflexivity.
Defined.

Lemma write_decision_witness :
  (exists st', run (rb_h 4096) (write 4096 (long_entry 1633)) (tt, wrapped) = Done true (tt, st') /\
    read_pos st' = 2000) /\
  used ws ss [long_entry 2433] + zlen (image ws ss (long_entry 1633)) = 4200.
Proof.
  destruct wrapped_positions as [Hr Hw]. destruct (long_used 1633) as [_ Hz].
  split; [| by rewrite (proj1 (long_used 2433)), Hz].
  destruct (write_decision ws ss 4096 ltac:(lia) ltac:(lia) (long_entry 1633) tt wrapped) as
    [(st' & E & Hst & _) _].
  - rewrite Hr. lia.
  - rewrite Hw. lia.
  - rewrite Hz. lia.
  - exists st'. rewrite Hw, Hz, Hr in E. split; [exact E | congruence].
Defined.

(** A whole lap of entries of 128 bytes, each written and read. *)
Definition lap_ops : list demo_op := concat (replicate 32 [Write (long_entry 61); Read]).
Definition lap : ring := after lap_ops.

Fixpoint bytes_check (m : gmap Z Z) (p : Z) (l : list Z) : bool :=
  match l with
  | [] => true
  | b :: l' => (byte_at 4096 m p =? b) && bytes_check m (p + 1) l'
  end.

Lemma bytes_check_sound m p l : bytes_check m p l = true -> bytes_from 4096 m p l.
Proof.
  revert p. induction l as [| b l IH]; intros p Hc; [apply bytes_from_nil |].
  simpl in Hc. apply andb_prop in Hc as [H1 H2]. apply bytes_from_cons.
  split; [by apply Z.eqb_eq | by apply IH].
Qed.

Lemma reader_sees_unwritten_entry_witness : exists schedule c,
  pool_run (fun _ => rb_h 4096) schedule (duet 4096 main_entry demo_fuel lap) = c /\
  mem c.2 = mem lap /\ delivered c.2 = delivered lap ++ elements ws ss (long_entry 61).
Proof.
  destruct (reader_sees_unwritten_entry ws ss 4096 ltac:(lia) ltac:(lia) main_entry (long_entry 61)
    demo_fuel lap) as (sch & c & E & _ & Hm & Hd & _).
  - eapply (after_holds lap_ops).
    + apply Forall_concat, Forall_replicate. ops_ok.
    + vm_compute. reflexivity.
  - vm_compute. reflexivity.
  - apply long_entry_ok.
  - rewrite (proj2 (long_used 61)). lia.
  - apply bytes_check_sound. vm_compute. reflexivity.
  - exact demo_fuel_ok.
  - exists sch, c. split; [exact E |]. split; [exact Hm | exact Hd].
Defined.

Definition empty_space : space := MkSpace ∅ ∅ ∅ 3 1024 [false; true; true; true; true].

Lemma constructor_maps_mirror_witness :
  returns (run map_h (RingBuffer 1024) empty_space) (fun r s' => s_fds s' = ∅ /\
    match r with Some (size, _, _) => 1024 <= size < 5120 | None => s_pages s' = ∅ end).
Proof.
  assert (clean empty_space) as Hc.
  { split; simpl; [intros; apply lookup_empty | intros; apply lookup_empty | lia | lia]. }
  eapply returns_mono; [apply (constructor_maps_mirror 1024 empty_space ltac:(lia) Hc) |].
  intros [[[size b] bm] |] s' [Hf Hr]; (split; [exact Hf |]); [apply Hr | exact Hr].
Defined.
