(* ===== verification/MemcpySafe.v ===== *)
(** * not_my_segfault: copying from memory that may not be there

    [src/not_my_segfault/memcpy_safe.h] copies through a file: the kernel reports a bad source
    address as an error of [writev] instead of a signal. [test.c] compares it with other
    ways. Addresses are integers; [g_buffer] shows the file. *)
From stdpp Require Import base gmap sets list strings.
From Stdlib Require Import ZArith Lia.
From S2P Require Import Prelude Prog.

(** ** The process and its kernel *)

Inductive msE : Type -> Type :=
| Mkstemp : msE Z
| Unlink : msE unit
| Perror (s : string) : msE unit
| Ftruncate (fd len : Z) : msE Z
| Mmap (len fd : Z) : msE Z
| Writev (fd src n : Z) : msE Z
| ProcessVmReadv (dst src n : Z) : msE Z
(* a load is restarted when the handler of its fault returns *)
| TryLoad (p : Z) : msE (option Z)
| StoreByte (p b : Z) : msE unit
| GetFd : msE Z
| SetFd (fd : Z) : msE unit
| GetBuffer : msE Z
| SetBuffer (p : Z) : msE unit
| GetFlag : msE bool
| Sigaction (handler : bool) : msE unit
| Malloc (n : Z) : msE Z
| Free (p : Z) : msE unit
| ClockGettime : msE Z
| PrintFailed (name : string) : msE unit
| PrintThroughput (start end_ bytes : Z) (msg_prefix : string) : msE unit
| PrintNewline : msE unit.

Abbreviation ms := (prog msE).

Definition NULL : Z := 0.
Definition MAP_FAILED : Z := -1.

(** [100*4096*1024], an [int] before it is a [size_t]. *)
Definition g_buffer_size : Z := 100 * 4096 * 1024.

(** ** memcpy_safe.h *)

Definition init_memcpy_safe : ms unit :=
  fd <- trigger Mkstemp ;;
  trigger (SetFd fd) ;;
  trigger Unlink ;;
  if fd =? -1 then trigger (Perror "mkstemp")
  else
  r <- trigger (Ftruncate fd g_buffer_size) ;;
  if r =? -1 then trigger (Perror "ftruncate")
  else
  p <- trigger (Mmap g_buffer_size fd) ;;
  trigger (SetBuffer p) ;;
  if p =? MAP_FAILED
  then trigger (Perror "mmap") ;; trigger (SetBuffer NULL)
  else Ret tt.

Definition memget_safe (src n : Z) : ms Z :=
  fd <- trigger GetFd ;;
  r <- trigger (Writev fd src n) ;;
  if r =? -1 then Ret NULL else trigger GetBuffer.

(** A load that returns once the address can be read. *)
Definition load (fuel : nat) (p : Z) : ms Z :=
  loop fuel (fun _ => b <- trigger (TryLoad p) ;;
                      Ret (match b with Some v => inr v | None => inl tt end)) tt.

Fixpoint memcpy (fuel : nat) (dst src : Z) (n : nat) : ms unit :=
  match n with
  | O => Ret tt
  | S m => b <- load fuel src ;; trigger (StoreByte dst b) ;; memcpy fuel (dst + 1) (src + 1) m
  end.

Definition memcpy_safe (fuel : nat) (dst src n : Z) : ms bool :=
  buf <- trigger GetBuffer ;;
  if (buf =? NULL) || (g_buffer_size <? n) then Ret false
  else if n =? 0 then Ret true
  else
  got <- memget_safe src n ;;
  if got =? NULL then Ret false
  else
  buf <- trigger GetBuffer ;;
  memcpy fuel dst buf (Z.to_nat n) ;;
  Ret true.

(** ** test.c *)

(** The loop of the tests: whether the two regions hold the same bytes. *)
Fixpoint compare (fuel : nat) (a b : Z) (n : nat) (flag : bool) : ms bool :=
  match n with
  | O => Ret flag
  | S m =>
      x <- load fuel a ;;
      y <- load fuel b ;;
      compare fuel (a + 1) (b + 1) m (if x =? y then flag else false)
  end.

Definition test_read (fuel : nat) (dst _src sz : Z) : ms bool :=
  compare fuel dst dst (Z.to_nat sz) true ;; Ret true.

Definition test_memcpy (fuel : nat) (dst src sz : Z) : ms bool :=
  memcpy fuel dst src (Z.to_nat sz) ;;
  compare fuel dst src (Z.to_nat sz) true.

Definition test_memcpy_safe (fuel : nat) (dst src sz : Z) : ms bool :=
  memcpy_safe fuel dst src sz ;;
  compare fuel dst src (Z.to_nat sz) true.

Definition test_memget_safe (fuel : nat) (_dst src sz : Z) : ms bool :=
  dst <- memget_safe src sz ;;
  compare fuel dst src (Z.to_nat sz) true.

Definition test_process_vm_readv (fuel : nat) (dst src sz : Z) : ms bool :=
  trigger (ProcessVmReadv dst src sz) ;;
  compare fuel dst src (Z.to_nat sz) true.

Definition test_segfault (fuel : nat) (dst src sz : Z) : ms bool :=
  trigger (Sigaction true) ;;
  flag <- compare fuel dst src (Z.to_nat sz) true ;;
  trigger (Sigaction false) ;;
  g_segfault_flag <- trigger GetFlag ;;
  Ret (g_segfault_flag && flag).

Definition test : Type := nat -> Z -> Z -> Z -> ms bool.

(** The tests of both suites, in order. *)
Definition TESTS : list (string * test) :=
  [("test_read", test_read); ("test_memcpy", test_memcpy); ("test_memget_safe", test_memget_safe);
   ("test_memcpy_safe", test_memcpy_safe); ("test_process_vm_readv", test_process_vm_readv);
   ("test_segfault", test_segfault)]%string.

(** [RUN_THROUGHPUT]; false is the macro's [return]. *)
Definition run_throughput (fuel : nat) (f : string * test) (dst src sz : Z) (print : bool) : ms bool :=
  start <- trigger ClockGettime ;;
  ok <- f.2 fuel dst src sz ;;
  if negb ok then trigger (PrintFailed f.1) ;; Ret false
  else
  end_ <- trigger ClockGettime ;;
  (if print then trigger (PrintThroughput start end_ sz ("[T](" ++ f.1 ++ ")")) else Ret tt) ;;
  Ret true.

Fixpoint repeat_test (fuel : nat) (f : string * test) (dst src sz : Z) (iter : nat) : ms bool :=
  match iter with
  | O => Ret true
  | S m =>
      ok <- f.2 fuel dst src sz ;;
      if negb ok then trigger (PrintFailed f.1) ;; Ret false
      else repeat_test fuel f dst src sz m
  end.

Definition run_latency (fuel : nat) (f : string * test) (dst src sz iter : Z) (print : bool) : ms bool :=
  start <- trigger ClockGettime ;;
  ok <- repeat_test fuel f dst src sz (Z.to_nat iter) ;;
  if negb ok then Ret false
  else
  end_ <- trigger ClockGettime ;;
  (if print then trigger (PrintThroughput start end_ (sz * iter) ("[L](" ++ f.1 ++ ")")) else Ret tt) ;;
  Ret true.

(** The tests one after another, and the cleanup unless one has returned. *)
Fixpoint run_tests (one : string * test -> ms bool) (tests : list (string * test)) (data dst : Z) : ms unit :=
  match tests with
  | [] => trigger (Free data) ;; trigger (Free dst)
  | f :: rest => ok <- one f ;; if (ok : bool) then run_tests one rest data dst else Ret tt
  end.

Definition throughput_tests (fuel : nat) (print : bool) : ms unit :=
  let sz := 100 * 1024 * 1024 in
  data <- trigger (Malloc sz) ;;
  dst <- trigger (Malloc sz) ;;
  run_tests (fun f => run_throughput fuel f dst data sz print) TESTS data dst.

Definition latency_tests (fuel : nat) (print : bool) : ms unit :=
  let sz := 4096 in
  let iter := 100 * 1024 * 1024 / sz in
  data <- trigger (Malloc sz) ;;
  dst <- trigger (Malloc sz) ;;
  run_tests (fun f => run_latency fuel f dst data sz iter print) TESTS data dst.

Definition main (fuel : nat) : ms Z :=
  throughput_tests fuel false ;;
  throughput_tests fuel false ;;
  throughput_tests fuel false ;;
  throughput_tests fuel true ;;
  trigger PrintNewline ;;
  latency_tests fuel true ;;
  Ret 0.

(** ** The machine

    [user] is the memory of the process apart from [g_buffer]; an address without an entry is
    not mapped. [file] holds the bytes written to the temporary file, [offset] the
    position of its descriptor. [oks] decides the next fallible calls. *)
Record machine := MkM {
  user : gmap Z Z;
  file : gmap Z Z;
  file_size : Z;
  offset : Z;
  g_fd : Z;
  g_buffer : Z;
  handler_set : bool;
  g_segfault_flag : bool;
  next : Z;
  oks : list bool;
  clock : Z }.

Definition SIGSEGV : Z := 11.
Definition SIGBUS : Z := 7.

Definition with_user f w := MkM (f (user w)) (file w) (file_size w) (offset w) (g_fd w) (g_buffer w)
  (handler_set w) (g_segfault_flag w) (next w) (oks w) (clock w).
Definition with_file f sz off w := MkM (user w) (f (file w)) sz off (g_fd w) (g_buffer w)
  (handler_set w) (g_segfault_flag w) (next w) (oks w) (clock w).
Definition with_globals fd buf w := MkM (user w) (file w) (file_size w) (offset w) fd buf
  (handler_set w) (g_segfault_flag w) (next w) (oks w) (clock w).
Definition with_signal h flag w := MkM (user w) (file w) (file_size w) (offset w) (g_fd w) (g_buffer w)
  h flag (next w) (oks w) (clock w).
Definition with_next n l w := MkM (user w) (file w) (file_size w) (offset w) (g_fd w) (g_buffer w)
  (handler_set w) (g_segfault_flag w) n l (clock w).

Definition in_buffer (w : machine) (p : Z) : bool :=
  negb (g_buffer w =? NULL) && (g_buffer w <=? p) && (p <? g_buffer w + g_buffer_size).

(** The byte at an address; [None] when it is not mapped. *)
Definition view (w : machine) (p : Z) : option Z :=
  if in_buffer w p then Some (default 0 (file w !! (p - g_buffer w))) else user w !! p.

(** The bytes at [p] up to the first one that cannot be read. *)
Fixpoint readable (w : machine) (p : Z) (n : nat) : list Z :=
  match n with
  | O => []
  | S m => match view w p with Some b => b :: readable w (p + 1) m | None => [] end
  end.

Fixpoint put (p : Z) (data : list Z) (m : gmap Z Z) : gmap Z Z :=
  match data with
  | [] => m
  | b :: data' => put (p + 1) data' (<[p := b]> m)
  end.

Definition pop_ok (w : machine) : bool * machine :=
  match oks w with
  | [] => (true, w)
  | b :: l => (b, with_next (next w) l w)
  end.

(** [writev] copies what it can read and fails when it can read nothing. *)
Definition sys_writev (fd src n : Z) (w : machine) : outcome machine Z :=
  let '(ok, w) := pop_ok w in
  let data := readable w src (Z.to_nat n) in
  if negb ok || (fd =? -1) then Done (-1) w
  else if (0 <? n) && (zlen data =? 0) then Done (-1) w
  else Done (zlen data) (with_file (put (offset w) data) (Z.max (file_size w) (offset w + zlen data))
                           (offset w + zlen data) w).

Definition ms_h : handler msE machine := fun R e w =>
  match e in msE R return outcome machine R with
  | Mkstemp => let '(ok, w) := pop_ok w in
      if negb ok then Done (-1) w
      else Done (next w) (with_next (next w + 1) (oks w) (with_file (fun _ => ∅) 0 0 w))
  | Unlink | Perror _ | PrintFailed _ | PrintThroughput _ _ _ _ | PrintNewline => Done tt w
  | Ftruncate fd len => let '(ok, w) := pop_ok w in
      if negb ok || (fd =? -1) then Done (-1) w
      else Done 0 (with_file (filter (fun kv => kv.1 < len)) len (offset w) w)
  | Mmap len fd => let '(ok, w) := pop_ok w in
      if negb ok || (fd =? -1) then Done MAP_FAILED w
      else Done (next w) (with_next (next w + len) (oks w) w)
  | Writev fd src n => sys_writev fd src n w
  | ProcessVmReadv dst src n =>
      let room := readable w dst (Z.to_nat n) in
      let data := take (length room) (readable w src (Z.to_nat n)) in
      Done (if zlen data =? 0 then -1 else zlen data) (with_user (put dst data) w)
  | TryLoad p =>
      match view w p with
      | Some b => Done (Some b) w
      | None => if handler_set w then Done None (with_signal true false w)
                else Stopped (Signaled SIGSEGV) w
      end
  | StoreByte p b =>
      if in_buffer w p then Done tt (with_file <[p - g_buffer w := b]> (file_size w) (offset w) w)
      else match user w !! p with
      | Some _ => Done tt (with_user <[p := b]> w)
      | None => Stopped (Signaled SIGSEGV) w
      end
  | GetFd => Done (g_fd w) w
  | SetFd fd => Done tt (with_globals fd (g_buffer w) w)
  | GetBuffer => Done (g_buffer w) w
  | SetBuffer p => Done tt (with_globals (g_fd w) p w)
  | GetFlag => Done (g_segfault_flag w) w
  | Sigaction h => Done tt (with_signal h (g_segfault_flag w) w)
  | Malloc n => let '(ok, w) := pop_ok w in
      if negb ok then Done NULL w
      else Done (next w) (with_next (next w + n) (oks w)
             (with_user (put (next w) (replicate (Z.to_nat n) 0)) w))
  | Free p => Done tt w
  | ClockGettime => Done (clock w) w
  end.

(** ** Copying *)

Lemma put_lookup p data m k : put p data m !! k =
  if decide (p <= k < p + zlen data) then data !! Z.to_nat (k - p) else m !! k.
Proof.
  revert p m. induction data as [| b data IH]; intros p m.
  - rewrite decide_False by (unfold zlen; simpl; lia). done.
  - cbn [put]. rewrite IH, zlen_cons. pose proof (zlen_nonneg data). destruct (decide (k = p)) as [-> |].
    + rewrite decide_False, decide_True by lia. rewrite lookup_insert_eq, Z.sub_diag. done.
    + rewrite lookup_insert_ne by done. destruct (decide (p + 1 <= k < p + 1 + zlen data)).
      * rewrite decide_True by lia. replace (Z.to_nat (k - p)) with (S (Z.to_nat (k - (p + 1)))) by lia. done.
      * by rewrite decide_False by lia.
Qed.

(** [n] bytes of the file from [i] on. *)
Fixpoint file_bytes (f : gmap Z Z) (i : Z) (n : nat) : list Z :=
  match n with
  | O => []
  | S m => default 0 (f !! i) :: file_bytes f (i + 1) m
  end.

Lemma file_bytes_lookup f i n k : (k < n)%nat ->
  file_bytes f i n !! k = Some (default 0 (f !! (i + Z.of_nat k))).
Proof.
  revert i k. induction n as [| n IH]; intros i [| k] Hk; try lia; cbn [file_bytes].
  - by rewrite Z.add_0_r.
  - rewrite lookup_cons, IH by lia. do 3 f_equal. lia.
Qed.

Lemma file_bytes_zlen f i n : zlen (file_bytes f i n) = Z.of_nat n.
Proof. unfold zlen. f_equal. revert i. induction n as [| n IH]; intros i; simpl; auto. Qed.

(** The region [dst, dst + n) is memory of the process that is not [g_buffer]. *)
Definition own_region (w : machine) (dst n : Z) : Prop :=
  forall k, 0 <= k < n -> is_Some (user w !! (dst + k)) /\ in_buffer w (dst + k) = false.

Lemma run_safe_copy fuel w : g_buffer w <> NULL -> forall n i dst, 0 <= i ->
  i + Z.of_nat n <= g_buffer_size -> own_region w dst (Z.of_nat n) ->
  run ms_h (memcpy (S fuel) dst (g_buffer w + i) n) w =
  Done tt (with_user (put dst (file_bytes (file w) i n)) w).
Proof.
  intros Hb n. revert w Hb. induction n as [| n IH]; intros w Hb i dst Hi Hn Hd; [by destruct w |].
  destruct (Hd 0 ltac:(lia)) as [[x Hx] Hin]. rewrite Z.add_0_r in Hx, Hin.
  cbn [memcpy file_bytes]. unfold load at 1. cbn [loop]. rewrite !run_bind, run_trigger. cbn [ms_h].
  assert (view w (g_buffer w + i) = Some (default 0 (file w !! i))) as ->.
  { unfold view, in_buffer. rewrite (proj2 (Z.eqb_neq _ _) Hb). rewrite (proj2 (Z.leb_le _ _)), (proj2 (Z.ltb_lt _ _)) by lia.
    cbn [negb andb]. do 3 f_equal. lia. }
  cbn [obind run]. rewrite run_bind, run_trigger. cbn [ms_h]. rewrite Hin, Hx. cbn [obind].
  set (b := default 0 _). replace (g_buffer w + i + 1) with (g_buffer (with_user <[dst := b]> w) + (i + 1)) by (simpl; lia).
  rewrite IH; [done | done | lia | lia |].
  intros k Hk. destruct (Hd (k + 1) ltac:(lia)) as [H1 H2].
  replace (dst + 1 + k) with (dst + (k + 1)) by lia. split; [| exact H2].
  simpl. destruct (decide (dst = dst + (k + 1))); [lia |]. by rewrite lookup_insert_ne.
Qed.

(** C16. When nothing of the source can be read, [memcpy_safe] returns false and leaves the
    memory alone. Otherwise it returns true: the bytes that can be read are appended to the file at the
    position of its descriptor, but the destination receives the file from its start. So
    the copy is right for the first call, and a later call of the same size delivers the
    bytes of the first one. *)
Theorem memcpy_safe_spec fuel dst src n w : g_buffer w <> NULL -> g_fd w <> -1 -> oks w = [] ->
  0 < n <= g_buffer_size -> 0 <= offset w -> own_region w dst n ->
  let data := readable w src (Z.to_nat n) in
  exists w', run ms_h (memcpy_safe (S fuel) dst src n) w = Done (negb (zlen data =? 0)) w' /\
    (zlen data = 0 -> w' = w) /\
    (0 < zlen data -> offset w' = offset w + zlen data /\ forall k, 0 <= k < n ->
      user w' !! (dst + k) = Some (default 0 (put (offset w) data (file w) !! k))).
Proof.
  intros Hb Hfd Hok Hn Ho Hd data. unfold memcpy_safe, memget_safe.
  rewrite run_bind, run_trigger. cbn [ms_h obind].
  rewrite (proj2 (Z.eqb_neq _ _) Hb), (proj2 (Z.ltb_ge g_buffer_size n)), (proj2 (Z.eqb_neq n 0)) by lia.
  cbn [orb]. rewrite run_bind, run_bind, run_trigger. cbn [ms_h obind].
  rewrite run_bind, run_trigger. cbn [ms_h]. unfold sys_writev, pop_ok. rewrite Hok.
  rewrite (proj2 (Z.eqb_neq _ _) Hfd), (proj2 (Z.ltb_lt 0 n)) by lia. cbn [negb orb andb].
  fold data. pose proof (zlen_nonneg data). destruct (zlen data =? 0) eqn:E; zbool.
  - exists w. cbn. split; [done |]. split; [done | lia].
  - cbn [obind]. rewrite (proj2 (Z.eqb_neq (zlen data) (-1))) by lia.
    rewrite run_trigger. cbn [ms_h obind]. set (w1 := with_file _ _ _ w).
    change (g_buffer w1) with (g_buffer w). rewrite (proj2 (Z.eqb_neq _ _) Hb).
    rewrite run_bind, run_trigger. cbn [ms_h obind]. rewrite run_bind.
    rewrite <-(Z.add_0_r (g_buffer w1)).
    rewrite (run_safe_copy fuel w1) by (try exact Hb; rewrite ?Z2Nat.id by lia; try lia; exact Hd).
    eexists. split; [done |]. split; [lia |]. intros _. split; [done |]. intros k Hk. cbn [with_user user].
    rewrite put_lookup, file_bytes_zlen, decide_True by lia.
    rewrite file_bytes_lookup by lia. do 3 f_equal. lia.
Qed.

(** ** The test with a signal handler *)

Lemma load_unmapped fuel p w : handler_set w = true -> view w p = None ->
  exists w', run ms_h (load fuel p) w = Stopped OutOfFuel w'.
Proof.
  unfold load. revert w. induction fuel as [| fuel IH]; intros w Hh Hp; [by exists w |].
  cbn [loop]. rewrite !run_bind, run_trigger. cbn [ms_h]. rewrite Hp, Hh. cbn [obind run].
  apply IH; [done |]. exact Hp.
Qed.

Lemma load_mapped fuel p b w : view w p = Some b -> run ms_h (load (S fuel) p) w = Done b w.
Proof.
  intros Hp. unfold load. cbn [loop]. rewrite !run_bind, run_trigger. cbn [ms_h]. by rewrite Hp.
Qed.

Lemma compare_unmapped fuel n : forall a b flag w, handler_set w = true ->
  (exists k, 0 <= k < Z.of_nat n /\ (view w (a + k) = None \/ view w (b + k) = None)) ->
  exists w', run ms_h (compare fuel a b n flag) w = Stopped OutOfFuel w'.
Proof.
  induction n as [| n IH]; intros a b flag w Hh (k & Hk & Hv); [lia |].
  cbn [compare]. destruct fuel as [| fuel]; [by exists w |].
  destruct (view w a) as [x |] eqn:Ha.
  2: { rewrite run_bind. destruct (load_unmapped (S fuel) a w Hh Ha) as [w' ->]. by exists w'. }
  rewrite run_bind, (load_mapped _ _ x) by done. cbn [obind].
  destruct (view w b) as [y |] eqn:Hb.
  2: { rewrite run_bind. destruct (load_unmapped (S fuel) b w Hh Hb) as [w' ->]. by exists w'. }
  rewrite run_bind, (load_mapped _ _ y) by done. cbn [obind]. apply IH; [done |].
  destruct (decide (k = 0)) as [-> |]; [rewrite !Z.add_0_r in Hv; destruct Hv; congruence |].
  exists (k - 1). replace (a + 1 + (k - 1)) with (a + k) by lia.
  replace (b + 1 + (k - 1)) with (b + k) by lia. split; [lia | done].
Qed.

(** [test_segfault] is meant to return false when the traversal faults. It never returns:
    its handler returns to the faulting load, which faults again, for any bound on
    the number of attempts. *)
Theorem test_segfault_never_returns fuel dst src sz w :
  (exists k, 0 <= k < sz /\ (view w (dst + k) = None \/ view w (src + k) = None)) ->
  exists w', run ms_h (test_segfault fuel dst src sz) w = Stopped OutOfFuel w'.
Proof.
  intros (k & Hk & Hv). unfold test_segfault. rewrite run_bind, run_trigger. cbn [ms_h obind].
  rewrite run_bind.
  destruct (compare_unmapped fuel (Z.to_nat sz) dst src true (with_signal true (g_segfault_flag w) w) eq_refl)
    as [w' ->].
  - exists k. rewrite Z2Nat.id by lia. split; [done |]. exact Hv.
  - by exists w'.
Qed.

(** ** A concrete process *)

(** Two sources of four bytes, the second only half mapped, and a destination. *)
Definition demo_machine : machine :=
  MkM (put 100 [1; 2; 3; 4] (put 200 [5; 6] (put 300 [0; 0; 0; 0] ∅))) ∅ 0 0 0 NULL false true
    100000 [] 0.

Definition ready : machine :=
  match run ms_h init_memcpy_safe demo_machine with Done _ w => w | Stopped _ w => w end.

Definition once : machine :=
  match run ms_h (memcpy_safe 1 300 100 4) ready with Done _ w => w | Stopped _ w => w end.

Lemma demo_region : own_region once 300 4.
Proof.
  intros k Hk. assert (k = 0 \/ k = 1 \/ k = 2 \/ k = 3) as [-> | [-> | [-> | ->]]] by lia;
    (split; [vm_compute; by eexists | vm_compute; reflexivity]).
Qed.

Lemma memcpy_safe_spec_witness :
  readable once 200 4 = [5; 6] /\
  exists w', run ms_h (memcpy_safe 1 300 200 4) once = Done true w' /\
    forall k, 0 <= k < 4 -> user w' !! (300 + k) = Some (k + 1).
Proof.
  split; [vm_compute; reflexivity |].
  destruct (memcpy_safe_spec 0 300 200 4 once) as (w' & E & _ & Hw).
  - vm_compute. discriminate.
  - vm_compute. discriminate.
  - vm_compute. reflexivity.
  - split; [reflexivity | discriminate].
  - vm_compute. discriminate.
  - exact demo_region.
  - exists w'. split; [exact E |]. intros k Hk. destruct Hw as [_ Hw]; [vm_compute; reflexivity |].
    rewrite Hw by exact Hk. assert (k = 0 \/ k = 1 \/ k = 2 \/ k = 3) as [-> | [-> | [-> | ->]]] by lia;
      vm_compute; reflexivity.
Defined.

Lemma test_segfault_never_returns_witness : exists w',
  run ms_h (test_segfault 1000 300 200 4) demo_machine = Stopped OutOfFuel w'.
Proof.
  apply (test_segfault_never_returns 1000 300 200 4 demo_machine).
  exists 2. split; [lia |]. right. vm_compute. reflexivity.
Defined.
