(* ===== verification/Punning.v ===== *)
(** * type_punning: counting control codes through 8-byte words

    [src/type_punning/punning.cpp] counts the codes of mangled names in a string twice: [count_hits]
    reads 8 bytes as one word and compares it under a mask, [count_hits_bad] calls
    [strncmp]. The words are little-endian; [main] repeats one of the two a thousand million times. *)
From stdpp Require Import base gmap sets list strings.
From Stdlib Require Import ZArith Lia.
From S2P Require Import Prelude Prog Sys.

(** ** The tables *)

(** An array of 8 bytes initialised from a literal. *)
Definition pad8 (code : list Z) : list Z := code ++ replicate (8 - length code) 0.

Definition simple_codes : list (list Z) :=
  map bytes_of ["$SP$"; "$BP$"; "$RF$"; "$LT$"; "$GT$"; "$RP$"]%string.

Definition uni_codes : list (list Z) :=
  map bytes_of ["$u20$"; "$u27$"; "$u5b$"; "$u5d$"; "$u7b$"; "$u7d$"; "$u7e$"]%string.

Definition init_lookup_pre : list (list Z * Z) :=
  map (fun code => (pad8 code, 4)) simple_codes ++ map (fun code => (pad8 code, 5)) uni_codes.

(** The 8 bytes of each code read as an [unsigned long]. *)
Definition init_lookup : list (Z * Z) :=
  map (fun c => (le_combine c.1, c.2)) init_lookup_pre.

Definition init_mask : list Z :=
  [0x0000000000000000; 0x00000000000000ff; 0x000000000000ffff; 0x0000000000ffffff;
   0x00000000ffffffff; 0x000000ffffffffff; 0x0000ffffffffffff; 0x00ffffffffffffff;
   0xffffffffffffffff].

Definition mask (n : Z) : Z := default 0 (znth init_mask n).

(** ** The fast loop *)

Definition DOLLAR : Z := 36.

(** [str] is an index into the string and its terminator. *)
Definition char_at (s : list Z) (str : Z) : Z := default 0 (znth s str).

Definition word_at (s : list Z) (str : Z) : Z :=
  le_combine (map (fun k => char_at s (str + k)) (seqZ 0 8)).

(** The loop over [lu]: the length of the first code that matches. *)
Fixpoint find_code (lu : list (Z * Z)) (match_ : Z) : option Z :=
  match lu with
  | [] => None
  | (code, len) :: lu' =>
      if Z.land match_ (mask len) =? code then Some len else find_code lu' match_
  end.

(** One iteration of the [while]: the new [str] and what it adds to [hits]. *)
Definition fast_step (s : list Z) (str : Z) : Z * Z :=
  if char_at s str =? DOLLAR then
    match find_code init_lookup (word_at s str) with
    | Some len => (str + (len - 1) + 1, 1)
    | None => (str + 1, 0)
    end
  else (str + 1, 0).

(** [strncmp(str, literal, n)], with [literal] without its terminator. *)
Fixpoint strncmp (s : list Z) (str : Z) (literal : list Z) (n : nat) : Z :=
  match n with
  | O => 0
  | S m =>
      let a := char_at s str in
      let b := default 0 (head literal) in
      if a =? b then if a =? 0 then 0 else strncmp s (str + 1) (tail literal) m else a - b
  end.

Definition equals (s : list Z) (str : Z) (n : nat) (literal : string) : bool :=
  strncmp s str (bytes_of literal) n =? 0.

Definition bad_step (s : list Z) (str : Z) : Z * Z :=
  if char_at s str =? DOLLAR then
    if equals s str 4 "$SP$" || equals s str 4 "$BP$" || equals s str 4 "$RF$" ||
       equals s str 4 "$LT$" || equals s str 4 "$GT$" || equals s str 4 "$LP$" ||
       equals s str 4 "$RP$"
    then (str + 4, 1)
    else if equals s str 5 "$u20$" || equals s str 5 "$u27$" || equals s str 5 "$u5b$" ||
       equals s str 5 "$u5d$" || equals s str 5 "$u7b$" || equals s str 5 "$u7d$" ||
       equals s str 5 "$u7e$"
    then (str + 4, 1)
    else (str + 1, 0)
  else (str + 1, 0).

(** [while (str < end)]; every step moves [str] forward, so [fuel] may be the length. *)
Fixpoint scan (step : list Z -> Z -> Z * Z) (fuel : nat) (s : list Z) (str hits : Z) : option Z :=
  if str <? zlen s - 15 then
    match fuel with
    | O => None
    | S n => let '(str', h) := step s str in scan step n s str' (hits + h)
    end
  else Some hits.

Definition count_hits (s : list Z) : option Z := scan fast_step (length s) s 0 0.
Definition count_hits_bad (s : list Z) : option Z := scan bad_step (length s) s 0 0.

(** ** Comparing words *)

Definition byte (b : Z) : Prop := 0 <= b < 256.

Lemma le_combine_bound l : Forall byte l -> 0 <= le_combine l < 256 ^ zlen l.
Proof.
  induction 1 as [| b l Hb Hl IH]; [done |]. rewrite zlen_cons. cbn [le_combine].
  rewrite Z.pow_add_r by (pose proof (zlen_nonneg l); lia). unfold byte in Hb. lia.
Qed.

Lemma le_combine_take n l : Forall byte l -> (n <= length l)%nat ->
  Z.land (le_combine l) (Z.ones (8 * Z.of_nat n)) = le_combine (take n l).
Proof.
  intros Hl. revert n. induction Hl as [| b l Hb Hl IH]; intros n Hn.
  - destruct n; [done | simpl in Hn; lia].
  - destruct n as [| n]; [by rewrite Z.land_0_r |]. simpl in Hn. cbn [take le_combine].
    rewrite <-IH by lia. rewrite !Z.land_ones by lia.
    replace (2 ^ (8 * Z.of_nat (S n))) with (256 * 2 ^ (8 * Z.of_nat n)).
    2: { rewrite Nat2Z.inj_succ, Z.mul_succ_r, Z.pow_add_r by lia. lia. }
    unfold byte in Hb. rewrite Z.rem_mul_r by lia.
    replace ((b + 256 * le_combine l) mod 256) with b.
    2: { rewrite Z.mul_comm, Z_mod_plus_full, Z.mod_small by lia. done. }
    replace ((b + 256 * le_combine l) / 256) with (le_combine l); [done |].
    rewrite Z.mul_comm, Z.div_add, Z.div_small by lia. lia.
Qed.

Lemma le_combine_inj l1 l2 : Forall byte l1 -> Forall byte l2 -> length l1 = length l2 ->
  le_combine l1 = le_combine l2 -> l1 = l2.
Proof.
  intros H1. revert l2. induction H1 as [| a l1 Ha _ IH]; intros [| b l2] H2 Hlen E; try done.
  apply Forall_cons in H2 as [Hb H2]. cbn [le_combine] in E. unfold byte in *.
  assert (a = b /\ le_combine l1 = le_combine l2) as [-> E2] by lia.
  f_equal. apply IH; [done | by simplify_eq/= | done].
Qed.

Lemma le_combine_zeros l n : le_combine (l ++ replicate n 0) = le_combine l.
Proof.
  induction l as [| b l IH]; cbn [app le_combine]; [| by rewrite IH].
  induction n as [| n IH]; [done |]. cbn [replicate le_combine]. lia.
Qed.

Lemma mask_ones n : (n <= 8)%nat -> mask (Z.of_nat n) = Z.ones (8 * Z.of_nat n).
Proof. intros Hn. do 9 (destruct n as [| n]; [reflexivity |]). lia. Qed.

(** The [n] characters at [str]. *)
Definition at_ (s : list Z) (str : Z) (n : nat) : list Z :=
  map (fun k => char_at s (str + k)) (seqZ 0 (Z.of_nat n)).

Lemma at_S s str n : at_ s str (S n) = char_at s str :: at_ s (str + 1) n.
Proof.
  unfold at_. rewrite Nat2Z.inj_succ, seqZ_cons by lia. cbn [map]. rewrite Z.add_0_r. f_equal.
  rewrite Z.pred_succ. change (Z.succ 0) with (1 + 0).
  rewrite <-(fmap_add_seqZ 1 0 (Z.of_nat n)), <-list_fmap_compose.
  apply list_fmap_ext. intros i k _. cbn. f_equal. lia.
Qed.

Lemma char_at_byte s str : Forall byte s -> byte (char_at s str).
Proof.
  intros Hs. unfold char_at, znth. destruct (0 <=? str); [| by unfold byte].
  destruct (s !! Z.to_nat str) eqn:E; [| by unfold byte]. by eapply Forall_lookup_1.
Qed.

Lemma at_bytes s str n : Forall byte s -> Forall byte (at_ s str n).
Proof. intros Hs. apply Forall_map, Forall_forall. intros k _. by apply char_at_byte. Qed.

Lemma at_length s str n : length (at_ s str n) = n.
Proof. unfold at_. rewrite length_map, length_seqZ. lia. Qed.

Lemma at_take s str n m : (n <= m)%nat -> take n (at_ s str m) = at_ s str n.
Proof.
  revert m str. induction n as [| n IH]; intros [| m] str Hn; try lia; [done | done |].
  rewrite !at_S. cbn [take]. by rewrite IH by lia.
Qed.

(** The masked comparison of words is the comparison of characters. *)
Lemma word_matches s str code n : Forall byte s -> Forall byte code -> length code = n -> (n <= 8)%nat ->
  (Z.land (word_at s str) (mask (Z.of_nat n)) =? le_combine (pad8 code)) = bool_decide (at_ s str n = code).
Proof.
  intros Hs Hc Hlen Hn. unfold word_at. change (seqZ 0 8) with (seqZ 0 (Z.of_nat 8)).
  fold (at_ s str 8). rewrite mask_ones, le_combine_take by (rewrite ?at_length; auto using at_bytes).
  rewrite at_take by done. unfold pad8. rewrite le_combine_zeros.
  apply eq_true_iff_eq. rewrite Z.eqb_eq, bool_decide_eq_true. split; [| by intros ->].
  apply le_combine_inj; [by apply at_bytes | done | by rewrite at_length].
Qed.

(** [strncmp] over the characters of the literal. *)
Lemma strncmp_matches s str lit : Forall (fun b => b <> 0) lit ->
  (strncmp s str lit (length lit) =? 0) = bool_decide (at_ s str (length lit) = lit).
Proof.
  intros Hl. revert str. induction Hl as [| b lit Hb _ IH]; intros str; [done |].
  cbn [length]. rewrite at_S. cbn [strncmp head tail default]. change (default 0 (Some b)) with b. change (id b) with b. destruct (char_at s str =? b) eqn:E; zbool.
  - rewrite E, (proj2 (Z.eqb_neq b 0)) by done. rewrite IH. apply bool_decide_ext. split; [by intros -> | congruence].
  - rewrite (proj2 (Z.eqb_neq _ 0)) by lia. symmetry. apply bool_decide_eq_false. congruence.
Qed.

(** ** The two loops *)

Definition matches (s : list Z) (str : Z) (n : nat) (codes : list (list Z)) : bool :=
  existsb (fun code => bool_decide (at_ s str n = code)) codes.

Definition well_coded (n : nat) (codes : list (list Z)) : Prop :=
  Forall (fun code => Forall byte code /\ length code = n) codes.

Lemma find_code_block s str n codes rest : Forall byte s -> (n <= 8)%nat -> well_coded n codes ->
  find_code (map (fun c => (le_combine c.1, c.2)) (map (fun code => (pad8 code, Z.of_nat n)) codes) ++ rest)
    (word_at s str) =
  if matches s str n codes then Some (Z.of_nat n) else find_code rest (word_at s str).
Proof.
  intros Hs Hn Hc. induction Hc as [| code codes [Hb Hl] _ IH]; [done |].
  cbn [map app find_code fst snd matches existsb]. rewrite (word_matches s str code n) by done.
  case_bool_decide; [done |]. exact IH.
Qed.

(** What the fast loop finds. *)
Lemma find_code_spec s str : Forall byte s -> find_code init_lookup (word_at s str) =
  if matches s str 4 simple_codes then Some 4
  else if matches s str 5 uni_codes then Some 5 else None.
Proof.
  intros Hs. unfold init_lookup, init_lookup_pre. rewrite map_app.
  assert (forall n codes, forallb (fun c => forallb (fun b => (0 <=? b) && (b <? 256)) c &&
    (length c =? n)%nat) codes = true -> well_coded n codes) as Hw.
  { intros n codes. unfold well_coded. rewrite forallb_forall, Forall_forall. intros Hf c Hin.
    apply list_elem_of_In in Hin. specialize (Hf c Hin). apply andb_prop in Hf as [H1 H2].
    split; [| by apply Nat.eqb_eq]. rewrite forallb_forall in H1. apply Forall_forall.
    intros b Hb. apply list_elem_of_In in Hb. specialize (H1 b Hb). zbool. unfold byte. lia. }
  rewrite (find_code_block s str 4) by (try done; try lia; apply Hw; reflexivity).
  rewrite <-(app_nil_r (map _ (map _ uni_codes))).
  rewrite (find_code_block s str 5) by (try done; try lia; apply Hw; reflexivity). done.
Qed.

Definition LP : list Z := bytes_of "$LP$".

Lemma equals_matches s str n lit : length (bytes_of lit) = n -> forallb (fun b => negb (b =? 0)) (bytes_of lit) = true ->
  equals s str n lit = bool_decide (at_ s str n = bytes_of lit).
Proof.
  intros <- Hz. unfold equals. apply strncmp_matches. rewrite forallb_forall in Hz.
  apply Forall_forall. intros b Hb. apply list_elem_of_In in Hb. specialize (Hz b Hb). by zbool.
Qed.

Lemma bad_step_spec s str : bad_step s str =
  if char_at s str =? DOLLAR then
    if matches s str 4 simple_codes || bool_decide (at_ s str 4 = LP) then (str + 4, 1)
    else if matches s str 5 uni_codes then (str + 4, 1) else (str + 1, 0)
  else (str + 1, 0).
Proof.
  unfold bad_step. destruct (char_at s str =? DOLLAR); [| done].
  rewrite !equals_matches by reflexivity. unfold matches, simple_codes, uni_codes, LP. cbn [map existsb].
  rewrite !orb_false_r, !orb_assoc.
  rewrite <-(orb_assoc _ (bool_decide (at_ s str 4 = bytes_of "$LP$"))),
    (orb_comm (bool_decide (at_ s str 4 = bytes_of "$LP$"))), !orb_assoc. done.
Qed.

(** No [$LP$], and no code that starts at the last character of a five-character code. *)
Definition disjoint_codes (s : list Z) : Prop := forall str, 0 <= str ->
  at_ s str 4 <> LP /\
  (matches s str 5 uni_codes = true ->
   matches s (str + 4) 4 simple_codes = false /\ matches s (str + 4) 5 uni_codes = false).

Lemma scan_stop step fuel s str hits : zlen s - 15 <= str -> scan step fuel s str hits = Some hits.
Proof. intros Hs. destruct fuel; cbn [scan]; by rewrite (proj2 (Z.ltb_ge _ _)). Qed.

Lemma scan_agree s : Forall byte s -> disjoint_codes s -> forall n str hits f1 f2, 0 <= str ->
  zlen s - 15 - str <= Z.of_nat n -> (n <= f1)%nat -> (n <= f2)%nat ->
  exists total, scan fast_step f1 s str hits = Some total /\ scan bad_step f2 s str hits = Some total.
Proof.
  intros Hs Hd n. induction (lt_wf n) as [n _ IH]. intros str hits f1 f2 H0 Hn Hf1 Hf2.
  destruct (decide (zlen s - 15 <= str)) as [He | He]; [exists hits; by rewrite !scan_stop |].
  destruct f1 as [| f1]; [lia |]. destruct f2 as [| f2]; [lia |]. cbn [scan].
  rewrite (proj2 (Z.ltb_lt _ _)) by lia. rewrite bad_step_spec. unfold fast_step.
  destruct (Hd str H0) as [Hlp Hu]. rewrite (bool_decide_eq_false_2 _ Hlp), orb_false_r.
  assert (forall k h, 0 < k -> exists total,
    scan fast_step f1 s (str + k) h = Some total /\ scan bad_step f2 s (str + k) h = Some total) as Hgo.
  { intros k h Hk. apply (IH (n - 1)%nat); lia. }
  destruct (char_at s str =? DOLLAR) eqn:Ec; [| by apply Hgo].
  rewrite find_code_spec by done. destruct (matches s str 4 simple_codes) eqn:E4.
  { replace (str + (4 - 1) + 1) with (str + 4) by lia. by apply Hgo. }
  destruct (matches s str 5 uni_codes) eqn:E5; [| by apply Hgo].
  replace (str + (5 - 1) + 1) with (str + 5) by lia. destruct (Hu eq_refl) as [Hn4 Hn5].
  destruct (decide (zlen s - 15 <= str + 4)) as [He2 | He2].
  { exists (hits + 1). by rewrite !scan_stop by lia. }
  destruct f2 as [| f2]; [lia |]. cbn [scan]. rewrite (proj2 (Z.ltb_lt _ _)) by lia.
  rewrite bad_step_spec, Hn4, Hn5.
  rewrite (bool_decide_eq_false_2 _ (proj1 (Hd (str + 4) ltac:(lia)))). cbn [orb].
  replace (str + 4 + 1) with (str + 5) by lia.
  destruct (char_at s (str + 4) =? DOLLAR); rewrite Z.add_0_r; apply (IH (n - 5)%nat); lia.
Qed.

(** C23. The word loop computes what the [strncmp] loop computes, on every string of bytes without
    [$LP$] in which no code begins at the last character of a five-character one; both loops
    end. *)
Theorem hits_agree s : Forall byte s -> disjoint_codes s ->
  exists hits, count_hits s = Some hits /\ count_hits_bad s = Some hits.
Proof.
  intros Hs Hd. unfold count_hits, count_hits_bad. apply (scan_agree s Hs Hd (length s)); try lia.
  unfold zlen. lia.
Qed.

(** Outside of these strings they differ: the fast table has no [$LP$], and the slow loop
    steps over four of the five characters. *)
Lemma hits_differ :
  (count_hits (bytes_of "x$LP$aaaaaaaaaaaaaaa"), count_hits_bad (bytes_of "x$LP$aaaaaaaaaaaaaaa")) =
    (Some 0, Some 1) /\
  (count_hits (bytes_of "$u7e$u20$aaaaaaaaaaaaaaa"), count_hits_bad (bytes_of "$u7e$u20$aaaaaaaaaaaaaaa")) =
    (Some 1, Some 2).
Proof. split; vm_compute; reflexivity. Qed.

(** ** The string of [main] *)

Definition test : list Z :=
  bytes_of "this is a long string with $SP$ all over and $BP$ and also $u7e$::h123456789abcdef".

(** ** The benchmark *)

Inductive puE : Type -> Type :=
| Printf (text : list Z) : puE unit.

Definition iter : Z := 1000000000.

(** The result of the call is discarded. *)
Definition call_hits (count : list Z -> option Z) : prog puE unit :=
  match count test with Some _ => Ret tt | None => Halt OutOfFuel end.

(** [V] has the name first; the bytes of an argument come with their terminator. *)
Definition main (V : list (list Z)) : prog puE Z :=
  if (1 <? zlen V) && (char_at (default [] (V !! 1%nat)) 0 =? 65)
  then
    trigger (Printf (bytes_of "Fast" ++ [10])) ;;
    for_range 0 (Z.to_nat iter) (fun _ => call_hits count_hits) ;; Ret 0
  else
    trigger (Printf (bytes_of "Slow" ++ [10])) ;;
    for_range 0 (Z.to_nat iter) (fun _ => call_hits count_hits_bad) ;; Ret 0.

Lemma for_range_quiet {E : Type -> Type} n lo (body : Z -> prog E unit) :
  (forall i, body i = Ret tt) -> for_range lo n body = Ret tt.
Proof. intros Hb. revert lo. induction n as [| n IH]; intros lo; [done |]. simpl. rewrite Hb. apply IH. Qed.

(** The program says which of the two it runs, and leaves with 0. *)
Lemma main_runs V :
  main V = (trigger (Printf (if (1 <? zlen V) && (char_at (default [] (V !! 1%nat)) 0 =? 65)
                             then bytes_of "Fast" ++ [10] else bytes_of "Slow" ++ [10])) ;; Ret 0).
Proof.
  assert (call_hits count_hits = Ret tt) as Hf by (vm_compute; reflexivity).
  assert (call_hits count_hits_bad = Ret tt) as Hs by (vm_compute; reflexivity).
  unfold main. destruct ((1 <? zlen V) && _).
  - by rewrite (for_range_quiet (Z.to_nat iter) 0 (fun _ => call_hits count_hits)).
  - by rewrite (for_range_quiet (Z.to_nat iter) 0 (fun _ => call_hits count_hits_bad)).
Qed.

Definition disjoint_at (s : list Z) (str : Z) : bool :=
  negb (bool_decide (at_ s str 4 = LP)) &&
  (negb (matches s str 5 uni_codes) ||
   (negb (matches s (str + 4) 4 simple_codes) && negb (matches s (str + 4) 5 uni_codes))).

Lemma disjoint_codes_check s :
  forallb (fun k => disjoint_at s (Z.of_nat k)) (seq 0 (length s)) = true -> disjoint_codes s.
Proof.
  intros Hf str H0. assert (disjoint_at s str = true) as Hd.
  { destruct (decide (str < zlen s)) as [Hlt | Hge]; [by apply (below_forallb (length s) (disjoint_at s)) |].
    assert (forall n, at_ s str n = replicate n 0) as Hz.
    { intros n. unfold at_. apply list_eq_same_length with n.
      - by rewrite length_replicate.
      - rewrite length_map, length_seqZ. lia.
      - intros i x y Hi Hx Hy. apply lookup_replicate in Hy as [-> _].
        apply list_lookup_fmap_Some in Hx as (k & -> & Hk). apply lookup_seqZ in Hk as [-> _].
        unfold char_at, znth. destruct (0 <=? str + (0 + Z.of_nat i)) eqn:E; [| done].
        rewrite lookup_ge_None_2; [done |]. unfold zlen in Hge. zbool. lia. }
    unfold disjoint_at, matches. rewrite !Hz. reflexivity. }
  unfold disjoint_at in Hd. apply andb_prop in Hd as [H1 H2]. zbool.
  split; [by apply bool_decide_eq_false in H1 |]. intros Hm. rewrite Hm in H2. cbn in H2.
  by apply andb_prop in H2 as [?%negb_true_iff ?%negb_true_iff].
Qed.

Lemma hits_agree_witness : exists hits, count_hits test = Some hits /\ count_hits_bad test = Some hits.
Proof.
  apply (hits_agree test).
  - apply Forall_forall. intros b Hb. apply list_elem_of_In in Hb.
    assert (forallb (fun b => (0 <=? b) && (b <? 256)) test = true) as Hf by (vm_compute; reflexivity).
    rewrite forallb_forall in Hf. specialize (Hf b Hb). unfold byte. zbool. lia.
  - apply disjoint_codes_check. vm_compute. reflexivity.
Defined.
