(* ===== verification/HexDig.v ===== *)
(** * faster_hexdig: three tests for a lowercase hexadecimal digit

    [src/faster_hexdig/test.cc] times three predicates on the characters of its input and checks
    that they count the same. A [char] is signed. Percentages are kept as the pair of
    integers they are computed from. *)
From stdpp Require Import base gmap sets list strings.
From Stdlib Require Import ZArith Lia.
From S2P Require Import Prelude Prog Sys.

(** A [char] and the conversion to [unsigned char]. *)
Definition char_ok (c : Z) : Prop := -128 <= c < 128.

Definition lower_cond (c : Z) : bool :=
  ((97 <=? c) && (c <=? 102)) || ((48 <=? c) && (c <=? 57)).

(** The classification of the "C" locale. *)
Definition isxdigit (c : Z) : bool :=
  ((48 <=? c) && (c <=? 57)) || ((65 <=? c) && (c <=? 70)) || ((97 <=? c) && (c <=? 102)).
Definition isupper (c : Z) : bool := (65 <=? c) && (c <=? 90).

Definition lower_ism (c : Z) : bool := isxdigit c && negb (isupper c).

(** The table of [init_lu]: [lower_cond(i)] converts the index to a [char]. *)
Definition lookup_table : list bool := map (fun i => lower_cond (swrap 8 i)) (seqZ 0 256).

Definition lower_lu (c : Z) : bool := (c <? 256) && default false (znth lookup_table c).

Record BenchState := MkBench {
  count_cond : Z;
  count_ism : Z;
  count_lu : Z;
  cycles_cond : Z;
  cycles_ism : Z;
  cycles_lu : Z;
  trials_ran : Z;
  characters_processed : Z }.

Definition bench0 : BenchState := MkBench 0 0 0 0 0 0 0 0.

Inductive hexE : Type -> Type :=
| Rdtsc : hexE Z
| PrintBroke (sv : list Z) : hexE unit
| PrintLine (label : string) (value : Z) : hexE unit
| PrintSlower (label : string) (num den : Z) : hexE unit
| Getline : hexE (option (list Z)).

Abbreviation hexM := (prog hexE).

(** [for (const auto &c : sv) count += f(c)], a [size_t]. *)
Definition add_count (f : Z -> bool) (sv : list Z) (count : Z) : Z :=
  fold_left (fun n c => u64 (n + Z.b2z (f c))) sv count.

(** Warm up twice, then time one more pass: the count and the cycles. *)
Definition trial (f : Z -> bool) (sv : list Z) (count cycles : Z) : hexM (Z * Z) :=
  let count := add_count f sv count in
  let count := add_count f sv count in
  start <- trigger Rdtsc ;;
  let count := add_count f sv count in
  end_ <- trigger Rdtsc ;;
  Ret (count, u64 (cycles + u64 (end_ - start))).

Definition run_bench (b : BenchState) (sv : list Z) : hexM BenchState :=
  r1 <- trial lower_cond sv (count_cond b) (cycles_cond b) ;;
  r2 <- trial lower_ism sv (count_ism b) (cycles_ism b) ;;
  r3 <- trial (fun c => lower_lu (u8 c)) sv (count_lu b) (cycles_lu b) ;;
  let b := MkBench r1.1 r2.1 r3.1 r1.2 r2.2 r3.2 (u64 (trials_ran b + 1))
             (u64 (characters_processed b + zlen sv)) in
  if negb (count_cond b =? count_ism b) || negb (count_cond b =? count_lu b)
  then trigger (PrintBroke sv) ;; Halt (Exited (-1))
  else Ret b.

Definition print (b : BenchState) : hexM unit :=
  trigger (PrintLine "Trials: " (trials_ran b)) ;;
  trigger (PrintLine "Characters: " (characters_processed b)) ;;
  trigger (PrintLine "cond: " (cycles_cond b)) ;;
  trigger (PrintLine "ism:  " (cycles_ism b)) ;;
  trigger (PrintLine "lu:  " (cycles_lu b)) ;;
  let cycles_min := Z.min (cycles_cond b) (Z.min (cycles_ism b) (cycles_lu b)) in
  trigger (PrintSlower "cond was " (cycles_cond b - cycles_min) (cycles_cond b)) ;;
  trigger (PrintSlower "ism was " (cycles_ism b - cycles_min) (cycles_ism b)) ;;
  trigger (PrintSlower "lu was " (cycles_lu b - cycles_min) (cycles_lu b)).

Fixpoint run_lines (fuel : nat) (b : BenchState) : hexM BenchState :=
  match fuel with
  | O => Halt OutOfFuel
  | S n =>
      line <- trigger Getline ;;
      match line with
      | Some line => b <- run_bench b line ;; run_lines n b
      | None => Ret b
      end
  end.

Definition main (fuel : nat) (args : list (list Z)) : hexM Z :=
  b <- match args with
       | _ :: v :: _ => run_bench bench0 v
       | _ => run_lines fuel bench0
       end ;;
  print b ;;
  Ret 0.

(** ** The three predicates agree *)

Lemma predicates_agree c : char_ok c -> lower_cond c = lower_ism c /\ lower_cond c = lower_lu (u8 c).
Proof.
  intros Hc. set (P := fun k => bool_decide (lower_cond (k - 128) = lower_ism (k - 128) /\
    lower_cond (k - 128) = lower_lu (u8 (k - 128)))).
  assert (P (c + 128) = true) as H.
  { apply (below_forallb 256); [vm_compute; reflexivity | unfold char_ok in Hc; lia]. }
  apply bool_decide_eq_true in H. by replace (c + 128 - 128) with c in H by lia.
Qed.

Lemma add_count_ext f g sv n : Forall (fun c => f c = g c) sv -> add_count f sv n = add_count g sv n.
Proof.
  intros H. revert n. unfold add_count. induction H as [| c sv Hc _ IH]; intros n; [done |].
  cbn [fold_left]. by rewrite Hc.
Qed.

(** The counts that the state keeps are equal. *)
Definition counts_equal (b : BenchState) : Prop := count_cond b = count_ism b /\ count_cond b = count_lu b.

(** Answers of the outside: lines are made of [char]s, and at most [n] of them come. *)
Definition hex_answers (R : Type) (e : hexE R) : R -> Prop :=
  match e in hexE R return R -> Prop with
  | Getline => fun r => match r with Some l => Forall char_ok l | None => True end
  | _ => fun _ => True
  end.

Lemma trial_spec f sv count cycles (Q : Z * Z -> list (event hexE) -> Prop) :
  (forall c tr, Q (add_count f sv (add_count f sv (add_count f sv count)), c) tr) ->
  always hex_answers (fun s => s = OutOfFuel) (trial f sv count cycles) Q.
Proof. intros H r1 _ r2 _. apply H. Qed.

Lemma run_bench_ok b sv : counts_equal b -> Forall char_ok sv ->
  always hex_answers (fun s => s = OutOfFuel) (run_bench b sv) (fun b' _ => counts_equal b').
Proof.
  intros [H1 H2] Hsv. unfold run_bench.
  apply (always_bind _ _ _ _ (fun r _ => r.1 =
    add_count lower_cond sv (add_count lower_cond sv (add_count lower_cond sv (count_cond b))))).
  { by apply trial_spec. }
  intros [n1 c1] _ E1. apply (always_bind _ _ _ _ (fun r _ => r.1 = n1)).
  { apply trial_spec. intros c tr. cbn [fst] in *. subst n1. rewrite <-H1.
    rewrite !(add_count_ext lower_ism lower_cond); try done;
      (eapply Forall_impl; [exact Hsv |]); intros x Hx; symmetry; by apply predicates_agree. }
  intros [n2 c2] _ E2. apply (always_bind _ _ _ _ (fun r _ => r.1 = n1)).
  { apply trial_spec. intros c tr. cbn [fst] in *. subst n1. rewrite <-H2.
    rewrite !(add_count_ext (fun c => lower_lu (u8 c)) lower_cond); try done;
      (eapply Forall_impl; [exact Hsv |]); intros x Hx; symmetry; by apply predicates_agree. }
  intros [n3 c3] _ E3. cbn [fst count_cond count_ism count_lu] in *. subst n2 n3.
  rewrite Z.eqb_refl. cbn. done.
Qed.

(** The check after each trial never fails: the three predicates count the same on every
    input, so the program returns 0 or is still reading lines. *)
Theorem bench_never_breaks fuel args : Forall (Forall char_ok) args ->
  always hex_answers (fun s => s = OutOfFuel) (main fuel args) (fun code _ => code = 0).
Proof.
  intros Ha. unfold main. apply (always_bind _ _ _ _ (fun b _ => counts_equal b)).
  - assert (forall fuel b, counts_equal b ->
      always hex_answers (fun s => s = OutOfFuel) (run_lines fuel b) (fun b' _ => counts_equal b')) as Hl.
    { clear. intros fuel. induction fuel as [| fuel IH]; intros b Hb; [done |].
      cbn [run_lines]. intros [line |] Hr; [| done]. apply (always_bind _ _ _ _ (fun b' _ => counts_equal b')).
      - by apply run_bench_ok.
      - intros b' _ Hb'. by apply IH. }
    destruct args as [| a [| v args]]; try (by apply Hl). apply run_bench_ok; [done |].
    by apply Forall_cons in Ha as [_ [Ha _]%Forall_cons].
  - intros b tr _. intros [] _ [] _ [] _ [] _ [] _ [] _ [] _ [] _. done.
Qed.

Lemma bench_never_breaks_witness :
  always hex_answers (fun s => s = OutOfFuel) (main 3 [bytes_of "test"; bytes_of "0aFz"])
    (fun code _ => code = 0).
Proof.
  apply (bench_never_breaks 3 [bytes_of "test"; bytes_of "0aFz"]).
  repeat constructor; vm_compute; congruence.
Defined.
