(* ===== verification/Deadlock.v ===== *)
(** * sigaction_deadlock: faults inside the handler of a fault

    [src/sigaction_deadlock/deadlock.c]. A fault enters the handler when one is installed,
    [SIGSEGV] is not blocked and the stack has room for a frame; otherwise the kernel kills the
    process. [stack] counts the frames that fit. *)
From stdpp Require Import base gmap sets list strings.
From Stdlib Require Import ZArith Lia.
From S2P Require Import Prelude Prog Sys.

Definition SIGSEGV : Z := 11.

(** The globals, the handler's static, the disposition ([Some] of the [SA_NODEFER] flag), whether
    the signal is blocked, and what was written. *)
Record proc := MkProc {
  segfault_in_segfault : bool;
  use_static_check : bool;
  is_first : bool;
  handler : option bool;
  blocked : bool;
  out : list (list Z) }.

Definition proc0 : proc := MkProc false false true None false [].

(** [sizeof(msg)] counts the terminator, which is written too. *)
Definition msg (s : string) : list Z := bytes_of s ++ [10; 0].

Definition write (m : list Z) (p : proc) : proc :=
  MkProc (segfault_in_segfault p) (use_static_check p) (is_first p) (handler p) (blocked p) (out p ++ [m]).
Definition set_first (b : bool) (p : proc) : proc :=
  MkProc (segfault_in_segfault p) (use_static_check p) b (handler p) (blocked p) (out p).
Definition set_blocked (b : bool) (p : proc) : proc :=
  MkProc (segfault_in_segfault p) (use_static_check p) (is_first p) (handler p) b (out p).

Abbreviation run_of := (outcome proc unit).

(** [fault] is what [do_segfault] does from inside the handler. *)
Definition segfault_handler (fault : proc -> run_of) (p : proc) : run_of :=
  let rest (p : proc) : run_of :=
    let p := write (msg "Segmentation fault") p in
    if segfault_in_segfault p
    then obind (fault (write (msg "Double fault") p))
           (fun _ p => Stopped (Exited 1) (write (msg "Exiting") p))
    else Stopped (Exited 1) (write (msg "Exiting") p) in
  if use_static_check p && is_first p
  then rest (write (msg "Static check") (set_first false p))
  else if use_static_check p && negb (is_first p)
  then Stopped (Exited 1) (write (msg "Static check failed") p)
  else rest p.

(** The store to a null pointer, repeated should the handler return. *)
Fixpoint do_segfault (stack : nat) (p : proc) : run_of :=
  match handler p, blocked p, stack with
  | Some nodefer, false, S room =>
      obind (segfault_handler (do_segfault room) (set_blocked (negb nodefer) p))
        (fun _ p => do_segfault room (set_blocked false p))
  | _, _, _ => Stopped (Signaled SIGSEGV) p
  end.

Definition user_wants_thing (args : list string) (patterns : list string) : bool :=
  existsb (fun arg => existsb (fun pat => String.eqb arg pat) patterns) args.

Definition user_needs_help (args : list string) : bool :=
  user_wants_thing args ["help"; "-help"; "--help"; "-h"; "?"]%string.
Definition user_wants_recurse (args : list string) : bool :=
  user_wants_thing args ["recurse"; "-recurse"; "--recurse"; "-r"]%string.
Definition user_wants_nodefer (args : list string) : bool :=
  user_wants_thing args ["nodefer"; "-nodefer"; "--nodefer"; "-n"]%string.
Definition user_wants_static_check (args : list string) : bool :=
  user_wants_thing args ["static"; "-static"; "--static"; "-s"]%string.

Definition print_help (p : proc) : proc :=
  write (msg "Usage: deadlock [help|nodefer|recurse|static]") p.

(** [args] are [argv[1]] and on. *)
Definition main (stack : nat) (args : list string) : outcome proc Z :=
  if user_needs_help args then Done 0 (print_help proc0)
  else
  let p := MkProc (user_wants_recurse args) (user_wants_static_check args) true
             (Some (user_wants_nodefer args)) false [] in
  obind (do_segfault stack p) (fun _ p => Done 0 p).

(** ** What each combination of options does *)

Definition Seg : list Z := msg "Segmentation fault".
Definition Double : list Z := msg "Double fault".
Definition Exiting : list Z := msg "Exiting".
Definition StaticCheck : list Z := msg "Static check".
Definition StaticFailed : list Z := msg "Static check failed".

#[local] Arguments msg : simpl never.

(** With [SA_NODEFER] and no static check every level faults again. *)
Lemma nested_faults stack o : exists p,
  do_segfault stack (MkProc true false true (Some true) false o) = Stopped (Signaled SIGSEGV) p /\
  out p = o ++ concat (replicate stack [Seg; Double]).
Proof.
  revert o. induction stack as [| stack IH]; intros o.
  - eexists. split; [reflexivity |]. simpl. by rewrite app_nil_r.
  - destruct (IH ((o ++ [Seg]) ++ [Double])) as (p & E & Ho). exists p. split.
    + cbn [do_segfault handler blocked]. unfold segfault_handler, write, set_blocked.
      cbn [segfault_in_segfault use_static_check is_first handler blocked out andb negb].
      unfold Seg, Double in E. by rewrite E.
    + rewrite Ho. cbn [replicate concat]. by rewrite <-!app_assoc.
Qed.

(** C24. How the process ends, and all it writes, for a stack of at least two frames. The static flag
    stops a recursion only with [SA_NODEFER]: without it the kernel kills the process
    at the second fault, because the signal is blocked. Nothing ever deadlocks. *)
Theorem main_outcome stack args : (2 <= stack)%nat ->
  let recurse := user_wants_recurse args in
  let nodefer := user_wants_nodefer args in
  let static := user_wants_static_check args in
  let first := if static then [StaticCheck; Seg] else [Seg] in
  if user_needs_help args
  then exists p, main stack args = Done 0 p /\ out p = [msg "Usage: deadlock [help|nodefer|recurse|static]"]
  else exists p,
    main stack args = Stopped (if recurse && negb (nodefer && static) then Signaled SIGSEGV else Exited 1) p /\
    out p = if recurse then
        if nodefer then
          if static then [StaticCheck; Seg; Double; StaticFailed]
          else concat (replicate stack [Seg; Double])
        else first ++ [Double]
      else first ++ [Exiting].
Proof.
  intros Hs recurse nodefer static first. unfold main.
  destruct (user_needs_help args); [by eexists |].
  fold recurse nodefer static. destruct stack as [| [| stack]]; try lia.
  destruct recurse, nodefer, static; try (by eexists).
  destruct (nested_faults (S (S stack)) []) as (p & E & Ho). rewrite E. by exists p.
Qed.

Lemma main_outcome_witness : exists p,
  main 5 ["-r"; "static"]%string = Stopped (Signaled SIGSEGV) p /\ out p = [StaticCheck; Seg; Double].
Proof. exact (main_outcome 5 ["-r"; "static"]%string ltac:(lia)). Defined.
