(* ===== verification/PerfEvents.v ===== *)
(** * perf_event_open: one ring of kernel events per CPU

    [src/perf_event_open/src/main.c]. The arrays of the configuration come from [malloc], so an
    element that was not stored is indeterminate and using it is undefined. The kernel's ring is
    read through [MetaLoad]. *)
From stdpp Require Import base gmap sets list strings.
From Stdlib Require Import ZArith Lia.
From S2P Require Import Prelude Prog Sys Mapping.

#[local] Arguments Z.mul : simpl never.
#[local] Arguments Z.add : simpl never.

(** [config]'s [fds] and [buffers], and [n] once it has been stored. *)
Record PerfEventConfig := MkConfig {
  fds : gmap Z Z;
  buffers : gmap Z Z;
  n : option Z }.

Inductive meta_field : Type := DataSize | DataHead | DataTail.

Inductive perfE : Type -> Type :=
| GetNprocs : perfE Z
| PerfEventOpen (cpu : Z) : perfE Z
| IoctlEnable (fd : Z) : perfE unit
| SetName (s : string) : perfE unit
| Poll (fds : list Z) : perfE (option (list bool) * bool)    (* what is readable; EINTR *)
| MetaLoad (base : Z) (f : meta_field) : perfE Z
| EventType (event : Z) : perfE Z
| EventComm (event : Z) : perfE string
| Perror (s : string) : perfE unit
| PrintNum (fmt : string) (v : Z) : perfE unit
| PrintStr (fmt s : string) : perfE unit.

Abbreviation perfM := (prog (sumE mapE perfE)).

Definition sys {A} (p : mapM A) : perfM A := lift p.
Definition call {R} (e : perfE R) : perfM R := trigger (inr1 e).

Definition page_size : Z := 4096.
Definition rb_data : Z := 2 * 2 * page_size.
Definition rb_size : Z := page_size + rb_data.

(** The messages of [perror] are left out; [None] is [NULL]. *)
Definition fd_to_buf (fd : Z) : mapM (option Z) :=
  base_addr <- trigger (MmapReserve (rb_size + rb_data)) ;;
  if base_addr =? MAP_FAILED then Ret None
  else
  second_map <- trigger (MmapFixed (base_addr + rb_data) rb_size fd) ;;
  if second_map =? MAP_FAILED
  then trigger (MunmapRange base_addr (rb_size + rb_data)) ;; Ret None
  else
  first_map <- trigger (MmapFixed base_addr rb_size fd) ;;
  if first_map =? MAP_FAILED
  then trigger (MunmapRange base_addr (rb_size + rb_data)) ;; Ret None
  else Ret (Some base_addr).

(** The loop of [setup_perf_event] over the CPUs from [i] on. *)
Fixpoint setup_cpus (i : Z) (count : nat) (config : PerfEventConfig) : perfM PerfEventConfig :=
  match count with
  | O => Ret config
  | S m =>
      fd <- call (PerfEventOpen i) ;;
      if fd =? -1 then setup_cpus (i + 1) m config
      else
      buf <- sys (fd_to_buf fd) ;;
      match buf with
      | None => sys (trigger (CloseFd fd)) ;; setup_cpus (i + 1) m config
      | Some buf =>
          setup_cpus (i + 1) m
            (MkConfig (<[i := fd]> (fds config)) (<[i := buf]> (buffers config)) (Some i))
      end
  end.

Definition setup_perf_event : perfM PerfEventConfig :=
  num_cpus <- call GetNprocs ;;
  setup_cpus 0 (Z.to_nat num_cpus) (MkConfig ∅ ∅ None).

(** The use of an array element or of [n]. *)
Definition determinate {A} (o : option A) : perfM A :=
  match o with Some a => Ret a | None => Halt Undefined end.

Definition enable_perf_events (config : PerfEventConfig) : perfM unit :=
  n <- determinate (n config) ;;
  for_range 0 (Z.to_nat n) (fun i =>
    fd <- determinate (fds config !! i) ;; call (IoctlEnable fd)).

(** The address of the next event; [None] is [NULL]. *)
Definition header_from_buf (base : Z) : perfM (option Z) :=
  let data_area := base + 4096 in
  data_size <- call (MetaLoad base DataSize) ;;
  data_head <- call (MetaLoad base DataHead) ;;
  data_tail <- call (MetaLoad base DataTail) ;;
  if data_head =? data_tail then Ret None
  else if data_size =? 0 then Halt Undefined      (* division by zero *)
  else
  let offset := data_tail mod data_size in
  let event := data_area + offset in
  if u64 (data_head - data_tail) <? 8 then Ret None else Ret (Some event).

(** [pollfds] filled from [fds]. *)
Fixpoint pollfds (config : PerfEventConfig) (i : Z) (count : nat) : perfM (list Z) :=
  match count with
  | O => Ret []
  | S m => fd <- determinate (fds config !! i) ;;
           rest <- pollfds config (i + 1) m ;; Ret (fd :: rest)
  end.

Fixpoint first_ready (i : Z) (ready : list bool) : option Z :=
  match ready with
  | [] => None
  | b :: rest => if b then Some i else first_ready (i + 1) rest
  end.

Definition get_next_event (fuel : nat) (config : PerfEventConfig) : perfM (option Z) :=
  n <- determinate (n config) ;;
  pfds <- pollfds config 0 (Z.to_nat n) ;;
  ret <- loop fuel (fun _ => r <- call (Poll pfds) ;;
           Ret (match r with (None, true) => inl tt | (o, _) => inr o end)) tt ;;
  match ret with
  | None => call (Perror "poll") ;; Ret None
  | Some ready =>
      match first_ready 0 ready with
      | Some i =>
          call (PrintNum "Got an event on CPU %zu" i) ;;
          base <- determinate (buffers config !! i) ;;
          header_from_buf base
      | None => Ret None
      end
  end.

Definition main (fuel : nat) : perfM Z :=
  config <- setup_perf_event ;;
  enable_perf_events config ;;
  call (SetName "poop") ;;
  event <- get_next_event fuel config ;;
  match event with
  | None => call (PrintStr "No event" "")
  | Some event =>
      t <- call (EventType event) ;;
      call (PrintNum "Got event of type %d" t) ;;
      c <- call (EventComm event) ;;
      call (PrintStr "Comm: %s" c)
  end ;;
  Ret 0.

(** ** The mirrored ring *)

(** The metadata page of file [ino], then its four data pages twice. *)
Definition perf_ring (ino b : Z) (old new : gmap Z (Z * Z)) : Prop :=
  forall k, new !! k =
    if decide (b <= k < b + 5) then Some (ino, k - b)
    else if decide (b + 5 <= k < b + 9) then Some (ino, k - b - 4)
    else old !! k.

(** [fd_to_buf] maps the metadata page and the data pages twice in a row, or leaves the address
    space as it was; it opens and closes nothing. *)
Theorem perf_ring_mirrored fd ino s : clean s -> s_fds s !! fd = Some ino ->
  returns (run map_h (fd_to_buf fd) s) (fun r s' =>
    s_fds s' = s_fds s /\
    match r with
    | None => s_pages s' = s_pages s
    | Some base => base mod 4096 = 0 /\ perf_ring ino (base / 4096) (s_pages s) (s_pages s')
    end).
Proof.
  intros [cl_pages0 cl_fds0 cl_brk0 cl_next0] Hfd. unfold fd_to_buf.
  change (pages_of (rb_size + rb_data)) with 9%nat. change (pages_of rb_size) with 5%nat.
  rewrite run_bind, run_trigger. cbn [map_h]. destruct (pop_cases s) as (ok & l & ->).
  change (0 <? rb_size + rb_data) with true. destruct ok; cbn [andb obind]; [| done].
  change (pages_of (rb_size + rb_data)) with 9%nat. cbn [s_fds s_sizes s_pages s_next s_brk s_ok].
  rewrite (proj2 (Z.eqb_neq (s_brk s * 4096) MAP_FAILED)) by (unfold MAP_FAILED; lia).
  rewrite run_bind, run_trigger. cbn [map_h].
  set (s1 := MkSpace _ _ _ _ _ _). destruct (pop_cases s1) as (ok & l2 & ->).
  cbn [s1 s_fds s_sizes s_pages s_next s_brk s_ok]. rewrite Hfd. change (0 <? rb_size) with true.
  change rb_data with (4 * 4096). replace (s_brk s * 4096 + 4 * 4096) with ((s_brk s + 4) * 4096) by lia.
  rewrite Z.mod_mul, Z.div_mul by lia. change (pages_of rb_size) with 5%nat.
  assert (forall m, (forall k, k < s_brk s \/ s_brk s + 9 <= k -> m !! k = s_pages s !! k) ->
    unmap_pages (s_brk s) 9 m = s_pages s) as Hun.
  { intros m Hm. apply map_eq. intros k. rewrite unmap_pages_lookup. case_decide as Hk; [| apply Hm; lia].
    symmetry. apply cl_pages0. lia. }
  destruct ok; cbn [andb Z.eqb obind].
  2: { rewrite Z.eqb_refl, run_bind, run_trigger. cbn [map_h obind run returns s_fds s_pages].
       rewrite Z.div_mul by lia. split; [done |]. by apply Hun. }
  rewrite (proj2 (Z.eqb_neq ((s_brk s + 4) * 4096) MAP_FAILED)) by (unfold MAP_FAILED; lia).
  rewrite run_bind, run_trigger. cbn [map_h].
  set (s2 := MkSpace _ _ _ _ _ _). destruct (pop_cases s2) as (ok & l3 & ->).
  cbn [s2 s1 s_fds s_sizes s_pages s_next s_brk s_ok]. rewrite Hfd. change (0 <? rb_size) with true.
  rewrite Z.mod_mul, Z.div_mul by lia. change (pages_of rb_size) with 5%nat.
  destruct ok; cbn [andb Z.eqb obind].
  - rewrite (proj2 (Z.eqb_neq (s_brk s * 4096) MAP_FAILED)) by (unfold MAP_FAILED; lia).
    cbn [run returns]. split; [done |]. split; [by apply Z.mod_mul |]. cbn [s_pages].
    rewrite Z.div_mul by lia. intros k. rewrite !map_pages_lookup.
    repeat case_decide; try lia; try done; do 2 f_equal; lia.
  - rewrite Z.eqb_refl, run_bind, run_trigger. cbn [map_h obind run returns s_fds s_pages].
    rewrite Z.div_mul by lia. split; [done |]. apply Hun. intros k Hk.
    rewrite map_pages_lookup, decide_False by lia. done.
Qed.

(** ** Which CPUs are watched *)

(** The descriptors of the [ioctl] calls and the sets of the [poll] calls in a history. *)
Definition ioctl_of (e : event (sumE mapE perfE)) : list Z :=
  match e with
  | existT _ (inr1 f, _) => match f with IoctlEnable fd => [fd] | _ => [] end
  | _ => []
  end.
Definition poll_of (e : event (sumE mapE perfE)) : list (list Z) :=
  match e with
  | existT _ (inr1 f, _) => match f with Poll fds => [fds] | _ => [] end
  | _ => []
  end.
Definition enabled (tr : list (event (sumE mapE perfE))) : list Z := flat_map ioctl_of tr.
Definition polled (tr : list (event (sumE mapE perfE))) : list (list Z) := flat_map poll_of tr.

Section Watched.
(** [k] CPUs; [f cpu] is the descriptor of its events. *)
Context (k : Z) (Hk : 0 < k) (f : Z -> Z) (Hf : forall cpu, f cpu <> -1).

(** Every CPU can be opened and mapped, and the kernel's rings are not empty areas. *)
Definition all_open (R : Type) (e : sumE mapE perfE R) : R -> Prop :=
  match e with
  | inl1 m => match m in mapE R return R -> Prop with
              | MmapReserve _ => fun r => r <> MAP_FAILED
              | MmapFixed _ _ _ => fun r => r <> MAP_FAILED
              | _ => fun _ => True
              end
  | inr1 p => match p in perfE R return R -> Prop with
              | GetNprocs => fun r => r = k
              | PerfEventOpen cpu => fun r => r = f cpu
              | MetaLoad _ DataSize => fun r => r <> 0
              | Poll fds => fun r => forall l, r.1 = Some l -> length l = length fds
              | _ => fun _ => True
              end
  end.

Definition waiting (s : stop) : Prop := s = OutOfFuel.

Abbreviation Always := (always all_open waiting).

Lemma fd_to_buf_maps fd (Q : option Z -> list _ -> Prop) :
  (forall base tr, enabled tr = [] -> polled tr = [] -> Q (Some base) tr) -> Always (sys (fd_to_buf fd)) Q.
Proof.
  intros HQ. cbn. intros r1 H1. rewrite (proj2 (Z.eqb_neq _ _) H1). cbn.
  intros r2 H2. rewrite (proj2 (Z.eqb_neq _ _) H2). cbn.
  intros r3 H3. rewrite (proj2 (Z.eqb_neq _ _) H3). cbn. by apply HQ.
Qed.

(** The configuration after CPUs [0] to [i - 1]. *)
Definition opened (i : Z) (c : PerfEventConfig) : Prop :=
  n c = (if 0 <? i then Some (i - 1) else None) /\
  (forall j, 0 <= j < i -> fds c !! j = Some (f j)) /\ (forall j, 0 <= j < i -> is_Some (buffers c !! j)).

Lemma setup_cpus_opens count i c : 0 <= i -> opened i c ->
  Always (setup_cpus i count c) (fun c' tr => opened (i + Z.of_nat count) c' /\ enabled tr = [] /\ polled tr = []).
Proof.
  revert i c. induction count as [| m IH]; intros i c Hi (Hn & Hfd & Hb).
  { cbn. rewrite Z.add_0_r. by split; [| split]. }
  cbn [setup_cpus]. intros fd ->. cbn [bind]. rewrite (proj2 (Z.eqb_neq _ _) (Hf i)).
  apply (always_bind _ _ _ _ (fun r tr => exists base, r = Some base /\ enabled tr = [] /\ polled tr = [])).
  { apply fd_to_buf_maps. intros base tr H1 H2. by exists base. }
  intros r tr (base & -> & He & Hp). eapply always_mono; [apply IH; [lia |] |].
  - split; [| split]; cbn [n fds buffers].
    + rewrite (proj2 (Z.ltb_lt _ _)) by lia. f_equal. lia.
    + intros j Hj. destruct (decide (i = j)) as [-> |]; [by rewrite lookup_insert_eq |].
      rewrite lookup_insert_ne by done. apply Hfd. lia.
    + intros j Hj. destruct (decide (i = j)) as [-> |]; [rewrite lookup_insert_eq; by eexists |].
      rewrite lookup_insert_ne by done. apply Hb. lia.
  - intros c' tr' (Ho & He' & Hp'). split; [by replace (i + Z.of_nat (S m)) with (i + 1 + Z.of_nat m) by lia |].
    unfold enabled, polled in *. cbn. by rewrite !flat_map_app, He, Hp, He', Hp'.
Qed.

Lemma enable_opened c j : opened k c -> forall i, 0 <= i -> i + Z.of_nat j < k ->
  Always (for_range i j (fun i => fd <- determinate (fds c !! i) ;; call (IoctlEnable fd)))
    (fun _ tr => enabled tr = map f (seqZ i (Z.of_nat j)) /\ polled tr = []).
Proof.
  intros (_ & Hfd & _). induction j as [| j IH]; intros i Hi Hj; [done |].
  cbn [for_range]. rewrite Hfd by lia. cbn. intros [] _.
  eapply always_mono; [apply IH; lia |]. intros [] tr [He Hp].
  rewrite seqZ_cons by lia. replace (Z.pred (Z.of_nat (S j))) with (Z.of_nat j) by lia.
  unfold enabled, polled in *. cbn. by rewrite He, Hp.
Qed.

Lemma pollfds_opened c j : opened k c -> forall i, 0 <= i -> i + Z.of_nat j < k ->
  Always (pollfds c i j) (fun l tr => l = map f (seqZ i (Z.of_nat j)) /\ tr = []).
Proof.
  intros (_ & Hfd & _). induction j as [| j IH]; intros i Hi Hj; [done |].
  cbn [pollfds]. rewrite Hfd by lia. cbn [determinate]. 
  change (bind (Ret (f i)) ?g) with (g (f i)).
  eapply always_bind; [apply IH; lia |]. intros l tr [-> ->].
  rewrite (seqZ_cons i) by lia. replace (Z.pred (Z.of_nat (S j))) with (Z.of_nat j) by lia. done.
Qed.
(** A stretch of history that enables nothing and polls only [l]. *)
Definition calm (l : list Z) (tr : list (event (sumE mapE perfE))) : Prop :=
  enabled tr = [] /\ Forall (fun s => s = l) (polled tr).

Lemma calm_nil l : calm l [].
Proof. split; [done | constructor]. Qed.

Lemma poll_loop l fuel : Always
  (loop fuel (fun _ => r <- call (Poll l) ;; Ret (match r with (None, true) => inl tt | (o, _) => inr o end)) tt)
  (fun o tr => calm l tr /\ forall ready, o = Some ready -> length ready = length l).
Proof.
  induction fuel as [| fuel IH]; [done |]. intros [[ready |] eintr] Hr; cbn in Hr.
  - cbn. split; [split; [done |]; by repeat constructor |]. intros r [= <-]. by apply Hr.
  - destruct eintr; cbn [bind].
    + eapply always_mono; [exact IH |]. intros o tr [[He Hp] Ho]. split; [| done].
      split; [exact He |]. unfold polled in *. cbn. by constructor.
    + cbn. split; [split; [done |]; by repeat constructor | done].
Qed.

Lemma first_ready_range ready i j : first_ready i ready = Some j -> i <= j < i + zlen ready.
Proof.
  revert i. induction ready as [| b rest IH]; intros i Hj; [done |]. cbn in Hj. rewrite zlen_cons.
  pose proof (zlen_nonneg rest). destruct b; [injection Hj as <-; lia |]. apply IH in Hj. lia.
Qed.

Lemma header_calm base l : Always (header_from_buf base) (fun _ tr => calm l tr).
Proof.
  intros size Hsize head _ tail _. cbn [bind]. destruct (head =? tail); [apply calm_nil |].
  rewrite (proj2 (Z.eqb_neq _ _) Hsize). destruct (u64 (head - tail) <? 8); apply calm_nil.
Qed.

(** Whatever the kernel answers, when every CPU's events can be opened the program enables and
    polls those of all CPUs but the last: [config->n] is the last index, not the count. On
    a machine with one CPU it polls nothing. *)
Theorem last_cpu_not_watched fuel : Always (main fuel) (fun _ tr =>
  enabled tr = map f (seqZ 0 (k - 1)) /\ Forall (fun s => s = map f (seqZ 0 (k - 1))) (polled tr)).
Proof.
  set (l := map f (seqZ 0 (k - 1))). assert (Z.of_nat (Z.to_nat (k - 1)) = k - 1) as Hk1 by lia.
  unfold main. apply (always_bind _ _ _ _ (fun c tr => opened k c /\ enabled tr = [] /\ polled tr = [])).
  { unfold setup_perf_event. intros num Hnum. cbn [all_open] in Hnum. subst num. cbn [bind].
    eapply always_mono; [apply (setup_cpus_opens (Z.to_nat k) 0); [lia |] |].
    - split; [done |]. split; intros j Hj; lia.
    - intros c tr (Ho & He & Hp). by rewrite Z2Nat.id in Ho by lia. }
  intros c tr0 (Ho & He0 & Hp0). pose proof Ho as (Hn & Hfd & Hbuf).
  rewrite (proj2 (Z.ltb_lt 0 k)) in Hn by lia.
  apply (always_bind _ _ _ _ (fun _ tr => enabled tr = l /\ polled tr = [])).
  { unfold enable_perf_events. rewrite Hn. cbn [determinate bind].
    eapply always_mono; [apply (enable_opened c _ Ho); lia |]. by rewrite Hk1. }
  intros [] tr1 (He1 & Hp1) [] _. cbn [bind].
  apply (always_bind _ _ _ _ (fun _ tr => calm l tr)).
  - unfold get_next_event. rewrite Hn. cbn [determinate bind].
    eapply always_bind; [apply (pollfds_opened c _ Ho); lia |].
    intros pfds tr [-> ->]. rewrite Hk1. fold l. cbn [app].
    eapply always_bind; [apply poll_loop |]. intros [ready |] tr2 [Hc Hr].
    2: { intros [] _. destruct Hc as [He Hp]. split; unfold enabled, polled in *;
         rewrite flat_map_app; cbn; [by rewrite He | by rewrite app_nil_r]. }
    specialize (Hr ready eq_refl). destruct (first_ready 0 ready) as [j |] eqn:Hj.
    2: { cbn. by rewrite app_nil_r. }
    apply first_ready_range in Hj. assert (zlen ready = k - 1) as Hlen.
    { unfold zlen. rewrite Hr. unfold l. rewrite length_map, length_seqZ. lia. }
    intros [] _. destruct (Hbuf j ltac:(lia)) as [base ->]. cbn [determinate bind].
    eapply always_mono; [apply (header_calm _ l) |]. intros o tr3 [He3 Hp3]. destruct Hc as [He Hp].
    split; unfold enabled, polled in *; rewrite flat_map_app; cbn; [by rewrite He, He3 | by apply Forall_app].
  - intros event tr2 [He2 Hp2].
    assert (forall tr3, enabled tr3 = [] -> polled tr3 = [] ->
      enabled (tr0 ++ tr1 ++ ev (inr1 (SetName "poop")) tt :: tr2 ++ tr3) = l /\
      Forall (fun s => s = l) (polled (tr0 ++ tr1 ++ ev (inr1 (SetName "poop")) tt :: tr2 ++ tr3))) as Hfin.
    { intros tr3 He3 Hp3. unfold enabled, polled in *. rewrite !flat_map_app. cbn. rewrite !flat_map_app.
      rewrite He0, He1, He2, He3, Hp0, Hp1, Hp3. cbn. rewrite !app_nil_r. done. }
    destruct event as [event |].
    + intros t _ [] _ c' _ [] _. by apply Hfin.
    + intros [] _. by apply Hfin.
Qed.
End Watched.

Lemma last_cpu_not_watched_witness :
  always (all_open 4 (fun cpu => 100 + Z.abs cpu)) waiting (main 9) (fun _ tr =>
    enabled tr = [100; 101; 102] /\ Forall (fun s => s = [100; 101; 102]) (polled tr)).
Proof. apply (last_cpu_not_watched 4 ltac:(lia) (fun cpu => 100 + Z.abs cpu) ltac:(intros cpu; lia) 9). Defined.

Lemma perf_ring_mirrored_witness :
  returns (run map_h (fd_to_buf 3) (MkSpace {[3 := 7]} {[7 := 20480]} ∅ 4 1024 [])) (fun r s' =>
    s_fds s' = {[3 := 7]} /\ match r with Some base => base mod 4096 = 0 | None => s_pages s' = ∅ end).
Proof.
  eapply returns_mono; [apply (perf_ring_mirrored 3 7) |].
  - split; simpl; [intros; apply lookup_empty | | lia | lia].
    intros fd Hfd. by rewrite lookup_singleton_ne by lia.
  - apply lookup_singleton_eq.
  - intros [base |] s' [Hf H]; (split; [exact Hf |]); [apply H | exact H].
Defined.
