(* ===== verification/TcpRate.v ===== *)
(** * tcp_connect_rate: a listener and its client processes

    [src/tcp_connect_rate/src/main.c]. An [int] result outside its range is undefined. Averages
    are kept as the integers they are computed from. *)
From stdpp Require Import base gmap sets list strings.
From Stdlib Require Import ZArith Lia.
From S2P Require Import Prelude Prog Sys Text.

Inductive tcpE : Type -> Type :=
| Socket : tcpE Z
| Setsockopt (fd : Z) : tcpE Z
| Bind (fd port : Z) : tcpE Z
| Listen (fd : Z) : tcpE Z
| InetPton (host : string) : tcpE Z
| Connect (fd port : Z) : tcpE Z
| ReadByte (fd : Z) : tcpE unit
| Accept (fd : Z) : tcpE Z
| Malloc (n : Z) : tcpE bool                 (* not NULL *)
| GetNprocs : tcpE Z
| Fork : tcpE Z
| Gettimeofday : tcpE (Z * Z)
| Perror (s : string) : tcpE unit
| Printf (fmt : string) (args : list Z) : tcpE unit.

Abbreviation tcpM := (prog tcpE).

Definition EXIT_FAILURE : Z := 1.
Definition EXIT_SUCCESS : Z := 0.
Definition SIGSEGV : Z := 11.
Definition DEFAULT_PORT : Z := 8080.
Definition DEFAULT_CLIENTS : Z := 10000.
Definition DEFAULT_HOST : string := "127.0.0.1".

(** The value of an [int] expression. *)
Definition int (x : Z) : tcpM Z :=
  if (- 2 ^ 31 <=? x) && (x <? 2 ^ 31) then Ret x else Halt Undefined.

Definition fail {A} (s : string) : tcpM A := trigger (Perror s) ;; Halt (Exited EXIT_FAILURE).

(** The port goes through [htons], which keeps 16 bits. *)
Definition create_server_socket (port : Z) : tcpM Z :=
  server_fd <- trigger Socket ;;
  if server_fd =? 0 then fail "socket failed"
  else
  r <- trigger (Setsockopt server_fd) ;;
  if truthy r then fail "setsockopt"
  else
  r <- trigger (Bind server_fd (u16 port)) ;;
  if r <? 0 then fail "bind failed"
  else
  r <- trigger (Listen server_fd) ;;
  if r <? 0 then fail "listen"
  else
  trigger (Printf "Server listening on port %d" [port]) ;;
  Ret server_fd.

(** The loop over the connections: the descriptors stored in [sockets]. *)
Fixpoint open_connections (allocated : bool) (port : Z) (count : nat) : tcpM (list Z) :=
  match count with
  | O => Ret []
  | S m =>
      fd <- trigger Socket ;;
      if negb allocated then Halt (Signaled SIGSEGV)
      else if fd <? 0 then fail "Socket creation error"
      else
      r <- trigger (Connect fd port) ;;
      if r <? 0 then fail "Connection failed"
      else rest <- open_connections allocated port m ;; Ret (fd :: rest)
  end.

Definition run_client (host : string) (port connections_per_client : Z) : tcpM unit :=
  allocated <- trigger (Malloc (u64 (connections_per_client * 4))) ;;
  r <- trigger (InetPton host) ;;
  if r <=? 0 then fail "Invalid address/ Address not supported"
  else
  sockets <- open_connections allocated (u16 port) (Z.to_nat connections_per_client) ;;
  match znth sockets (connections_per_client - 1) with
  | Some fd => trigger (ReadByte fd) ;; Halt (Exited EXIT_SUCCESS)
  | None => Halt Undefined
  end.

(** What client [i] of [num_clients] opens. *)
Definition my_connections (total_connections num_clients connections_per_client i : Z) : tcpM Z :=
  if i =? num_clients - 1
  then p <- int (connections_per_client * (num_clients - 1)) ;; int (total_connections - p)
  else Ret connections_per_client.

Fixpoint spawn_loop (host : string) (port total num_clients connections_per_client i : Z) (count : nat) :
    tcpM unit :=
  match count with
  | O => Ret tt
  | S m =>
      pid <- trigger Fork ;;
      if pid <? 0 then fail "fork"
      else if pid =? 0
      then
        n <- my_connections total num_clients connections_per_client i ;;
        run_client host port n ;;
        Halt (Exited EXIT_SUCCESS)
      else spawn_loop host port total num_clients connections_per_client (i + 1) m
  end.

Definition spawn_clients (host : string) (port total_connections : Z) : tcpM unit :=
  nprocs <- trigger GetNprocs ;;
  let num_clients := if nprocs - 1 <=? 0 then 1 else nprocs - 1 in
  s <- int (total_connections + num_clients) ;;
  s <- int (s - 1) ;;
  let connections_per_client := Z.quot s num_clients in
  trigger (Printf "System has %d processors" [nprocs]) ;;
  trigger (Printf "Spawning %d client processes with %d connections each (total: %d)..."
             [num_clients; connections_per_client; total_connections]) ;;
  spawn_loop host port total_connections num_clients connections_per_client 0 (Z.to_nat num_clients) ;;
  trigger (Printf "All client processes spawned" []).

(** One pass of the server loop. *)
Definition accept_step (server_fd num_clients connection_count : Z) : tcpM (Z + Z) :=
  if connection_count <? num_clients
  then
    new_socket <- trigger (Accept server_fd) ;;
    if new_socket <? 0 then trigger (Perror "accept") ;; Ret (inl connection_count)
    else
    let connection_count := connection_count + 1 in
    trigger (Printf "Connections: %d/%d" [connection_count; num_clients]) ;;
    Ret (inl connection_count)
  else Ret (inr connection_count).

(** [client_sockets] needs a positive size; the results are the count and the two times. *)
Definition accept_connections (fuel : nat) (server_fd num_clients : Z) : tcpM unit :=
  if num_clients <=? 0 then Halt Undefined
  else
  trigger (Printf "Starting to accept connections..." []) ;;
  start <- trigger Gettimeofday ;;
  connection_count <- loop fuel (accept_step server_fd num_clients) 0 ;;
  end_ <- trigger Gettimeofday ;;
  trigger (Printf "Results" [connection_count; start.1; start.2; end_.1; end_.2; num_clients]).

(** [argv[1]] and on, as [atoi] reads them. *)
Definition main (fuel : nat) (args : list Z) : tcpM Z :=
  let port := default DEFAULT_PORT (args !! 0%nat) in
  let num_clients := default DEFAULT_CLIENTS (args !! 1%nat) in
  server_fd <- create_server_socket port ;;
  spawn_clients DEFAULT_HOST port num_clients ;;
  accept_connections fuel server_fd num_clients ;;
  Ret 0.

(** ** The split of the work *)

Section Split.
(** [n] clients for [total] connections. *)
Context (total n : Z) (Hn : 0 < n) (Ht : 0 < total) (Hb : total + n < 2 ^ 31).

Definition per_client : Z := (total + n - 1) / n.
Definition share (i : Z) : Z := if i =? n - 1 then total - per_client * (n - 1) else per_client.

Lemma per_client_bounds : 0 < per_client /\ total <= per_client * n < total + n.
Proof.
  unfold per_client. pose proof (Z.div_mod (total + n - 1) n ltac:(lia)).
  pose proof (Z.mod_pos_bound (total + n - 1) n Hn). nia.
Qed.

Lemma shares_sum : zsum (map share (seqZ 0 n)) = total.
Proof.
  assert (forall m, Z.of_nat m < n -> zsum (map share (seqZ 0 (Z.of_nat m))) = Z.of_nat m * per_client) as Hm.
  { induction m as [| m IH]; intros Hlt; [done |]. rewrite Nat2Z.inj_succ.
    replace (Z.succ (Z.of_nat m)) with (Z.of_nat m + 1) by lia.
    rewrite seqZ_app, map_app, zsum_app, IH by lia. rewrite (seqZ_cons (0 + Z.of_nat m)), seqZ_nil by lia.
    cbn [map zsum]. unfold share at 1. rewrite (proj2 (Z.eqb_neq _ _)) by lia. lia. }
  replace n with (Z.of_nat (Z.to_nat (n - 1)) + 1) at 1 by lia.
  rewrite seqZ_app, map_app, zsum_app, Hm by lia. rewrite (seqZ_cons (0 + _)), seqZ_nil by lia.
  cbn [map zsum]. unfold share. rewrite (proj2 (Z.eqb_eq _ _)) by lia. rewrite Z2Nat.id by lia. lia.
Qed.

Lemma znth_total {A} (l : list A) k : 0 <= k < zlen l -> exists x, znth l k = Some x.
Proof.
  intros Hk. unfold znth, zlen in *. rewrite (proj2 (Z.leb_le 0 _)) by lia.
  apply lookup_lt_is_Some. lia.
Qed.

(** Connections a history opened. *)
Definition connect_of (e : event tcpE) : list Z :=
  match e with existT _ (f, _) => match f with Connect fd _ => [fd] | _ => [] end end.
Definition connects (tr : list (event tcpE)) : Z := zlen (flat_map connect_of tr).

(** The calls of the client succeed. *)
Definition good (R : Type) (e : tcpE R) : R -> Prop :=
  match e in tcpE R return R -> Prop with
  | Socket => fun r => 0 <= r
  | Connect _ _ => fun r => 0 <= r
  | InetPton _ => fun r => 0 < r
  | Malloc _ => fun r => r = true
  | _ => fun _ => True
  end.

Lemma open_connections_count port m : always good (fun _ => False) (open_connections true port m)
  (fun l tr => length l = m /\ connects tr = Z.of_nat m).
Proof.
  induction m as [| m IH]; [done |]. cbn [open_connections]. intros fd Hfd. cbn [bind negb].
  cbn in Hfd. rewrite (proj2 (Z.ltb_ge _ _)) by lia. intros r Hr. cbn in Hr. cbn [bind].
  rewrite (proj2 (Z.ltb_ge _ _)) by lia. eapply always_bind; [exact IH |].
  intros l tr [Hl Hc]. split; [simpl; by rewrite Hl |].
  unfold connects in *. cbn. rewrite app_nil_r, zlen_cons, Hc. lia.
Qed.

(** A client process, run to its end. *)
Definition client (host : string) (port i : Z) : tcpM unit :=
  k <- my_connections total n per_client i ;; run_client host port k ;; Halt (Exited EXIT_SUCCESS).

(** The shares add up to [total], but the last one may be negative: rounding up gives the
    other clients more than there is. A client with a positive share exits with success after its
    connections; one without reads [sockets] out of its bounds. *)
Theorem split_of_connections host port i : 0 <= i < n ->
  zsum (map share (seqZ 0 n)) = total /\
  (share i <= 0 <-> i = n - 1 /\ total <= per_client * (n - 1)) /\
  always good (fun s => s = if 0 <? share i then Exited EXIT_SUCCESS else Undefined)
    (client host port i) (fun _ _ => False).
Proof.
  intros Hi. pose proof per_client_bounds as [Hp Hpt]. split; [apply shares_sum |]. split.
  { unfold share. destruct (i =? n - 1) eqn:E; zbool; lia. }
  unfold client. assert (my_connections total n per_client i = Ret (share i)) as ->.
  { unfold my_connections, share, int. destruct (i =? n - 1) eqn:E; [| done].
    rewrite !(proj2 (Z.leb_le _ _)), !(proj2 (Z.ltb_lt _ _)) by nia. cbn.
    rewrite !(proj2 (Z.leb_le _ _)), !(proj2 (Z.ltb_lt _ _)) by nia. done. }
  cbn [bind]. apply (always_bind _ _ _ _ (fun _ _ => False)); [| by intros ? ? []]. unfold run_client.
  intros a Ha. cbn in Ha. subst a. intros r Hr. cbn in Hr. cbn [bind]. rewrite (proj2 (Z.leb_gt _ _)) by lia.
  apply (always_bind _ _ _ _ (fun l _ => length l = Z.to_nat (share i))).
  - apply (always_weaken good good (fun _ => False)); [done | done |].
    eapply always_mono; [apply open_connections_count |]. by intros l tr [? _].
  - intros l tr Hl. destruct (0 <? share i) eqn:E; zbool.
    + destruct (znth_total l (share i - 1)) as [fd ->]; [unfold zlen; lia |]. intros [] _. reflexivity.
    + unfold znth. rewrite (proj2 (Z.leb_gt _ _)) by lia. reflexivity.
Qed.
End Split.

Lemma split_of_connections_witness :
  share 10 7 6 = -2 /\
  always good (fun s => s = Undefined) (client 10 7 "127.0.0.1" 8080 6) (fun _ _ => False).
Proof.
  split; [vm_compute; reflexivity |].
  apply (split_of_connections 10 7 ltac:(lia) ltac:(lia) ltac:(lia) "127.0.0.1" 8080 6 ltac:(lia)).
Defined.
