(* ===== verification/WriteAppend.v ===== *)
(** * write_append: one benchmark, six ways to append

    [src/write_append/src/main.cc]: the class [FileAppender], whose [MMLOG_APPEND] method is a
    client of mmlog.h, the forked benchmark and the selection in [main]. Floating-point
    results are kept as the integers they are computed from; streams print strings. *)
From stdpp Require Import base gmap sets list strings.
From Stdlib Require Import ZArith Lia.
From S2P Require Import Prelude Prog MmlogTypes MmlogOs MmlogOpen MmlogInsert Sys Text.

Inductive AppendMethod : Type :=
| WRITE_APPEND | WRITEV_APPEND | FWRITE_APPEND | DIRECT_APPEND | AIO_APPEND | MMLOG_APPEND.

#[export] Instance AppendMethod_eq_dec : EqDecision AppendMethod.
Proof. solve_decision. Defined.

(** [static_cast<int>(method)]. *)
Definition method_index (m : AppendMethod) : Z :=
  match m with
  | WRITE_APPEND => 0 | WRITEV_APPEND => 1 | FWRITE_APPEND => 2
  | DIRECT_APPEND => 3 | AIO_APPEND => 4 | MMLOG_APPEND => 5
  end.

Inductive waE : Type -> Type :=
| OpenFile (path : string) (direct : bool) : waE Z
| CloseFile (fd : Z) : waE unit
| Fopen (path : string) : waE Z                     (* 0 is a null pointer *)
| Fclose (file : Z) : waE unit
| PosixMemalign (alignment size : Z) : waE Z
| FreeBuffer (p : Z) : waE unit
| IoSetup (n : Z) : waE Z                           (* the context *)
| IoDestroy (ctx : Z) : waE unit
| IoSubmit (ctx fd : Z) (data : list Z) (off : Z) : waE Z
| IoGetevents (ctx : Z) : waE Z
| Write (fd : Z) (data : list Z) : waE Z
| Writev (fd : Z) (data : list Z) : waE Z
| Fwrite (data : list Z) (file : Z) : waE Z
| Fflush (file : Z) : waE Z
| Unlink (path : string) : waE unit
| Now : waE Z                                       (* milliseconds *)
| Fork : waE Z
| Waitpid (pid : Z) : waE (option Z)                (* the exit status, when it exited *)
| Cout (s : list string) : waE unit
| Cerr (s : list string) (pid : Z) : waE unit
| Row (name : string) (ms calls bytes : Z) : waE unit.

Abbreviation waM := (prog (sumE mmE waE)).

Definition mmlog {A} (p : mm A) : waM A := lift p.
Definition call {R} (e : waE R) : waM R := trigger (inr1 e).

Record FileAppender := MkAppender {
  method_ : AppendMethod;
  fd_ : Z;
  file_ : Z;
  aio_ctx_ : Z;
  aligned_buffer_ : Z;
  aligned_buffer_size_ : Z;
  mmlog_handle_ : Z }.

Definition new_appender (method : AppendMethod) : FileAppender :=
  MkAppender method (-1) 0 0 0 0 NULL.

Definition with_fd (fd : Z) (a : FileAppender) : FileAppender :=
  MkAppender (method_ a) fd (file_ a) (aio_ctx_ a) (aligned_buffer_ a) (aligned_buffer_size_ a) (mmlog_handle_ a).

Definition Open (fuel : nat) (filename : string) (a : FileAppender) : waM (bool * FileAppender) :=
  match method_ a with
  | WRITE_APPEND | WRITEV_APPEND =>
      fd <- call (OpenFile filename false) ;;
      Ret (negb (fd =? -1), with_fd fd a)
  | FWRITE_APPEND =>
      f <- call (Fopen filename) ;;
      Ret (negb (f =? 0), MkAppender (method_ a) (fd_ a) f (aio_ctx_ a) (aligned_buffer_ a)
                            (aligned_buffer_size_ a) (mmlog_handle_ a))
  | DIRECT_APPEND =>
      fd <- call (OpenFile filename true) ;;
      let a := with_fd fd a in
      a <- (if negb (fd =? -1)
            then p <- call (PosixMemalign 4096 4096) ;;
                 Ret (MkAppender (method_ a) (fd_ a) (file_ a) (aio_ctx_ a) p 4096 (mmlog_handle_ a))
            else Ret a) ;;
      Ret (negb (fd_ a =? -1) && negb (aligned_buffer_ a =? 0), a)
  | AIO_APPEND =>
      fd <- call (OpenFile filename false) ;;
      ctx <- call (IoSetup 128) ;;
      Ret (negb (fd =? -1), MkAppender (method_ a) fd (file_ a) ctx (aligned_buffer_ a)
                              (aligned_buffer_size_ a) (mmlog_handle_ a))
  | MMLOG_APPEND =>
      h <- mmlog (mmlog_open fuel (Some filename) (8 * 4096) 4) ;;
      let ret := negb (h =? NULL) in
      (if negb ret
       then e <- mmlog mmlog_strerror_cur ;;
            call (Cout ["Could not open mmlog: "%string; default ""%string e])
       else Ret tt) ;;
      Ret (ret, MkAppender (method_ a) (fd_ a) (file_ a) (aio_ctx_ a) (aligned_buffer_ a)
                  (aligned_buffer_size_ a) h)
  end.

Definition Append (fuel : nat) (data : list Z) (a : FileAppender) : waM bool :=
  let size := zlen data in
  match method_ a with
  | WRITE_APPEND => n <- call (Write (fd_ a) data) ;; Ret (n =? size)
  | WRITEV_APPEND => n <- call (Writev (fd_ a) data) ;; Ret (n =? size)
  | FWRITE_APPEND =>
      n <- call (Fwrite data (file_ a)) ;;
      if negb (n =? size) then Ret false
      else r <- call (Fflush (file_ a)) ;; Ret (r =? 0)
  | DIRECT_APPEND =>
      if aligned_buffer_size_ a <? size then Ret false
      else n <- call (Write (fd_ a) data) ;; Ret (n =? size)
  | AIO_APPEND =>
      r <- call (IoSubmit (aio_ctx_ a) (fd_ a) data 0) ;;
      if negb (r =? 1) then Ret false
      else r <- call (IoGetevents (aio_ctx_ a)) ;; Ret (r =? 1)
  | MMLOG_APPEND => mmlog (mmlog_insert fuel (mmlog_handle_ a) (Some data))
  end.

(** Also the destructor. *)
Definition Close (a : FileAppender) : waM FileAppender :=
  (if negb (fd_ a =? -1) then call (CloseFile (fd_ a)) else Ret tt) ;;
  (if negb (file_ a =? 0) then call (Fclose (file_ a)) else Ret tt) ;;
  (if negb (aio_ctx_ a =? 0) then call (IoDestroy (aio_ctx_ a)) else Ret tt) ;;
  (if negb (aligned_buffer_ a =? 0) then call (FreeBuffer (aligned_buffer_ a)) else Ret tt) ;;
  (if negb (mmlog_handle_ a =? NULL) then mmlog (mmlog_trim (mmlog_handle_ a)) else Ret tt) ;;
  Ret (MkAppender (method_ a) (-1) 0 0 0 (aligned_buffer_size_ a) NULL).

Definition GetMethodName (a : FileAppender) : string :=
  match method_ a with
  | WRITE_APPEND => "O_APPEND with write()"
  | WRITEV_APPEND => "writev() with O_APPEND"
  | FWRITE_APPEND => "FILE streams (fwrite)"
  | DIRECT_APPEND => "Direct I/O (O_DIRECT)"
  | AIO_APPEND => "Linux AIO"
  | MMLOG_APPEND => "mmlog"
  end.

(** [duration_ms], and the operands of [time_per_call_us] and of [throughput_gbps]. *)
Record BenchmarkResult := MkResult {
  method_name : string;
  duration_ms : Z;
  calls : Z;
  total_bytes : Z }.

Fixpoint append_all (fuel : nat) (ops : nat) (data : list Z) (a : FileAppender) : waM unit :=
  match ops with
  | O => Ret tt
  | S m => Append fuel data a ;; append_all fuel m data a
  end.

(** The child: [exit] runs no destructor of a local object. *)
Definition child (fuel : nat) (method : AppendMethod) (filename : string) (ops : nat) (data : list Z) :
    waM unit :=
  r <- Open fuel filename (new_appender method) ;;
  if negb r.1 then Halt (Exited 1)
  else append_all fuel ops data r.2 ;; Halt (Exited 0).

Fixpoint fork_all (fuel : nat) (method : AppendMethod) (filename : string) (processes ops : nat)
    (data : list Z) : waM (list Z) :=
  match processes with
  | O => Ret []
  | S m =>
      pid <- call Fork ;;
      if pid =? 0 then child fuel method filename ops data ;; Ret []
      else pids <- fork_all fuel method filename m ops data ;; Ret (pid :: pids)
  end.

Fixpoint wait_all (pids : list Z) : waM unit :=
  match pids with
  | [] => Ret tt
  | pid :: rest =>
      status <- call (Waitpid pid) ;;
      (match status with
       | Some code => if negb (code =? 0) then call (Cerr ["Child process "; " failed"]%string pid) else Ret tt
       | None => Ret tt
       end) ;;
      wait_all rest
  end.

Definition digit_name (m : AppendMethod) : string :=
  match m with
  | WRITE_APPEND => "0" | WRITEV_APPEND => "1" | FWRITE_APPEND => "2"
  | DIRECT_APPEND => "3" | AIO_APPEND => "4" | MMLOG_APPEND => "5"
  end.

Definition RunBenchmark (fuel : nat) (method : AppendMethod) (num_processes ops_per_process data_size : Z) :
    waM BenchmarkResult :=
  let filename := String.append "/tmp/benchmark_" (digit_name method) in
  call (Unlink filename) ;;
  call (Unlink (String.append filename ".mmlog")) ;;
  start_time <- call Now ;;
  let data := replicate (Z.to_nat data_size) 88 in
  pids <- fork_all fuel method filename (Z.to_nat num_processes) (Z.to_nat ops_per_process) data ;;
  wait_all pids ;;
  end_time <- call Now ;;
  let appender := new_appender method in
  let result := MkResult (GetMethodName appender) (end_time - start_time)
                  (num_processes * ops_per_process) (num_processes * ops_per_process * data_size) in
  Close appender ;;
  Ret result.

(** ** [main] *)

Definition NUM_PROCESSES : Z := 4.
Definition OPS_PER_PROCESS : Z := 10000.
Definition DATA_SIZE : Z := 4095.

(** The tests of the results, in the order they are made. *)
Definition BENCHMARKS : list (string * AppendMethod) :=
  [("mmlog", MMLOG_APPEND); ("write", WRITE_APPEND); ("writev", WRITEV_APPEND);
   ("fwrite", FWRITE_APPEND); ("direct", DIRECT_APPEND); ("aio", AIO_APPEND)]%string.

(** The loop over the arguments: [None] is help. *)
Fixpoint parse_args (args : list string) (run_all : bool) (benchmarks : list string) :
    option (bool * list string) :=
  match args with
  | [] => Some (run_all, benchmarks)
  | arg :: rest =>
      if String.eqb arg "-h" || String.eqb arg "--help" then None
      else if String.eqb arg "all" then parse_args rest true benchmarks
      else parse_args rest run_all (benchmarks ++ [arg])
  end.

Definition found (name : string) (benchmarks : list string) : bool :=
  existsb (fun b => String.eqb b name) benchmarks.

Fixpoint run_selected (fuel : nat) (run_all : bool) (benchmarks : list string)
    (table : list (string * AppendMethod)) : waM (list BenchmarkResult) :=
  match table with
  | [] => Ret []
  | (name, method) :: rest =>
      if run_all || found name benchmarks
      then r <- RunBenchmark fuel method NUM_PROCESSES OPS_PER_PROCESS DATA_SIZE ;;
           rs <- run_selected fuel run_all benchmarks rest ;; Ret (r :: rs)
      else run_selected fuel run_all benchmarks rest
  end.

Fixpoint print_rows (results : list BenchmarkResult) : waM unit :=
  match results with
  | [] => Ret tt
  | r :: rest => call (Row (method_name r) (duration_ms r) (calls r) (total_bytes r)) ;; print_rows rest
  end.

Definition usage : list string :=
  ["Usage: "; " [benchmark_names...]"; "Available benchmarks:"; "mmlog"; "write"; "writev"; "fwrite";
   "direct"; "aio"; "all"]%string.

(** [args] are [argv[1]] and on. *)
Definition main (fuel : nat) (args : list string) : waM Z :=
  match parse_args args (bool_decide (args = [])) [] with
  | None => call (Cout usage) ;; Ret 0
  | Some (run_all, benchmarks) =>
      call (Cout ["Running benchmarks"]%string) ;;
      call (Cout ["| Category | Total Time (ms) | Time per Call (us) | Throughput (GB/s) |"]%string) ;;
      call (Cout ["|----------|----------------|-------------------|------------------|"]%string) ;;
      results <- run_selected fuel run_all benchmarks BENCHMARKS ;;
      print_rows results ;;
      Ret 0
  end.

(** ** Which benchmarks run *)

(** The parent is told of its children by positive pids. *)
Definition parent (R : Type) (e : sumE mmE waE R) : R -> Prop :=
  match e with
  | inl1 _ => fun _ => True
  | inr1 w => match w in waE R return R -> Prop with
              | Fork => fun r => 0 < r
              | _ => fun _ => True
              end
  end.

(** The names of the rows of a history, and its calls of mmlog.h. *)
Definition row_of (e : event (sumE mmE waE)) : list string :=
  match e with
  | existT _ (inr1 w, _) => match w with Row name _ _ _ => [name] | _ => [] end
  | _ => []
  end.
Definition rows (tr : list (event (sumE mmE waE))) : list string := flat_map row_of tr.

Definition no_stop (s : stop) : Prop := False.
Abbreviation Always := (always parent no_stop).

Lemma wait_all_rows pids : Always (wait_all pids) (fun _ tr => rows tr = []).
Proof.
  induction pids as [| pid rest IH]; [done |]. intros [code |] _; cbn [bind].
  - destruct (negb (code =? 0)); cbn [bind]; [intros [] _ |]; (eapply always_mono; [exact IH | done]).
  - eapply always_mono; [exact IH | done].
Qed.

Lemma fork_all_rows fuel m name data ops processes :
  Always (fork_all fuel m name processes ops data) (fun _ tr => rows tr = []).
Proof.
  induction processes as [| k IH]; [done |]. intros pid Hpid. cbn in Hpid. cbn [bind].
  rewrite (proj2 (Z.eqb_neq _ _)) by lia. eapply always_bind; [exact IH |]. intros l tr Hr. cbn.
  unfold rows in *. by rewrite app_nil_r.
Qed.

Lemma RunBenchmark_rows fuel m p o d : Always (RunBenchmark fuel m p o d)
  (fun r tr => method_name r = GetMethodName (new_appender m) /\ rows tr = []).
Proof.
  unfold RunBenchmark. intros [] _ [] _ start _. cbn [bind].
  eapply always_bind; [apply fork_all_rows |]. intros pids tr Hr.
  eapply always_bind; [apply wait_all_rows |]. intros [] tr2 Hr2 end_ _. cbn.
  split; [done |]. unfold rows in *. by rewrite !flat_map_app, Hr, Hr2.
Qed.

Definition selected (run_all : bool) (benchmarks : list string) (table : list (string * AppendMethod)) :
    list string :=
  map (fun r => GetMethodName (new_appender r.2)) (filter (fun r => run_all || found r.1 benchmarks = true) table).

Lemma run_selected_rows fuel ra bs table : Always (run_selected fuel ra bs table)
  (fun rs tr => map method_name rs = selected ra bs table /\ rows tr = []).
Proof.
  induction table as [| [name m] rest IH]; [done |]. cbn [run_selected]. unfold selected.
  rewrite filter_cons. cbn [fst]. destruct (ra || found name bs).
  - rewrite decide_True by done. eapply always_bind; [apply RunBenchmark_rows |].
    intros r tr [Hn Hr]. eapply always_bind; [exact IH |]. intros rs tr2 [Hrs Hr2]. cbn.
    rewrite Hn, Hrs. split; [done |]. unfold rows in *. by rewrite app_nil_r, flat_map_app, Hr, Hr2.
  - by rewrite decide_False by done.
Qed.

Lemma print_rows_rows rs : Always (print_rows rs) (fun _ tr => rows tr = map method_name rs).
Proof.
  induction rs as [| r rest IH]; [done |]. cbn [print_rows map]. intros [] _. cbn [bind].
  eapply always_mono; [exact IH |]. intros [] tr Hr. unfold rows in *. cbn. by rewrite Hr.
Qed.

Lemma found_known name args : name <> "all"%string ->
  found name (filter (fun a => String.eqb a "all" = false) args) = found name args.
Proof.
  intros Hn. induction args as [| a args IH]; [done |]. rewrite filter_cons. cbn [found existsb].
  destruct (String.eqb a "all") eqn:E.
  - rewrite decide_False by done. apply String.eqb_eq in E. subst a.
    rewrite (proj2 (String.eqb_neq _ _)) by congruence. exact IH.
  - rewrite decide_True by done. cbn [found existsb]. by f_equal.
Qed.

Lemma selected_known ra args table : Forall (fun r => r.1 <> "all"%string) table ->
  selected ra (filter (fun a => String.eqb a "all" = false) args) table = selected ra args table.
Proof.
  unfold selected. induction 1 as [| [name m] table Hn _ IH]; [done |]. cbn [fst] in Hn.
  rewrite !filter_cons. cbn [fst]. rewrite (found_known name args Hn).
  case_decide; cbn [map]; by rewrite IH.
Qed.

(** The parent prints one row for each benchmark that was asked for, in the program's own
    order whatever the order of the arguments; without arguments, or with [all] among them,
    one for each; names it does not know are ignored; with help among the arguments, none. *)
Theorem main_prints_selected fuel args : Always (main fuel args) (fun code tr =>
  code = 0 /\ rows tr =
    if existsb (fun a => String.eqb a "-h" || String.eqb a "--help") args then []
    else selected (bool_decide (args = []) || found "all" args) args BENCHMARKS).
Proof.
  assert (forall l ra bs, parse_args l ra bs =
    if existsb (fun a => String.eqb a "-h" || String.eqb a "--help") l then None
    else Some (ra || found "all" l, bs ++ filter (fun a => String.eqb a "all" = false) l)) as Hp.
  { induction l as [| a l IH]; intros ra bs; cbn [parse_args existsb found].
    - by rewrite orb_false_r, app_nil_r.
    - destruct (String.eqb a "-h" || String.eqb a "--help"); [done |]. cbn [orb].
      rewrite filter_cons. destruct (String.eqb a "all") eqn:E; rewrite IH; cbn [orb].
      + rewrite decide_False by done. destruct (existsb _ l); [done |]. by rewrite orb_true_r.
      + rewrite decide_True by done. destruct (existsb _ l); [done |]. by rewrite <-app_assoc. }
  unfold main. rewrite Hp. destruct (existsb _ args).
  { intros [] _. done. }
  intros [] _ [] _ [] _. cbn [bind]. eapply always_bind; [apply run_selected_rows |].
  intros rs tr [Hrs Hr]. eapply always_bind; [apply print_rows_rows |].
  intros [] tr2 Hr2. cbn. split; [done |]. unfold rows in *. rewrite app_nil_r. cbn.
  rewrite flat_map_app, Hr, Hr2, app_nil_l, Hrs. apply selected_known. by repeat constructor.
Qed.
