(* ===== verification/Doubles.v ===== *)
(** * C doubles

    A [double] is a binary64 number rounded to nearest, as [SpecFloat] describes it. *)
From stdpp Require Import base gmap list.
From Stdlib Require Import ZArith Lia SpecFloat.
From S2P Require Import Prelude Prog.

Abbreviation double := spec_float.

#[export] Instance double_eq_dec : EqDecision double.
Proof. solve_decision. Defined.

Definition fadd : double -> double -> double := SFadd 53 1024.
Definition fsub : double -> double -> double := SFsub 53 1024.
Definition fmul : double -> double -> double := SFmul 53 1024.
Definition fdiv : double -> double -> double := SFdiv 53 1024.
Definition fabs : double -> double := SFabs.
Definition flt : double -> double -> bool := SFltb.

(** The conversion of an integer, and a decimal literal [p / q]. *)
Definition of_int (x : Z) : double := binary_normalize 53 1024 x 0 false.
Definition lit (p q : Z) : double := fdiv (of_int p) (of_int q).

Definition zero : double := S754_zero false.
Definition one : double := of_int 1.

(** The integral part; [None] when there is none. *)
Definition trunc (x : double) : option Z :=
  match x with
  | S754_zero _ => Some 0
  | S754_finite s m e =>
      let v := if 0 <=? e then Z.pos m * 2 ^ e else Z.pos m / 2 ^ (- e) in
      Some (if s then - v else v)
  | _ => None
  end.

(** Conversions to [uint64_t] and [long long]; a value outside the type is undefined. *)
Definition to_u64 {E} (x : double) : prog E Z :=
  match trunc x with
  | Some v => if (0 <=? v) && (v <? 2 ^ 64) then Ret v else Halt Undefined
  | None => Halt Undefined
  end.
Definition to_i64 {E} (x : double) : prog E Z :=
  match trunc x with
  | Some v => if (- 2 ^ 63 <=? v) && (v <? 2 ^ 63) then Ret v else Halt Undefined
  | None => Halt Undefined
  end.

(** [std::max] and [std::clamp]. *)
Definition fmax (a b : double) : double := if flt a b then b else a.
Definition fclamp (v lo hi : double) : double := if flt v lo then lo else if flt hi v then hi else v.

Lemma nonneg_not_less m : 0 <= m -> flt (of_int m) zero = false.
Proof.
  intros Hm. unfold of_int, binary_normalize. destruct m as [| p | p]; [done | | lia].
  unfold binary_round, binary_round_aux. destruct (shl_align _ _ _) as [mz ez].
  destruct (shr_fexp _ _ _ _ _) as [mrs e1]. destruct (shr_fexp _ _ (round_nearest_even _ _) _ _) as [mrs' e2].
  destruct (shr_m mrs') as [| q | q]; [done | | done]. by destruct (e2 <=? _).
Qed.
