(* ===== verification/Accounting.v ===== *)
(** * tsc_time: cycle counter and performance accounting

    [src/tsc_time/include/accounting/cycle_counter.hpp] and [accounting.hpp]. A [double] is a
    binary64 number ([SpecFloat]). The time stamp counter, the clock and the static members
    are operations; the members of an object are a record. What the mutex protects runs
    as one call. *)
From stdpp Require Import base gmap sets list strings relations.
From Stdlib Require Import ZArith Lia SpecFloat.
From S2P Require Import Prelude Prog Conc Sys Doubles.

(** ** cycle_counter.hpp *)

Inductive cycE : Type -> Type :=
| Rdtsc : cycE (Z * Z)                       (* the halves in eax and edx *)
| Cpuid_rdtsc : cycE (Z * Z)                 (* serialized by cpuid *)
| Now : cycE Z                               (* the clock, in nanoseconds *)
| LoadCalibrated : cycE bool
| StoreCalibrated (b : bool) : cycE unit
| LoadRate : cycE double                     (* cycles_per_ns *)
| StoreRate (x : double) : cycE unit
| CasInitialized (expected desired : bool) : cycE bool.

Abbreviation cyc := (prog cycE).

(** As for x86; on aarch64 the counter is one register. *)
Definition read_cycles : cyc Z :=
  r <- trigger Rdtsc ;;
  let '(low, high) := r in
  Ret (Z.lor (u64 (Z.shiftl high 32)) low).

Definition read_cycles_precise : cyc Z :=
  r <- trigger Cpuid_rdtsc ;;
  let '(low, high) := r in
  Ret (Z.lor (u64 (Z.shiftl high 32)) low).

Definition get_cycles : cyc Z := read_cycles.
Definition get_cycles_precise : cyc Z := read_cycles_precise.

Fixpoint insert_sample (x : double) (l : list double) : list double :=
  match l with
  | [] => [x]
  | y :: l' => if flt y x then y :: insert_sample x l' else x :: l
  end.

(** [std::sort]. *)
Definition sort_samples (l : list double) : list double := fold_right insert_sample [] l.

(** One sample: the counter's rate over [duration_us] of wall time. *)
Definition sample (fuel : nat) (duration_us : Z) : cyc double :=
  start_time <- trigger Now ;;
  start_cycles <- get_cycles_precise ;;
  now <- trigger Now ;;
  now <- loop fuel (fun now =>
           if u64 (Z.quot (now - start_time) 1000) <? duration_us
           then n <- trigger Now ;; Ret (inl n) else Ret (inr now)) now ;;
  end_cycles <- get_cycles_precise ;;
  let elapsed_ns := of_int (now - start_time) in
  let elapsed_cycles := u64 (end_cycles - start_cycles) in
  Ret (fdiv (fadd (of_int elapsed_cycles) zero) elapsed_ns).

Fixpoint take_samples (fuel : nat) (duration_us : Z) (n : nat) : cyc (list double) :=
  match n with
  | O => Ret []
  | S m => x <- sample fuel duration_us ;; xs <- take_samples fuel duration_us m ;; Ret (x :: xs)
  end.

(** The element [samples[i]]; the index is in range when there are samples. *)
Definition at_ (samples : list double) (i : Z) : cyc double :=
  match znth samples i with Some x => Ret x | None => Halt Undefined end.

Definition calibrate (fuel : nat) (duration_us num_samples : Z) : cyc unit :=
  samples <- take_samples fuel duration_us (Z.to_nat num_samples) ;;
  let samples := sort_samples samples in
  mid <- at_ samples (num_samples / 2) ;;
  trigger (StoreRate mid) ;;
  (if num_samples mod 2 =? 0
   then low <- at_ samples (num_samples / 2 - 1) ;;
        trigger (StoreRate (fdiv (fadd mid low) (of_int 2)))
   else Ret tt) ;;
  trigger (StoreCalibrated true).

Definition cycles_to_ns (cycles : Z) : cyc Z :=
  ok <- trigger LoadCalibrated ;;
  if negb ok then Ret 0
  else rate <- trigger LoadRate ;; to_u64 (fdiv (of_int cycles) rate).

Definition initialize (fuel : nat) : cyc bool :=
  mine <- trigger (CasInitialized false true) ;;
  (if (mine : bool) then calibrate fuel 100 25 else Ret tt) ;;
  trigger LoadCalibrated.

(** ** accounting.hpp *)

Record Config := MkConfig {
  kp : double;
  ki : double;
  kd : double;
  num_buckets : Z;
  coarsening_factor : double;
  base_resolution : Z;                 (* milliseconds *)
  max_history : Z;                     (* milliseconds *)
  target_latency_ms : double }.

Definition default_config : Config :=
  MkConfig (lit 5 10) (lit 5 100) (lit 1 10) 16 (of_int 2) 10 (3600 * 1000) one.

Record TimeBucket := MkBucket {
  sum_latency_ms : double;
  count : Z;
  last_update_time : Z;
  time_span : Z }.

Definition empty_bucket : TimeBucket := MkBucket zero 0 0 0.

Record DampeningRecommendation := MkRecommendation {
  magnitude : double;
  timestamp : Z;
  requires_confirmation : bool }.

Record Metrics := MkMetrics {
  current_latency_ms : double;
  avg_latency_ms_short_term : double;
  avg_latency_ms_long_term : double;
  operations_per_second : Z;
  dampening_magnitude : double }.

Record PerformanceAccounting := MkAccounting {
  config : Config;
  current_latency : double;
  operation_count : Z;
  op_start : Z;
  start_time : Z;
  buckets : list TimeBucket;
  last_error : double;
  error_integral : double;
  last_pid_update : Z;
  last_applied_dampening : double;
  last_dampening_timestamp : Z }.

Definition with_buckets (bs : list TimeBucket) (a : PerformanceAccounting) : PerformanceAccounting :=
  MkAccounting (config a) (current_latency a) (operation_count a) (op_start a) (start_time a) bs
    (last_error a) (error_integral a) (last_pid_update a) (last_applied_dampening a)
    (last_dampening_timestamp a).

Section Accounting.
(** [std::pow], and [CycleCounter::ticksToSec], which no file declares. *)
Context (pow : double -> double -> double) (ticksToSec : Z -> double).

(** The spans of the buckets from [i] on. *)
Fixpoint init_spans (c : Config) (i : Z) (n : nat) : cyc (list TimeBucket) :=
  match n with
  | O => Ret []
  | S m =>
      span <- to_i64 (fmul (of_int (base_resolution c)) (pow (coarsening_factor c) (of_int i))) ;;
      rest <- init_spans c (i + 1) m ;;
      Ret (MkBucket zero 0 0 span :: rest)
  end.

(** [num_buckets = 0] writes [buckets[0]] of an empty vector. *)
Definition initialize_buckets (c : Config) : cyc (list TimeBucket * Z) :=
  if num_buckets c =? 0 then Halt Undefined
  else
  rest <- init_spans c 1 (Z.to_nat (num_buckets c) - 1) ;;
  start <- get_cycles ;;
  Ret (MkBucket zero 0 0 (base_resolution c) :: rest, start).

Definition new_accounting (fuel : nat) (c : Config) : cyc PerformanceAccounting :=
  r <- initialize_buckets c ;;
  initialize fuel ;;
  Ret (MkAccounting c zero 0 0 r.2 r.1 zero zero 0 zero 0).

Definition start_operation (a : PerformanceAccounting) : cyc PerformanceAccounting :=
  t <- get_cycles ;;
  Ret (MkAccounting (config a) (current_latency a) (operation_count a) t (start_time a) (buckets a)
    (last_error a) (error_integral a) (last_pid_update a) (last_applied_dampening a)
    (last_dampening_timestamp a)).

(** The loop of [update_buckets]: [b] is [buckets[i]] and [rest] the buckets after it. *)
Fixpoint shift_buckets (current_time : Z) (b : TimeBucket) (rest : list TimeBucket) :
    cyc (list TimeBucket) :=
  match rest with
  | [] => Ret [b]
  | next :: rest' =>
      elapsed_ms <- cycles_to_ns (u64 (current_time - last_update_time next)) ;;
      if flt (of_int (time_span b)) (of_int elapsed_ms)
      then
        let avg_latency := if 0 <? count b then fdiv (sum_latency_ms b) (of_int (count b)) else zero in
        let next := MkBucket (fadd (sum_latency_ms next) avg_latency) (u64 (count next + 1))
                      current_time (time_span next) in
        bs <- shift_buckets current_time next rest' ;;
        Ret (MkBucket zero 0 (last_update_time b) (time_span b) :: bs)
      else
        bs <- shift_buckets current_time next rest' ;; Ret (b :: bs)
  end.

(** The discarding of the last bucket. *)
Fixpoint discard_last (c : Config) (current_time : Z) (bs : list TimeBucket) : cyc (list TimeBucket) :=
  match bs with
  | [] => Ret []
  | [b] =>
      if 0 <? count b
      then
        elapsed_ms <- cycles_to_ns (u64 (current_time - last_update_time b)) ;;
        Ret [if flt (of_int (max_history c)) (of_int elapsed_ms)
             then MkBucket zero 0 (last_update_time b) (time_span b) else b]
      else Ret [b]
  | b :: bs' => r <- discard_last c current_time bs' ;; Ret (b :: r)
  end.

Definition update_buckets (current_time : Z) (duration_ms : double) (a : PerformanceAccounting) :
    cyc PerformanceAccounting :=
  match buckets a with
  | [] => Halt Undefined
  | b :: rest =>
      let b := MkBucket (fadd (sum_latency_ms b) duration_ms) (u64 (count b + 1)) current_time
                 (time_span b) in
      bs <- shift_buckets current_time b rest ;;
      bs <- discard_last (config a) current_time bs ;;
      Ret (with_buckets bs a)
  end.

Definition end_operation (a : PerformanceAccounting) : cyc PerformanceAccounting :=
  end_ <- get_cycles ;;
  let duration := u64 (end_ - op_start a) in
  ns <- cycles_to_ns duration ;;
  let duration_ms := of_int ns in
  let a := MkAccounting (config a) duration_ms (u64 (operation_count a + 1)) (op_start a)
             (start_time a) (buckets a) (last_error a) (error_integral a) (last_pid_update a)
             (last_applied_dampening a) (last_dampening_timestamp a) in
  if operation_count a mod 100 =? 0 then update_buckets end_ duration_ms a else Ret a.

Definition confirmDampening (applied_magnitude : double) (a : PerformanceAccounting) :
    cyc PerformanceAccounting :=
  t <- get_cycles ;;
  Ret (MkAccounting (config a) (current_latency a) (operation_count a) (op_start a) (start_time a)
    (buckets a) (last_error a) (error_integral a) (last_pid_update a) applied_magnitude t).

Definition calculateAverageLatency (start_idx end_idx : Z) (a : PerformanceAccounting) : double :=
  let end_idx := Z.min end_idx (zlen (buckets a)) in
  let bs := drop (Z.to_nat start_idx) (take (Z.to_nat end_idx) (buckets a)) in
  let sum_latency := fold_left (fun s b => fadd s (sum_latency_ms b)) bs zero in
  let total_count := fold_left (fun n b => u64 (n + count b)) bs 0 in
  if 0 <? total_count then fdiv sum_latency (of_int total_count) else zero.

Definition getMetrics (a : PerformanceAccounting) : cyc Metrics :=
  now <- get_cycles ;;
  ns <- cycles_to_ns (u64 (now - start_time a)) ;;
  rate <- to_u64 (fdiv (of_int (operation_count a)) (fadd (of_int ns) (lit 1 1000))) ;;
  Ret (MkMetrics (current_latency a) (calculateAverageLatency 0 4 a)
         (calculateAverageLatency 0 (zlen (buckets a)) a) rate (last_applied_dampening a)).

(** The initialiser of the local [current_latency] names the variable itself; the member
    is meant and is read here. *)
Definition computePIDOutput (a : PerformanceAccounting) :
    cyc (DampeningRecommendation * PerformanceAccounting) :=
  current_time <- get_cycles ;;
  let c := config a in
  let error := fsub (current_latency a) (target_latency_ms c) in
  let dt_sec := fmax (ticksToSec (u64 (current_time - last_pid_update a))) (lit 1 1000) in
  let p_term := fmul (kp c) error in
  let integral := fclamp (fadd (error_integral a) (fmul error dt_sec)) (of_int (-100)) (of_int 100) in
  let i_term := fmul (ki c) integral in
  let error_derivative := fdiv (fsub error (last_error a)) dt_sec in
  let d_term := fmul (kd c) error_derivative in
  let pid_output := fadd (fadd p_term i_term) d_term in
  let dampening := fclamp pid_output zero one in
  let a := MkAccounting c (current_latency a) (operation_count a) (op_start a) (start_time a)
             (buckets a) error integral current_time (last_applied_dampening a)
             (last_dampening_timestamp a) in
  let confirm := flt (lit 1 10) (fabs (fsub dampening (last_applied_dampening a))) in
  Ret (MkRecommendation dampening current_time confirm, a).

Definition getDampeningRecommendation (a : PerformanceAccounting) :
    cyc (DampeningRecommendation * PerformanceAccounting) := computePIDOutput a.
End Accounting.

(** ** What the short-term average shows *)

(** The answers of a calibrated counter. *)
Definition calibrated_at (rate : double) (R : Type) (e : cycE R) : R -> Prop :=
  match e in cycE R return R -> Prop with
  | LoadCalibrated => fun b => b = true
  | LoadRate => fun r => r = rate
  | _ => fun _ => True
  end.

(** The nanoseconds of a number of cycles. *)
Definition elapsed (rate : double) (cycles : Z) : option Z :=
  match trunc (fdiv (of_int cycles) rate) with
  | Some v => if (0 <=? v) && (v <? 2 ^ 64) then Some v else None
  | None => None
  end.

Section ShortTerm.
Context (rate : double).

Abbreviation Always := (always (calibrated_at rate) nothing).

Lemma cycles_to_ns_elapsed c ns (Q : Z -> list (event cycE) -> Prop) :
  elapsed rate c = Some ns -> (forall tr, Q ns tr) -> Always (cycles_to_ns c) Q.
Proof.
  unfold elapsed. intros He HQ. cbn. intros b ->. cbn. intros r ->. cbn. unfold to_u64.
  destruct (trunc _) as [v |]; [| done]. destruct ((0 <=? v) && (v <? 2 ^ 64)); [| done].
  injection He as ->. apply HQ.
Qed.

(** [cycles] since the last update of a bucket are more, by the comparison of the code, than the span
    of the bucket before it. *)
Definition exceeds (cycles span : Z) : Prop :=
  exists ns, elapsed rate cycles = Some ns /\ flt (of_int span) (of_int ns) = true.

(** Every bucket but the last is empty; the last holds [n] values that sum up to [s]. *)
Definition drained (t : Z) (spans : list Z) (s : double) (n last_span : Z) : list TimeBucket :=
  map (MkBucket zero 0 t) spans ++ [MkBucket s n t last_span].

(** What one move to the next, empty bucket does to a latency. *)
Definition carry (x : double) : double := fdiv (fadd zero x) one.

Lemma shift_drained t t' spans sp x s n last_span :
  Forall (exceeds (u64 (t' - t))) (sp :: spans) ->
  Always (shift_buckets t' (MkBucket (fadd zero x) 1 t' sp) (drained t spans s n last_span))
    (fun bs _ => bs = drained t' (sp :: spans) (fadd s (Nat.iter (length (sp :: spans)) carry x))
                        (u64 (n + 1)) last_span).
Proof.
  revert sp x. induction spans as [| sp' spans IH]; intros sp x [(ns & He & Hlt) Hr]%Forall_cons.
  - unfold drained. cbn [map app shift_buckets last_update_time time_span].
    eapply always_bind; [by apply (cycles_to_ns_elapsed _ ns (fun v _ => v = ns)) |].
    intros v tr ->. rewrite Hlt. reflexivity.
  - unfold drained at 1. cbn [map app shift_buckets last_update_time time_span].
    eapply always_bind; [by apply (cycles_to_ns_elapsed _ ns (fun v _ => v = ns)) |].
    intros v tr ->. rewrite Hlt. cbn [Prelude.wrap sum_latency_ms count time_span last_update_time].
    eapply always_bind; [apply (IH sp' (carry x)); by apply Hr |]. intros bs tr' ->.
    cbn [always]. unfold drained. cbn [map app length]. by rewrite !Nat.iter_succ_r.
Qed.

Lemma discard_drained c t spans s n last_span : 0 <= max_history c -> elapsed rate 0 = Some 0 ->
  Always (discard_last c t (drained t spans s n last_span))
    (fun bs _ => bs = drained t spans s n last_span).
Proof.
  intros Hm He. unfold drained. induction spans as [| sp spans IH]; cbn [map app].
  - cbn [discard_last count last_update_time time_span]. destruct (0 <? n); [| reflexivity].
    rewrite Z.sub_diag. change (u64 0) with 0.
    eapply always_bind; [by apply (cycles_to_ns_elapsed _ 0 (fun v _ => v = 0)) |]. intros v tr ->.
    change (of_int 0) with zero. rewrite nonneg_not_less by exact Hm. reflexivity.
  - destruct (map _ spans ++ _) as [| b bs] eqn:E; [by destruct spans |].
    change (discard_last c t (MkBucket zero 0 t sp :: b :: bs)) with
      (r <- discard_last c t (b :: bs) ;; Ret (MkBucket zero 0 t sp :: r)).
    eapply always_bind; [exact IH |]. intros r tr ->. reflexivity.
Qed.

(** The updates of a run, at the given times and with the given latencies. *)
Fixpoint updates (l : list (Z * double)) (a : PerformanceAccounting) : cyc PerformanceAccounting :=
  match l with
  | [] => Ret a
  | (t, d) :: l' => a <- update_buckets t d a ;; updates l' a
  end.

(** The gap before each update, the first from [t], exceeds every span. *)
Fixpoint slow (spans : list Z) (t : Z) (l : list (Z * double)) : Prop :=
  match l with
  | [] => True
  | (t', _) :: l' => Forall (exceeds (u64 (t' - t))) spans /\ slow spans t' l'
  end.

Lemma update_drained t t' d sp spans s n last_span a : 0 <= max_history (config a) ->
  elapsed rate 0 = Some 0 -> Forall (exceeds (u64 (t' - t))) (sp :: spans) ->
  buckets a = drained t (sp :: spans) s n last_span ->
  Always (update_buckets t' d a) (fun a' _ => a' = with_buckets (drained t' (sp :: spans)
    (fadd s (Nat.iter (length (sp :: spans)) carry d)) (u64 (n + 1)) last_span) a).
Proof.
  intros Hm He Hex Hb. unfold update_buckets. rewrite Hb. unfold drained at 1. cbn [map app].
  eapply always_bind; [by apply shift_drained |]. intros bs tr ->.
  eapply always_bind; [by apply discard_drained |]. intros bs tr' ->. reflexivity.
Qed.

Lemma drained_average t spans s n last_span a : (4 <= length spans)%nat ->
  buckets a = drained t spans s n last_span -> calculateAverageLatency 0 4 a = zero.
Proof.
  intros Hl Hb. destruct spans as [| s1 [| s2 [| s3 [| s4 spans]]]]; simpl in Hl; try lia.
  unfold calculateAverageLatency. rewrite Hb. unfold drained. cbn [map app].
  rewrite Z.min_l by (rewrite !zlen_cons; pose proof (zlen_nonneg (map (MkBucket zero 0 t) spans ++
    [MkBucket s n t last_span])); lia). reflexivity.
Qed.

(** The buckets after the updates [l], the first of them at [t] or later. *)
Definition after_updates (spans : list Z) (s : double) (n last_span : Z) (l : list (Z * double))
    (a : PerformanceAccounting) : Prop :=
  calculateAverageLatency 0 4 a = zero /\
  exists t, buckets a = drained t spans
    (fold_left (fun s d => fadd s (Nat.iter (length spans) carry d)) (map snd l) s)
    (fold_left (fun n _ => u64 (n + 1)) l n) last_span.

Lemma updates_drained spans last_span l t s n a : (4 <= length spans)%nat ->
  0 <= max_history (config a) -> elapsed rate 0 = Some 0 -> slow spans t l ->
  buckets a = drained t spans s n last_span ->
  Always (updates l a) (fun a' _ => after_updates spans s n last_span l a').
Proof.
  intros Hl Hm He. revert t s n a Hm. induction l as [| [t' d] l IH]; intros t s n a Hm Hs Hb.
  - split; [by eapply drained_average |]. exists t. exact Hb.
  - destruct Hs as [Hex Hs]. destruct spans as [| sp spans]; [simpl in Hl; lia |].
    cbn [updates]. eapply always_bind; [by eapply update_drained |]. intros a' tr ->.
    eapply always_mono; [eapply (IH t'); [exact Hm | exact Hs | reflexivity] |].
    intros b tr' Hq. exact Hq.
Qed.

(** C25. The spans are milliseconds, the elapsed times nanoseconds. When every update comes later
    after the one before than the widest span's number in nanoseconds (a third of a
    millisecond by default), each update moves every latency on to the last bucket: the
    short-term average is 0 whatever the latencies are, and the last bucket holds
    them all, one for each update. *)
Theorem short_term_always_zero spans last_span l a : (4 <= length spans)%nat ->
  0 <= max_history (config a) -> elapsed rate 0 = Some 0 -> slow spans 0 l ->
  buckets a = drained 0 spans zero 0 last_span ->
  Always (updates l a) (fun a' _ => after_updates spans zero 0 last_span l a').
Proof. apply updates_drained. Qed.
End ShortTerm.

(** [slow] by evaluation. *)
Definition exceeds_check (rate : double) (cycles span : Z) : bool :=
  match elapsed rate cycles with Some ns => flt (of_int span) (of_int ns) | None => false end.

Fixpoint slow_check (rate : double) (spans : list Z) (t : Z) (l : list (Z * double)) : bool :=
  match l with
  | [] => true
  | (t', _) :: l' => forallb (exceeds_check rate (u64 (t' - t))) spans && slow_check rate spans t' l'
  end.

Lemma slow_checked rate spans t l : slow_check rate spans t l = true -> slow rate spans t l.
Proof.
  revert t. induction l as [| [t' d] l IH]; intros t; [done |]. cbn [slow_check slow].
  intros [H1 H2]%andb_prop. split; [| by apply IH].
  rewrite forallb_forall in H1. apply Forall_forall. intros sp Hsp. apply list_elem_of_In in Hsp.
  specialize (H1 sp Hsp). unfold exceeds_check, exceeds in *.
  destruct (elapsed rate _) as [ns |]; [by exists ns | discriminate].
Qed.

(** A counter of three cycles a nanosecond, and a latency of 2 s at each of two updates. *)
Definition two_seconds : double := of_int 2000000000.

Definition demo_accounting : PerformanceAccounting :=
  MkAccounting default_config zero 0 0 0
    (drained 0 (map (fun i => 10 * 2 ^ i) (seqZ 0 15)) zero 0 327680) zero zero 0 zero 0.

Lemma short_term_always_zero_witness :
  always (calibrated_at (of_int 3)) nothing
    (updates [(2 ^ 40, two_seconds); (2 ^ 41, two_seconds)] demo_accounting)
    (fun a _ => calculateAverageLatency 0 4 a = zero /\ calculateAverageLatency 0 16 a = two_seconds).
Proof.
  eapply always_mono.
  - apply (short_term_always_zero (of_int 3) (map (fun i => 10 * 2 ^ i) (seqZ 0 15)) 327680).
    + vm_compute. lia.
    + vm_compute. discriminate.
    + vm_compute. reflexivity.
    + apply slow_checked. vm_compute. reflexivity.
    + reflexivity.
  - intros a tr [H1 (t & H2)]. split; [exact H1 |]. unfold calculateAverageLatency. rewrite H2.
    vm_compute. reflexivity.
Defined.

(** ** Two threads that construct an object at once *)

(** The static members, and the readings of the clocks that are still to come. *)
Record statics := MkStatics {
  initialized : bool;
  is_calibrated : bool;
  cycles_per_ns : double;
  reads : Z }.

Section Statics.
(** The time stamp counter and the clock at their [n]-th reading. *)
Context (tsc now : Z -> Z).

Definition cyc_h : handler cycE (unit * statics) := fun R e s =>
  let '(u, st) := s in
  let st' := MkStatics (initialized st) (is_calibrated st) (cycles_per_ns st) (reads st + 1) in
  match e in cycE R return outcome (unit * statics) R with
  | Rdtsc | Cpuid_rdtsc => Done (u32 (tsc (reads st)), u32 (Z.shiftr (tsc (reads st)) 32)) (u, st')
  | Now => Done (now (reads st)) (u, st')
  | LoadCalibrated => Done (is_calibrated st) s
  | StoreCalibrated b => Done tt (u, MkStatics (initialized st) b (cycles_per_ns st) (reads st))
  | LoadRate => Done (cycles_per_ns st) s
  | StoreRate x => Done tt (u, MkStatics (initialized st) (is_calibrated st) x (reads st))
  | CasInitialized expected desired =>
      if Bool.eqb (initialized st) expected
      then Done true (u, MkStatics desired (is_calibrated st) (cycles_per_ns st) (reads st))
      else Done false s
  end.

Abbreviation Run := (run cyc_h).

Definition tick (st : statics) : statics :=
  MkStatics (initialized st) (is_calibrated st) (cycles_per_ns st) (reads st + 1).

(** The halves are put together again. *)
Lemma run_get_cycles u st : Run get_cycles (u, st) = Done (u64 (tsc (reads st))) (u, tick st).
Proof.
  unfold get_cycles, read_cycles. rewrite run_bind, run_trigger. cbn [cyc_h obind run]. by rewrite halves_wrap.
Qed.

(** While the counter is not calibrated nothing that is measured fails or counts. *)
Definition uncalibrated (s : unit * statics) : Prop := is_calibrated s.2 = false.

Lemma run_no_ns c s : uncalibrated s -> Run (cycles_to_ns c) s = Done 0 s.
Proof. destruct s as [u st]. unfold uncalibrated. cbn. intros ->. reflexivity. Qed.

Lemma run_shift t b rest s : uncalibrated s ->
  exists bs, Run (shift_buckets t b rest) s = Done bs s /\ bs <> [].
Proof.
  intros Hs. revert b. induction rest as [| next rest IH]; intros b; [by exists [b] |].
  cbn [shift_buckets]. rewrite run_bind, run_no_ns by exact Hs. cbn [obind].
  destruct (flt _ _).
  - destruct (IH (MkBucket (fadd (sum_latency_ms next) (if 0 <? count b then
      fdiv (sum_latency_ms b) (of_int (count b)) else zero)) (u64 (count next + 1)) t (time_span next)))
      as (bs & E & _). rewrite run_bind, E. by eexists.
  - destruct (IH next) as (bs & E & _). rewrite run_bind, E. by eexists.
Qed.

Lemma run_discard c t bs s : uncalibrated s -> exists bs', Run (discard_last c t bs) s = Done bs' s.
Proof.
  intros Hs. induction bs as [| b [| b' bs] IH]; [by exists [] | |].
  - cbn [discard_last]. destruct (0 <? count b); [| by eexists].
    rewrite run_bind, run_no_ns by exact Hs. by eexists.
  - destruct IH as [bs' E]. change (discard_last c t (b :: b' :: bs)) with
      (r <- discard_last c t (b' :: bs) ;; Ret (b :: r)).
    rewrite run_bind, E. by eexists.
Qed.

Lemma run_end_operation a s : uncalibrated s -> buckets a <> [] ->
  exists a' s', Run (end_operation a) s = Done a' s' /\ uncalibrated s' /\ current_latency a' = zero.
Proof.
  intros Hs Hb. unfold end_operation. destruct s as [u st]. rewrite run_bind, run_get_cycles.
  cbn [obind]. rewrite run_bind, run_no_ns by exact Hs.
  cbn [obind]. set (a1 := MkAccounting _ _ _ _ _ _ _ _ _ _ _). set (s1 := (u, _)).
  destruct (_ =? 0); [| by exists a1, s1]. unfold update_buckets.
  change (buckets a1) with (buckets a). destruct (buckets a) as [| b rest]; [done |].
  destruct (run_shift (u64 (tsc (reads st))) (MkBucket (fadd (sum_latency_ms b) (of_int 0)) (u64 (count b + 1))
    (u64 (tsc (reads st))) (time_span b)) rest s1 Hs) as (bs & E & _).
  destruct (run_discard (config a1) (u64 (tsc (reads st))) bs s1 Hs) as (bs' & E').
  rewrite run_bind, E. cbn [obind]. rewrite run_bind, E'. by exists (with_buckets bs' a1), s1.
Qed.

(** A thread that makes its object and measures one operation: what [initialize] answered and the
    latency it recorded. *)
Definition measure (fuel : nat) (a : PerformanceAccounting) : cyc (bool * double) :=
  ok <- initialize fuel ;;
  a <- start_operation a ;;
  a <- end_operation a ;;
  Ret (ok, current_latency a).

Lemma run_measure fuel a u st : initialized st = true -> is_calibrated st = false -> buckets a <> [] ->
  exists st', Run (measure fuel a) (u, st) = Done (false, zero) (u, st') /\ is_calibrated st' = false.
Proof.
  intros Hi Hc Hb. unfold measure, initialize. rewrite !run_bind, run_trigger. cbn [cyc_h]. rewrite Hi.
  cbn [Bool.eqb obind]. rewrite run_bind. cbn [run obind]. rewrite run_trigger. cbn [cyc_h obind].
  rewrite Hc. rewrite run_bind. unfold start_operation. rewrite run_bind, run_get_cycles.
  cbn [obind run]. rewrite run_bind. set (a1 := MkAccounting _ _ _ _ _ _ _ _ _ _ _).
  set (s1 := (u, _)). destruct (run_end_operation a1 s1 Hc Hb) as (a2 & [[] st2] & E & Hc2 & Hl).
  rewrite E. cbn [obind run]. rewrite Hl. destruct u. by exists st2.
Qed.

(** What is left of [measure] for the thread that claimed the calibration. *)
Definition calibrating (fuel : nat) (a : PerformanceAccounting) : cyc (bool * double) :=
  ok <- (calibrate fuel 100 25 ;; trigger LoadCalibrated) ;;
  a <- start_operation a ;;
  a <- end_operation a ;;
  Ret (ok, current_latency a).

(** [initialize] claims the calibration before it has done it. A second thread that comes in
    between does not wait: it goes on with an uncalibrated counter, and the operation it
    measures counts as 0. *)
Theorem second_thread_measures_nothing f1 f2 a1 a2 st : initialized st = false ->
  is_calibrated st = false -> buckets a2 <> [] ->
  exists schedule st',
    pool_run (fun _ => cyc_h) schedule ([(tt, measure f1 a1); (tt, measure f2 a2)], st)
      = ([(tt, calibrating f1 a1); (tt, Ret (false, zero))], st') /\ is_calibrated st' = false.
Proof.
  intros Hi Hc Hb. set (st1 := MkStatics true false (cycles_per_ns st) (reads st)).
  destruct (run_measure f2 a2 tt st1 eq_refl eq_refl Hb) as (st' & Hr & Hc').
  destruct (pool_run_alone (fun _ => cyc_h) 1%nat [(tt, calibrating f1 a1); (tt, measure f2 a2)] st1 tt
    _ _ _ _ eq_refl Hr) as [n Hn].
  exists (0%nat :: replicate n 1%nat), st'. split; [| exact Hc']. cbn [pool_run]. etransitivity; [| exact Hn]. f_equal.
  unfold pool_turn. cbn [lookup list_lookup measure initialize bind trigger]. cbn [cyc_h].
  rewrite Hi. cbn [Bool.eqb]. unfold st1. rewrite <-Hc. reflexivity.
Qed.
End Statics.

Lemma second_thread_measures_nothing_witness :
  exists schedule st', pool_run (fun _ => cyc_h (fun n => 3 * n) (fun n => n)) schedule
    ([(tt, measure 9 demo_accounting); (tt, measure 9 demo_accounting)], MkStatics false false zero 0)
    = ([(tt, calibrating 9 demo_accounting); (tt, Ret (false, zero))], st') /\ is_calibrated st' = false.
Proof. apply second_thread_measures_nothing; [reflexivity | reflexivity | discriminate]. Defined.

(** ** The controller *)

(** Every recommendation is between 0 and 1 and the integral between -100 and 100 (by the
    comparisons of doubles, which a NaN never fails); but a NaN in the integral stays for
    good: from then on the recommendation is a NaN that asks for no confirmation. *)
Theorem recommendation_clamped ticksToSec a :
  always anything nothing (getDampeningRecommendation ticksToSec a) (fun r _ =>
    flt (magnitude r.1) zero = false /\ flt one (magnitude r.1) = false /\
    flt (error_integral r.2) (of_int (-100)) = false /\ flt (of_int 100) (error_integral r.2) = false /\
    (error_integral a = S754_nan -> error_integral r.2 = S754_nan /\ magnitude r.1 = S754_nan /\
      requires_confirmation r.1 = false)).
Proof.
  intros [low high] _. cbn [bind always error_integral magnitude requires_confirmation fst snd].
  assert (forall v lo hi, flt lo lo = false -> flt hi hi = false -> flt hi lo = false ->
    flt (fclamp v lo hi) lo = false /\ flt hi (fclamp v lo hi) = false) as Hclamp.
  { intros v lo hi H1 H2 H3. unfold fclamp. destruct (flt v lo) eqn:E1; [by split |].
    destruct (flt hi v) eqn:E2; by split. }
  split; [by apply Hclamp |]. split; [by apply Hclamp |]. split; [by apply Hclamp |].
  split; [by apply Hclamp |]. intros ->.
  assert (forall x, fadd S754_nan x = S754_nan) as Hadd by done.
  assert (forall x, fadd x S754_nan = S754_nan) as Hadd' by (by intros []).
  assert (forall x, fmul x S754_nan = S754_nan) as Hmul by (by intros []).
  rewrite Hadd. change (fclamp S754_nan (of_int (-100)) (of_int 100)) with S754_nan.
  rewrite Hmul, Hadd', Hadd. done.
Qed.

(** Latencies are nanoseconds where the target is milliseconds: with the default target of one
    millisecond, operations of 3 ns to 1 us already get the largest dampening. *)
Lemma fast_operations_dampened ns : 0 <= ns < 1000 -> 3 <= ns ->
  always anything nothing (getDampeningRecommendation (fun _ => one)
    (MkAccounting default_config (of_int ns) 1 0 0 [] zero zero 0 zero 0))
    (fun r _ => magnitude r.1 = one).
Proof.
  intros Hr Hlo [low high] _. cbn [bind always fst magnitude current_latency config target_latency_ms].
  set (f := fun ns => (ns <? 3) || bool_decide (fclamp (fadd (fadd (fmul (lit 5 10) (fsub (of_int ns) one))
    (fmul (lit 5 100) (fclamp (fadd zero (fmul (fsub (of_int ns) one) (fmax one (lit 1 1000)))) (of_int (-100))
       (of_int 100)))) (fmul (lit 1 10) (fdiv (fsub (fsub (of_int ns) one) zero) (fmax one (lit 1 1000)))))
    zero one = one)).
  assert (f ns = true) as Hf.
  { apply (below_forallb (Z.to_nat 1000)); [| lia]. vm_compute. reflexivity. }
  unfold f in Hf. rewrite (proj2 (Z.ltb_ge ns 3)) in Hf by lia. by apply bool_decide_eq_true in Hf.
Qed.
