(* ===== verification/Daemon.v ===== *)
(** * autodaemonize: a library that forks its own daemon

    [src/autodaemonize/daemon.hpp]. The members of the object are a record: the object lies in
    private memory, so a fork gives each process its own copy. [Fork] answers to the process that
    goes on, which is how one program describes the parent, the child and the daemon. *)
From stdpp Require Import base gmap sets list strings relations.
From Stdlib Require Import ZArith Lia.
From S2P Require Import Prelude Prog Conc Sys Text.

(** [DaemonState]. *)
Definition Uninitialized : Z := 0.
Definition Initializing : Z := 1.
Definition Ready : Z := 2.
Definition Error : Z := 3.

Inductive dmE : Type -> Type :=
| Now : dmE Z                                     (* nanoseconds *)
| Yield : dmE unit
| Sleep_ms (ms : Z) : dmE unit
| Close (fd : Z) : dmE unit
| Mmap_shared (sz : Z) : dmE Z                    (* anonymous, readable and writable *)
| Munmap (pv sz : Z) : dmE unit
| Pipe : dmE (option (Z * Z))                     (* the reading and the writing end *)
| Fork : dmE Z
| Poll (fd timeout : Z) : dmE (Z * bool)          (* its result; whether POLLHUP is set *)
| Read (fd n : Z) : dmE (list Z)                  (* nothing when it fails *)
| Write (fd : Z) (data : list Z) : dmE Z
| Stack : dmE (list Z)                            (* what a fresh buffer of 1024 bytes holds *)
| Cout (text : list Z) : dmE unit.

Abbreviation dm := (prog dmE).

(** [AtomicShared]: the operators that would put an atomic into shared memory. Nothing calls them, since the
    one atomic of the program is a member of an object on the stack. *)
Definition sizeof_int : Z := 4.
Definition MAP_FAILED : Z := -1.

Definition operator_new : dm Z :=
  pv <- trigger (Mmap_shared sizeof_int) ;;
  if pv =? MAP_FAILED then Halt (Signaled 6) else Ret pv.

Definition operator_delete (pv : Z) : dm unit := trigger (Munmap pv sizeof_int).

Record Daemon := MkDaemon {
  state : Z;
  daemon_fd : Z;
  client_fd : Z }.

(** One turn of the wait: three fast checks, then checks after a yield. *)
Definition wait_turn (value oldval start end_ fast_checks : Z) : dm (Z + bool) :=
  if negb (value =? oldval) then Ret (inr true)
  else
  fast_checks <- (if 0 <? fast_checks then Ret (fast_checks - 1)
                  else trigger Yield ;; Ret fast_checks) ;;
  now <- trigger Now ;;
  Ret (if now - start <? end_ then inl fast_checks else inr false).

(** The value of the atomic is that of the object's own memory. A negative timeout converts the largest
    number of years to milliseconds, which overflows. *)
Definition value_timedwait (fuel : nat) (value oldval timeout : Z) : dm bool :=
  start <- trigger Now ;;
  if timeout <? 0 then Halt Undefined
  else
  let end_ := timeout * 1000000 in
  loop fuel (wait_turn value oldval start end_) 3.

Definition say (s : string) : dm unit := trigger (Cout (bytes_of s)).

(** One turn of the daemon's loop. *)
Definition daemon_turn (fd : Z) : dm (unit + unit) :=
  r <- trigger (Poll fd 100) ;;
  if r.1 =? -1 then Halt (Exited 0)
  else if r.1 =? 0 then say "[daemon] DAEMON HEARTBEAT, EVERYTHING OK" ;; Ret (inl tt)
  else if r.1 =? 1
  then
    if (r.2 : bool)
    then say "[daemon] Customer hung up!  Closing daemon!" ;; Halt (Exited 0)
    else
    say "[daemon] GOT A MESSAGE" ;;
    buf <- trigger Stack ;;
    data <- trigger (Read fd 1024) ;;
    let buf := data ++ drop (length data) buf in
    match strlen buf with
    | Some _ => trigger (Cout (bytes_of "-->" ++ c_str buf)) ;; Ret (inl tt)
    | None => Halt Undefined                       (* nothing ends the text: [<<] reads past the array *)
    end
  else Ret (inl tt).

Definition run_daemon (fuel : nat) (d : Daemon) : dm unit :=
  loop fuel (fun _ => daemon_turn (daemon_fd d)) tt.

Definition daemonize (fuel : nat) (d : Daemon) : dm (bool * Daemon) :=
  if Ready =? state d then Ret (true, d)
  else
  trigger (Close (client_fd d)) ;;
  p <- trigger Pipe ;;
  let d := match p with
           | Some (r, w) => MkDaemon Initializing r w
           | None => MkDaemon Initializing (daemon_fd d) (client_fd d)
           end in
  child <- trigger Fork ;;
  (if child =? 0
   then
     grandchild <- trigger Fork ;;
     if negb (grandchild =? 0) then Halt (Exited 0)
     else
     trigger (Close (client_fd d)) ;;
     let d := MkDaemon Ready (daemon_fd d) (client_fd d) in
     run_daemon fuel d ;; Halt (Exited 0)
   else Ret tt) ;;
  value_timedwait fuel (state d) Initializing 200 ;;
  trigger (Close (daemon_fd d)) ;;
  Ret (true, d).

(** The constructor, [send] and the destructor. *)
Definition new_Daemon (fuel : nat) : dm Daemon :=
  r <- daemonize fuel (MkDaemon Uninitialized (-1) (-1)) ;; Ret r.2.

Definition send (d : Daemon) (msg : list Z) : dm bool :=
  n <- trigger (Write (client_fd d) msg) ;; Ret (negb (-1 =? n)).

Definition shutdown (d : Daemon) : dm unit := trigger (Close (client_fd d)).

(** The destructor. *)
Definition destroy_Daemon (d : Daemon) : dm unit := shutdown d.

(** disposable.cpp: the object lives for one message. *)
Definition temporary_daemon (fuel : nat) : dm unit :=
  d <- new_Daemon fuel ;;
  send d (bytes_of "I'll love you forever, daemon!") ;;
  destroy_Daemon d.

Definition disposable_main (fuel : nat) : dm Z :=
  temporary_daemon fuel ;;
  trigger (Sleep_ms 1000) ;;
  say "[client] Love is fickle!" ;;
  Ret 0.

(** nice_user.cpp and selfish_user.cpp. The object is destroyed when [main] returns. *)
Definition nice_main (fuel : nat) : dm Z :=
  d <- new_Daemon fuel ;;
  send d (bytes_of "Hello, daemon!") ;;
  trigger (Sleep_ms 1000) ;;
  shutdown d ;;
  destroy_Daemon d ;;
  Ret 0.

Definition selfish_main (fuel : nat) : dm Z :=
  d <- new_Daemon fuel ;;
  destroy_Daemon d ;;
  Ret 0.

(** ** What the constructing process learns *)

(** The readings of the clock in a history, oldest first. *)
Definition clock_of (e : event dmE) : list Z :=
  match e with
  | existT _ (f, r) =>
      match f in dmE R return R -> list Z with Now => fun t => [t] | _ => fun _ => [] end r
  end.
Definition clock (tr : list (event dmE)) : list Z := flat_map clock_of tr.

Section Waiting.
(** The answers, and how the processes may end: a bounded loop may run out of fuel; only where [Fork] may answer 0 is there a
    daemon, which ends with status 0 unless it shows a text without an end. *)
Context (ans : forall R, dmE R -> R -> Prop) (halts : stop -> Prop) (Hfuel : halts OutOfFuel)
  (Hdaemon : ans Z Fork 0 -> halts (Exited 0) /\ halts Undefined).

Lemma wait_loop fuel start end_ n : always ans halts (loop fuel (wait_turn Initializing Initializing start end_) n)
  (fun b tr => b = false /\ exists t, last (clock tr) = Some t /\ end_ <= t - start).
Proof.
  revert n. induction fuel as [| fuel IH]; intros n; [exact Hfuel |].
  cbn [loop]. unfold wait_turn at 1. cbn [negb Z.eqb Initializing Pos.eqb].
  assert (forall m t, always ans halts (match (if t - start <? end_ then inl m else inr false) with
      | inl s' => loop fuel (wait_turn Initializing Initializing start end_) s'
      | inr a => Ret a end)
    (fun b tr => b = false /\ exists t', last (clock (ev Now t :: tr)) = Some t' /\ end_ <= t' - start)) as Hnow.
  { intros m t. destruct (t - start <? end_) eqn:E; zbool.
    - eapply always_mono; [apply (IH m) |]. intros b tr (-> & t' & Hl & Ht). split; [done |].
      exists t'. split; [| done]. change (last (t :: clock tr) = Some t').
      destruct (clock tr) as [| x l]; [discriminate | exact Hl].
    - cbn. split; [done |]. exists t. by split. }
  destruct (0 <? n); intros r _; [exact (Hnow (n - 1) r) |].
  intros t _. exact (Hnow n t).
Qed.

Lemma daemon_never_returns fuel d : halts (Exited 0) -> halts Undefined ->
  always ans halts (run_daemon fuel d) (fun _ _ => False).
Proof.
  intros He Hu. unfold run_daemon. induction fuel as [| fuel IH]; [exact Hfuel |].
  cbn [loop]. apply (always_bind _ _ _ _ (fun r _ => r = inl tt)).
  - unfold daemon_turn, say. intros r _. cbn [bind]. destruct (r.1 =? -1); [exact He |].
    destruct (r.1 =? 0); [by intros ? _ |]. destruct (r.1 =? 1); [| done].
    destruct r.2; [by intros [] _ |]. intros [] _ l _ l' _. cbn [bind].
    destruct (strlen _); [by intros [] _ | exact Hu].
  - intros r tr ->. eapply always_mono; [exact IH |]. by intros ? ?.
Qed.

(** What [daemonize] comes to. *)
Lemma daemonize_ends fuel d : state d <> Ready ->
  always ans halts (daemonize fuel d) (fun r tr => r.1 = true /\ state r.2 = Initializing /\
    exists start t, head (clock tr) = Some start /\ last (clock tr) = Some t /\
      200 * 1000000 <= t - start).
Proof.
  intros Hd. unfold daemonize. rewrite (proj2 (Z.eqb_neq Ready (state d))) by congruence.
  intros [] _ p _. cbn [bind]. set (d1 := match p with Some (r, w) => _ | None => _ end).
  assert (state d1 = Initializing) as Hs by (by destruct p as [[r w] |]).
  intros child Hc. cbn [bind].
  apply (always_bind _ _ _ _ (fun _ tr => clock tr = [])).
  - destruct (child =? 0) eqn:E; [| done]. zbool. subst child. destruct (Hdaemon Hc) as [He Hu].
    intros g _. cbn [bind]. destruct (negb (g =? 0)); [exact He |]. intros [] _. cbn [bind].
    apply (always_bind _ _ _ _ (fun _ _ => False)); [by apply daemon_never_returns | by intros ? ? []].
  - intros [] tr Htr. rewrite Hs. intros start _. cbn [bind Z.ltb Z.compare].
    eapply always_bind; [apply wait_loop |]. intros b tr' (-> & t & Hl & Ht). intros [] _.
    split; [done |]. split; [exact Hs |]. exists start, t.
    unfold clock in *. cbn. rewrite flat_map_app, Htr. cbn. split; [done |].
    rewrite flat_map_app. cbn. rewrite app_nil_r.
    split; [| exact Ht]. destruct (flat_map clock_of tr') as [| x l]; [discriminate | exact Hl].
Qed.
End Waiting.

(** Any process, the daemon included; and the one that makes the object, to which [Fork] does not answer 0. *)
Definition ends (s : stop) : Prop := s = Exited 0 \/ s = OutOfFuel \/ s = Undefined.
Abbreviation Always := (always anything ends).

Definition not_forked (R : Type) (e : dmE R) : R -> Prop :=
  match e in dmE R return R -> Prop with Fork => fun pid => pid <> 0 | _ => fun _ => True end.
Definition unfinished (s : stop) : Prop := s = OutOfFuel.

Lemma ends_all : ends OutOfFuel /\ (True -> ends (Exited 0) /\ ends Undefined).
Proof. unfold ends. auto. Qed.

(** C26. The process that makes the object waits for the daemon to become ready in memory the daemon does
    not share. Whatever the kernel answers, failures of [pipe] and [fork] included, it
    waits for the whole timeout of 200 ms, still believes the daemon is initializing, and
    reports success; the wait is all it can be stopped by. No process that [daemonize] makes comes back
    from it with anything else. *)
Theorem daemonize_waits_in_vain fuel d : state d <> Ready ->
  let waited := fun (r : bool * Daemon) tr => r.1 = true /\ state r.2 = Initializing /\
    exists start t, head (clock tr) = Some start /\ last (clock tr) = Some t /\
      200 * 1000000 <= t - start in
  always not_forked unfinished (daemonize fuel d) waited /\ Always (daemonize fuel d) waited.
Proof. intros Hd. split; apply daemonize_ends; [done | by intros [] | done | apply ends_all | apply ends_all | done]. Qed.

Definition closed_of (e : event dmE) : list Z :=
  match e with existT _ (f, _) => match f with Close fd => [fd] | _ => [] end end.

(** The user that says goodbye closes its descriptor twice. *)
Lemma nice_closes_twice fuel : Always (nice_main fuel)
  (fun r tr => r = 0 /\ exists fd before, flat_map closed_of tr = before ++ [fd; fd]).
Proof.
  unfold nice_main. apply (always_bind _ _ _ _ (fun _ _ => True)).
  - eapply (always_bind _ _ _ _ (fun _ _ => True)); [| done].
    destruct (decide (state (MkDaemon Uninitialized (-1) (-1)) = Ready)); [discriminate |].
    eapply always_mono; [apply daemonize_ends; [apply ends_all | apply ends_all | done] | done].
  - intros d tr _ n _ [] _ [] _ [] _. split; [done |]. exists (client_fd d), (flat_map closed_of tr).
    by rewrite flat_map_app.
Qed.

(** ** The last message *)

(** The pipe between the two processes. The number of its end is not looked at. *)
Record pipe_world := MkPipe {
  content : list Z;
  writer_open : bool;
  output : list (list Z) }.

Section PipeWorld.
(** What the daemon's buffer holds before it is read into. *)
Context (junk : list Z).

Definition pipe_h : handler dmE (unit * pipe_world) := fun R e s =>
  let '(u, w) := s in
  match e in dmE R return outcome (unit * pipe_world) R with
  | Now => Done 0 s
  | Yield => Done tt s
  | Sleep_ms _ => Done tt s
  | Close _ => Done tt (u, MkPipe (content w) false (output w))
  | Mmap_shared _ => Done MAP_FAILED s
  | Munmap _ _ => Done tt s
  | Pipe => Done None s
  | Fork => Done (-1) s
  | Poll _ _ =>
      if bool_decide (content w = []) && writer_open w then Done (0, false) s
      else Done (1, negb (writer_open w)) s
  | Read _ n => Done (take (Z.to_nat n) (content w))
                  (u, MkPipe (drop (Z.to_nat n) (content w)) (writer_open w) (output w))
  | Write _ data => Done (zlen data) (u, MkPipe (content w ++ data) (writer_open w) (output w))
  | Stack => Done junk s
  | Cout text => Done tt (u, MkPipe (content w) (writer_open w) (output w ++ [text]))
  end.

(** A client that sends one message and lets its object go, and the daemon. *)
Definition client (d : Daemon) (msg : list Z) : dm unit := send d msg ;; shutdown d.

Definition both (fuel : nat) (d : Daemon) (msg : list Z) : config dmE unit pipe_world unit :=
  ([(tt, client d msg); (tt, run_daemon fuel d)], MkPipe [] true []).

(** The buffer after a short read: the message and what was there before. *)
Definition received (msg : list Z) : list Z := msg ++ drop (length msg) junk.

(** C27. Whether the daemon shows the message depends on who is faster. If it polls before the client closes its
    end, it prints the message, followed by what its buffer held before, up to a terminator, which
    the client does not send; where there is none, as for a message that fills the buffer, it reads past the array. If it polls
    afterwards, POLLHUP comes together with the data, and the daemon exits without reading. *)
Theorem last_message_may_be_lost fuel d msg : msg <> [] -> zlen msg <= 1024 -> zlen junk = 1024 ->
  (0 ∈ received msg -> exists schedule, pool_run (fun _ => pipe_h) schedule (both (S (S fuel)) d msg) =
    ([(tt, Ret tt); (tt, Halt (Exited 0))],
     MkPipe [] false [bytes_of "[daemon] GOT A MESSAGE"; bytes_of "-->" ++ c_str (received msg);
                      bytes_of "[daemon] Customer hung up!  Closing daemon!"])) /\
  (0 ∉ received msg -> exists schedule, pool_run (fun _ => pipe_h) schedule (both (S (S fuel)) d msg) =
    ([(tt, Ret tt); (tt, Halt Undefined)], MkPipe [] false [bytes_of "[daemon] GOT A MESSAGE"])) /\
  (exists schedule, pool_run (fun _ => pipe_h) schedule (both (S (S fuel)) d msg) =
    ([(tt, Ret tt); (tt, Halt (Exited 0))],
     MkPipe msg false [bytes_of "[daemon] Customer hung up!  Closing daemon!"])).
Proof.
  intros Hm Hl _. assert (take (Z.to_nat 1024) msg = msg) as Ht by (apply take_ge; unfold zlen in Hl; lia).
  assert (drop (Z.to_nat 1024) msg = []) as Hd by (apply drop_ge; unfold zlen in Hl; lia). unfold received.
  rewrite <-strlen_ends. split; [| split].
  - intros [n Hn]. exists [0; 1; 1; 1; 1; 1; 0; 1; 1]%nat. cbn -[bytes_of take drop strlen].
    rewrite (bool_decide_eq_false_2 (msg = [])) by exact Hm. cbn -[bytes_of take drop strlen].
    rewrite Ht, Hd, Hn. reflexivity.
  - intros Hn. exists [0; 1; 1; 1; 1; 0]%nat. cbn -[bytes_of take drop strlen].
    rewrite (bool_decide_eq_false_2 (msg = [])) by exact Hm. cbn -[bytes_of take drop strlen].
    rewrite Ht, Hd. destruct (strlen _); [by destruct Hn | reflexivity].
  - exists [0; 0; 1; 1]%nat. cbn -[bytes_of take drop strlen].
    rewrite (bool_decide_eq_false_2 (msg = [])) by exact Hm. cbn -[bytes_of take drop strlen]. reflexivity.
Qed.
End PipeWorld.

Lemma daemonize_waits_in_vain_witness :
  Always (daemonize 9 (MkDaemon Uninitialized (-1) (-1))) (fun r _ => r.1 = true /\ state r.2 = Initializing).
Proof.
  eapply always_mono; [apply (daemonize_waits_in_vain 9 (MkDaemon Uninitialized (-1) (-1))); discriminate |].
  intros r tr (H1 & H2 & _). exact (conj H1 H2).
Defined.

(** A message as long as the buffer, and one that is lost. *)
Lemma last_message_may_be_lost_witness :
  (exists schedule, pool_run (fun _ => pipe_h (replicate 1024 0)) schedule
    (both 9 (MkDaemon Initializing 3 4) (replicate 1024 65)) =
    ([(tt, Ret tt); (tt, Halt Undefined)], MkPipe [] false [bytes_of "[daemon] GOT A MESSAGE"])) /\
  exists schedule, pool_run (fun _ => pipe_h (replicate 1024 0)) schedule
    (both 9 (MkDaemon Initializing 3 4) (bytes_of "I'll love you forever, daemon!")) =
  ([(tt, Ret tt); (tt, Halt (Exited 0))],
   MkPipe (bytes_of "I'll love you forever, daemon!") false
     [bytes_of "[daemon] Customer hung up!  Closing daemon!"]).
Proof.
  split.
  - apply (last_message_may_be_lost (replicate 1024 0) 7 (MkDaemon Initializing 3 4) (replicate 1024 65));
      [discriminate | vm_compute; discriminate | vm_compute; reflexivity |].
    apply (bool_decide_eq_true_1 (0 ∉ received (replicate 1024 0) (replicate 1024 65))). vm_compute. reflexivity.
  - apply (last_message_may_be_lost (replicate 1024 0) 7); [discriminate | vm_compute; discriminate | vm_compute; reflexivity].
Defined.
