(* ===== verification/Memio.v ===== *)
(** * memio_dynamics: two processes that work in step

    [src/memio_dynamics/test.c] measures sweeps over shared and private pages, at the end in two
    processes that synchronise through a counter in shared memory. A sweep over a region is one
    operation; the baselines are globals, of which each process has its own. *)
From stdpp Require Import base gmap list strings relations.
From Stdlib Require Import ZArith Lia.
From S2P Require Import Prelude Prog Conc Doubles.

Definition SZ : Z := 1024 * 4096.
Definition ITER : nat := 1000.

(** [TYPES]. *)
Definition COW : nat := 0.
Definition PRIVATE : nat := 1.

Inductive memE : Type -> Type :=
| MmapRegion (shared : bool) (size : Z) : memE Z
| ClearSem : memE unit
| AddSem : memE unit
| LoadSem : memE Z
| SchedYield : memE unit
| Tick : memE Z
| ReadSweep (region : Z) : memE unit
| WriteSweep (region i : Z) : memE unit
| Printf (msg1 msg2 : string) (num : Z) : memE unit
| PrintHeader : memE unit
| Fork : memE Z
| Wait : memE unit
| Fflush : memE unit.

Abbreviation memM := (prog memE).

(** The messages of the code are never null. *)
Definition print (msg1 msg2 : string) (num : double) : memM unit :=
  match msg1, msg2 with
  | EmptyString, _ | _, EmptyString => Ret tt
  | _, _ => v <- to_i64 (fmul num (of_int 100)) ;; trigger (Printf msg1 msg2 (v - 100))
  end.

Record baselines := MkBase {
  i_baseline : list double;
  m_baseline : list double;
  w_baseline : list double }.

Definition no_baselines : baselines := MkBase [zero; zero; zero] [zero; zero; zero] [zero; zero; zero].

(** [if (!baseline[type]) baseline[type] = ticks]. *)
Definition set_baseline (l : list double) (type : nat) (ticks : Z) : list double :=
  match l !! type with
  | Some x => if decide (x = zero) then <[type := of_int ticks]> l else l
  | None => l
  end.

Definition ratio (ticks : Z) (l : list double) (type : nat) : double :=
  fdiv (of_int ticks) (default zero (l !! type)).

Definition do_work (msg : string) (buf : Z) (type : nat) (b : baselines) : memM baselines :=
  start_time <- trigger Tick ;;
  for_range 0 ITER (fun _ => trigger (ReadSweep buf)) ;;
  now <- trigger Tick ;;
  let ticks_i := u64 (now - start_time) in
  let b := MkBase (set_baseline (i_baseline b) type ticks_i) (m_baseline b) (w_baseline b) in
  start_time <- trigger Tick ;;
  for_range 0 ITER (fun i => trigger (WriteSweep buf i)) ;;
  now <- trigger Tick ;;
  let ticks_w := u64 (now - start_time) in
  let b := MkBase (i_baseline b) (m_baseline b) (set_baseline (w_baseline b) type ticks_w) in
  for_range 0 ITER (fun _ => trigger (ReadSweep buf)) ;;
  now <- trigger Tick ;;
  let ticks_m := u64 (now - start_time) in
  let b := MkBase (i_baseline b) (set_baseline (m_baseline b) type ticks_m) (w_baseline b) in
  print msg "i-read,  " (ratio ticks_i (i_baseline b) type) ;;
  print msg "m-read,  " (ratio ticks_m (m_baseline b) type) ;;
  print msg "write,   " (ratio ticks_w (w_baseline b) type) ;;
  Ret b.

(** [while (v != *sem) sched_yield()]. *)
Definition spin_turn (v : Z) : memM (unit + unit) :=
  s <- trigger LoadSem ;;
  if v =? s then Ret (inr tt) else trigger SchedYield ;; Ret (inl tt).

Definition spin (fuel : nat) (v : Z) : memM unit := loop fuel (fun _ => spin_turn v) tt.

(** The two branches of the last fork. *)
Definition psync (fuel : nat) (cow private : Z) (b : baselines) : memM unit :=
  trigger AddSem ;;
  spin fuel 2 ;;
  b <- do_work "Psync,  cow,     " cow COW b ;;
  trigger AddSem ;;
  spin fuel 4 ;;
  b <- do_work "Psync,  private, " private PRIVATE b ;;
  trigger Wait.

Definition csync (fuel : nat) (cow private : Z) (b : baselines) : memM unit :=
  trigger AddSem ;;
  spin fuel 2 ;;
  b <- do_work "Csync,  cow,     " cow COW b ;;
  trigger AddSem ;;
  spin fuel 4 ;;
  b <- do_work "Csync,  private, " private PRIVATE b ;;
  Ret tt.

(** [main] ends without a return, which is a return of 0; [cow] is the shared region. *)
Definition main (fuel : nat) : memM Z :=
  cow_region <- trigger (MmapRegion true SZ) ;;
  private_region <- trigger (MmapRegion false SZ) ;;
  trigger (MmapRegion true 8) ;;
  trigger ClearSem ;;
  trigger PrintHeader ;;
  b <- do_work "parent, cow,     " cow_region COW no_baselines ;;
  b <- do_work "parent, private, " private_region PRIVATE b ;;
  pid <- trigger Fork ;;
  if negb (truthy pid) then do_work "child,  cow,     " cow_region COW b ;; Ret 0
  else
  trigger Wait ;;
  pid <- trigger Fork ;;
  if negb (truthy pid) then do_work "child,  private, " private_region PRIVATE b ;; Ret 0
  else
  trigger Wait ;;
  pid <- trigger Fork ;;
  (if truthy pid
   then psync fuel cow_region private_region b ;; trigger Fflush
   else csync fuel cow_region private_region b) ;;
  Ret 0.

(** ** The barrier *)

(** The counter, and the readings of the tick counter so far. *)
Record mem_world := MkMem { sem : Z; ticks : Z }.

Section Barrier.
Context (tsc : Z -> Z).

Definition mem_h : handler memE (unit * mem_world) := fun R e s =>
  let '(u, w) := s in
  match e in memE R return outcome (unit * mem_world) R with
  | MmapRegion _ _ => Done 4096 s
  | ClearSem => Done tt (u, MkMem 0 (ticks w))
  | AddSem => Done tt (u, MkMem (sem w + 1) (ticks w))
  | LoadSem => Done (sem w) s
  | Tick => Done (tsc (ticks w)) (u, MkMem (sem w) (ticks w + 1))
  | SchedYield | ReadSweep _ | WriteSweep _ _ | Printf _ _ _ | PrintHeader | Wait | Fflush => Done tt s
  | Fork => Done 1 s
  end.

(** A program that does nothing but read [s] from the counter and yield, for as long as the counter
    is [s]. *)
Fixpoint waits {A} (s : Z) (p : memM A) : Prop :=
  match p with
  | Ret _ => False
  | Halt _ => True
  | @Vis _ _ R e k =>
      match e in memE R return (R -> Prop) -> Prop with
      | LoadSem => fun k => k s
      | SchedYield => fun k => k tt
      | _ => fun _ => False
      end (fun r => waits s (k r))
  end.

Lemma spin_waits {A} fuel v s (k : unit -> memM A) : v <> s -> waits s (bind (spin fuel v) k).
Proof.
  intros Hv. unfold spin. induction fuel as [| fuel IH]; [done |]. cbn.
  rewrite (proj2 (Z.eqb_neq v s)) by exact Hv. exact IH.
Qed.

(** Nothing changes any more. *)
Definition deadlocked {A} (c : config memE unit mem_world A) : Prop :=
  Forall (fun t => waits (sem c.2) t.2) c.1.

Lemma deadlocked_turn {A} i (c : config memE unit mem_world A) : deadlocked c ->
  deadlocked (pool_turn (fun _ => mem_h) i c) /\ sem (pool_turn (fun _ => mem_h) i c).2 = sem c.2.
Proof.
  destruct c as [ts w]. unfold deadlocked, pool_turn. cbn [fst snd]. intros Hd.
  destruct (ts !! i) as [[u [a | s | R e k]] |] eqn:Hi; [by split | by split | | by split].
  pose proof (proj1 (Forall_lookup _ _) Hd i _ Hi) as Hw.
  destruct e; try done; cbn [mem_h fst snd]; (split; [| done]); apply Forall_insert; done.
Qed.

Lemma deadlocked_run {A} schedule (c : config memE unit mem_world A) : deadlocked c ->
  deadlocked (pool_run (fun _ => mem_h) schedule c) /\
  sem (pool_run (fun _ => mem_h) schedule c).2 = sem c.2.
Proof.
  revert c. induction schedule as [| i rest IH]; intros c Hd; [done |]. cbn [pool_run].
  destruct (deadlocked_turn i c Hd) as [Hd' Hs]. destruct (IH _ Hd') as [Hd2 Hs2].
  split; [exact Hd2 | congruence].
Qed.

Definition start (fuel : nat) (b : baselines) (n : Z) : config memE unit mem_world unit :=
  ([(tt, psync fuel 4096 8192 b); (tt, csync fuel 4096 8192 b)], MkMem 0 n).

(** C28. The barrier compares with [!=]. When one process passes it, works and adds to the counter for the second
    barrier before the other one has looked, the other waits for 2, which is past,
    and the first waits for 4: from there no schedule lets either of them go on. *)
Theorem barrier_can_deadlock fuel b n b' n' : (0 < fuel)%nat ->
  run mem_h (do_work "Psync,  cow,     " 4096 COW b) (tt, MkMem 2 n) = Done b' (tt, MkMem 2 n') ->
  exists schedule, forall more,
    let c := pool_run (fun _ => mem_h) (schedule ++ more) (start fuel b n) in
    sem c.2 = 3 /\ Forall (fun t => forall a, t.2 <> Ret a) c.1.
Proof.
  intros Hf Hw. destruct fuel as [| fuel]; [lia |]. cbv zeta.
  set (after := fun b => trigger AddSem ;; spin (S fuel) 4 ;;
     (b <- do_work "Psync,  private, " 8192 PRIVATE b ;; trigger Wait)).
  set (other := spin (S fuel) 2 ;; b <- do_work "Csync,  cow,     " 4096 COW b ;; trigger AddSem ;;
     spin (S fuel) 4 ;; b <- do_work "Csync,  private, " 8192 PRIVATE b ;; Ret tt).
  destruct (pool_run_prefix (fun _ => mem_h) 0
    [(tt, bind (do_work "Psync,  cow,     " 4096 COW b) after); (tt, other)] (MkMem 2 n) tt
    (do_work "Psync,  cow,     " 4096 COW b) after b' tt (MkMem 2 n') eq_refl Hw) as [m Hm].
  exists ([0; 1; 0]%nat ++ replicate m 0%nat ++ [0%nat]). intros more.
  rewrite !pool_run_app.
  change (pool_run (fun _ => mem_h) [0; 1; 0]%nat (start (S fuel) b n)) with
    ([(tt, bind (do_work "Psync,  cow,     " 4096 COW b) after); (tt, other)], MkMem 2 n).
  rewrite Hm. cbn [insert list_insert pool_run pool_turn lookup list_lookup after bind trigger mem_h].
  set (c := (_, MkMem _ _)).
  assert (deadlocked c) as Hd.
  { repeat constructor; cbn [fst snd c sem]; by apply spin_waits. }
  destruct (deadlocked_run more c Hd) as [Hd' Hs]. split; [exact Hs |].
  eapply Forall_impl; [exact Hd' |]. intros [u p] Hp a E. cbn in E. subst p. exact Hp.
Qed.
End Barrier.

(** A counter that advances by 7000 ticks between readings. *)
Lemma barrier_can_deadlock_witness : exists schedule, forall more,
  let c := pool_run (fun _ => mem_h (fun n => 7000 * n)) (schedule ++ more) (start 9 no_baselines 0) in
  sem c.2 = 3 /\ Forall (fun t => forall a, t.2 <> Ret a) c.1.
Proof.
  eapply (barrier_can_deadlock (fun n => 7000 * n) 9 no_baselines 0); [lia |].
  vm_compute. reflexivity.
Defined.
