(* ===== verification/Seccomp.v ===== *)
(** * seccomp_sigsys: a filter that traps every system call but write

    [src/seccomp_sigsys/secc.c]. The filter is a classic BPF program; [bpf] runs it on a system
    call the way the kernel does. A trapped call raises SIGSYS; returning from the handler is
    itself a system call, made while SIGSYS is blocked. *)
From stdpp Require Import base gmap list strings.
From Stdlib Require Import ZArith Lia.
From S2P Require Import Prelude Prog Sys.

(** ** BPF *)

Record sock_filter := Insn { code : Z; jt : nat; jf : nat; k : Z }.

Definition BPF_LD_W_ABS : Z := 32.
Definition BPF_JMP_JEQ_K : Z := 21.
Definition BPF_RET_K : Z := 6.

Definition SECCOMP_RET_ALLOW : Z := 2147418112.
Definition SECCOMP_RET_TRAP : Z := 196608.
Definition SECCOMP_RET_KILL_THREAD : Z := 0.

(** [struct seccomp_data] without the instruction pointer and the arguments. *)
Record seccomp_data := MkData { nr : Z; arch : Z }.

(** The 32-bit word at an offset; the offset of [nr] is 0, of [arch] 4. *)
Definition data_word (d : seccomp_data) (off : Z) : option Z :=
  if off =? 0 then Some (u32 (nr d)) else if off =? 4 then Some (u32 (arch d)) else None.

(** A program that falls off its end or uses an unknown instruction would not have been loaded. *)
Fixpoint bpf (fuel : nat) (prog : list sock_filter) (a : Z) (d : seccomp_data) : option Z :=
  match fuel, prog with
  | S n, i :: rest =>
      if code i =? BPF_LD_W_ABS
      then match data_word d (k i) with Some a => bpf n rest a d | None => None end
      else if code i =? BPF_JMP_JEQ_K
      then bpf n (drop (if a =? k i then jt i else jf i) rest) a d
      else if code i =? BPF_RET_K then Some (k i)
      else None
  | _, _ => None
  end.

(** ** secc.c *)

Definition NR_read : Z := 0.
Definition NR_write : Z := 1.
Definition NR_rt_sigreturn : Z := 15.
Definition SIGSYS : Z := 31.
Definition EXIT_FAILURE : Z := 1.

Definition filter : list sock_filter :=
  [Insn BPF_LD_W_ABS 0 0 0;
   Insn BPF_JMP_JEQ_K 0 1 NR_write;
   Insn BPF_RET_K 0 0 SECCOMP_RET_ALLOW;
   Insn BPF_RET_K 0 0 SECCOMP_RET_TRAP].

Inductive secE : Type -> Type :=
| SigactionSys : secE Z                          (* installs sigsys_handler with SA_SIGINFO *)
| SetNoNewPrivs : secE Z
| SetSeccomp (prog : list sock_filter) : secE Z
| Printf (s : string) (args : list Z) : secE unit
| Fflush : secE unit
| WriteOut (s : string) : secE unit
| ReadIn : secE unit
| Perror (s : string) : secE unit.

Abbreviation secM := (prog secE).

Definition fail {A} (s : string) : secM A := trigger (Perror s) ;; Halt (Exited EXIT_FAILURE).

Section Seccomp.
(** [seccomp_syscall_resolve_num_arch] of libseccomp. *)
Context (resolve : Z -> Z -> string).

Record siginfo := MkInfo { si_arch : Z; si_syscall : Z; si_code : Z; rip : Z }.

Definition sigsys_handler (info : siginfo) : secM unit :=
  let sc_name := resolve (si_arch info) (si_syscall info) in
  trigger (Printf (String.append "Blocked syscall: " sc_name) []) ;;
  trigger (Printf "Error code: %d" [si_code info]) ;;
  trigger (Printf "RIP: %p" [rip info]) ;;
  trigger Fflush.

Definition setup_seccomp : secM unit :=
  r <- trigger SetNoNewPrivs ;;
  if truthy r then fail "prctl(NO_NEW_PRIVS)"
  else
  r <- trigger (SetSeccomp filter) ;;
  if truthy r then fail "prctl(SECCOMP)" else Ret tt.

Definition main : secM Z :=
  r <- trigger SigactionSys ;;
  if r =? -1 then fail "sigaction(SIGSYS)"
  else
  trigger (Printf "Setting up seccomp filter, isn't this exciting?" []) ;;
  setup_seccomp ;;
  trigger (Printf "Seccomp filter is set up. Only 'write' and 'exit' syscalls are allowed. Others will trigger SIGSYS." []) ;;
  trigger (WriteOut "Hello, world!") ;;
  trigger ReadIn ;;
  trigger (Printf "This line should never print." []) ;;
  Ret 0.

(** ** The process under the filter *)

Record process := MkProcess {
  installed : bool;
  loaded : list sock_filter;             (* no filter when empty *)
  buffered : list string;                (* standard output before it is flushed *)
  written : list string }.

Context (tty : bool) (cpu_arch : Z) (info : siginfo).

Definition flush (p : process) : process :=
  MkProcess (installed p) (loaded p) [] (written p ++ buffered p).

(** Whether a system call goes through. *)
Definition permitted (p : process) (n : Z) : bool :=
  match loaded p with
  | [] => true
  | f => bool_decide (bpf (S (length f)) f 0 (MkData n cpu_arch) = Some SECCOMP_RET_ALLOW)
  end.

(** Text for standard output: a terminal gets it at once, by a write. *)
Definition put (s : string) (p : process) : process :=
  let p := MkProcess (installed p) (loaded p) (buffered p ++ [s]) (written p) in
  if tty then flush p else p.

(** The calls of the program; [trap] is what a trapped call does. *)
Definition sec_calls (trap : process -> outcome (unit * process) unit) : handler secE (unit * process) :=
  fun R e s =>
  let '(u, p) := s in
  let syscall (n : Z) (p' : process) : outcome (unit * process) unit :=
    if permitted p n then Done tt (u, p') else trap p in
  match e in secE R return outcome (unit * process) R with
  | SigactionSys => Done 0 (u, MkProcess true (loaded p) (buffered p) (written p))
  | SetNoNewPrivs => Done 0 s
  | SetSeccomp f => Done 0 (u, MkProcess (installed p) f (buffered p) (written p))
  | Printf s _ => if tty then syscall NR_write (put s p) else Done tt (u, put s p)
  | Fflush => syscall NR_write (flush p)
  | WriteOut s => syscall NR_write (MkProcess (installed p) (loaded p) (buffered p) (written p ++ [s]))
  | ReadIn => syscall NR_read p
  | Perror _ => Done tt s
  end.

(** With SIGSYS blocked, a trapped call kills the process. *)
Definition killed (p : process) : outcome (unit * process) unit := Stopped (Signaled SIGSYS) (tt, p).

(** Otherwise the handler runs with SIGSYS blocked, and then the return from it is a call. *)
Definition deliver (p : process) : outcome (unit * process) unit :=
  if installed p
  then obind (run (sec_calls killed) (sigsys_handler info) (tt, p)) (fun _ s =>
         if permitted s.2 NR_rt_sigreturn then Done tt s else killed s.2)
  else killed p.

Definition sec_h : handler secE (unit * process) := sec_calls deliver.

Definition fresh : process := MkProcess false [] [] [].

(** The filter allows exactly the call with the number of [write], under every architecture. *)
Theorem filter_allows_only_write d :
  bpf 5 filter 0 d = Some (if u32 (nr d) =? NR_write then SECCOMP_RET_ALLOW else SECCOMP_RET_TRAP).
Proof. unfold filter. cbn. by destruct (u32 (nr d) =? NR_write). Qed.

Definition announce : list string :=
  ["Setting up seccomp filter, isn't this exciting?";
   "Seccomp filter is set up. Only 'write' and 'exit' syscalls are allowed. Others will trigger SIGSYS."].
Definition report : list string :=
  [String.append "Blocked syscall: " (resolve (si_arch info) (si_syscall info)); "Error code: %d"; "RIP: %p"].

End Seccomp.

(** The call after the greeting is trapped and the handler reports it; its return is trapped in
    turn, while SIGSYS is blocked, and the process dies of SIGSYS before the line that should
    never print. When standard output is not a terminal, the greeting comes first. *)
Theorem main_dies_in_handler resolve tty cpu_arch info :
  run (sec_h resolve tty cpu_arch info) main (tt, fresh) =
  Stopped (Signaled SIGSYS) (tt, MkProcess true filter []
    ((if tty then announce ++ ["Hello, world!"%string] else "Hello, world!"%string :: announce)
     ++ report resolve info)).
Proof. by destruct tty. Qed.
