(* ===== verification/LdPreload.v ===== *)
(** * ld_preload_wrapper: watching the environment of a program

    [src/ld_preload_wrapper]: [src/env.c] overrides the functions on the environment, prints their
    calls with a system call of its own and forwards them; [include/inject_library.h] puts that
    library, embedded in the binary, on LD_PRELOAD; [src/peekenv.c] runs a command with it. A
    [char *] is the bytes of its string, or [None]. *)
From stdpp Require Import base gmap list strings.
From Stdlib Require Import ZArith Lia.
From S2P Require Import Prelude Prog Sys Text.

Abbreviation str := (option (list Z)).

(** ** env.c *)

(** The functions found by [dlsym], with the types the source calls them at: [clearenv] is declared [void], so the status
    the library's function returns is dropped. *)
Inductive realE : Type -> Type :=
| RealSetenv (name value : str) (overwrite : Z) : realE Z
| RealGetenv (name : str) : realE str
| RealUnsetenv (name : str) : realE Z
| RealPutenv (string : str) : realE Z
| RealClearenv : realE unit.

Inductive envE : Type -> Type :=
| Syscall (number fd : Z) (iov : list (list Z)) (iovcnt : Z) : envE Z
| Dlsym_next (name : string) : envE Z
| Real {R} (f : realE R) : envE R.               (* through a pointer, which may be NULL *)

Abbreviation envM := (prog envE).

Definition EQ : list Z := bytes_of "=".
Definition SP : list Z := bytes_of " ".
Definition NL : list Z := [10].

(** [while ( *s++) len++]; the buffer of a string ends with its terminator at the latest. *)
Fixpoint strlen (s : list Z) : Z :=
  match s with
  | [] => 0
  | b :: s' => if b =? 0 then 0 else 1 + strlen s'
  end.

(** What an [iovec] with a base and a length describes. *)
Definition iovec (base : list Z) (len : Z) : list Z := take (Z.to_nat len) base.

Definition SYS_writev : Z := 20.

(** The number of the call comes last; the address of the array stands for what it describes. *)
Definition syscall_3 (arg1 : Z) (arg2 : list (list Z)) (arg3 number : Z) : envM Z :=
  trigger (Syscall number arg1 arg2 arg3).

Definition writev (fd : Z) (iov : list (list Z)) (iovcnt : Z) : envM Z := syscall_3 fd iov iovcnt SYS_writev.

(** The pointers to the functions that are hidden. *)
Record reals := MkReals {
  real_setenv : Z;
  real_getenv : Z;
  real_unsetenv : Z;
  real_putenv : Z;
  real_clearenv : Z }.

Definition defaults : reals := MkReals 0 0 0 0 0.

(** The constructor. *)
Definition init : envM reals :=
  s <- trigger (Dlsym_next "setenv") ;;
  g <- trigger (Dlsym_next "getenv") ;;
  u <- trigger (Dlsym_next "unsetenv") ;;
  p <- trigger (Dlsym_next "putenv") ;;
  c <- trigger (Dlsym_next "clearenv") ;;
  Ret (MkReals s g u p c).

(** [!s || !*s]. *)
Definition absent (s : str) : bool := match s with None | Some [] => true | Some (b :: _) => b =? 0 end.
Definition text (s : str) : list Z := match s with Some l => iovec l (strlen l) | None => [] end.

Definition print_env_kv (msg name value : str) : envM unit :=
  if absent name || absent value then Ret tt
  else
  let msg := if absent msg then Some (bytes_of "[]") else msg in
  writev 1 [text msg; SP; text name; EQ; text value; NL] 6 ;; Ret tt.

Definition print_val (msg value : str) : envM unit :=
  if absent value then Ret tt
  else
  let msg := if absent msg then Some (bytes_of "[]") else msg in
  writev 1 [text msg; SP; text value; NL] 4 ;; Ret tt.

Definition tag (s : string) : str := Some (bytes_of s).

Definition setenv (name value : str) (overwrite : Z) : envM Z :=
  print_env_kv (tag (if truthy overwrite then "[O]" else "[N]")) name value ;;
  trigger (Real (RealSetenv name value overwrite)).

Definition getenv (name : str) : envM str :=
  value <- trigger (Real (RealGetenv name)) ;;
  print_env_kv (tag "[G]") name value ;;
  Ret value.

Definition unsetenv (name : str) : envM Z :=
  print_val (tag "[U]") name ;;
  trigger (Real (RealUnsetenv name)).

Definition putenv (string : str) : envM Z :=
  print_val (tag "[P]") string ;;
  trigger (Real (RealPutenv string)).

Definition clearenv : envM unit :=
  print_val (tag "[C]") (tag "---") ;;
  trigger (Real RealClearenv).

(** What each override stands for. *)
Definition override {R} (f : realE R) : envM R :=
  match f in realE R return envM R with
  | RealSetenv name value overwrite => setenv name value overwrite
  | RealGetenv name => getenv name
  | RealUnsetenv name => unsetenv name
  | RealPutenv string => putenv string
  | RealClearenv => clearenv
  end.

Section Wrapped.
(** The C library's functions over its environment. *)
Context {W : Type} (real : forall R, realE R -> W -> R * W).

Definition SIGSEGV : Z := 11.

(** The pointer an override goes through. *)
Definition pointer {R} (r : reals) (f : realE R) : Z :=
  match f with
  | RealSetenv _ _ _ => real_setenv r
  | RealGetenv _ => real_getenv r
  | RealUnsetenv _ => real_unsetenv r
  | RealPutenv _ => real_putenv r
  | RealClearenv => real_clearenv r
  end.

(** The addresses the linker knows, the pointers, the environment and what went to standard output. A call of another number
    is not a write. *)
Definition env_h (linker : string -> Z) (r : reals) : handler envE (W * list Z) := fun R e s =>
  let '(w, out) := s in
  match e in envE R return outcome (W * list Z) R with
  | Syscall number fd iov iovcnt =>
      if number =? SYS_writev
      then let data := concat (take (Z.to_nat iovcnt) iov) in
           Done (zlen data) (w, if fd =? 1 then out ++ data else out)
      else Done (-38) s
  | Dlsym_next name => Done (linker name) s
  | Real f => if pointer r f =? 0 then Stopped (Signaled SIGSEGV) s
              else let '(r, w') := real _ f w in Done r (w', out)
  end.

(** The line a call prints, given its result. *)
Definition line (t : string) (parts : list (list Z)) : list Z := concat (bytes_of t :: SP :: parts ++ [NL]).

Definition line_kv (t : string) (name value : str) : list Z :=
  if absent name || absent value then [] else line t [text name; EQ; text value].
Definition line_val (t : string) (value : str) : list Z :=
  if absent value then [] else line t [text value].

Definition line_of {R} (f : realE R) : R -> list Z :=
  match f in realE R return R -> list Z with
  | RealSetenv name value overwrite => fun _ => line_kv (if truthy overwrite then "[O]" else "[N]") name value
  | RealGetenv name => fun value => line_kv "[G]" name value
  | RealUnsetenv name => fun _ => line_val "[U]" name
  | RealPutenv string => fun _ => line_val "[P]" string
  | RealClearenv => fun _ => line_val "[C]" (tag "---")
  end.

(** A tag as the code uses it: not empty, and without a NUL. *)
Definition plain (t : string) : Prop := absent (tag t) = false /\ text (tag t) = bytes_of t.

Lemma run_print_kv {A} k r t name value (q : envM A) w out : plain t ->
  run (env_h k r) (print_env_kv (tag t) name value ;; q) (w, out) =
  run (env_h k r) q (w, out ++ line_kv t name value).
Proof.
  intros [H1 H2]. unfold print_env_kv, line_kv. destruct (absent name || absent value).
  - cbn [bind]. by rewrite app_nil_r.
  - rewrite H1, run_bind, run_bind. unfold writev, syscall_3. rewrite run_trigger. cbn [env_h Z.eqb Pos.eqb SYS_writev obind run].
    rewrite H2. reflexivity.
Qed.

Lemma run_print_val {A} k r t value (q : envM A) w out : plain t ->
  run (env_h k r) (print_val (tag t) value ;; q) (w, out) =
  run (env_h k r) q (w, out ++ line_val t value).
Proof.
  intros [H1 H2]. unfold print_val, line_val. destruct (absent value).
  - cbn [bind]. by rewrite app_nil_r.
  - rewrite H1, run_bind, run_bind. unfold writev, syscall_3. rewrite run_trigger. cbn [env_h Z.eqb Pos.eqb SYS_writev obind run].
    rewrite H2. reflexivity.
Qed.

(** What is found is what the linker knows, under the five names. *)
Lemma run_init k r w out : run (env_h k r) init (w, out) =
  Done (MkReals (k "setenv") (k "getenv") (k "unsetenv") (k "putenv") (k "clearenv"))%string (w, out).
Proof. done. Qed.

(** C29. Once its pointer is set, every override answers and leaves the environment as the function it hides does; it
    prints one line, or nothing when the name or the value is missing or empty. Before [init]
    has run, and when the linker found no such function, the call is a segmentation fault. *)
Theorem overrides_forward {R} (f : realE R) k r w out :
  (pointer r f <> 0 -> run (env_h k r) (override f) (w, out) =
    (let '(a, w') := real _ f w in Done a (w', out ++ line_of f a))) /\
  (pointer r f = 0 -> exists out', run (env_h k r) (override f) (w, out) = Stopped (Signaled SIGSEGV) (w, out')).
Proof.
  assert (forall s out0, run (env_h k r) (trigger (Real f)) (s, out0) =
    if pointer r f =? 0 then Stopped (Signaled SIGSEGV) (s, out0)
    else let '(a, w') := real _ f s in Done a (w', out0)) as Hr by (intros; by rewrite run_trigger).
  assert (forall A (x y : A), (pointer r f <> 0 -> (if pointer r f =? 0 then x else y) = y) /\
    (pointer r f = 0 -> (if pointer r f =? 0 then x else y) = x)) as Hif.
  { intros A x y. by destruct (Z.eqb_spec (pointer r f) 0). }
  destruct f; cbn [override line_of] in *.
  - unfold setenv. destruct (truthy overwrite); rewrite run_print_kv, Hr by done;
      (split; intros H; [rewrite (proj1 (Hif _ _ _) H); by destruct (real _ _ w) | rewrite (proj2 (Hif _ _ _) H); by eexists]).
  - unfold getenv. rewrite run_bind, Hr. split; intros H.
    + rewrite (proj1 (Hif _ _ _) H). destruct (real _ _ w) as [a w']. cbn [obind]. by rewrite run_print_kv by done.
    + rewrite (proj2 (Hif _ _ _) H). by eexists.
  - unfold unsetenv. rewrite run_print_val, Hr by done.
    split; intros H; [rewrite (proj1 (Hif _ _ _) H); by destruct (real _ _ w) | rewrite (proj2 (Hif _ _ _) H); by eexists].
  - unfold putenv. rewrite run_print_val, Hr by done.
    split; intros H; [rewrite (proj1 (Hif _ _ _) H); by destruct (real _ _ w) | rewrite (proj2 (Hif _ _ _) H); by eexists].
  - unfold clearenv. rewrite run_print_val, Hr by done.
    split; intros H; [rewrite (proj1 (Hif _ _ _) H); by destruct (real _ _ w) | rewrite (proj2 (Hif _ _ _) H); by eexists].
Qed.
End Wrapped.

(** The length cuts a string where its terminator is. *)
Lemma text_c_str l : text (Some l) = c_str l.
Proof.
  unfold text, iovec. assert (forall l, 0 <= strlen l) as H0 by (intros l'; induction l' as [| b l' IH]; cbn; [lia | destruct (b =? 0); lia]).
  induction l as [| b l IH]; [done |]. cbn [strlen c_str]. destruct (b =? 0); [done |].
  rewrite Z2Nat.inj_add by (done || apply H0). change (Z.to_nat 1) with 1%nat. cbn [Nat.add firstn]. f_equal. exact IH.
Qed.

(** An environment of one variable, forwarded to with the library's addresses. *)
Lemma overrides_forward_witness :
  run (env_h (fun R (f : realE R) (w : list Z) =>
         match f in realE R return R * list Z with
         | RealSetenv _ (Some v) _ => (0, v)
         | RealSetenv _ None _ => (-1, w)
         | RealGetenv _ => (Some w, w)
         | RealUnsetenv _ => (0, [])
         | RealPutenv _ => (0, w)
         | RealClearenv => (tt, [])
         end) (fun _ => 1) (MkReals 1 1 1 1 1))
    (override (RealGetenv (Some (bytes_of "HOME")))) (bytes_of "/root", []) =
  Done (Some (bytes_of "/root")) (bytes_of "/root", bytes_of "[G] HOME=/root" ++ [10]).
Proof.
  rewrite (proj1 (overrides_forward _ (RealGetenv (Some (bytes_of "HOME"))) (fun _ => 1) (MkReals 1 1 1 1 1)
    (bytes_of "/root") [])) by discriminate. reflexivity.
Defined.

(** ** inject_library.h *)

Inductive injE : Type -> Type :=
| MemfdCreate : injE Z
| Ftruncate (fd sz : Z) : injE Z
| Mmap (sz fd : Z) : injE Z
| Munmap (addr sz : Z) : injE unit
| Close (fd : Z) : injE unit
| Memcpy (addr : Z) (data : list Z) : injE unit
| Getpid : injE Z
| Getenv (name : string) : injE str
| Setenv (name : string) (value : list Z) (overwrite : Z) : injE Z
| Eprint (s : string) : injE unit
| Execvp (argv : list (list Z)) : injE Z.          (* only failure returns *)

Abbreviation inj := (prog injE).

Definition MAP_FAILED : Z := -1.

(** [addr] is indeterminate until it is stored. *)
Record LdPreloadCtx := MkCtx { fd : Z; addr : option Z; sz : Z }.

Definition destroy_ctx (ctx : LdPreloadCtx) : inj unit :=
  match addr ctx with
  | Some a => trigger (Munmap a (sz ctx)) ;; trigger (Close (fd ctx))
  | None => Halt Undefined
  end.

(** [library] is the bytes from [start] to [end]. *)
Definition map_ctx (library : list Z) : inj (option LdPreloadCtx) :=
  let sz := zlen library in
  fd <- trigger MemfdCreate ;;
  if -1 =? fd then trigger (Eprint "Cannot create memfd") ;; Ret None
  else
  r <- trigger (Ftruncate fd sz) ;;
  if -1 =? r
  then trigger (Eprint "Cannot truncate memfd") ;; destroy_ctx (MkCtx fd None sz) ;; Ret None
  else
  addr <- trigger (Mmap sz fd) ;;
  let ctx := MkCtx fd (Some addr) sz in
  if MAP_FAILED =? addr
  then trigger (Eprint "Cannot mmap memfd") ;; destroy_ctx ctx ;; Ret None
  else
  trigger (Memcpy addr library) ;;
  Ret (Some ctx).

(** [sizeof(fmt) + 10 + 10], where [fmt] is a pointer. *)
Definition fd_path_size : Z := 8 + 10 + 10.
Definition new_ld_preload_size : Z := 4096.

Definition fd_path (pid fd : Z) : list Z := bytes_of "/proc/" ++ dec pid ++ bytes_of "/fd/" ++ dec fd.

Definition add_to_ld_preload (library : list Z) : inj bool :=
  r <- map_ctx library ;;
  match r with
  | None => Ret false
  | Some ctx =>
      pid <- trigger Getpid ;;
      let path := fd_path pid (fd ctx) in
      if fd_path_size <=? zlen path
      then trigger (Eprint "FD path too long") ;; destroy_ctx ctx ;; Ret false
      else
      ld_preload <- trigger (Getenv "LD_PRELOAD") ;;
      match ld_preload with
      | Some ld_preload =>
          let new_ld_preload := c_str ld_preload ++ bytes_of ":" ++ path in
          if new_ld_preload_size <=? zlen new_ld_preload
          then trigger (Eprint "LD_PRELOAD too long") ;; destroy_ctx ctx ;; Ret false
          else trigger (Setenv "LD_PRELOAD" new_ld_preload 1) ;; Ret true
      | None => trigger (Setenv "LD_PRELOAD" path 0) ;; Ret true
      end
  end.

(** ** peekenv.c *)

(** [args] are [argv[1]] and on; [library] is the object the linker embedded. *)
Definition main (library : list Z) (args : list (list Z)) : inj Z :=
  match args with
  | [] => trigger (Eprint "Usage: peekenv <command> [args...]") ;; Ret (-1)
  | _ =>
      add_to_ld_preload library ;;
      ret <- trigger (Execvp args) ;;
      trigger (Eprint "Cannot execvp") ;;
      Ret ret
  end.

(** ** What ends up on LD_PRELOAD *)

Section Inject.
(** The process, and what LD_PRELOAD holds; [cut] tells whether [ftruncate] may fail. *)
Context (pid : Z) (old : str) (cut : bool).

Definition answers (R : Type) (e : injE R) : R -> Prop :=
  match e in injE R return R -> Prop with
  | MemfdCreate => fun r => -1 <= r < 2 ^ 31
  | Ftruncate _ _ => fun r => r = -1 -> cut = true
  | Getpid => fun r => r = pid
  | Getenv _ => fun r => r = old
  | _ => fun _ => True
  end.

(** The context is destroyed before its address is known. *)
Definition stops (s : stop) : Prop := s = Undefined /\ cut = true.

Abbreviation Always := (always answers stops).

(** Descriptors made and closed, and assignments, of a history. *)
Definition made_of (e : event injE) : list Z :=
  match e with
  | existT _ (f, r) =>
      match f in injE R return R -> list Z with
      | MemfdCreate => fun fd => if -1 =? fd then [] else [fd]
      | _ => fun _ => []
      end r
  end.
Definition closed_of (e : event injE) : list Z :=
  match e with existT _ (f, _) => match f with Close fd => [fd] | _ => [] end end.
Definition set_of (e : event injE) : list (list Z * Z) :=
  match e with existT _ (f, _) => match f with Setenv _ v o => [(v, o)] | _ => [] end end.

Definition made tr := flat_map made_of tr.
Definition closed tr := flat_map closed_of tr.
Definition sets tr := flat_map set_of tr.

(** The new value: the path of the descriptor, behind what was there. *)
Definition preload (fd : Z) : list Z * Z :=
  match old with
  | Some l => (c_str l ++ bytes_of ":" ++ fd_path pid fd, 1)
  | None => (fd_path pid fd, 0)
  end.

Lemma destroy_closes fd addr sz : Always (destroy_ctx (MkCtx fd (Some addr) sz))
  (fun _ tr => made tr = [] /\ closed tr = [fd] /\ sets tr = []).
Proof. by intros [] _ [] _. Qed.

Lemma fd_path_fits fd : 0 <= pid < 10 ^ 7 -> 0 <= fd < 2 ^ 31 -> zlen (fd_path pid fd) < fd_path_size.
Proof.
  intros Hp Hfd. unfold fd_path. rewrite !zlen_app.
  change (zlen (bytes_of "/proc/")) with 6. change (zlen (bytes_of "/fd/")) with 4.
  pose proof (dec_length pid 6 Hp). pose proof (dec_length fd 9 ltac:(lia)). unfold fd_path_size. lia.
Qed.

Lemma map_ctx_spec library : Always (map_ctx library) (fun r tr => sets tr = [] /\
  match r with
  | Some ctx => exists a, ctx = MkCtx (fd ctx) (Some a) (zlen library) /\ 0 <= fd ctx < 2 ^ 31 /\
                  made tr = [fd ctx] /\ closed tr = []
  | None => made tr = closed tr
  end).
Proof.
  intros f Hf. cbn in Hf. cbn [bind]. destruct (-1 =? f) eqn:Ef; zbool.
  - subst f. intros [] _. by split.
  - intros r Hr. cbn in Hr. cbn [bind]. destruct (-1 =? r) eqn:Er; zbool.
    { intros [] _. split; [done | by apply Hr]. }
    intros a _. cbn [bind]. destruct (MAP_FAILED =? a) eqn:Ea; zbool.
    + intros [] _. cbn [bind]. eapply always_bind; [apply destroy_closes |].
      intros [] tr (H1 & H2 & H3). unfold made, closed, sets in *. cbn -[Z.eqb].
      rewrite !app_nil_r, H1, H2, H3, (proj2 (Z.eqb_neq _ _) Ef). done.
    + intros [] _. cbn -[Z.eqb]. rewrite (proj2 (Z.eqb_neq _ _) Ef). split; [done |]. exists a. repeat split; lia.
Qed.

(** C30. Under Linux' process numbers the path always fits its buffer. When [add_to_ld_preload] succeeds it has
    assigned LD_PRELOAD once, to the path behind what was there, and the one descriptor it
    made stays open; when it fails it has assigned nothing and closed what it opened. Only a failing
    [ftruncate] is fatal: the cleanup unmaps an address that was never set. *)
Theorem injected_or_clean library : 0 <= pid < 10 ^ 7 ->
  Always (add_to_ld_preload library) (fun r tr =>
    if (r : bool)
    then exists fd, made tr = [fd] /\ closed tr = [] /\ sets tr = [preload fd] /\
           zlen (preload fd).1 < new_ld_preload_size
    else sets tr = [] /\ made tr = closed tr).
Proof.
  intros Hp. unfold add_to_ld_preload. eapply always_bind; [apply map_ctx_spec |].
  intros [ctx |] tr [Hs Hr]; [| cbn [always]; rewrite app_nil_r; by split].
  destruct Hr as (a & Hc & Hfd & Hm & Hcl). intros p ->. cbn [bind].
  pose proof (fd_path_fits (fd ctx) Hp Hfd) as Hfit. rewrite (proj2 (Z.leb_gt _ _)) by exact Hfit.
  intros o ->. cbn [bind]. unfold preload. destruct old as [l |].
  - destruct (new_ld_preload_size <=? _) eqn:E; zbool.
    + intros [] _. cbn [bind]. rewrite Hc. eapply always_bind; [apply destroy_closes |].
      intros [] tr' (H1 & H2 & H3). unfold made, closed, sets in *. cbn [always].
      rewrite !flat_map_app. cbn. rewrite !app_nil_r, Hm, Hcl, Hs, H1, H2, H3. done.
    + intros n _. exists (fd ctx). unfold made, closed, sets in *. rewrite !flat_map_app. cbn.
      rewrite Hm, Hcl, Hs. done.
  - intros n _. exists (fd ctx). unfold made, closed, sets in *. rewrite !flat_map_app. cbn.
    rewrite Hm, Hcl, Hs. repeat split.
    apply (Z.lt_trans _ fd_path_size); [exact Hfit | reflexivity].
Qed.
End Inject.

Lemma injected_or_clean_witness :
  always (answers 4194303 (Some (bytes_of "libfoo.so")) false) (stops false)
    (add_to_ld_preload [127; 69; 76; 70]) (fun r tr => r = true ->
      exists fd, sets tr = [(bytes_of "libfoo.so:/proc/4194303/fd/" ++ dec fd, 1)]).
Proof.
  eapply always_mono; [apply (injected_or_clean 4194303 (Some (bytes_of "libfoo.so")) false); lia |].
  intros r tr H ->. destruct H as (fd & _ & _ & Hs & _). exists fd. rewrite Hs. reflexivity.
Defined.
