(* ===== verification/Secret.v ===== *)
(** * memfd_secret: hiding the arguments of a process

    [src/memfd_secret/secret.c] and [test.c] replace the pages of the argument strings by pages of a
    secret file with the same contents. Addresses are integers; [argv] is the list of the
    strings' addresses, which lie one after another. *)
From stdpp Require Import base gmap list strings.
From Stdlib Require Import ZArith Lia.
From S2P Require Import Prelude Prog Sys Text.

Definition PAGE_SZ : Z := 4096.

(** On a [uintptr_t]. *)
Definition ALIGN (x a : Z) : Z := Z.land (u64 (x + u64 (a - 1))) (u64 (Z.lnot (u64 (a - 1)))).
Definition PAGE_ALIGN (x : Z) : Z := ALIGN x PAGE_SZ.
Definition PAGE_TRUNC (x : Z) : Z := PAGE_ALIGN x - PAGE_SZ.

Definition MAP_FAILED : Z := -1.

Inductive secretE : Type -> Type :=
| MemfdSecret : secretE Z
| Strlen (p : Z) : secretE Z
| Ftruncate (fd len : Z) : secretE Z
| MmapAny (len fd : Z) : secretE Z
| MmapFixed (addr len fd : Z) : secretE Z
| Memcpy (dst src n : Z) : secretE unit
| Malloc (n : Z) : secretE Z
| Close (fd : Z) : secretE unit
| Munmap (addr len : Z) : secretE unit
| Perror (s : string) : secretE unit
| PrintCopying (n from to : Z) : secretE unit
| PrintArg (i p : Z) : secretE unit
| Print (s : string) : secretE unit
| PrintPid : secretE unit
| Scanf : secretE unit
| OpenCmdline : secretE Z
| FopenCmdline : secretE Z
| Fread (n : Z) : secretE (list Z)                        (* nothing at the end *)
| Fclose : secretE unit
| Stack (n : Z) : secretE (list Z)                        (* what a fresh array of [n] bytes holds *)
| PrintBytes (text : list Z) : secretE unit
| Read (fd n : Z) : secretE (option (list Z) * bool)      (* the bytes; whether errno is EINTR *)
| Write (data : list Z) : secretE (Z * bool).

Abbreviation secretM := (prog secretE).

(** [perror(s), exit(1)]. *)
Definition die {A} (s : string) : secretM A := trigger (Perror s) ;; Halt (Exited 1).

(** The pages of the arguments: the first, and how many. *)
Definition pages_of_args (first_arg end_ : Z) : Z * Z :=
  let first_page := PAGE_TRUNC first_arg in
  let last_page := PAGE_TRUNC end_ in
  (first_page, Z.quot (last_page - first_page) PAGE_SZ + 1).

(** secret.c. The results of the two [mmap] are not looked at. *)
Definition protect_argv (argv : list Z) : secretM unit :=
  fd <- trigger MemfdSecret ;;
  (if fd <? 0 then die "memfd secret" else Ret tt) ;;
  match head argv, last argv with
  | Some first_arg, Some last_arg =>
      len <- trigger (Strlen last_arg) ;;
      let '(first_page, num_pages) := pages_of_args first_arg (last_arg + len) in
      r <- trigger (Ftruncate fd (num_pages * PAGE_SZ)) ;;
      (if r <? 0 then die "ftruncate" else Ret tt) ;;
      copy <- trigger (MmapAny (num_pages * PAGE_SZ) fd) ;;
      trigger (Memcpy copy first_page (num_pages * PAGE_SZ)) ;;
      secret <- trigger (MmapFixed first_page (num_pages * PAGE_SZ) fd) ;;
      trigger (Close fd) ;;
      trigger (Munmap copy (num_pages * PAGE_SZ))
  | _, _ => Halt Undefined
  end.

(** [write] until the bytes are out or it fails. *)
Definition write_all (fuel : nat) (buffer : list Z) : secretM unit :=
  loop fuel (fun write_sz =>
    if write_sz <? zlen buffer
    then
      w <- trigger (Write (drop (Z.to_nat write_sz) buffer)) ;;
      let '(written, eintr) := w in
      if (written =? -1) && eintr then Ret (inl write_sz)
      else if written <=? 0 then Ret (inr tt)
      else Ret (inl (write_sz + written))
    else Ret (inr tt)) 0.

Definition print_args (argv : list Z) : secretM unit :=
  for_range 0 (length argv) (fun i =>
    match znth argv i with Some p => trigger (PrintArg i p) | None => Halt Undefined end).

Definition print_validation_info (fuel : nat) (argv : list Z) : secretM unit :=
  print_args argv ;;
  trigger (Print "Proc cmdline:") ;;
  cfd <- trigger OpenCmdline ;;
  loop fuel (fun _ =>
    r <- trigger (Read cfd PAGE_SZ) ;;
    match r with
    | (None, true) => Ret (inl tt)
    | (None, false) | (Some [], _) => Ret (inr tt)
    | (Some data, _) =>
        write_all fuel (map (fun b => if b =? 0 then 32 else b) data) ;; Ret (inl tt)
    end) tt ;;
  trigger (Print "") ;;
  trigger (Close cfd) ;;
  trigger PrintPid ;;
  trigger (Print "Press enter to exit") ;;
  trigger Scanf.

Definition secret_main (fuel : nat) (argv : list Z) : secretM Z :=
  print_validation_info fuel argv ;;
  protect_argv argv ;;
  trigger (Print "Protected argv") ;;
  print_validation_info fuel argv ;;
  Ret 0.

(** test.c: the contents go through a private buffer. *)
Definition protect_by_copy (argv : list Z) : secretM unit :=
  fd <- trigger MemfdSecret ;;
  (if fd <? 0 then die "memfd secret" else Ret tt) ;;
  match head argv, last argv with
  | Some first_arg, Some last_arg =>
      len <- trigger (Strlen last_arg) ;;
      let '(first_page, num_pages) := pages_of_args first_arg (last_arg + len) in
      r <- trigger (Ftruncate fd (num_pages * PAGE_SZ)) ;;
      (if r <? 0 then die "ftruncate" else Ret tt) ;;
      copy <- trigger (Malloc (num_pages * PAGE_SZ)) ;;
      (if copy =? 0 then die "malloc" else Ret tt) ;;
      trigger (PrintCopying num_pages first_page copy) ;;
      trigger (Memcpy copy first_page (num_pages * PAGE_SZ)) ;;
      secret <- trigger (MmapFixed first_page (num_pages * PAGE_SZ) fd) ;;
      trigger (Close fd) ;;
      trigger (Memcpy secret copy (num_pages * PAGE_SZ))
  | _, _ => Halt Undefined
  end.

(** One turn over the file: [buf] keeps what a short read leaves of it, and is printed as a string. *)
Definition cmdline_turn (buf : list Z) : secretM (list Z + unit) :=
  data <- trigger (Fread PAGE_SZ) ;;
  match data with
  | [] => Ret (inr tt)
  | _ =>
      let buf := data ++ drop (length data) buf in
      match strlen buf with
      | Some _ => trigger (PrintBytes (c_str buf)) ;; Ret (inl buf)
      | None => Halt Undefined
      end
  end.

Definition test_main (fuel : nat) (argv : list Z) : secretM Z :=
  protect_by_copy argv ;;
  print_args argv ;;
  cmdline <- trigger FopenCmdline ;;
  if cmdline =? 0 then trigger (Perror "fopen") ;; Ret 1
  else
  buf <- trigger (Stack PAGE_SZ) ;;
  loop fuel cmdline_turn buf ;;
  trigger (Print "") ;;
  trigger Fclose ;;
  trigger PrintPid ;;
  trigger (Print "Press enter to exit") ;;
  trigger Scanf ;;
  Ret 0.

(** ** What test.c shows of the command line *)

Definition freads (text : list Z) : forall R, secretE R -> R -> Prop := fun R e =>
  match e in secretE R return R -> Prop with Fread _ => fun r => r = text | _ => fun _ => True end.

Definition shown_of (e : event secretE) : list (list Z) :=
  match e with existT _ (f, _) => match f with PrintBytes text => [text] | _ => [] end end.

(** The arguments come with their terminators between them, so of what was read only the first is shown. *)
Lemma first_argument_shown arg rest buf : Forall (fun b => b <> 0) arg ->
  always (freads (arg ++ 0 :: rest)) nothing (cmdline_turn buf) (fun r tr =>
    flat_map shown_of tr = [arg] /\ exists buf', r = inl buf').
Proof.
  intros Ha data ->. cbn [bind]. assert (arg ++ 0 :: rest <> []) as Hne by (by destruct arg).
  destruct (arg ++ 0 :: rest) as [| b d] eqn:E; [done |]. rewrite <-E, <-app_assoc. cbn [app].
  rewrite strlen_nul, c_str_nul by exact Ha. intros [] _. by split; [| eexists].
Qed.

(** ** The pages *)

Lemma page_align_eq x : 0 <= x < 2 ^ 63 -> PAGE_ALIGN x = (x + 4095) / 4096 * 4096.
Proof.
  intros Hx. unfold PAGE_ALIGN, ALIGN, PAGE_SZ. change (u64 (4096 - 1)) with (2 ^ 12 - 1).
  rewrite (wrap_small 64 (x + _)) by lia. rewrite (land_lnot_split 64) by lia.
  change (2 ^ 12 - 1) with (Z.ones 12). rewrite Z.land_ones by lia.
  pose proof (Z.div_mod (x + Z.ones 12) (2 ^ 12)). change (Z.ones 12) with 4095 in *.
  change (2 ^ 12) with 4096 in *. lia.
Qed.

(** The range that is copied and remapped starts at the page of the first argument and reaches to the
    last byte of the last one. But an argument that starts on a page boundary takes the page before
    with it, and when the last terminator starts a page it is left out. *)
Theorem protected_range first_arg end_ : 0 < first_arg < end_ -> end_ < 2 ^ 63 ->
  let '(first_page, num_pages) := pages_of_args first_arg end_ in
  first_page mod PAGE_SZ = 0 /\ 0 < num_pages /\
  first_page = first_arg / PAGE_SZ * PAGE_SZ - (if first_arg mod PAGE_SZ =? 0 then PAGE_SZ else 0) /\
  first_page <= first_arg /\ end_ <= first_page + num_pages * PAGE_SZ /\
  (end_ < first_page + num_pages * PAGE_SZ <-> end_ mod PAGE_SZ <> 0).
Proof.
  intros Hf He. unfold pages_of_args, PAGE_TRUNC. rewrite !page_align_eq by lia. unfold PAGE_SZ.
  set (a := (first_arg + 4095) / 4096). set (b := (end_ + 4095) / 4096).
  replace (b * 4096 - 4096 - (a * 4096 - 4096)) with ((b - a) * 4096) by lia.
  rewrite Z.quot_mul by lia.
  pose proof (Z.div_mod (first_arg + 4095) 4096) as E1. pose proof (Z.mod_pos_bound (first_arg + 4095) 4096).
  pose proof (Z.div_mod (end_ + 4095) 4096) as E2. pose proof (Z.mod_pos_bound (end_ + 4095) 4096).
  pose proof (Z.div_mod first_arg 4096) as E3. pose proof (Z.mod_pos_bound first_arg 4096).
  pose proof (Z.div_mod end_ 4096) as E4. pose proof (Z.mod_pos_bound end_ 4096).
  fold a in E1. fold b in E2. split; [| split; [| split; [| split; [| split]]]].
  - replace (a * 4096 - 4096) with ((a - 1) * 4096) by lia. apply Z.mod_mul. lia.
  - lia.
  - destruct (first_arg mod 4096 =? 0) eqn:E; zbool; lia.
  - lia.
  - lia.
  - lia.
Qed.

(** ** The contents *)

#[local] Arguments Z.add : simpl never.

(** The private memory, the secret file, and where the file is mapped: over the arguments and as the
    temporary copy, each an address and a length. *)
Record space := MkSpace {
  private : Z -> Z;
  secret : Z -> Z;
  over : option (Z * Z);
  window : option (Z * Z) }.

Definition inside (a : Z) (m : option (Z * Z)) : option Z :=
  match m with
  | Some (base, len) => if (base <=? a) && (a <? base + len) then Some (a - base) else None
  | None => None
  end.

(** The offset in the file that backs an address, if the file does. *)
Definition backing (s : space) (a : Z) : option Z :=
  match inside a (over s) with Some i => Some i | None => inside a (window s) end.

Definition byte (s : space) (a : Z) : Z :=
  match backing s a with Some i => secret s i | None => private s a end.

Section Contents.
(** The kernel grants every request; [copy] is where it puts the temporary mapping, [len_of] the lengths of
    the strings. *)
Context (copy : Z) (len_of : Z -> Z).

(** [n] bytes from [src], stored from [dst] on, where [dst] is backed from offset [i] on or
    private. *)
Definition copy_bytes (s : space) (dst src n : Z) : space :=
  match backing s dst with
  | Some i => MkSpace (private s)
      (fun j => if (i <=? j) && (j <? i + n) then byte s (src + (j - i)) else secret s j) (over s) (window s)
  | None => MkSpace (fun a => if (dst <=? a) && (a <? dst + n) then byte s (src + (a - dst)) else private s a)
      (secret s) (over s) (window s)
  end.

Definition secret_h : handler secretE space := fun R e s =>
  match e in secretE R return outcome space R with
  | MemfdSecret => Done 3 s
  | Strlen p => Done (len_of p) s
  | Ftruncate _ _ => Done 0 s
  | MmapAny len _ => Done copy (MkSpace (private s) (secret s) (over s) (Some (copy, len)))
  | MmapFixed addr len _ => Done addr (MkSpace (private s) (secret s) (Some (addr, len)) (window s))
  | Memcpy dst src n => Done tt (copy_bytes s dst src n)
  | Malloc _ => Done copy s
  | Munmap _ _ => Done tt (MkSpace (private s) (secret s) (over s) None)
  | Close _ | Perror _ | PrintCopying _ _ _ | PrintArg _ _ | Print _ | PrintPid | Scanf | Fclose | PrintBytes _ => Done tt s
  | OpenCmdline | FopenCmdline => Done 4 s
  | Fread _ => Done [] s
  | Stack n => Done (replicate (Z.to_nat n) 0) s
  | Read _ _ => Done (Some [], false) s
  | Write data => Done (zlen data, false) s
  end.

Definition nothing_mapped (s : space) : Prop := over s = None /\ window s = None.

(** What the kernel answers about [argv]: the first string lies below the end of the last one, and the
    temporary copy is elsewhere. *)
Definition args_at (argv : list Z) (first_arg end_ : Z) : Prop :=
  head argv = Some first_arg /\ (exists p, last argv = Some p /\ p + len_of p = end_) /\
  0 < first_arg < end_ /\ end_ < 2 ^ 63 /\ 0 < copy /\
  (let '(page, n) := pages_of_args first_arg end_ in
   copy + n * PAGE_SZ <= page \/ page + n * PAGE_SZ <= copy).

(** *** Reading *)

Definition outside (m : option (Z * Z)) (a : Z) : Prop :=
  match m with Some (b, n) => a < b \/ b + n <= a | None => True end.

Lemma inside_in a b n : b <= a < b + n -> inside a (Some (b, n)) = Some (a - b).
Proof. intros H. unfold inside. by rewrite (proj2 (Z.leb_le _ _)), (proj2 (Z.ltb_lt _ _)) by lia. Qed.

Lemma inside_out a m : outside m a -> inside a m = None.
Proof.
  destruct m as [[b n] |]; [| done]. intros H. unfold outside in H. unfold inside.
  destruct (b <=? a) eqn:E1, (a <? b + n) eqn:E2; zbool; try done; lia.
Qed.

Lemma byte_mapped p f b n w a : b <= a < b + n -> byte (MkSpace p f (Some (b, n)) w) a = f (a - b).
Proof. intros H. unfold byte, backing. cbn [over secret]. by rewrite inside_in. Qed.

Lemma byte_private p f o w a : outside o a -> outside w a -> byte (MkSpace p f o w) a = p a.
Proof. intros H1 H2. unfold byte, backing. cbn [over window private]. by rewrite !inside_out. Qed.

Lemma copy_backed p f o w dst src n i : backing (MkSpace p f o w) dst = Some i ->
  copy_bytes (MkSpace p f o w) dst src n = MkSpace p (fun j => if (i <=? j) && (j <? i + n)
    then byte (MkSpace p f o w) (src + (j - i)) else f j) o w.
Proof. intros H. unfold copy_bytes. by rewrite H. Qed.

Lemma copy_private p f o w dst src n : backing (MkSpace p f o w) dst = None ->
  copy_bytes (MkSpace p f o w) dst src n = MkSpace (fun a => if (dst <=? a) && (a <? dst + n)
    then byte (MkSpace p f o w) (src + (a - dst)) else p a) f o w.
Proof. intros H. unfold copy_bytes. by rewrite H. Qed.

Lemma in_range lo j n : lo <= j < lo + n -> (lo <=? j) && (j <? lo + n) = true.
Proof. intros H. by rewrite (proj2 (Z.leb_le _ _)), (proj2 (Z.ltb_lt _ _)) by lia. Qed.

(** C31. Afterwards every address outside the temporary buffer reads as before, in either program, and every
    character of the arguments is backed by the secret file. *)
Theorem arguments_moved by_copy argv first_arg end_ s : nothing_mapped s -> args_at argv first_arg end_ ->
  returns (run secret_h (if (by_copy : bool) then protect_by_copy argv else protect_argv argv) s) (fun _ s' =>
    (forall a, (by_copy = false \/ a < copy \/ copy + (pages_of_args first_arg end_).2 * PAGE_SZ <= a) ->
       byte s' a = byte s a) /\
    forall a, first_arg <= a < end_ -> is_Some (backing s' a)).
Proof.
  intros [Ho Hw] (Hh & (p & Hl & Hp) & Hf & He & Hc & Hd).
  pose proof (protected_range first_arg end_ Hf He) as Hr.
  destruct (pages_of_args first_arg end_) as [page n] eqn:Epages.
  destruct Hr as (_ & Hn & _ & Hlo & Hhi & _). set (len := n * PAGE_SZ) in *.
  assert (0 < len) as Hlen by (unfold len, PAGE_SZ; lia).
  destruct s as [pr se ov wi]. cbn in Ho, Hw. subst ov wi. cbn [snd].
  assert (forall f p' a, first_arg <= a < end_ -> is_Some (backing (MkSpace p' f (Some (page, len)) None) a)) as Hb.
  { intros f p' a Ha. unfold backing. cbn [over]. rewrite inside_in by lia. by eexists. }
  destruct by_copy; [unfold protect_by_copy | unfold protect_argv]; rewrite Hh, Hl;
    cbn -[pages_of_args copy_bytes byte backing]; rewrite Hp, Epages; fold len;
    cbn -[copy_bytes byte backing].
  - rewrite (proj2 (Z.eqb_neq copy 0)) by lia. cbn -[copy_bytes byte backing].
    rewrite (copy_private pr se None None copy page len) by reflexivity. cbn -[copy_bytes byte backing].
    rewrite (copy_backed _ _ _ _ _ _ _ 0).
    2: { unfold backing. cbn [over]. rewrite inside_in by lia. f_equal. lia. }
    split; [| by apply Hb]. intros a Ha. destruct (decide (page <= a < page + len)) as [Hp' | Hp'].
    + rewrite byte_mapped, in_range by lia. rewrite byte_private by (cbn; lia).
      rewrite in_range by lia. rewrite !byte_private by (cbn; lia). f_equal. lia.
    + rewrite !byte_private by (cbn; lia). destruct ((copy <=? a) && (a <? copy + len)) eqn:E; zbool; [| done].
      destruct Ha as [[=] | Ha]; lia.
  - rewrite (copy_backed _ _ _ _ _ _ _ 0).
    2: { unfold backing. cbn [over window]. change (inside copy None) with (@None Z). rewrite inside_in by lia.
         f_equal. lia. }
    cbn -[byte backing]. split; [| by apply Hb]. intros a Ha.
    destruct (decide (page <= a < page + len)) as [Hp' | Hp'].
    + rewrite byte_mapped, in_range by lia. rewrite !byte_private by (cbn; lia). f_equal. lia.
    + by rewrite !byte_private by (cbn; lia).
Qed.
End Contents.

Lemma protected_range_witness :
  let '(page, n) := pages_of_args 8192 8200 in page = 4096 /\ n = 2 /\ page <= 8192.
Proof.
  pose proof (protected_range 8192 8200 ltac:(lia) ltac:(lia)) as H.
  change (pages_of_args 8192 8200) with (4096, 2) in *. destruct H as (_ & _ & _ & H & _).
  split; [reflexivity |]. split; [reflexivity | exact H].
Defined.

Lemma arguments_moved_witness :
  returns (run (secret_h 65536 (fun _ => 5)) (protect_argv [8192; 8198]) (MkSpace (fun a => a mod 256) (fun _ => 0) None None))
    (fun _ s' => byte s' 8193 = 1 /\ is_Some (backing s' 8193)).
Proof.
  eapply returns_mono.
  - apply (arguments_moved 65536 (fun _ => 5) false [8192; 8198] 8192 8203); [by split |].
    split; [reflexivity |]. split; [by exists 8198 |]. split; [lia |]. split; [lia |]. split; [lia |].
    vm_compute. right. discriminate.
  - intros u s' [H1 H2]. split; [apply (H1 8193); by left | apply H2; lia].
Defined.
