(* ===== verification/LogReader.v ===== *)
(** * The log's reader example

    [src/fastlog/eg/vm_reader/src/main.cc]: messages written through mmlog.h, and a search for each of
    them in the file that results. *)
From stdpp Require Import base gmap sets list strings.
From Stdlib Require Import ZArith Lia.
From S2P Require Import Prelude Prog MmlogTypes MmlogOs MmlogOpen MmlogInsert Sys.

Inductive readerE : Type -> Type :=
| Cout (s : string) (text : list Z) : readerE unit
| Cerr (s : string) : readerE unit
| FreeHandle (handle : Z) : readerE unit
| ReadFile (name : string) : readerE (option (list Z))     (* nothing when it cannot be opened *)
| Result (found total : Z) : readerE unit.

Abbreviation readerM := (prog (sumE mmE readerE)).

Definition mmlog {A} (p : mm A) : readerM A := lift p.
Definition call {R} (e : readerE R) : readerM R := trigger (inr1 e).

Definition filename : string := "test.log".
Definition chunk_size : Z := 4 * 4096.

Definition messages : list (list Z) := map bytes_of
  ["Hello, MMLOG!";
   "This is a test message.";
   "Another message to verify storage.";
   "Short";
   "This is a longer message that should span more bytes to test larger payloads in the system.";
   "Final test message"]%string.

(** The loop that writes: [Some code] is an early return. *)
Fixpoint write_messages (fuel : nat) (handle : Z) (msgs : list (list Z)) : readerM (option Z) :=
  match msgs with
  | [] => Ret None
  | msg :: rest =>
      ok <- mmlog (mmlog_insert fuel handle (Some msg)) ;;
      if negb ok then call (Cerr "Failed to insert") ;; call (FreeHandle handle) ;; Ret (Some 1)
      else
      ok <- mmlog (mmlog_insert fuel handle (Some [10])) ;;
      if negb ok then call (Cerr "Failed to insert newline") ;; call (FreeHandle handle) ;; Ret (Some 1)
      else call (Cout "Wrote: " msg) ;; write_messages fuel handle rest
  end.

(** [content.find(msg) != npos]. *)
Fixpoint starts_with (msg content : list Z) : bool :=
  match msg, content with
  | [], _ => true
  | _, [] => false
  | b :: msg', c :: content' => (b =? c) && starts_with msg' content'
  end.

Fixpoint find (msg content : list Z) : bool :=
  starts_with msg content || match content with [] => false | _ :: content' => find msg content' end.

Fixpoint count_found (content : list Z) (msgs : list (list Z)) (found : Z) : readerM Z :=
  match msgs with
  | [] => Ret found
  | msg :: rest =>
      if find msg content
      then call (Cout "Found: " msg) ;; count_found content rest (found + 1)
      else call (Cout "MISSING: " msg) ;; count_found content rest found
  end.

Definition main (fuel : nat) : readerM Z :=
  call (Cout "Writing messages to log..." []) ;;
  handle <- mmlog (mmlog_open fuel (Some filename) chunk_size 16) ;;
  if handle =? NULL then call (Cerr "Failed to open log") ;; Ret 1
  else
  r <- write_messages fuel handle messages ;;
  match r with
  | Some code => Ret code
  | None =>
      mmlog (mmlog_trim handle) ;;
      call (FreeHandle handle) ;;
      call (Cout "Validating messages in log..." []) ;;
      file <- call (ReadFile filename) ;;
      match file with
      | None => call (Cerr "Failed to open file for reading") ;; Ret 1
      | Some content =>
          found <- count_found content messages 0 ;;
          call (Result found (zlen messages)) ;;
          Ret (if found =? zlen messages then 0 else 1)
      end
  end.

(** ** The validation *)

Lemma starts_with_spec msg content : starts_with msg content = true <-> exists rest, content = msg ++ rest.
Proof.
  revert content. induction msg as [| b msg IH]; intros content; simpl; [split; [by exists content | done] |].
  destruct content as [| c content]; [split; [done | by intros []] |].
  rewrite andb_true_iff, IH, Z.eqb_eq. split.
  - intros [-> [rest ->]]. by exists rest.
  - intros [rest [= -> ->]]. split; [done | by exists rest].
Qed.

(** The search is for a contiguous part. *)
Lemma find_spec msg content : find msg content = true <-> exists before after, content = before ++ msg ++ after.
Proof.
  induction content as [| c content IH]; cbn [find]; rewrite orb_true_iff, starts_with_spec.
  - split; [intros [[rest H] |]; [by exists [], rest | done] |].
    intros (before & after & H). left. destruct before; [by exists after | done].
  - rewrite IH. split.
    + intros [[rest H] | (before & after & ->)]; [by exists [], rest | by exists (c :: before), after].
    + intros ([| b before] & after & H); [left; by exists after |]. injection H as -> ->. right. eauto.
Qed.

(** The file that the run reads. *)
Definition reads (content : list Z) (R : Type) (e : sumE mmE readerE R) : R -> Prop :=
  match e with
  | inl1 _ => fun _ => True
  | inr1 f => match f in readerE R return R -> Prop with
              | ReadFile _ => fun r => r = Some content
              | _ => fun _ => True
              end
  end.

Definition any_stop (s : stop) : Prop := True.

Lemma all_found content msgs : zlen (filter (fun m => find m content = true) msgs) = zlen msgs <->
  Forall (fun m => find m content = true) msgs.
Proof.
  unfold zlen. split.
  - intros H. induction msgs as [| m msgs IH]; [constructor |]. destruct (decide (find m content = true)) as [E | E].
    + rewrite filter_cons_True in H by exact E. constructor; [exact E |]. apply IH. simpl in H. lia.
    + rewrite filter_cons_False in H by exact E.
      pose proof (length_filter (fun m => find m content = true) msgs). simpl in H. lia.
  - intros H. induction H as [| m msgs E _ IH]; [done |].
    rewrite filter_cons_True by exact E. simpl. lia.
Qed.

(** The verdict line of a history. *)
Definition result_of (e : event (sumE mmE readerE)) : list Z :=
  match e with
  | existT _ (inr1 f, _) => match f with Result found _ => [found] | _ => [] end
  | _ => []
  end.
Definition results (tr : list (event (sumE mmE readerE))) : list Z := flat_map result_of tr.

Section Verdict.
Context (content : list Z).

Abbreviation Always := (always (reads content) any_stop).

Lemma mmlog_silent {A} (p : mm A) : Always (mmlog p) (fun _ tr => results tr = []).
Proof.
  induction p as [a | s | R e k IH]; [done | done |]. intros r _. cbn [mmlog].
  eapply always_mono; [apply IH |]. intros a tr H. exact H.
Qed.

Lemma mmlog_then {A B} (p : mm A) (f : A -> readerM B) (Q : B -> list Z -> Prop) :
  (forall a, Always (f a) (fun b tr => Q b (results tr))) ->
  Always (bind (mmlog p) f) (fun b tr => Q b (results tr)).
Proof.
  intros Hf. eapply always_bind; [apply mmlog_silent |]. intros a tr Htr. eapply always_mono; [apply Hf |].
  intros b tr' H. unfold results in *. by rewrite flat_map_app, Htr.
Qed.

Lemma write_messages_silent fuel handle msgs : Always (write_messages fuel handle msgs)
  (fun r tr => results tr = [] /\ (r = None \/ r = Some 1)).
Proof.
  induction msgs as [| m msgs IH]; [by split; [| left] |]. cbn [write_messages].
  apply (mmlog_then _ _ (fun r l => l = [] /\ (r = None \/ r = Some 1))). intros ok.
  destruct (negb ok); [by intros [] _ [] _; split; [| right] |].
  apply (mmlog_then _ _ (fun r l => l = [] /\ (r = None \/ r = Some 1))). intros ok'.
  destruct (negb ok'); [by intros [] _ [] _; split; [| right] |].
  intros [] _. eapply always_mono; [exact IH |]. intros r tr H. exact H.
Qed.

Lemma count_found_silent msgs n : Always (count_found content msgs n)
  (fun found tr => results tr = [] /\ found = n + zlen (filter (fun m => find m content = true) msgs)).
Proof.
  revert n. induction msgs as [| m msgs IH]; intros n.
  { cbn. change (zlen (@nil (list Z))) with 0. split; [done | lia]. }
  cbn [count_found]. destruct (find m content) eqn:E; intros [] _; (eapply always_mono; [apply IH |]);
    intros found tr [Htr ->]; (split; [exact Htr |]).
  - rewrite filter_cons_True by exact E. rewrite zlen_cons. lia.
  - rewrite filter_cons_False by (rewrite E; discriminate). done.
Qed.

(** What the writes put into the file. *)
Definition written : list Z := concat (map (fun m => m ++ [10]) messages).

Lemma written_contains m : m ∈ messages -> exists before after, written = before ++ m ++ after.
Proof.
  unfold written. generalize messages as ms. induction ms as [| d ms IH]; intros Hm; [by apply not_elem_of_nil in Hm |].
  cbn [map concat]. apply elem_of_cons in Hm as [-> | Hm].
  - exists [], ([10] ++ concat (map (fun m => m ++ [10]) ms)). by rewrite <-!app_assoc.
  - destruct (IH Hm) as (before & after & ->). exists ((d ++ [10]) ++ before), after. by rewrite <-!app_assoc.
Qed.

(** [code] is right about the file, given the results [l] that were printed. *)
Definition verdict (code : Z) (l : list Z) : Prop :=
  (l = [] /\ code = 1) \/
  (exists found, l = [found] /\ (code = 0 \/ code = 1) /\
     (code = 0 <-> Forall (fun m => exists before after, content = before ++ m ++ after) messages) /\
     ((exists before after, content = before ++ written ++ after) -> code = 0)).

Lemma validated_verdict l : l = [zlen (filter (fun m => find m content = true) messages)] ->
  verdict (if zlen (filter (fun m => find m content = true) messages) =? zlen messages then 0 else 1) l.
Proof.
  intros ->. right. eexists. split; [reflexivity |].
  assert ((if zlen (filter (fun m => find m content = true) messages) =? zlen messages then 0 else 1) = 0 <->
    Forall (fun m => exists before after, content = before ++ m ++ after) messages) as Hiff.
  { rewrite <-(Forall_iff _ _ _ (fun m => find_spec m content)), <-all_found.
    destruct (_ =? zlen messages) eqn:E; zbool; split; intros H; congruence. }
  split; [destruct (_ =? zlen messages); [by left | by right] |]. split; [exact Hiff |].
  intros (before & after & Hc). apply Hiff, Forall_forall. intros m Hm.
  destruct (written_contains m Hm) as (b & a & Hw). exists (before ++ b), (a ++ after).
  by rewrite Hc, Hw, <-!app_assoc.
Qed.

(** A run that fails on the way returns 1. One that reaches the validation returns 0 exactly when
    every message is somewhere in the file, which is so when the file contains what the
    writes append; whether this run or an earlier one wrote it makes no difference. *)
Theorem reader_verdict fuel : Always (main fuel) (fun code tr => verdict code (results tr)).
Proof.
  unfold main. intros [] _. cbn [bind]. apply (mmlog_then _ _ verdict). intros handle.
  destruct (handle =? NULL); [intros [] _; by left |].
  eapply always_bind; [apply write_messages_silent |]. intros r tr [Htr Hr].
  eapply (always_mono _ _ _ (fun code tr' => verdict code (results tr'))).
  2: { intros code tr' H. unfold results in *. by rewrite flat_map_app, Htr. }
  destruct Hr as [-> | ->]; [| by left]. apply (mmlog_then _ _ verdict). intros [] [] _ [] _ file Hfile.
  cbn in Hfile. subst file. cbn [bind]. eapply always_bind; [apply count_found_silent |].
  intros found tr' [Htr' ->] [] _. apply validated_verdict. unfold results in *. cbn.
  rewrite flat_map_app, Htr'. reflexivity.
Qed.
End Verdict.
