(* ===== verification/MmlogView.v ===== *)
(** * mmlog.h: a part of the world

    A thread that works on a log never touches the handles, mappings and descriptors of a
    thread that is still opening it. [view] is the world without some of those; an
    operation that succeeds in a view, and that names nothing that is missing there, does
    the same in the world and leaves what the view hides as it was. *)
From stdpp Require Import base gmap sets list strings relations.
From Stdlib Require Import ZArith Lia.
From S2P Require Import Prelude Prog Conc MmlogTypes MmlogOs MmlogInv.

Definition only {A} (vis : Z -> bool) (m : gmap Z A) : gmap Z A := filter (fun kv => vis kv.1 = true) m.

Lemma only_lookup {A} vis (m : gmap Z A) k : only vis m !! k = if vis k then m !! k else None.
Proof.
  unfold only. destruct (m !! k) as [x |] eqn:Hk.
  - destruct (vis k) eqn:Hv.
    + by apply map_lookup_filter_Some.
    + apply map_lookup_filter_None. right. intros y Hy. simpl. congruence.
  - rewrite (proj2 (map_lookup_filter_None _ _ _)) by by left. by destruct (vis k).
Qed.

Lemma only_Some {A} vis (m : gmap Z A) k x : only vis m !! k = Some x -> vis k = true /\ m !! k = Some x.
Proof. rewrite only_lookup. by destruct (vis k). Qed.

Lemma only_insert {A} vis (m : gmap Z A) k x : vis k = true -> only vis (<[k := x]> m) = <[k := x]> (only vis m).
Proof. intros Hv. by apply map_filter_insert_True. Qed.

Lemma only_delete {A} vis (m : gmap Z A) k : only vis (delete k m) = delete k (only vis m).
Proof. apply map_filter_delete. Qed.

Section View.
(** Which handles, and which mappings and descriptors, the view shows. *)
Context (vh vr : Z -> bool).

Definition view (w : world) : world :=
  MkW (w_names w) (w_inodes w) (only vr (w_fds w)) (only vr (w_maps w)) (only vh (w_handles w))
    (w_chunks w) (w_heap w) (w_next w) (w_faults w) (w_clock w) (w_reads w).

(** What is hidden is the same in both worlds. *)
Definition hidden_same (w w' : world) : Prop :=
  (forall k, vh k = false -> w_handles w' !! k = w_handles w !! k) /\
  (forall k, vr k = false -> w_maps w' !! k = w_maps w !! k) /\
  (forall k, vr k = false -> w_fds w' !! k = w_fds w !! k).

Lemma view_pop w : pop_fault (view w) = ((pop_fault w).1, view (pop_fault w).2).
Proof. unfold pop_fault. cbn. by destruct (w_faults w). Qed.

Lemma pop_hidden w : hidden_same w (pop_fault w).2.
Proof. unfold pop_fault. by destruct (w_faults w). Qed.

Definition agrees {R} (w : world) (o o' : outcome st R) : Prop :=
  match o with
  | Done r (l, w1) => exists w', o' = Done r (l, w') /\ view w' = w1 /\ hidden_same w w'
  | Stopped _ _ => True
  end.

Lemma agrees_same {R} w (r : R) l w' w1 : view w' = w1 -> hidden_same w w' ->
  agrees w (Done r (l, w1)) (Done r (l, w')).
Proof. intros E H. by exists w'. Qed.

Context (w : world) (Hnext : forall k, w_next w <= k -> vh k = true /\ vr k = true).

Lemma visible_next : vh (w_next w) = true /\ vr (w_next w) = true /\ vr (w_next w + 1) = true.
Proof using Hnext. destruct (Hnext (w_next w)), (Hnext (w_next w + 1)); auto; lia. Qed.

#[local] Arguments only : simpl never.

(** The two worlds after an update of visible entries. *)
Ltac agree_close :=
  cbn; apply agrees_same;
  [ unfold view; cbn; try done; f_equal; first [by rewrite only_insert | by rewrite only_delete | done]
  | split; [| split]; cbn; intros ? ?;
    first [ done | rewrite lookup_insert_ne; [done | congruence] | rewrite lookup_delete_ne; [done | congruence]] ].

(** Unfold one operation and follow it in both worlds. *)
Ltac agree_run :=
  repeat (cbn -[Z.ltb Z.leb Z.modulo Z.eqb]; first
    [ done
    | match goal with
      | |- context [only ?v ?m !! ?k] =>
          rewrite (only_lookup v m k); let E := fresh "Ev" in destruct (v k) eqn:E
      | |- context [match w_faults ?w with _ => _ end] => destruct (w_faults w)
      | |- context [match ?x with _ => _ end] => lazymatch x with context [match _ with _ => _ end] => fail | _ => destruct x eqn:? end
      end ]); try (agree_close; fail).

(** What an operation does in the view it does in the world. *)
Lemma view_step {R} (e : mmE R) l : agrees w (strict R e (l, view w)) (mm_h R e (l, w)).
Proof using Hnext.
  destruct visible_next as (V1 & V2 & V3).
  destruct e; unfold strict, names_live, mm_h, sys_open, sys_ftruncate, sys_fstat, sys_mmap, sys_pwrite,
    allocate, slot_load, slot_store, store_byte, on_md, read_md, md_at, read_handle, on_handle,
    read_chunk, on_chunk, cas_field, pop_fault, alloc_fd, put_meta; agree_run.
Qed.
End View.

(** ** What no operation undoes *)

(** New entries of a table have fresh keys. *)
Definition fresh_keys {A} (w w' : world) (m m' : gmap Z A) : Prop :=
  forall k, is_Some (m' !! k) -> is_Some (m !! k) \/ w_next w <= k < w_next w'.

Record grows (w w' : world) : Prop := {
  gr_next : w_next w <= w_next w';
  gr_faults : w_faults w = [] -> w_faults w' = [];
  gr_names : forall p m, w_names w !! p = Some m -> w_names w' !! p = Some m;
  gr_inodes : forall m, is_Some (w_inodes w !! m) -> is_Some (w_inodes w' !! m);
  gr_new_names : forall p m, w_names w' !! p = Some m ->
    w_names w !! p = Some m \/ is_Some (w_inodes w' !! m);
  gr_new_inodes : fresh_keys w w' (w_inodes w) (w_inodes w');
  gr_new_maps : fresh_keys w w' (w_maps w) (w_maps w');
  gr_new_fds : fresh_keys w w' (w_fds w) (w_fds w');
  gr_new_chunks : fresh_keys w w' (w_chunks w) (w_chunks w');
  gr_new_handles : forall k x, w_handles w' !! k = Some x -> is_Some (w_handles w !! k) \/ x = zero_handle }.

#[local] Arguments Z.add : simpl never.

Lemma fresh_refl {A} w w' (m : gmap Z A) : fresh_keys w w' m m.
Proof. intros k Hk. by left. Qed.

Lemma fresh_insert {A} w w' (m : gmap Z A) k x :
  is_Some (m !! k) \/ w_next w <= k < w_next w' -> fresh_keys w w' m (<[k := x]> m).
Proof. intros Hk k' [y Hy]. apply lookup_insert_Some in Hy as [[<- _] | [_ Hy]]; [done | left; by eexists]. Qed.

Lemma fresh_delete {A} w w' (m : gmap Z A) k : fresh_keys w w' m (delete k m).
Proof. intros k' [y Hy]. apply lookup_delete_Some in Hy as [_ Hy]. left. by eexists. Qed.

Lemma fresh_alter w w' (m : gmap Z inode) f k : fresh_keys w w' m (alter f k m).
Proof.
  intros k' [y Hy]. left. destruct (decide (k' = k)) as [-> | Hne].
  - rewrite lookup_alter_eq in Hy. by destruct (m !! k).
  - rewrite lookup_alter_ne in Hy by done. by eexists.
Qed.

Lemma alter_is_Some (m : gmap Z inode) f k k' : is_Some (m !! k') -> is_Some (alter f k m !! k').
Proof.
  intros [x Hx]. destruct (decide (k' = k)) as [-> | Hne].
  - rewrite lookup_alter_eq, Hx. by eexists.
  - rewrite lookup_alter_ne, Hx by done. by eexists.
Qed.

Lemma insert_is_Some {A} (m : gmap Z A) x k k' : is_Some (m !! k') -> is_Some (<[k := x]> m !! k').
Proof. intros H. destruct (decide (k' = k)) as [-> |]; [rewrite lookup_insert_eq; by eexists |]. by rewrite lookup_insert_ne. Qed.

(** The obligations of [grows] for one update. *)
Ltac grows_close :=
  split; cbn; try done; try lia; intros;
  first [ by left | by apply fresh_refl | apply fresh_insert; first [left; by eexists | right; cbn; lia] | by apply fresh_delete
        | by apply fresh_alter | by apply alter_is_Some | by apply insert_is_Some
        | match goal with
          | H : <[_ := _]> _ !! _ = Some _ |- _ =>
              apply lookup_insert_Some in H as [[<- <-] | [? ?]]; first [by right | right; rewrite lookup_insert_eq; by eexists | by left | left; by eexists]
          | H : delete _ _ !! _ = Some _ |- _ =>
              apply lookup_delete_Some in H as [? ?]; left; by eexists
          | H : _ !! _ = Some _ |- _ => left; by eexists
          end
        | rewrite lookup_insert_ne; [done | congruence]
        | congruence ].

Lemma step_grows {R} (e : mmE R) l w r l' w' : mm_h R e (l, w) = Done r (l', w') -> grows w w'.
Proof.
  destruct e; unfold mm_h, sys_open, sys_ftruncate, sys_fstat, sys_mmap, sys_pwrite,
    allocate, slot_load, slot_store, store_byte, on_md, read_md, md_at, read_handle, on_handle,
    read_chunk, on_chunk, cas_field, pop_fault, alloc_fd, put_meta; intros H;
    repeat (cbn -[Z.ltb Z.leb Z.modulo Z.eqb] in H; first
      [ done
      | match type of H with
        | context [match w_faults ?w with _ => _ end] => destruct (w_faults w) eqn:?
        | context [match ?x with _ => _ end] =>
            lazymatch x with context [match _ with _ => _ end] => fail | _ => destruct x eqn:? end
        end ]); injection H as <- <- <-; grows_close.
Qed.
