(* ===== verification/MmlogShare.v ===== *)
(** * mmlog.h: a log that its threads open themselves

    [MmlogInv] describes threads on handles that are open already. Here every thread begins with
    [mmlog_open]: one of them creates the files, the others wait until it is done, and
    some insert while others still open. The log goes through three phases; the
    names (handles, mappings, descriptors) that a thread acquires while it opens are its own until it
    has published its handle, and [MmlogInv.inv] holds, from the moment the metadata are
    ready, of the world without them. No call of this part fails; waiting may. *)
From stdpp Require Import base gmap sets list strings relations.
From Stdlib Require Import ZArith Lia.
From S2P Require Import Prelude Prog Conc MmlogTypes MmlogOs MmlogOpen MmlogInv MmlogView.

(** Nobody has created the log; thread [i] is creating it, with metadata in inode [mi] and, when it
    got so far, data in inode [di]; or it is ready. *)
Inductive phase : Type :=
| Absent
| Creating (i : nat) (mi : Z) (di : option Z)
| Ready (mi di : Z).

(** The ghost of the threads that insert, who acquired a name, which threads have published
    their handle, and the phase. *)
Record sghost := MkSG {
  s_g : ghost;
  s_own : gmap Z nat;
  s_pub : gset nat;
  s_phase : phase }.

Definition sw : Type := world * sghost.

(** A new name belongs to its thread while the thread is not published. *)
Definition acquire (i : nat) (r : Z) (G : sghost) : gmap Z nat :=
  if decide (i ∈ s_pub G) then s_own G
  else if r <=? 0 then s_own G else <[r := i]> (s_own G).

(** [open] numbers a file it creates just below the descriptor. *)
Definition phase_open (i : nat) (creat excl : bool) (r : Z) (ph : phase) : phase :=
  match ph with
  | Absent => if creat && excl && negb (r =? -1) then Creating i (r - 1) None else ph
  | Creating j m _ => if creat && negb excl then Creating j m (Some (r - 1)) else ph
  | Ready _ _ => ph
  end.

Definition phase_ready (ph : phase) : phase :=
  match ph with
  | Creating _ m (Some d) => Ready m d
  | _ => ph
  end.

Definition is_ready_field {T} (f : md_field T) : bool :=
  match f with MdReady => true | _ => false end.

Definition is_head_field {T} (f : h_field T) : bool :=
  match f with HHead => true | _ => false end.

Definition s_upd (R : Type) (i : nat) (e : mmE R) (r : R) (G : sghost) : sghost :=
  let g := g_upd R i e r (s_g G) in
  match e in mmE R return R -> sghost with
  | Open _ creat excl => fun r => MkSG g (acquire i r G) (s_pub G) (phase_open i creat excl r (s_phase G))
  | Mmap _ _ _ => fun r => MkSG g (acquire i r G) (s_pub G) (s_phase G)
  | CallocHandle => fun r => MkSG g (acquire i r G) (s_pub G) (s_phase G)
  | HStore f _ _ => fun _ =>
      MkSG g (s_own G) (if is_head_field f then {[i]} ∪ s_pub G else s_pub G) (s_phase G)
  | MdStore f _ _ => fun _ =>
      MkSG g (s_own G) (s_pub G) (if is_ready_field f then phase_ready (s_phase G) else s_phase G)
  | _ => fun _ => MkSG g (s_own G) (s_pub G) (s_phase G)
  end r.

Definition sh : nat -> handler mmE (mmlog_err_t * sw) := instr mm_h s_upd.

(** ** Who sees what *)

(** The names of the threads in [P], and those that nobody acquired. *)
Definition seen (P : nat -> bool) (own : gmap Z nat) (k : Z) : bool :=
  match own !! k with
  | None => true
  | Some j => P j
  end.

(** Not a name that an unpublished thread acquired. *)
Definition vis (G : sghost) : Z -> bool := seen (fun j => bool_decide (j ∈ s_pub G)) (s_own G).

(** A handle that thread [i] may use. *)
Definition mine (i : nat) (G : sghost) : Z -> bool :=
  seen (fun j => bool_decide (j = i /\ j ∈ s_pub G)) (s_own G).

(** What all published threads share, and the part that thread [i] uses. *)
Definition full (S : sw) : gw := (view (vis S.2) (vis S.2) S.1, s_g S.2).
Definition part (i : nat) (S : sw) : gw := (view (mine i S.2) (vis S.2) S.1, s_g S.2).

Section Share.
(** The log's name and chunk size, and how many bytes each thread may write. *)
Context (name : string) (CS : Z) (HCS : 0 < CS < 2 ^ 32) (budgets : list Z).

Definition meta_name : string := String.append name suffix.
Definition ghost_start : ghost := MkG None [] budgets ∅.

Definition phase_inv (S : sw) : Prop :=
  let '(w, G) := S in
  match s_phase G with
  | Absent =>
      w_names w !! meta_name = None /\ w_names w !! name = None /\
      w_chunks w = ∅ /\ s_pub G = ∅ /\ s_g G = ghost_start
  | Creating i m od =>
      w_names w !! meta_name = Some m /\ w_names w !! name = od /\
      is_ready (i_meta (inode_at w m)) = false /\ 0 <= i_size (inode_at w m) /\
      w_chunks w = ∅ /\ s_pub G = ∅ /\ s_g G = ghost_start
  | Ready m d =>
      w_names w !! meta_name = Some m /\ w_names w !! name = Some d /\ m <> d /\
      inv m d CS 0 (full S)
  end.

Record sinv (S : sw) : Prop := {
  si_faults : w_faults S.1 = [];
  si_next : 2 <= w_next S.1;
  si_maps : forall k, is_Some (w_maps S.1 !! k) -> 2 <= k < w_next S.1;
  si_chunks : forall k, is_Some (w_chunks S.1 !! k) -> 2 <= k < w_next S.1;
  si_handles : forall k, is_Some (w_handles S.1 !! k) -> is_Some (s_own S.2 !! k);
  si_fds : forall k, is_Some (w_fds S.1 !! k) -> k < w_next S.1;
  si_inodes : forall k, is_Some (w_inodes S.1 !! k) -> k < w_next S.1;
  si_names : forall p k, w_names S.1 !! p = Some k -> is_Some (w_inodes S.1 !! k);
  si_own : forall k, is_Some (s_own S.2 !! k) -> 2 <= k < w_next S.1;
  si_phase : phase_inv S }.

Definition phase_rely (i : nat) (S S' : sw) : Prop :=
  match s_phase S.2 with
  | Absent => forall m o, s_phase S'.2 <> Creating i m o
  | Creating j m o =>
      if decide (j = i)
      then s_phase S'.2 = s_phase S.2 /\ w_inodes S'.1 !! m = w_inodes S.1 !! m /\
           forall d, o = Some d -> w_inodes S'.1 !! d = w_inodes S.1 !! d
      else (exists o', s_phase S'.2 = Creating j m o') \/ exists d, s_phase S'.2 = Ready m d
  | Ready m d => s_phase S'.2 = Ready m d /\ rely m d CS i (part i S) (part i S')
  end.

Record srely (i : nat) (S S' : sw) : Prop := {
  sr_next : w_next S.1 <= w_next S'.1;
  sr_clock : w_clock S'.1 = w_clock S.1;
  sr_reads : (w_reads S.1 <= w_reads S'.1)%nat;
  sr_names : forall p m, w_names S.1 !! p = Some m -> w_names S'.1 !! p = Some m;
  sr_own : forall k, s_own S.2 !! k = Some i <-> s_own S'.2 !! k = Some i;
  sr_pub : i ∈ s_pub S.2 <-> i ∈ s_pub S'.2;
  sr_handles : forall k, s_own S.2 !! k = Some i -> w_handles S'.1 !! k = w_handles S.1 !! k;
  sr_maps : forall k, i ∉ s_pub S.2 -> s_own S.2 !! k = Some i -> w_maps S'.1 !! k = w_maps S.1 !! k;
  sr_fds : forall k, i ∉ s_pub S.2 -> s_own S.2 !! k = Some i -> w_fds S'.1 !! k = w_fds S.1 !! k;
  sr_size : forall m, w_names S.1 !! meta_name = Some m ->
    0 < i_size (inode_at S.1 m) -> 0 < i_size (inode_at S'.1 m);
  sr_budget : g_budget (s_g S'.2) !! i = g_budget (s_g S.2) !! i;
  sr_claims : my_claims i (g_claims (s_g S'.2)) = my_claims i (g_claims (s_g S.2));
  sr_phase : phase_rely i S S' }.

#[export] Instance srely_pre i : PreOrder (srely i).
Proof.
  split.
  - intros S. split; try done. unfold phase_rely. destruct (s_phase S.2) as [| j m o | m d] eqn:E.
    + done.
    + case_decide; [done |]. left. by exists o.
    + split; [done | reflexivity].
  - intros S1 S2 S3 H12 H23. split.
    + etrans; [apply H12 | apply H23].
    + rewrite (sr_clock _ _ _ H23). apply H12.
    + etrans; [apply H12 | apply H23].
    + intros p m Hp. by apply (sr_names _ _ _ H23), (sr_names _ _ _ H12).
    + intros k. rewrite (sr_own _ _ _ H12). apply H23.
    + rewrite (sr_pub _ _ _ H12). apply H23.
    + intros k Hk. rewrite (sr_handles _ _ _ H23); [by apply (sr_handles _ _ _ H12) |].
      by apply (sr_own _ _ _ H12).
    + intros k Hi Hk. rewrite (sr_maps _ _ _ H23); [by apply (sr_maps _ _ _ H12) | |].
      * by rewrite <-(sr_pub _ _ _ H12).
      * by apply (sr_own _ _ _ H12).
    + intros k Hi Hk. rewrite (sr_fds _ _ _ H23); [by apply (sr_fds _ _ _ H12) | |].
      * by rewrite <-(sr_pub _ _ _ H12).
      * by apply (sr_own _ _ _ H12).
    + intros m Hm Hs. apply (sr_size _ _ _ H23); [by apply (sr_names _ _ _ H12) |].
      by apply (sr_size _ _ _ H12).
    + rewrite (sr_budget _ _ _ H23). apply H12.
    + rewrite (sr_claims _ _ _ H23). apply H12.
    + pose proof (sr_phase _ _ _ H12) as P12. pose proof (sr_phase _ _ _ H23) as P23.
      unfold phase_rely in *. destruct (s_phase S1.2) as [| j m o | m d] eqn:E1.
      * destruct (s_phase S2.2) as [| j m o | m d] eqn:E2.
        -- done.
        -- destruct (decide (j = i)) as [-> | Hne]; [by destruct (P12 m o) |].
           intros m' o' E. destruct P23 as [[o2 E3] | [d E3]]; congruence.
        -- destruct P23 as [-> _]. done.
      * destruct (decide (j = i)) as [-> | Hne].
        -- destruct P12 as (E2 & Hm & Hd). rewrite E2, decide_True in P23 by done.
           destruct P23 as (E3 & Hm3 & Hd3). split; [done |]. split; [congruence |].
           intros d Ho. rewrite Hd3, Hd; done.
        -- destruct P12 as [[o' E2] | [d E2]]; rewrite E2 in P23.
           ++ by rewrite decide_False in P23 by done.
           ++ right. exists d. apply P23.
      * destruct P12 as [E2 R12]. rewrite E2 in P23. destruct P23 as [E3 R23].
        split; [done | by etrans].
Qed.

#[export] Instance srely_relypre : RelyPre srely := srely_pre.

(** ** Steps that the published threads do not see *)

(** Only counters and private memory change. *)
Record quiet (w w' : world) : Prop := {
  qu_maps : w_maps w' = w_maps w;
  qu_fds : w_fds w' = w_fds w;
  qu_handles : w_handles w' = w_handles w;
  qu_chunks : w_chunks w' = w_chunks w;
  qu_inodes : w_inodes w' = w_inodes w;
  qu_next : w_next w <= w_next w';
  qu_clock : w_clock w' = w_clock w;
  qu_reads : (w_reads w <= w_reads w')%nat }.

Lemma quiet_rely m d j w w' g : quiet w w' -> rely m d CS j (w, g) (w', g).
Proof.
  intros []. split.
  - unfold core_of, inode_at. simpl. rewrite qu_inodes0. reflexivity.
  - split; simpl; rewrite ?qu_maps0, ?qu_fds0, ?qu_handles0, ?qu_chunks0; try done.
    + intros h x Hx. by exists x.
    + intros c k Hk _. by exists k.
Qed.

Lemma quiet_inv m d w w' g : inv m d CS 0 (w, g) -> quiet w w' -> inv m d CS 0 (w', g).
Proof.
  intros (Hf & Hc & Hh) Hq. pose proof (quiet_rely m d 0 w w' g Hq) as [_ Hr]. destruct Hq, Hh. simpl in *.
  split; [| split].
  - unfold files_ok, inode_at in *. simpl in *. by rewrite qu_inodes0.
  - unfold core_of, inode_at in *. simpl in *. by rewrite qu_inodes0.
  - split; simpl; try lia.
    + intros k. rewrite qu_maps0. intros Hk. specialize (hi_maps k Hk). lia.
    + intros k. rewrite qu_chunks0. intros Hk. specialize (hi_chunks k Hk). lia.
    + intros k Hk. specialize (hi_owner k Hk). lia.
    + intros h x. rewrite qu_handles0. intros Hx. destruct (hi_handles h x Hx). split; [done |].
      by apply (handle_ok_mono m d CS 0 (w, g) (w', g)).
Qed.

(** A step of a thread that is still opening changes the tables at its own names only. *)
Record tables (i : nat) (S S' : sw) : Prop := {
  lo_chunks : w_chunks S'.1 = w_chunks S.1;
  lo_faults : w_faults S'.1 = w_faults S.1;
  lo_next : w_next S.1 <= w_next S'.1;
  lo_clock : w_clock S'.1 = w_clock S.1;
  lo_reads : (w_reads S.1 <= w_reads S'.1)%nat;
  lo_g : s_g S'.2 = s_g S.2;
  lo_pub : s_pub S'.2 = s_pub S.2;
  lo_i : i ∉ s_pub S.2;
  lo_own : forall k j, s_own S.2 !! k = Some j -> s_own S'.2 !! k = Some j;
  lo_new : forall k j, s_own S'.2 !! k = Some j ->
    s_own S.2 !! k = Some j \/ j = i /\ w_next S.1 <= k < w_next S'.1;
  lo_maps : forall k, s_own S'.2 !! k <> Some i -> w_maps S'.1 !! k = w_maps S.1 !! k;
  lo_fds : forall k, s_own S'.2 !! k <> Some i -> w_fds S'.1 !! k = w_fds S.1 !! k;
  lo_handles : forall k, s_own S'.2 !! k <> Some i -> w_handles S'.1 !! k = w_handles S.1 !! k;
  lo_new_maps : fresh_keys S.1 S'.1 (w_maps S.1) (w_maps S'.1);
  lo_new_fds : fresh_keys S.1 S'.1 (w_fds S.1) (w_fds S'.1) }.

(** It leaves the files alone as well. *)
Definition local (i : nat) (S S' : sw) : Prop :=
  tables i S S' /\ w_names S'.1 = w_names S.1 /\ w_inodes S'.1 = w_inodes S.1 /\
  s_phase S'.2 = s_phase S.2.

Section Local.
Context (i : nat) (S S' : sw) (HS : sinv S) (Hl : tables i S S').

Lemma only_local {A} (P : nat -> bool) (m m' : gmap Z A) : P i = false ->
  (forall k, s_own S'.2 !! k <> Some i -> m' !! k = m !! k) ->
  (forall k, is_Some (m !! k) -> k < w_next S.1) ->
  only (seen P (s_own S'.2)) m' = only (seen P (s_own S.2)) m.
Proof using Hl.
  intros HP Hm Hr. apply map_eq. intros k. rewrite !only_lookup. unfold seen.
  destruct (s_own S'.2 !! k) as [j |] eqn:E.
  - destruct (lo_new _ _ _ Hl k j E) as [-> | [-> Hk]].
    + destruct (P j) eqn:EP; [| done]. apply Hm. rewrite E. congruence.
    + rewrite HP. destruct (s_own S.2 !! k) as [j |] eqn:E2.
      * apply (lo_own _ _ _ Hl) in E2. rewrite E2 in E. injection E as ->. by rewrite HP.
      * destruct (m !! k) eqn:Em; [| done]. specialize (Hr k (mk_is_Some _ _ Em)). lia.
  - destruct (s_own S.2 !! k) as [j |] eqn:E2; [| apply Hm; by rewrite E].
    apply (lo_own _ _ _ Hl) in E2. congruence.
Qed.

Lemma handles_range k : is_Some (w_handles S.1 !! k) -> k < w_next S.1.
Proof using HS. intros Hk. apply (si_own _ HS), (si_handles _ HS), Hk. Qed.

Lemma local_view P : P i = false -> w_inodes S'.1 = w_inodes S.1 ->
  quiet (view (seen P (s_own S.2)) (vis S.2) S.1) (view (seen P (s_own S'.2)) (vis S'.2) S'.1).
Proof using HS Hl.
  intros HP Hino. pose proof Hl as []. assert (bool_decide (i ∈ s_pub S.2) = false) as Hi by by apply bool_decide_eq_false.
  split; simpl; try done.
  - unfold vis. rewrite lo_pub0. apply only_local; [done | done |].
    intros k Hk. by apply (si_maps _ HS).
  - unfold vis. rewrite lo_pub0. apply only_local; [done | done | apply HS].
  - apply only_local; [done | done | apply handles_range].
Qed.

Lemma local_full : w_inodes S'.1 = w_inodes S.1 -> quiet (full S).1 (full S').1.
Proof using HS Hl.
  unfold full, vis at 1 3. rewrite (lo_pub _ _ _ Hl). apply local_view.
  apply bool_decide_eq_false, Hl.
Qed.

Lemma local_part j : j <> i -> w_inodes S'.1 = w_inodes S.1 -> quiet (part j S).1 (part j S').1.
Proof using HS Hl.
  intros Hj. unfold part, mine. rewrite (lo_pub _ _ _ Hl). apply local_view.
  apply bool_decide_eq_false. intros [-> _]. done.
Qed.

(** A step on its own names that may also change the files and the phase. *)
Lemma tables_inv :
  (forall k, is_Some (w_inodes S'.1 !! k) -> k < w_next S'.1) ->
  (forall p k, w_names S'.1 !! p = Some k -> is_Some (w_inodes S'.1 !! k)) ->
  phase_inv S' -> sinv S'.
Proof using HS Hl.
  intros Hino Hnam Hph. pose proof HS as []. pose proof Hl as []. split.
  - congruence.
  - lia.
  - intros k Hk. destruct (lo_new_maps0 k Hk) as [Hk' | ?]; [specialize (si_maps0 k Hk') |]; lia.
  - intros k. rewrite lo_chunks0. intros Hk. specialize (si_chunks0 k Hk). lia.
  - intros k Hk. destruct (decide (s_own S'.2 !! k = Some i)) as [-> | Hne]; [by eexists |].
    rewrite lo_handles0 in Hk by done. destruct (si_handles0 k Hk) as [j Hj]. exists j. auto.
  - intros k Hk. destruct (lo_new_fds0 k Hk) as [Hk' | ?]; [specialize (si_fds0 k Hk') |]; lia.
  - done.
  - done.
  - intros k [j Hj]. destruct (lo_new0 k j Hj) as [Hj' | [_ ?]]; [| lia].
    specialize (si_own0 k (mk_is_Some _ _ Hj')). lia.
  - done.
Qed.

Lemma tables_guar :
  (forall p m, w_names S.1 !! p = Some m -> w_names S'.1 !! p = Some m) ->
  (forall m, w_names S.1 !! meta_name = Some m ->
    0 < i_size (inode_at S.1 m) -> 0 < i_size (inode_at S'.1 m)) ->
  (forall j, j <> i -> phase_rely j S S') -> guar srely i S S'.
Proof using HS Hl.
  intros Hnam Hsz Hph j Hj. pose proof Hl as [].
  assert (forall k, s_own S.2 !! k = Some j <-> s_own S'.2 !! k = Some j) as Ho.
  { intros k. split; [apply lo_own0 |]. intros Hk. by destruct (lo_new0 k j Hk) as [? | [-> _]]. }
  assert (forall k, s_own S.2 !! k = Some j -> s_own S'.2 !! k <> Some i) as Hoj.
  { intros k Hk. apply Ho in Hk. congruence. }
  split; try done; try (by rewrite lo_g0); auto.
  by rewrite lo_pub0.
Qed.

Lemma local_ok : local i S S' -> sinv S' /\ guar srely i S S'.
Proof using HS Hl.
  intros (_ & Hn & Hino & Hp). pose proof HS as []. split.
  - apply tables_inv.
    + intros k. rewrite Hino. intros Hk. specialize (si_inodes0 k Hk). pose proof (lo_next _ _ _ Hl). lia.
    + intros p k. rewrite Hn, Hino. apply si_names0.
    + pose proof (local_full Hino) as Hq. unfold phase_inv in *. destruct S as [w G], S' as [w' G']. simpl in *.
      pose proof (lo_chunks _ _ _ Hl) as E1. pose proof (lo_pub _ _ _ Hl) as E2. pose proof (lo_g _ _ _ Hl) as E3.
      simpl in *. rewrite Hp, Hn, E1, E2, E3. unfold inode_at. rewrite Hino. destruct (s_phase G); [done | done |].
      destruct si_phase0 as (? & ? & ? & Hi). do 3 (split; [done |]).
      unfold full in *. simpl in *. rewrite E3. by eapply quiet_inv.
  - apply tables_guar.
    + intros p m. by rewrite Hn.
    + intros m _. unfold inode_at. by rewrite Hino.
    + intros j Hj. unfold phase_rely. rewrite Hp. destruct (s_phase S.2) as [| a m o | m d].
      * done.
      * rewrite Hino. case_decide; [done |]. left. by exists o.
      * split; [done |]. pose proof (local_part j Hj Hino) as Hq. unfold part in *. simpl in *.
        rewrite (lo_g _ _ _ Hl). by apply quiet_rely.
Qed.
End Local.
End Share.
