(* ===== verification/MmlogLift.v ===== *)
(** * mmlog.h: a published thread among opening ones

    A thread that has published its handle runs as in [MmlogConc]: what is proved safe for it
    in its part of the world is safe in the whole. *)
From stdpp Require Import base gmap sets list strings relations.
From Stdlib Require Import ZArith Lia.
From S2P Require Import Prelude Prog Conc MmlogTypes MmlogOs MmlogOpen MmlogInv MmlogView MmlogShare.

Section Widen.
Context (MI DI CS : Z) (vh vh' vr : Z -> bool).

Lemma rely_widen j w w' g g' :
  rely MI DI CS j (view vh vr w, g) (view vh vr w', g') ->
  (forall h x, vh' h = true -> w_handles w !! h = Some x -> w_handles w' !! h = Some x) ->
  rely MI DI CS j (view vh' vr w, g) (view vh' vr w', g').
Proof.
  intros [Hc Hh] Hk. split; [exact Hc |]. destruct Hh. split; try done.
  intros h x Hx. apply only_Some in Hx as [Hv Hx]. exists x. split; [| done].
  simpl. rewrite only_lookup, Hv. by apply Hk.
Qed.

Lemma handle_ok_view w x : handle_ok MI DI CS (view vh vr w) x -> handle_ok MI DI CS (view vh' vr w) x.
Proof. by intros []. Qed.

Lemma inv_widen C0 w g : inv MI DI CS C0 (view vh vr w, g) ->
  (forall h x, vh' h = true -> w_handles w !! h = Some x -> h <> NULL /\ handle_ok MI DI CS (view vh vr w) x) ->
  inv MI DI CS C0 (view vh' vr w, g).
Proof.
  intros (Hf & Hc & []) Hk. split; [done |]. split; [done |]. split; try done.
  intros h x Hx. apply only_Some in Hx as [Hv Hx].
  destruct (Hk h x Hv Hx). split; [done | by apply handle_ok_view].
Qed.
End Widen.

Section Lift.
Context (name : string) (CS : Z) (HCS : 0 < CS < 2 ^ 32) (budgets : list Z).
Context (MI DI : Z) (i : nat).

Abbreviation Inv := (inv MI DI CS 0).
Abbreviation Rely := (rely MI DI CS).
Abbreviation SInv := (sinv name CS budgets).
Abbreviation SRely := (srely name CS).

(** The log is ready and thread [i] has published its handle. *)
Definition joined (S : sw) : Prop := s_phase S.2 = Ready MI DI /\ i ∈ s_pub S.2.

Lemma joined_rely S S' : SRely i S S' -> joined S -> joined S' /\ Rely i (part i S) (part i S').
Proof.
  intros [] [Hp Hi]. unfold phase_rely in *. rewrite Hp in sr_phase. destruct sr_phase as [Hp' Hr].
  split; [| done]. split; [done |]. by apply sr_pub.
Qed.

Lemma joined_inv S : SInv S -> joined S -> w_names S.1 !! meta_name name = Some MI /\
  w_names S.1 !! name = Some DI /\ MI <> DI /\ Inv (full S).
Proof. intros [] [Hp _]. unfold phase_inv in *. destruct S as [w G]. simpl in *. by rewrite Hp in si_phase. Qed.

Lemma mine_vis j G k : mine j G k = true -> vis G k = true.
Proof.
  unfold mine, vis, seen. destruct (s_own G !! k) as [j' |]; [| done].
  rewrite !bool_decide_eq_true. tauto.
Qed.

Lemma part_inv j S : Inv (full S) -> Inv (part j S).
Proof.
  intros Hi. unfold full, part in *. eapply inv_widen; [exact Hi |].
  intros h x Hv Hx. destruct Hi as (_ & _ & []). apply hi_handles. simpl.
  by rewrite only_lookup, (mine_vis _ _ _ Hv).
Qed.

Lemma fresh_seen S : SInv S -> forall k, w_next S.1 <= k -> mine i S.2 k = true /\ vis S.2 k = true.
Proof.
  intros HS k Hk. unfold mine, vis, seen. destruct (s_own S.2 !! k) as [j |] eqn:E; [| done].
  apply mk_is_Some, (si_own _ _ _ _ HS) in E. lia.
Qed.

Lemma s_upd_joined R (e : mmE R) r S : joined S ->
  s_upd R i e r S.2 = MkSG (g_upd R i e r (s_g S.2)) (s_own S.2) (s_pub S.2) (s_phase S.2).
Proof.
  intros [Hp Hi]. assert ({[i]} ∪ s_pub S.2 = s_pub S.2) as Hu by set_solver.
  unfold s_upd, acquire. rewrite Hp.
  destruct e; rewrite ?decide_True by done; try done.
  - by destruct (is_ready_field f).
  - by destruct (is_head_field f); rewrite ?Hu.
Qed.

(** What other threads may rely on across a step of a published thread. *)
Lemma lift_step S w1 w2 g2 : SInv S -> joined S -> grows S.1 w2 ->
  view (mine i S.2) (vis S.2) w2 = w1 -> hidden_same (mine i S.2) (vis S.2) S.1 w2 ->
  Inv (w1, g2) -> guar Rely i (part i S) (w1, g2) ->
  let S2 := (w2, MkSG g2 (s_own S.2) (s_pub S.2) (s_phase S.2)) in
  SInv S2 /\ guar SRely i S S2.
Proof.
  intros HS Hj Hgr <- (Hh & Hm & Hf) Hi Hg S2. pose proof HS as []. pose proof Hgr as [].
  destruct (joined_inv _ HS Hj) as (Hn1 & Hn2 & Hne & Hfull). pose proof Hj as [Hp Hpub].
  (* a handle of another thread is untouched *)
  assert (forall h j, j <> i -> s_own S.2 !! h = Some j -> w_handles w2 !! h = w_handles S.1 !! h) as Hother.
  { intros h j Hji Ho. apply Hh. unfold mine, seen. rewrite Ho. apply bool_decide_eq_false. tauto. }
  (* a new handle would have to be well formed *)
  assert (forall h x, w_handles w2 !! h = Some x -> is_Some (s_own S.2 !! h)) as Hown.
  { intros h x Hx. destruct (gr_new_handles _ _ Hx) as [Ho | ->]; [by apply si_handles |].
    destruct (mine i S.2 h) eqn:Hv.
    - exfalso. destruct Hi as (_ & _ & []). destruct (hi_handles h zero_handle) as [_ []].
      { simpl. by rewrite only_lookup, Hv. }
      destruct ho_meta as (mp & Hmp & _). specialize (hi_maps _ (mk_is_Some _ _ Hmp)). unfold zero_handle, NULL in hi_maps. simpl in hi_maps. lia.
    - unfold mine, seen in Hv. destruct (s_own S.2 !! h); [by eexists | done]. }
  split.
  - split; simpl; try lia.
    + auto.
    + intros k Hk. destruct (gr_new_maps k Hk) as [Hk' | Hk']; [specialize (si_maps k Hk')|]; lia.
    + intros k Hk. destruct (gr_new_chunks k Hk) as [Hk' | Hk']; [specialize (si_chunks k Hk')|]; lia.
    + intros h [x Hx]. by eapply Hown.
    + intros k Hk. destruct (gr_new_fds k Hk) as [Hk' | Hk']; [specialize (si_fds k Hk')|]; lia.
    + intros k Hk. destruct (gr_new_inodes k Hk) as [Hk' | Hk']; [specialize (si_inodes k Hk')|]; lia.
    + intros p k Hk. destruct (gr_new_names p k Hk) as [Hk' | Hk']; [by eapply gr_inodes, si_names | done].
    + intros k Hk. specialize (si_own k Hk). lia.
    + rewrite Hp. split; [by apply gr_names |]. split; [by apply gr_names |]. split; [done |].
      unfold full. simpl. apply (inv_widen MI DI CS (mine i S.2)); [exact Hi |]. intros h x Hv Hx.
      change (vis S.2 h = true) in Hv.
      destruct (mine i S.2 h) eqn:Hmi.
      * destruct Hi as (_ & _ & []). apply hi_handles. simpl. by rewrite only_lookup, Hmi.
      * rewrite Hh in Hx by done. destruct Hfull as (_ & _ & []).
        destruct (hi_handles h x) as [Hn Hok]; [simpl; by rewrite only_lookup, Hv |]. split; [done |].
        destruct (Hg (Datatypes.S i) ltac:(lia)) as [_ Hr].
        apply (handle_ok_mono MI DI CS _ _ _ _ Hr). exact (handle_ok_view _ _ _ _ _ _ _ _ Hok).
  - intros j Hji. pose proof (Hg j Hji) as Hrj. split; simpl; try done.
    + apply (hr_clock _ _ _ _ _ (proj2 Hrj)).
    + apply (hr_reads _ _ _ _ _ (proj2 Hrj)).
    + intros k Hk. by eapply Hother.
    + intros k Hnj Hk. apply Hm. unfold vis, seen. rewrite Hk. by apply bool_decide_eq_false.
    + intros k Hnj Hk. apply Hf. unfold vis, seen. rewrite Hk. by apply bool_decide_eq_false.
    + intros m Hm' _. rewrite Hn1 in Hm'. injection Hm' as <-. by destruct Hi as ((_ & _ & ?) & _).
    + apply (cr_budget _ _ _ (proj1 Hrj)).
    + apply (cr_mine _ _ _ (proj1 Hrj)).
    + unfold phase_rely. simpl. rewrite Hp. split; [done |]. unfold part. simpl.
      eapply rely_widen; [exact Hrj |]. intros h x Hv Hx.
      destruct (si_handles h (mk_is_Some _ _ Hx)) as [j' Hj'].
      assert (j' = j) as ->.
      { change (mine j S.2 h = true) in Hv. unfold mine, seen in Hv. rewrite Hj' in Hv. apply bool_decide_eq_true in Hv. tauto. }
      by rewrite (Hother h j Hji Hj').
Qed.

Lemma sh_eq j R (e : mmE R) l w G : sh j R e (l, (w, G)) =
  match mm_h R e (l, w) with
  | Done r (l', w') => Done r (l', (w', s_upd R j e r G))
  | Stopped s (l', w') => Stopped s (l', (w', G))
  end.
Proof. done. Qed.

Lemma ih_eq j R (e : mmE R) l w g : ih j R e (l, (w, g)) =
  match strict R e (l, w) with
  | Done r (l', w') => Done r (l', (w', g_upd R j e r g))
  | Stopped s (l', w') => Stopped s (l', (w', g))
  end.
Proof. done. Qed.

#[local] Arguments mm_h : simpl never.
#[local] Arguments strict : simpl never.
#[local] Arguments sh : simpl never.
#[local] Arguments ih : simpl never.

(** What is safe in its part of the world is safe. *)
Lemma lift_safe {A} (p : mm A) Q l S : joined S ->
  safe ih Inv Rely i p Q l (part i S) ->
  safe sh SInv SRely i p (fun a l' S' => joined S' /\ Q a l' (part i S')) l S.
Proof.
  revert l S. induction p as [a | s | R e k IH]; simpl; intros l S Hj Hs; [| done |]; intros S' Hr HS';
    destruct (joined_rely _ _ Hr Hj) as [Hj' Hrp];
    destruct (joined_inv _ HS' Hj') as (_ & _ & _ & Hfull); pose proof (part_inv i S' Hfull) as Hip.
  - split; [done |]. by apply Hs.
  - specialize (Hs (part i S') Hrp Hip). destruct S' as [w G].
    pose proof (view_step (mine i G) (vis G) w (fresh_seen _ HS') e l) as Hv.
    unfold part in Hs. rewrite ih_eq in Hs. rewrite sh_eq. cbn [fst snd] in *.
    destruct (strict R e (l, view (mine i G) (vis G) w)) as [r [l1 w1] | ? [? ?]]; [| done].
    destruct Hv as (w2 & Hm & Hw & Hh). rewrite Hm. destruct Hs as (Hi1 & Hg1 & Hs1).
    pose proof (s_upd_joined R e r (w, G) Hj') as Hu. cbn [snd] in Hu. rewrite Hu.
    destruct (lift_step (w, G) w1 w2 (g_upd R i e r (s_g G))) as [HS2 Hg2]; try done.
    { by eapply step_grows. }
    split; [done |]. split; [done |]. apply IH.
    + exact Hj'.
    + unfold part. cbn [fst snd s_g]. change (view (mine i _) (vis _) w2) with (view (mine i G) (vis G) w2).
      by rewrite Hw.
Qed.
End Lift.
