(* ===== verification/MmlogJoin.v ===== *)
(** * mmlog.h: opening a log while others open or use it

    The operations of [mmlog_open] against the phases of [MmlogShare]: what each does for the thread
    that opens, and that the others do not notice. *)
From stdpp Require Import base gmap sets list strings relations.
From Stdlib Require Import ZArith Lia.
From S2P Require Import Prelude Prog Conc MmlogTypes MmlogOs MmlogOpen MmlogInv MmlogWait.
From S2P Require Import MmlogView MmlogShare MmlogLift.

#[local] Arguments Z.add : simpl never.

(** ** Steps that change counters and private memory only *)

Section Idle.
Context (name : string) (CS : Z) (budgets : list Z).

Lemma local_counters i w w' G : sinv name CS budgets (w, G) -> i ∉ s_pub G ->
  w_names w' = w_names w -> w_faults w' = w_faults w -> quiet w w' -> local i (w, G) (w', G).
Proof.
  intros Hi Hp En Ef []. split; [| simpl; by rewrite En, qu_inodes]. split; simpl; try done.
  - by left.
  - intros k _. by rewrite qu_maps.
  - intros k _. by rewrite qu_fds.
  - intros k _. by rewrite qu_handles.
  - rewrite qu_maps. by apply fresh_refl.
  - rewrite qu_fds. by apply fresh_refl.
Qed.

(** Nobody notices them, not even the published threads: they could be steps of an unpublished one. *)
Lemma idle_ok w w' G : sinv name CS budgets (w, G) ->
  w_names w' = w_names w -> w_faults w' = w_faults w -> quiet w w' ->
  sinv name CS budgets (w', G) /\ forall j, srely name CS j (w, G) (w', G).
Proof.
  intros Hi En Ef Hq.
  assert (forall j, sinv name CS budgets (w', G) /\ srely name CS j (w, G) (w', G)) as H.
  { intros j. set (k := fresh ({[j]} ∪ s_pub G)). pose proof (is_fresh ({[j]} ∪ s_pub G)) as Hk. fold k in Hk.
    assert (local k (w, G) (w', G)) as Hl by (apply local_counters; (done || set_solver)).
    destruct (local_ok name CS budgets k _ _ Hi (proj1 Hl) Hl) as [Hi' Hg]. split; [done |].
    apply Hg. set_solver. }
  split; [apply (H 0%nat) | intros j; apply H].
Qed.

Lemma sh_timed : timed sh (sinv name CS budgets) (srely name CS) fst.
Proof.
  split.
  - intros j S S' Hr. apply (sr_clock _ _ _ _ _ Hr).
  - intros j S S' Hr. apply (sr_reads _ _ _ _ _ Hr).
  - intros j e l [w []] _. done.
  - intros j l [w []] _. done.
  - intros j l [w G] Hi. exists (bump_reads w, G). destruct (idle_ok w (bump_reads w) G Hi) as [Hi' Hr]; try done.
    { split; try done. simpl. lia. }
    split; [by destruct G |]. split; [done |]. split; [intros k _; apply Hr | done].
Qed.
End Idle.

Section Join.
Context (name : string) (CS : Z) (HCS : 0 < CS < 2 ^ 32) (budgets : list Z).
Context (i : nat) (b : Z) (N : nat).

Abbreviation SInv := (sinv name CS budgets).
Abbreviation SRely := (srely name CS).
Abbreviation Safe := (safe sh SInv SRely).
Abbreviation meta_name := (meta_name name).

(** ** What a thread knows while it opens *)

(** It has not published a handle and has not claimed anything. *)
Record Opn (S : sw) : Prop := {
  on_pub : i ∉ s_pub S.2;
  on_budget : g_budget (s_g S.2) !! i = Some b;
  on_claims : my_claims i (g_claims (s_g S.2)) = [];
  on_clock : clock_ok N (w_clock S.1) }.

(** It has acquired nothing, or a handle [h] that is now [x], or a descriptor, or a mapping. *)
Definition Virgin (S : sw) : Prop := forall k, s_own S.2 !! k <> Some i.
Definition OwnH (h : Z) (x : log_handle_t) (S : sw) : Prop :=
  (s_own S.2) !! h = Some i /\ w_handles S.1 !! h = Some x /\
  forall k, s_own S.2 !! k = Some i -> is_Some (w_handles S.1 !! k) -> k = h.
Definition OwnFd (fd m : Z) (S : sw) : Prop := s_own S.2 !! fd = Some i /\ w_fds S.1 !! fd = Some m.
Definition OwnMap (a : Z) (mp : mmapping) (S : sw) : Prop :=
  s_own S.2 !! a = Some i /\ w_maps S.1 !! a = Some mp.

(** The opening thread has the handle [h], now [x], the descriptors [fs] and the mappings [ms]. *)
Record Mine (h : Z) (x : log_handle_t) (fs : list (Z * Z)) (ms : list (Z * mmapping)) (S : sw) : Prop := {
  mn_opn : Opn S;
  mn_handle : OwnH h x S;
  mn_fds : Forall (fun f => OwnFd f.1 f.2 S) fs;
  mn_maps : Forall (fun f => OwnMap f.1 f.2 S) ms }.

(** What it may give up again. *)
Definition Names (h : Z) (x : log_handle_t) (ks : list Z) (S : sw) : Prop :=
  Opn S /\ OwnH h x S /\ Forall (fun k => s_own S.2 !! k = Some i) ks.

(** A name of the file system; metadata that have been given their size; the phase. *)
Definition Named (p : string) (m : Z) (S : sw) : Prop := w_names S.1 !! p = Some m.
Definition Sized (m : Z) (S : sw) : Prop :=
  w_names S.1 !! meta_name = Some m /\ 0 < i_size (inode_at S.1 m).
Definition Rdy (m d : Z) (S : sw) : Prop := s_phase S.2 = Ready m d.
Definition Crt (m : Z) (im : inode) (od : option (Z * inode)) (S : sw) : Prop :=
  s_phase S.2 = Creating i m (fst <$> od) /\ w_inodes S.1 !! m = Some im /\
  match od with
  | Some (d, id) => d <> m /\ w_inodes S.1 !! d = Some id
  | None => True
  end.

Section Stable.
Context (S S' : sw) (Hr : SRely i S S').

Lemma Opn_rely : Opn S -> Opn S'.
Proof using Hr.
  destruct Hr. intros []. split.
  - by rewrite <-sr_pub.
  - by rewrite sr_budget.
  - by rewrite sr_claims.
  - by rewrite sr_clock.
Qed.

Lemma Virgin_rely : Virgin S -> Virgin S'.
Proof using Hr. intros Hv k Hk. apply (sr_own _ _ _ _ _ Hr) in Hk. by apply (Hv k). Qed.

Lemma OwnH_rely h x : OwnH h x S -> OwnH h x S'.
Proof using Hr.
  destruct Hr. intros (Ho & Hx & Hu). split; [by apply sr_own |]. split; [by rewrite sr_handles |].
  intros k Hk Hs. apply sr_own in Hk. apply Hu; [done |]. by rewrite <-sr_handles.
Qed.

Lemma Mine_rely h x fs ms : Mine h x fs ms S -> Mine h x fs ms S'.
Proof using Hr.
  intros []. split.
  - by apply Opn_rely.
  - by apply OwnH_rely.
  - eapply Forall_impl; [exact mn_fds0 |]. intros f [Ho Hx]. split; [by apply (sr_own _ _ _ _ _ Hr) |].
    rewrite (sr_fds _ _ _ _ _ Hr); [done | apply mn_opn0 | done].
  - eapply Forall_impl; [exact mn_maps0 |]. intros f [Ho Hx]. split; [by apply (sr_own _ _ _ _ _ Hr) |].
    rewrite (sr_maps _ _ _ _ _ Hr); [done | apply mn_opn0 | done].
Qed.

Lemma Names_rely h x ks : Names h x ks S -> Names h x ks S'.
Proof using Hr.
  intros (Ho & Hh & Hk). split; [by apply Opn_rely |]. split; [by apply OwnH_rely |].
  eapply Forall_impl; [exact Hk |]. intros k. apply (sr_own _ _ _ _ _ Hr).
Qed.

Lemma Named_rely p m : Named p m S -> Named p m S'.
Proof using Hr. apply (sr_names _ _ _ _ _ Hr). Qed.

Lemma Sized_rely m : Sized m S -> Sized m S'.
Proof using Hr. destruct Hr. intros [Hn Hs]. split; auto. Qed.

Lemma Rdy_rely m d : Rdy m d S -> Rdy m d S'.
Proof using Hr.
  destruct Hr. unfold Rdy. intros Hp. unfold phase_rely in sr_phase. rewrite Hp in sr_phase. apply sr_phase.
Qed.

Lemma Crt_rely m im od : Crt m im od S -> Crt m im od S'.
Proof using Hr.
  destruct Hr. intros (Hp & Hm & Hd). unfold phase_rely in sr_phase. rewrite Hp, decide_True in sr_phase by done.
  destruct sr_phase as (E1 & E2 & E3). split; [congruence |]. split; [congruence |].
  destruct od as [[d id] |]; [| done]. destruct Hd as [Hne Hd]. split; [done |]. by rewrite (E3 d).
Qed.
End Stable.

(** ** One operation *)

Definition sok {R} (e : mmE R) (l : mmlog_err_t) (S : sw) (F : R -> mmlog_err_t -> sw -> Prop) : Prop :=
  match sh i R e (l, S) with
  | Done r (l', S') => SInv S' /\ guar SRely i S S' /\ F r l' S'
  | Stopped _ _ => False
  end.

Lemma safe_sok {A R} (e : mmE R) (f : R -> mm A) Q l S :
  (forall S', SRely i S S' -> SInv S' -> sok e l S' (fun r l'' S'' => Safe i (f r) Q l'' S'')) ->
  Safe i (bind (trigger e) f) Q l S.
Proof.
  intros Hop. apply safe_trigger. intros S' Hr Hi. specialize (Hop S' Hr Hi).
  unfold sok in Hop. by destruct (sh i R e (l, S')) as [r [l' S''] |].
Qed.

(** An operation that changes the opening thread's names only. *)
Lemma sok_local {R} (e : mmE R) l S F r l' w' : SInv S ->
  mm_h R e (l, S.1) = Done r (l', w') -> local i S (w', s_upd R i e r S.2) ->
  F r l' (w', s_upd R i e r S.2) -> sok e l S F.
Proof.
  intros Hi He Hl HF. unfold sok. destruct S as [w G]. rewrite sh_eq. cbn [fst] in He. rewrite He.
  destruct (local_ok name CS budgets i (w, G) _ Hi (proj1 Hl) Hl) as [Hi' Hg]. done.
Qed.

(** One that changes nothing. *)
Lemma local_refl S : SInv S -> i ∉ s_pub S.2 -> local i S S.
Proof.
  intros Hi Hp. split; [| done]. split; try done; try lia.
  - intros k j Hk. by left.
  - by apply fresh_refl.
  - by apply fresh_refl.
Qed.

Lemma sok_read {R} (e : mmE R) l S F r l' : SInv S -> i ∉ s_pub S.2 ->
  mm_h R e (l, S.1) = Done r (l', S.1) -> s_upd R i e r S.2 = S.2 -> F r l' S -> sok e l S F.
Proof.
  intros Hi Hp He Hu HF. eapply sok_local; [done | exact He | rewrite Hu | rewrite Hu];
    destruct S as [w G]; [by apply local_refl | done].
Qed.

Lemma sok_mono {R} (e : mmE R) l S (F F' : R -> mmlog_err_t -> sw -> Prop) :
  sok e l S F -> (forall r l' S', SInv S' -> F r l' S' -> F' r l' S') -> sok e l S F'.
Proof.
  unfold sok. intros H HF. destruct (sh i R e (l, S)) as [r [l' S'] |]; [| done].
  destruct H as (? & ? & ?). auto.
Qed.

Lemma pop_none w : w_faults w = [] -> pop_fault w = (Succeeds, w).
Proof. unfold pop_fault. by intros ->. Qed.

(** *** The handle *)

Lemma local_handle h x f w G : OwnH h x (w, G) -> i ∉ s_pub G ->
  (forall k, k <> h -> f (w_handles w) !! k = w_handles w !! k) ->
  local i (w, G) (set_handles f w, G).
Proof.
  intros (Ho & Hx & _) Hi Hf. simpl in *. split; [| done]. split; try done; simpl; try lia.
  - intros k j Hk. by left.
  - intros k Hk. apply Hf. intros ->. done.
  - by apply fresh_refl.
  - by apply fresh_refl.
Qed.

Lemma acquire_new r G : i ∉ s_pub G -> 0 < r -> acquire i r G = <[r := i]> (s_own G).
Proof. intros Hi Hr. unfold acquire. rewrite decide_False by done. by rewrite (proj2 (Z.leb_gt r 0)). Qed.

(** A new name [n]: [w'] has it in one of the tables. *)
Lemma tables_new n w G w' ph : SInv (w, G) -> i ∉ s_pub G ->
  w_chunks w' = w_chunks w -> w_faults w' = w_faults w -> w_clock w' = w_clock w ->
  w_reads w' = w_reads w -> w_next w <= n < w_next w' ->
  (forall k, k <> n -> w_maps w' !! k = w_maps w !! k) ->
  (forall k, k <> n -> w_fds w' !! k = w_fds w !! k) ->
  (forall k, k <> n -> w_handles w' !! k = w_handles w !! k) ->
  tables i (w, G) (w', MkSG (s_g G) (<[n := i]> (s_own G)) (s_pub G) ph).
Proof.
  intros Hinv Hi E1 E2 E3 E4 E7 Hm Hf Hh.
  assert (s_own G !! n = None) as Hno.
  { destruct (s_own G !! n) eqn:E; [| done]. apply mk_is_Some, (si_own _ _ _ _ Hinv) in E.
    simpl in E. lia. }
  assert (forall k, <[n := i]> (s_own G) !! k <> Some i -> k <> n) as Hk.
  { intros k Hk ->. by rewrite lookup_insert_eq in Hk. }
  split; simpl; try done; try lia; auto.
  - intros k j Hj. rewrite lookup_insert_ne; [done |]. intros <-. congruence.
  - intros k j Hj. apply lookup_insert_Some in Hj as [[<- <-] | [_ Hj]]; [right; lia | by left].
  - intros k Hs. destruct (decide (k = n)) as [-> | Hne]; [right; simpl; lia |].
    left. by rewrite <-Hm.
  - intros k Hs. destruct (decide (k = n)) as [-> | Hne]; [right; simpl; lia |].
    left. by rewrite <-Hf.
Qed.

Lemma local_new w G w' : SInv (w, G) -> i ∉ s_pub G ->
  w_chunks w' = w_chunks w -> w_faults w' = w_faults w -> w_clock w' = w_clock w ->
  w_reads w' = w_reads w -> w_names w' = w_names w -> w_inodes w' = w_inodes w ->
  w_next w' = w_next w + 1 ->
  (forall k, k <> w_next w -> w_maps w' !! k = w_maps w !! k) ->
  (forall k, k <> w_next w -> w_fds w' !! k = w_fds w !! k) ->
  (forall k, k <> w_next w -> w_handles w' !! k = w_handles w !! k) ->
  local i (w, G) (w', MkSG (s_g G) (<[w_next w := i]> (s_own G)) (s_pub G) (s_phase G)).
Proof. intros. split; [| done]. apply tables_new; (done || lia). Qed.

(** The files and the phase are the same. *)
Definition same_files (S S' : sw) : Prop :=
  w_names S'.1 = w_names S.1 /\ w_inodes S'.1 = w_inodes S.1 /\ s_phase S'.2 = s_phase S.2.

Lemma op_calloc_handle l S : SInv S -> Opn S -> Virgin S ->
  sok CallocHandle l S (fun r _ S' => 2 <= r /\ Mine r zero_handle [] [] S').
Proof.
  intros Hi Ho Hv. destruct S as [w G]. pose proof (si_next _ _ _ _ Hi) as Hn. pose proof (on_pub _ Ho) as Hp.
  simpl in Hn, Hp. eapply sok_local; [done | | |].
  - simpl. unfold allocate. rewrite (pop_none w) by apply Hi. done.
  - cbn [s_upd g_upd]. rewrite acquire_new by (done || lia). apply local_new; try done.
    simpl. intros k Hk. by rewrite lookup_insert_ne.
  - cbn [s_upd g_upd]. rewrite acquire_new by (done || lia). split; [done |]. split; try done.
    + destruct Ho. by split.
    + split; simpl; [apply lookup_insert_eq |]. split; [apply lookup_insert_eq |].
      intros k Hk _. destruct (decide (k = w_next w)) as [| Hne]; [done |].
      rewrite lookup_insert_ne in Hk by done. by destruct (Hv k).
Qed.

Lemma op_my_load {T} (f : h_field T) h x fs ms l S : SInv S -> Mine h x fs ms S ->
  sok (HLoad f h) l S (fun r _ S' => S' = S /\ r = h_get f x).
Proof.
  intros Hi [Ho (_ & Hx & _) _ _]. eapply sok_read; [done | apply Ho | | by destruct S as [w []] | done].
  destruct S as [w G]. simpl in *. unfold read_handle. simpl. by rewrite Hx.
Qed.

(** Changing its own handle. *)
Lemma own_change h x x' w G : OwnH h x (w, G) -> OwnH h x' (set_handles <[h := x']> w, G).
Proof.
  intros (Ho & Hx & Hu). split; [done |]. split; [simpl; apply lookup_insert_eq |].
  simpl in *. intros k Hk Hs. destruct (decide (k = h)) as [| Hne]; [done |].
  apply Hu; [done |]. by rewrite lookup_insert_ne in Hs.
Qed.

Lemma sok_own {R} (e : mmE R) l h x x' w G r : SInv (w, G) -> OwnH h x (w, G) -> i ∉ s_pub G ->
  mm_h R e (l, w) = Done r (l, set_handles <[h := x']> w) -> s_upd R i e r G = G ->
  sok e l (w, G) (fun r' _ S' => S' = (set_handles <[h := x']> w, G)).
Proof.
  intros Hi Ho Hp He Hu. eapply sok_local; [done | exact He | |]; cbn [snd]; rewrite Hu; [| done].
  eapply local_handle; [done | done |]. intros k Hk. by rewrite lookup_insert_ne.
Qed.

Lemma mine_change h x x' fs ms w G : Mine h x fs ms (w, G) -> Mine h x' fs ms (set_handles <[h := x']> w, G).
Proof. intros [[] Ho HF HM]. split; [by split | by eapply own_change | exact HF | exact HM]. Qed.

Lemma op_own_store {T} (f : h_field T) h v x fs ms l S : SInv S -> Mine h x fs ms S ->
  is_head_field f = false ->
  sok (HStore f h v) l S (fun _ _ S' => Mine h (h_set f v x) fs ms S' /\ same_files S S').
Proof.
  intros Hi HM Hf. destruct S as [w G]. pose proof HM as [Ho Hh _ _]. pose proof Hh as (_ & Hx & _).
  pose proof (on_pub _ Ho) as Hp. simpl in Hx, Hp.
  eapply sok_mono; [eapply (sok_own _ _ h x (h_set f v x)); [done | done | done | |] |].
  - simpl. by rewrite Hx.
  - simpl. rewrite Hf. by destruct G.
  - intros r l' S' _ ->. split; [by eapply mine_change | done].
Qed.

Lemma op_own_slot h k v x fs ms bf l S : SInv S -> Mine h x fs ms S ->
  buffer (chunks x) = Some bf -> 0 <= k < zlen bf ->
  sok (SlotStore h k v) l S (fun _ _ S' => Mine h (h_set HBuffer (Some (<[Z.to_nat k := v]> bf)) x) fs ms S').
Proof.
  intros Hi HM Hb Hk. destruct S as [w G]. pose proof HM as [Ho Hh _ _]. pose proof Hh as (_ & Hx & _).
  pose proof (on_pub _ Ho) as Hp. simpl in Hx, Hp.
  eapply sok_mono; [eapply (sok_own _ _ h x (h_set HBuffer (Some (<[Z.to_nat k := v]> bf)) x)); [done | done | done | |] |].
  - simpl. rewrite Hx, Hb. by rewrite (proj2 (Z.leb_le 0 k)), (proj2 (Z.ltb_lt k _)) by lia.
  - by destruct G.
  - intros r l' S' _ ->. by eapply mine_change.
Qed.

Lemma op_own_free_slots h x ks l S : SInv S -> Names h x ks S ->
  sok (FreeSlots h) l S (fun _ _ S' => Names h (h_set HBuffer None x) ks S').
Proof.
  intros Hi (Ho & Hh & HF). destruct S as [w G]. pose proof Hh as (_ & Hx & _).
  pose proof (on_pub _ Ho) as Hp. simpl in Hx, Hp.
  eapply sok_mono; [eapply (sok_own _ _ h x (h_set HBuffer None x)); [done | done | done | |] |].
  - simpl. by rewrite Hx.
  - by destruct G.
  - intros r l' S' _ ->. destruct Ho. split; [by split |]. split; [by eapply own_change | done].
Qed.

Lemma op_own_free h x ks l S : SInv S -> Names h x ks S -> sok (FreeHandle h) l S (fun _ _ _ => True).
Proof.
  intros Hi (Ho & Hh & _). destruct S as [w G]. pose proof (on_pub _ Ho) as Hp. simpl in Hp.
  assert (s_upd unit i (FreeHandle h) tt G = G) as Hu by by destruct G.
  eapply sok_local; [done | done | | done]; cbn [snd]; rewrite Hu.
  eapply local_handle; [done | done |]. intros k' Hk'. by rewrite lookup_delete_ne.
Qed.

(** *** Allocations and counters *)

(** What a thread knows does not depend on the counters and the private memory. *)
Lemma sok_counters {R} (e : mmE R) l S r l' w' : SInv S ->
  mm_h R e (l, S.1) = Done r (l', w') -> s_upd R i e r S.2 = S.2 ->
  w_names w' = w_names S.1 -> w_faults w' = w_faults S.1 -> quiet S.1 w' ->
  sok e l S (fun r' l'' S' => r' = r /\ l'' = l' /\ SRely i S S').
Proof.
  intros Hi He Hu En Ef Hq. unfold sok. destruct S as [w G]. rewrite sh_eq. cbn [fst snd] in *. rewrite He, Hu.
  destruct (idle_ok name CS budgets w w' G Hi En Ef Hq) as [Hi' Hr]. split; [done |].
  split; [intros j _; apply Hr | done].
Qed.

Lemma op_errno e l S : SInv S -> i ∉ s_pub S.2 -> sok (SetErrno e) l S (fun _ _ S' => S' = S).
Proof. intros Hi Hp. eapply sok_read; [done | done | by destruct S | by destruct S as [w []] | done]. Qed.

Lemma op_get_errno l S : SInv S -> i ∉ s_pub S.2 -> sok GetErrno l S (fun _ _ S' => S' = S).
Proof. intros Hi Hp. eapply sok_read; [done | done | by destruct S | by destruct S as [w []] | done]. Qed.

Lemma op_malloc n l S : SInv S -> i ∉ s_pub S.2 ->
  sok (Malloc n) l S (fun r _ S' => 2 <= r /\ SRely i S S').
Proof.
  intros Hi Hp. pose proof (si_next _ _ _ _ Hi) as Hn. destruct S as [w G]. cbn [fst snd] in *. eapply sok_mono.
  - eapply (sok_counters (Malloc n) l (w, G)); [done | | by destruct G | | |].
    + simpl. unfold allocate. by rewrite (pop_none w) by apply Hi.
    + done.
    + done.
    + split; try done. simpl. lia.
  - by intros r l' S' _ (-> & _ & ?).
Qed.

Lemma op_free p l S : SInv S -> i ∉ s_pub S.2 -> sok (Free p) l S (fun _ _ S' => SRely i S S').
Proof.
  intros Hi Hp. destruct S as [w G]. eapply sok_mono.
  - eapply (sok_counters (Free p) l (w, G)); [done | done | by destruct G | done | done |]. by split.
  - by intros r l' S' _ (_ & _ & ?).
Qed.

Lemma op_snprintf s l S : SInv S -> i ∉ s_pub S.2 ->
  sok (Snprintf s) l S (fun r _ S' => 0 <= r /\ S' = S).
Proof.
  intros Hi Hp. destruct S as [w G]. eapply sok_read; [done | done | | by destruct G | split; [| done]].
  - simpl. by rewrite (pop_none w) by apply Hi.
  - simpl. lia.
Qed.

Lemma op_calloc_slots n l S : SInv S -> i ∉ s_pub S.2 ->
  sok (CallocSlots n) l S (fun r _ S' => r = Some (replicate (Z.to_nat n) NULL) /\ S' = S).
Proof.
  intros Hi Hp. destruct S as [w G]. eapply sok_read; [done | done | | by destruct G | done].
  simpl. by rewrite (pop_none w) by apply Hi.
Qed.

(** *** Descriptors and mappings *)

(** A new descriptor or mapping [n], and nothing else. *)
Lemma mine_new n h x fs ms w G w' : SInv (w, G) -> Mine h x fs ms (w, G) -> w_next w <= n ->
  w_clock w' = w_clock w -> w_handles w' = w_handles w ->
  (forall k, k <> n -> w_maps w' !! k = w_maps w !! k) ->
  (forall k, k <> n -> w_fds w' !! k = w_fds w !! k) ->
  forall ph, let S' := (w', MkSG (s_g G) (<[n := i]> (s_own G)) (s_pub G) ph) in
  Mine h x fs ms S' /\ s_own S'.2 !! n = Some i.
Proof.
  intros Hi [[] (Ho & Hx & Hu) Hfs Hms] Hn Ec Eh Em Ef ph S'. simpl in *.
  assert (forall k, s_own G !! k = Some i -> k <> n) as Hb.
  { intros k Hk ->. apply mk_is_Some, (si_own _ _ _ _ Hi) in Hk. simpl in Hk. lia. }
  split; [| apply lookup_insert_eq]. split; simpl.
  - by split; simpl; rewrite ?Ec.
  - split; simpl; [by rewrite lookup_insert_ne by (symmetry; auto) |]. rewrite Eh. split; [done |].
    intros k Hk Hs. destruct (decide (k = n)) as [-> | Hne].
    + pose proof (handles_range _ _ _ _ Hi _ Hs). simpl in *. lia.
    + rewrite lookup_insert_ne in Hk by done. auto.
  - eapply Forall_impl; [exact Hfs |]. intros f [Hf1 Hf2]. simpl in *.
    split; simpl; [by rewrite lookup_insert_ne by (symmetry; auto) | by rewrite Ef by auto].
  - eapply Forall_impl; [exact Hms |]. intros f [Hf1 Hf2]. simpl in *.
    split; simpl; [by rewrite lookup_insert_ne by (symmetry; auto) | by rewrite Em by auto].
Qed.

Lemma op_my_mmap len fd m h x fs ms l S : SInv S -> Mine h x fs ms S -> OwnFd fd m S -> 0 < len ->
  sok (Mmap len fd 0) l S (fun r _ S' => 2 <= r /\ same_files S S' /\
    Mine h x fs ((r, MkMapping m 0 len) :: ms) S').
Proof.
  intros Hi HM [_ Hfd] Hl. destruct S as [w G]. pose proof (si_next _ _ _ _ Hi) as Hn.
  pose proof (on_pub _ (mn_opn _ _ _ _ _ HM)) as Hp. cbn [fst snd] in *.
  set (w' := bump_next (set_maps <[w_next w := MkMapping m 0 len]> w)).
  assert (forall k, k <> w_next w -> w_maps w' !! k = w_maps w !! k) as Em.
  { intros k Hk. simpl. by rewrite lookup_insert_ne. }
  destruct (mine_new (w_next w) h x fs ms w G w' Hi HM (Z.le_refl _) eq_refl eq_refl Em ltac:(done) (s_phase G)) as [HM' Ho'].
  eapply (sok_local _ _ _ _ _ _ w'); [done | | |].
  - simpl. unfold sys_mmap. rewrite (pop_none w) by apply Hi. cbn.
    rewrite (proj2 (Z.leb_gt len 0)) by done. cbn. by rewrite Hfd.
  - cbn [s_upd g_upd snd]. rewrite acquire_new by (done || lia). by apply local_new.
  - cbn [s_upd g_upd snd]. rewrite acquire_new by (done || lia). split; [done |]. split; [done |].
    destruct HM'. split; try done. constructor; [| done]. split; [exact Ho' |]. simpl. apply lookup_insert_eq.
Qed.

(** Opening a file that must exist. *)
Lemma op_open p h x fs ms l S : SInv S -> Mine h x fs ms S ->
  sok (Open p false false) l S (fun r _ S' => same_files S S' /\
    if r =? -1 then Mine h x fs ms S' /\ w_names S'.1 !! p = None
    else exists m, Mine h x ((r, m) :: fs) ms S' /\ Named p m S').
Proof.
  intros Hi HM. destruct S as [w G]. pose proof (si_next _ _ _ _ Hi) as Hn.
  pose proof (on_pub _ (mn_opn _ _ _ _ _ HM)) as Hp. cbn [fst snd] in *.
  destruct (w_names w !! p) as [m |] eqn:Em.
  2: { eapply (sok_read _ _ _ _ (-1)); [done | done | | | done].
       - simpl. unfold sys_open. rewrite (pop_none w) by apply Hi. simpl. by rewrite Em.
       - simpl. destruct G as [g o pb ph]. unfold acquire. simpl. rewrite decide_False by done.
         f_equal. by destruct ph. }
  set (w' := bump_next (set_fds <[w_next w := m]> w)).
  assert (forall k, k <> w_next w -> w_fds w' !! k = w_fds w !! k) as Ef.
  { intros k Hk. simpl. by rewrite lookup_insert_ne. }
  destruct (mine_new (w_next w) h x fs ms w G w' Hi HM (Z.le_refl _) eq_refl eq_refl ltac:(done) Ef (s_phase G)) as [HM' Ho'].
  assert (s_upd Z i (Open p false false) (w_next w) G =
    MkSG (s_g G) (<[w_next w := i]> (s_own G)) (s_pub G) (s_phase G)) as Hu.
  { cbn [s_upd g_upd]. rewrite acquire_new by (done || lia). f_equal. by destruct (s_phase G). }
  eapply (sok_local _ _ _ _ (w_next w) _ w'); [done | | |]; cbn [snd]; rewrite ?Hu.
  - simpl. unfold sys_open. rewrite (pop_none w) by apply Hi. simpl. by rewrite Em.
  - by apply local_new.
  - split; [done |]. rewrite (proj2 (Z.eqb_neq _ _)) by lia. exists m. split; [| done].
    destruct HM'. split; try done. constructor; [| done]. split; [exact Ho' |]. simpl. apply lookup_insert_eq.
Qed.

Lemma op_fstat fd m l S : SInv S -> i ∉ s_pub S.2 -> OwnFd fd m S ->
  sok (Fstat fd) l S (fun r _ S' => S' = S /\ r = i_size <$> w_inodes S.1 !! m).
Proof.
  intros Hi Hp [_ Hfd]. destruct S as [w G]. cbn [fst snd] in *.
  eapply sok_read; [done | done | | by destruct G | done].
  simpl. unfold sys_fstat. rewrite (pop_none w) by apply Hi. simpl. rewrite Hfd. simpl. by destruct (w_inodes w !! m).
Qed.

(** Metadata that are large enough to be read have their size. *)
Lemma stat_sized m n S : SInv S -> Named meta_name m S -> i_size <$> w_inodes S.1 !! m = Some n ->
  sizeof_log_metadata_t <= u64 n -> Sized m S.
Proof.
  intros [] Hm Hn Hsz. split; [done |]. unfold Named in Hm. unfold inode_at.
  destruct S as [w G]. simpl in *. destruct (w_inodes w !! m) as [im |] eqn:Ei; [| done]. injection Hn as <-.
  simpl. assert (0 <= i_size im) as H0.
  { unfold phase_inv, inode_at in si_phase. destruct (s_phase G) as [| j m' od | m' d].
    - destruct si_phase. congruence.
    - destruct si_phase as (E & _ & _ & H & _). simplify_eq. by rewrite Ei in H.
    - destruct si_phase as (E & _ & _ & (_ & _ & H) & _). simplify_eq. unfold inode_at in H. simpl in H.
      rewrite Ei in H. simpl in H. lia. }
  destruct (decide (i_size im = 0)) as [E |]; [| lia]. rewrite E in Hsz. exfalso. by vm_compute in Hsz.
Qed.

Lemma op_my_md_load {T} (f : md_field T) a m h x fs ms l S : SInv S -> Mine h x fs ms S ->
  OwnMap a (MkMapping m 0 sizeof_log_metadata_t) S -> Sized m S ->
  sok (MdLoad f a) l S (fun r _ S' => S' = S /\ r = md_get f (i_meta (inode_at S.1 m))).
Proof.
  intros Hi HM [_ Ha] [_ Hs]. destruct S as [w G]. pose proof (on_pub _ (mn_opn _ _ _ _ _ HM)) as Hp. cbn [fst snd] in *.
  eapply sok_read; [done | done | | by destruct G | done].
  simpl. unfold read_md, md_at. simpl. rewrite Ha. simpl. unfold inode_at in *.
  destruct (w_inodes w !! m) as [im |]; simpl in *; [| lia]. by rewrite (proj2 (Z.ltb_lt 0 _)).
Qed.

(** Metadata that say so are those of a log that is ready. *)
Lemma ready_flag m S : SInv S -> Sized m S -> is_ready (i_meta (inode_at S.1 m)) = true -> exists d, Rdy m d S.
Proof.
  intros [] [Hm _] Hr. destruct S as [w G]. unfold phase_inv, Rdy in *. simpl in *.
  destruct (s_phase G) as [| j m' od | m' d].
  - destruct si_phase. congruence.
  - destruct si_phase as (E & _ & H & _). simplify_eq. congruence.
  - destruct si_phase as (E & _). simplify_eq. by exists d.
Qed.

(** *** Giving up *)

Lemma mine_names h x fs ms S : Mine h x fs ms S -> Names h x (map fst fs ++ map fst ms) S.
Proof.
  intros []. split; [done |]. split; [done |]. apply Forall_app. rewrite !Forall_map.
  split; (eapply Forall_impl; [eassumption |]); by intros f [? _].
Qed.

Lemma names_sub h x ks ks' S : (forall k, k ∈ ks' -> k ∈ ks) -> Names h x ks S -> Names h x ks' S.
Proof.
  intros Hk (? & ? & HF). split; [done |]. split; [done |]. rewrite Forall_forall in *. auto.
Qed.

(** Removing entries of the tables at its own names. *)
Lemma local_remove w w' G k : SInv (w, G) -> i ∉ s_pub G -> s_own G !! k = Some i ->
  (w' = set_fds (delete k) w \/ w' = set_maps (delete k) w) -> local i (w, G) (w', G).
Proof.
  intros Hi Hp Hk Hw. destruct Hw as [-> | ->]; (split; [| done]); split; try done; simpl; try lia;
    try (by left); try (by apply fresh_refl); try (by apply fresh_delete);
    intros k' Hne; rewrite lookup_delete_ne; (done || congruence).
Qed.

Lemma names_world h x ks w w' G : w_clock w' = w_clock w -> w_handles w' = w_handles w ->
  Names h x ks (w, G) -> Names h x ks (w', G).
Proof.
  intros Ec Eh ([] & Ho & HF). split; [by split; simpl; rewrite ?Ec |]. split; [| done].
  unfold OwnH in *. simpl in *. by rewrite Eh.
Qed.

Lemma op_close k h x ks l S : SInv S -> Names h x ks S -> k ∈ ks ->
  sok (Close k) l S (fun _ _ S' => Names h x ks S').
Proof.
  intros Hi HN Hk. destruct S as [w G]. pose proof HN as (Ho & _ & HF). pose proof (on_pub _ Ho) as Hp.
  rewrite Forall_forall in HF. assert (forall r, s_upd Z i (Close k) r G = G) as Hu by (destruct G; by intros).
  eapply sok_local; [done | done | |]; cbn [snd]; rewrite Hu; [| by apply (names_world _ _ _ w)].
  apply (local_remove _ _ _ k); [done | done | by apply HF | by left].
Qed.

Lemma op_munmap k n h x ks l S : SInv S -> Names h x ks S -> k ∈ ks ->
  sok (Munmap k n) l S (fun _ _ S' => Names h x ks S').
Proof.
  intros Hi HN Hk. destruct S as [w G]. pose proof HN as (Ho & _ & HF). pose proof (on_pub _ Ho) as Hp.
  rewrite Forall_forall in HF. assert (s_upd Z i (Munmap k n) 0 G = G) as Hu by by destruct G.
  eapply sok_local; [done | done | |]; cbn [snd]; rewrite Hu; [| by apply (names_world _ _ _ w)].
  apply (local_remove _ _ _ k); [done | done | by apply HF | by right].
Qed.
End Join.
