(* ===== verification/MmlogCreate.v ===== *)
(** * mmlog.h: the thread that creates the log

    The operations of [files_create]: they change the files while the metadata are not ready, and the
    last of them makes the log ready for everybody. *)
From stdpp Require Import base gmap sets list strings relations.
From Stdlib Require Import ZArith Lia.
From S2P Require Import Prelude Prog Conc MmlogTypes MmlogOs MmlogOpen MmlogInv MmlogWait.
From S2P Require Import MmlogView MmlogShare MmlogLift MmlogJoin.

#[local] Arguments Z.add : simpl never.

Lemma suffix_ne s : String.append s suffix <> s.
Proof. induction s as [| c s IH]; [done |]. intros [=]. by apply IH. Qed.

Section Create.
Context (name : string) (CS : Z) (HCS : 0 < CS < 2 ^ 32) (budgets : list Z).
Context (i : nat) (b : Z) (N : nat).

Abbreviation SInv := (sinv name CS budgets).
Abbreviation SRely := (srely name CS).
Abbreviation meta_name := (meta_name name).
Abbreviation Sok := (sok name CS budgets i).
Abbreviation Mine := (Mine i b N).
Abbreviation OwnFd := (OwnFd i).
Abbreviation OwnMap := (OwnMap i).
Abbreviation Crt := (Crt i).

(** What holds while thread [i] creates the log. *)
Lemma creating_facts m im od S : SInv S -> Crt m im od S ->
  w_names S.1 !! meta_name = Some m /\ w_names S.1 !! name = fst <$> od /\
  is_ready (i_meta im) = false /\ 0 <= i_size im /\ w_chunks S.1 = ∅ /\ s_pub S.2 = ∅ /\
  s_g S.2 = ghost_start budgets.
Proof.
  intros [] (Hp & Hm & _). unfold phase_inv, inode_at in si_phase. destruct S as [w G]. simpl in *.
  rewrite Hp in si_phase. by rewrite Hm in si_phase.
Qed.

Lemma creating_step m im od im' od' S S' : SInv S -> Crt m im od S -> tables i S S' ->
  Crt m im' od' S' ->
  w_names S'.1 !! meta_name = Some m -> w_names S'.1 !! name = fst <$> od' ->
  (forall p k, w_names S.1 !! p = Some k -> w_names S'.1 !! p = Some k) ->
  (forall k, is_Some (w_inodes S'.1 !! k) -> k < w_next S'.1) ->
  (forall p k, w_names S'.1 !! p = Some k -> is_Some (w_inodes S'.1 !! k)) ->
  is_ready (i_meta im') = false -> 0 <= i_size im' -> (0 < i_size im -> 0 < i_size im') ->
  SInv S' /\ guar SRely i S S'.
Proof.
  intros Hi Hc Ht Hc' En1 En2 Hn Hino Hnam Hr Hz Hsz.
  destruct (creating_facts _ _ _ _ Hi Hc) as (F1 & F2 & _ & _ & F5 & F6 & F7).
  pose proof Hc as (P1 & P2 & _). pose proof Hc' as (P1' & P2' & _). split.
  - eapply tables_inv; [exact Hi | exact Ht | done | done |]. unfold phase_inv, inode_at. destruct S' as [w' G'].
    simpl in *. rewrite P1', P2'. simpl.
    pose proof (lo_chunks _ _ _ Ht) as E1. pose proof (lo_pub _ _ _ Ht) as E2. pose proof (lo_g _ _ _ Ht) as E3.
    simpl in *. rewrite E1, E2, E3. done.
  - eapply tables_guar; [exact Hi | exact Ht | done | |].
    + intros m' Hm'. assert (m' = m) as -> by congruence. unfold inode_at. by rewrite P2, P2'.
    + intros j Hj. unfold phase_rely. rewrite P1, decide_False by done. left. by eexists.
Qed.

(** A change of the creator's inodes. *)
Lemma tables_alter w G g k : SInv (w, G) -> i ∉ s_pub G ->
  tables i (w, G) (set_inodes (alter g k) w, G).
Proof. intros Hi Hp. by destruct (local_refl _ _ _ i _ Hi Hp) as [[] _]. Qed.

Lemma creating_alter m im od im' od' w G g k : SInv (w, G) -> i ∉ s_pub G -> Crt m im od (w, G) ->
  Crt m im' od' (set_inodes (alter g k) w, G) -> fst <$> od' = fst <$> od ->
  is_ready (i_meta im') = false -> 0 <= i_size im' -> (0 < i_size im -> 0 < i_size im') ->
  SInv (set_inodes (alter g k) w, G) /\ guar SRely i (w, G) (set_inodes (alter g k) w, G).
Proof.
  intros Hi Hp Hc Hc' Ho Hr Hz Hsz. destruct (creating_facts _ _ _ _ Hi Hc) as (F1 & F2 & _).
  eapply creating_step; try done.
  - by apply tables_alter.
  - by rewrite Ho.
  - intros k' Hk'. destruct (fresh_alter w w _ _ _ _ Hk') as [H | ?]; [by apply (si_inodes _ _ _ _ Hi) | lia].
  - intros p k' Hk'. apply alter_is_Some. by apply (si_names _ _ _ _ Hi p).
Qed.

Lemma Crt_meta m im od w G g : Crt m im od (w, G) -> Crt m (g im) od (set_inodes (alter g m) w, G).
Proof.
  intros (P1 & P2 & P3). split; [done |]. simpl in *. split; [by rewrite lookup_alter_eq, P2 |].
  destruct od as [[d id] |]; [| done]. destruct P3. split; [done |]. by rewrite lookup_alter_ne.
Qed.

Lemma Crt_data m im d id w G g : Crt m im (Some (d, id)) (w, G) ->
  Crt m im (Some (d, g id)) (set_inodes (alter g d) w, G).
Proof.
  intros (P1 & P2 & P3 & P4). split; [done |]. simpl in *. split; [by rewrite lookup_alter_ne |].
  split; [done |]. by rewrite lookup_alter_eq, P4.
Qed.

(** The opening thread's own things do not depend on the inodes. *)
Lemma mine_world h x fs ms w w' G : w_clock w' = w_clock w -> w_handles w' = w_handles w ->
  w_fds w' = w_fds w -> w_maps w' = w_maps w -> Mine h x fs ms (w, G) -> Mine h x fs ms (w', G).
Proof.
  intros Ec Eh Ef Em [[] Ho HF HM]. split.
  - split; simpl; rewrite ?Ec; done.
  - unfold OwnH in *. simpl in *. by rewrite Eh.
  - unfold MmlogJoin.OwnFd in *. simpl in *. by rewrite Ef.
  - unfold MmlogJoin.OwnMap in *. simpl in *. by rewrite Em.
Qed.

Lemma sok_done {R} (e : mmE R) l S F r l' w' : mm_h R e (l, S.1) = Done r (l', w') ->
  let S' := (w', s_upd R i e r S.2) in SInv S' /\ guar SRely i S S' -> F r l' S' -> Sok e l S F.
Proof.
  intros He S' [Hi Hg] HF. unfold sok. destruct S as [w G]. rewrite sh_eq. cbn [fst] in He. by rewrite He.
Qed.

Lemma op_trunc_meta fd m im od n h x fs ms l S : SInv S -> Mine h x fs ms S -> OwnFd fd m S ->
  Crt m im od S -> 0 < n < 2 ^ 63 ->
  Sok (Ftruncate fd n) l S (fun r _ S' => r = 0 /\ Mine h x fs ms S' /\ Crt m (truncate_inode n im) od S').
Proof.
  intros Hi HM [_ Hfd] Hc Hn. destruct S as [w G]. destruct (creating_facts _ _ _ _ Hi Hc) as (_ & _ & F3 & _).
  pose proof (on_pub _ _ _ _ (mn_opn _ _ _ _ _ _ _ _ HM)) as Hp. cbn [fst snd] in *.
  assert (swrap 64 n = n) as Hs by (unfold swrap; rewrite Z.mod_small by lia; lia).
  assert (s_upd Z i (Ftruncate fd n) 0 G = G) as Hu by by destruct G.
  pose proof (Crt_meta _ _ _ _ _ (truncate_inode n) Hc) as Hc'.
  eapply sok_done.
  - simpl. unfold sys_ftruncate. rewrite (pop_none w) by apply Hi. rewrite Hs. cbn.
    rewrite (proj2 (Z.ltb_ge n 0)) by lia. by rewrite Hfd.
  - cbn [snd]. rewrite Hu. apply (creating_alter m im od (truncate_inode n im) od); try done; simpl; lia.
  - cbn [snd]. rewrite Hu. split; [done |]. split; [by apply (mine_world _ _ _ _ w) | done].
Qed.

Lemma op_trunc_data fd m im d id n h x fs ms l S : SInv S -> Mine h x fs ms S -> OwnFd fd d S ->
  Crt m im (Some (d, id)) S -> 0 <= n < 2 ^ 63 ->
  Sok (Ftruncate fd n) l S (fun r _ S' => r = 0 /\ Mine h x fs ms S' /\ Crt m im (Some (d, truncate_inode n id)) S').
Proof.
  intros Hi HM [_ Hfd] Hc Hn. destruct S as [w G]. destruct (creating_facts _ _ _ _ Hi Hc) as (_ & _ & F3 & F4 & _).
  pose proof (on_pub _ _ _ _ (mn_opn _ _ _ _ _ _ _ _ HM)) as Hp. cbn [fst snd] in *.
  assert (swrap 64 n = n) as Hs by (unfold swrap; rewrite Z.mod_small by lia; lia).
  assert (s_upd Z i (Ftruncate fd n) 0 G = G) as Hu by by destruct G.
  pose proof (Crt_data _ _ _ _ _ _ (truncate_inode n) Hc) as Hc'.
  eapply sok_done.
  - simpl. unfold sys_ftruncate. rewrite (pop_none w) by apply Hi. rewrite Hs. cbn.
    rewrite (proj2 (Z.ltb_ge n 0)) by lia. by rewrite Hfd.
  - cbn [snd]. rewrite Hu. by apply (creating_alter m im (Some (d, id)) im (Some (d, truncate_inode n id))).
  - cbn [snd]. rewrite Hu. split; [done |]. split; [by apply (mine_world _ _ _ _ w) | done].
Qed.

Definition with_meta (f : log_metadata_t -> log_metadata_t) (im : inode) : inode :=
  MkInode (i_size im) (i_bytes im) (i_tail im) (f (i_meta im)).

Lemma op_md_store {T} (f : md_field T) v a m im od h x fs ms l S : SInv S -> Mine h x fs ms S ->
  OwnMap a (MkMapping m 0 sizeof_log_metadata_t) S -> Crt m im od S -> 0 < i_size im ->
  is_ready_field f = false -> md_unlocks f v = false ->
  Sok (MdStore f a v) l S (fun _ _ S' => Mine h x fs ms S' /\ Crt m (with_meta (md_set f v) im) od S').
Proof.
  intros Hi HM [_ Ha] Hc Hz Hf Hv. destruct S as [w G]. destruct (creating_facts _ _ _ _ Hi Hc) as (_ & _ & F3 & F4 & _).
  pose proof (on_pub _ _ _ _ (mn_opn _ _ _ _ _ _ _ _ HM)) as Hp. pose proof Hc as (_ & Hm & _). cbn [fst snd] in *.
  assert (s_upd unit i (MdStore f a v) tt G = G) as Hu.
  { simpl. rewrite Hv, Hf. by destruct G. }
  pose proof (Crt_meta _ _ _ _ _ (fun im0 => MkInode (i_size im0) (i_bytes im0) (i_tail im0) (md_set f v (i_meta im))) Hc) as Hc'.
  eapply sok_done.
  - simpl. unfold md_at. rewrite Ha. simpl. rewrite Hm, (proj2 (Z.ltb_lt 0 _)) by done. done.
  - cbn [snd]. rewrite Hu. eapply creating_alter; try done. simpl. by destruct f.
  - cbn [snd]. rewrite Hu. split; [by apply (mine_world _ _ _ _ w) | done].
Qed.

(** The first to open creates the metadata file; the others find it. *)
Lemma op_open_meta h x fs ms l S : SInv S -> Mine h x fs ms S ->
  Sok (Open meta_name true true) l S (fun r _ S' =>
    if r =? -1 then Mine h x fs ms S' /\ exists m, Named meta_name m S'
    else exists m, Mine h x ((r, m) :: fs) ms S' /\ Crt m new_inode None S').
Proof.
  intros Hi HM. destruct S as [w G]. pose proof (si_next _ _ _ _ Hi) as Hn.
  pose proof (on_pub _ _ _ _ (mn_opn _ _ _ _ _ _ _ _ HM)) as Hp. cbn [fst snd] in *.
  destruct (w_names w !! meta_name) as [m |] eqn:Em.
  { eapply (sok_read _ _ _ _ _ _ _ _ (-1)); [done | done | | | split; [done | by exists m]].
    - simpl. unfold sys_open. rewrite (pop_none w) by apply Hi. simpl. by rewrite Em.
    - simpl. destruct G as [g o pb ph]. unfold acquire. simpl. rewrite decide_False by done.
      f_equal. by destruct ph. }
  set (m := w_next w). set (fd := w_next w + 1).
  set (w' := bump_next (set_fds <[fd := m]> (bump_next (set_inodes <[m := new_inode]>
    (set_names <[meta_name := m]> w))))).
  assert (forall k, k <> fd -> w_fds w' !! k = w_fds w !! k) as Ef.
  { intros k Hk. simpl. by rewrite lookup_insert_ne. }
  pose proof (si_phase _ _ _ _ Hi) as Hph. unfold phase_inv in Hph.
  destruct (s_phase G) as [| j m' o | m' d] eqn:Ep; [| by destruct Hph as [? _]; congruence ..].
  destruct Hph as (_ & Hname & Hch & Hpub & Hg).
  assert (s_upd Z i (Open meta_name true true) fd G = MkSG (s_g G) (<[fd := i]> (s_own G)) (s_pub G) (Creating i m None)) as Hu.
  { cbn [s_upd g_upd]. rewrite acquire_new by (done || lia). f_equal. rewrite Ep. simpl.
    rewrite (proj2 (Z.eqb_neq fd (-1))) by lia. simpl. f_equal. lia. }
  destruct (mine_new name CS budgets _ _ _ fd h x fs ms w G w' Hi HM ltac:(lia) eq_refl eq_refl ltac:(done) Ef (Creating i m None)) as [HM' Ho'].
  eapply (sok_done _ _ _ _ fd _ w').
  - simpl. unfold sys_open. rewrite (pop_none w) by apply Hi. simpl. rewrite Em. done.
  - cbn [snd]. rewrite Hu.
    assert (tables i (w, G) (w', MkSG (s_g G) (<[fd := i]> (s_own G)) (s_pub G) (Creating i m None))) as Ht.
    { apply (tables_new name CS budgets); try done. simpl. lia. }
    pose proof (suffix_ne name) as Hne.
    split.
    + eapply tables_inv; [exact Hi | exact Ht | | |].
      * simpl. intros k Hk. apply (fresh_insert w w') in Hk; [| right; simpl; lia].
        destruct Hk as [Hk | Hk]; [apply (si_inodes _ _ _ _ Hi) in Hk |]; simpl in *; lia.
      * simpl. intros p k [[<- <-] | [_ Hk]]%lookup_insert_Some; [rewrite lookup_insert_eq; by eexists |].
        apply insert_is_Some. by apply (si_names _ _ _ _ Hi p).
      * unfold phase_inv, inode_at. simpl. rewrite lookup_insert_eq, lookup_insert_ne by done.
        by rewrite lookup_insert_eq.
    + eapply tables_guar; [exact Hi | exact Ht | | |]; simpl.
      * intros p k Hk. rewrite lookup_insert_ne; [done |]. intros <-. congruence.
      * intros m' Hm'. congruence.
      * intros j Hj. unfold phase_rely. simpl. rewrite Ep. intros m2 o2 [= E _ _]. by rewrite E in Hj.
  - cbn [snd]. rewrite Hu. rewrite (proj2 (Z.eqb_neq _ _)) by lia. exists m. split.
    + destruct HM'. split; try done. constructor; [| done]. split; [exact Ho' |]. simpl. apply lookup_insert_eq.
    + split; [done |]. simpl. by rewrite lookup_insert_eq.
Qed.

(** Nobody else creates the data file. *)
Lemma op_open_data m im h x fs ms l S : SInv S -> Mine h x fs ms S -> Crt m im None S ->
  Sok (Open name true false) l S (fun r _ S' => 2 <= r /\ exists d,
    Mine h x ((r, d) :: fs) ms S' /\ Crt m im (Some (d, new_inode)) S').
Proof.
  intros Hi HM Hc. destruct (creating_facts _ _ _ _ Hi Hc) as (F1 & F2 & F3 & F4 & F5 & F6 & F7).
  pose proof Hc as (P1 & P2 & _). destruct S as [w G]. pose proof (si_next _ _ _ _ Hi) as Hn.
  pose proof (on_pub _ _ _ _ (mn_opn _ _ _ _ _ _ _ _ HM)) as Hp. simpl in F1, F2, P1, P2, Hn, Hp.
  pose proof (si_inodes _ _ _ _ Hi m (mk_is_Some _ _ P2)) as Hm. simpl in Hm.
  set (d := w_next w). set (fd := w_next w + 1).
  set (w' := bump_next (set_fds <[fd := d]> (bump_next (set_inodes <[d := new_inode]>
    (set_names <[name := d]> w))))).
  assert (forall k, k <> fd -> w_fds w' !! k = w_fds w !! k) as Ef.
  { intros k Hk. simpl. by rewrite lookup_insert_ne. }
  set (G' := MkSG (s_g G) (<[fd := i]> (s_own G)) (s_pub G) (Creating i m (Some d))).
  assert (s_upd Z i (Open name true false) fd G = G') as Hu.
  { cbn [s_upd g_upd]. rewrite acquire_new by (done || lia). unfold G'. f_equal. rewrite P1. simpl. do 2 f_equal. lia. }
  destruct (mine_new name CS budgets _ _ _ fd h x fs ms w G w' Hi HM ltac:(lia) eq_refl eq_refl ltac:(done) Ef (Creating i m (Some d))) as [HM' Ho'].
  fold G' in HM', Ho'.
  assert (Crt m im (Some (d, new_inode)) (w', G')) as Hc'.
  { split; [done |]. simpl. split; [by rewrite lookup_insert_ne by lia |]. split; [lia | by rewrite lookup_insert_eq]. }
  eapply (sok_done _ _ _ _ fd _ w').
  - simpl. unfold sys_open. rewrite (pop_none w) by apply Hi. simpl. by rewrite F2.
  - cbn [snd]. rewrite Hu. pose proof (suffix_ne name) as Hne.
    eapply creating_step; [done | exact Hc | | exact Hc' | | | | | | done | done | done]; simpl.
    + apply (tables_new name CS budgets); try done. simpl. lia.
    + rewrite lookup_insert_ne; [done |]. by intros E.
    + apply lookup_insert_eq.
    + intros p k Hk. rewrite lookup_insert_ne; [done |]. intros <-. congruence.
    + intros k Hk. apply (fresh_insert w w') in Hk; [| right; simpl; lia].
      destruct Hk as [Hk | Hk]; [apply (si_inodes _ _ _ _ Hi) in Hk |]; simpl in *; lia.
    + intros p k [[<- <-] | [_ Hk]]%lookup_insert_Some; [rewrite lookup_insert_eq; by eexists |].
      apply insert_is_Some. by apply (si_names _ _ _ _ Hi p).
  - cbn [snd]. rewrite Hu. split; [lia |]. exists d. split; [| done].
    destruct HM'. split; try done. constructor; [| done]. split; [exact Ho' |]. simpl. apply lookup_insert_eq.
Qed.

(** ** The log becomes ready *)

Context (Hbud : Forall (fun b => 0 <= b) budgets) (Hroom : zsum budgets <= LIMIT CS).

(** The files as [files_create] leaves them. *)
Definition created (im id : inode) : Prop :=
  0 < i_size im /\ chunk_size (i_meta im) = CS /\ cursor (i_meta im) = 0 /\
  file_size (i_meta im) = CS /\ i_size id = CS /\ i_bytes id = ∅.

Lemma created_inv m d w G : 2 <= w_next w -> (forall k, is_Some (w_maps w !! k) -> 2 <= k < w_next w) ->
  (forall k, is_Some (w_handles w !! k) -> is_Some (s_own G !! k)) ->
  w_chunks w = ∅ -> s_pub G = ∅ -> s_g G = ghost_start budgets ->
  created (inode_at w m) (inode_at w d) -> is_Some (w_inodes w !! m) -> is_Some (w_inodes w !! d) ->
  inv m d CS 0 (full (w, G)).
Proof using Hbud Hroom HCS.
  intros Hn Hmaps Hh Hch Hpub Hg (Hz & Hc & Hcur & Hf & Hd & Hb) Hm Hdi.
  split; [| split].
  - done.
  - unfold full, core_of, inode_at in *. simpl. rewrite Hg. split; simpl; rewrite ?Hc, ?Hcur, ?Hf, ?Hd, ?Hb; try done; try lia.
    + intros j s n Hin. by apply not_elem_of_nil in Hin.
    + intros p [v Hv]. by rewrite lookup_empty in Hv.
  - unfold full. split; simpl; try lia.
    + intros k [v Hv]. apply only_Some in Hv as [_ Hv]. by apply Hmaps, (mk_is_Some _ v).
    + rewrite Hch. intros k [v Hv]. by rewrite lookup_empty in Hv.
    + rewrite Hg. simpl. intros c [v Hv]. by rewrite lookup_empty in Hv.
    + intros k x Hx. apply only_Some in Hx as [Hv Hx].
      destruct (Hh k (mk_is_Some _ _ Hx)) as [j Hj].
      exfalso. unfold vis, seen in Hv. simpl in *. rewrite Hj, Hpub in Hv. apply bool_decide_eq_true in Hv. set_solver.
Qed.

Lemma op_md_ready a m im d id h x fs ms l S : SInv S -> Mine h x fs ms S ->
  OwnMap a (MkMapping m 0 sizeof_log_metadata_t) S -> Crt m im (Some (d, id)) S -> created im id ->
  Sok (MdStore MdReady a true) l S (fun _ _ S' => Mine h x fs ms S' /\ Rdy m d S').
Proof using Hbud Hroom HCS.
  intros Hi HM [_ Ha] Hc Hcr. destruct (creating_facts _ _ _ _ Hi Hc) as (F1 & F2 & F3 & F4 & F5 & F6 & F7).
  pose proof Hc as (P1 & P2 & P3 & P4). destruct S as [w G].
  pose proof (on_pub _ _ _ _ (mn_opn _ _ _ _ _ _ _ _ HM)) as Hp. simpl in *. pose proof Hcr as (Hz & _).
  set (w' := put_meta m (md_set MdReady true (i_meta im)) w).
  set (G' := MkSG (s_g G) (s_own G) (s_pub G) (Ready m d)).
  assert (s_upd unit i (MdStore MdReady a true) tt G = G') as Hu by (simpl; by rewrite P1).
  assert (tables i (w, G) (w', G')) as Ht.
  { destruct (local_refl _ _ _ i _ Hi Hp) as [[] _]. by split. }
  assert (w_inodes w' !! m = Some (with_meta (fun _ => md_set MdReady true (i_meta im)) im)) as Em.
  { simpl. by rewrite lookup_alter_eq, P2. }
  assert (w_inodes w' !! d = Some id) as Ed by (simpl; by rewrite lookup_alter_ne).
  eapply (sok_done _ _ _ _ tt _ w').
  - simpl. unfold md_at. rewrite Ha. simpl. rewrite P2, (proj2 (Z.ltb_lt 0 _)) by done. done.
  - cbn [snd]. rewrite Hu. split.
    + eapply tables_inv; [exact Hi | exact Ht | | |].
      * intros k Hk. destruct (fresh_alter w w _ _ _ _ Hk) as [H | ?]; [by apply (si_inodes _ _ _ _ Hi) | lia].
      * intros p k Hk. apply alter_is_Some. by apply (si_names _ _ _ _ Hi p).
      * simpl. do 3 (split; [done |]). apply created_inv; try done; try apply Hi. unfold inode_at. by rewrite Em, Ed.
    + eapply tables_guar; [exact Hi | exact Ht | done | |].
      * intros m' Hm' _. simpl in Hm'. assert (m' = m) as -> by congruence. unfold inode_at. cbn [fst]. by rewrite Em.
      * intros j Hj. unfold phase_rely. simpl. rewrite P1, decide_False by done. right. by exists d.
  - cbn [snd]. rewrite Hu. split; [| done].
    assert (Mine h x fs ms (w', G)) as HM' by by apply (mine_world _ _ _ _ w).
    destruct HM' as [[] ? ? ?]. by split.
Qed.
End Create.
