(* ===== verification/MmlogJoined.v ===== *)
(** * mmlog.h: a thread joins the log

    The last store of [mmlog_open] gives the handle its head: from here on the handle belongs to the
    log's invariant and the thread works as in [MmlogConc]. *)
From stdpp Require Import base gmap sets list strings relations.
From Stdlib Require Import ZArith Lia.
From S2P Require Import Prelude Prog Conc MmlogTypes MmlogOs MmlogOpen MmlogInv MmlogWait MmlogConc.
From S2P Require Import MmlogView MmlogShare MmlogLift MmlogJoin MmlogCreate.

Section Publish.
Context (name : string) (CS : Z) (HCS : 0 < CS < 2 ^ 32) (budgets : list Z).
Context (i : nat) (b : Z) (N : nat) (m d : Z).

Abbreviation SInv := (sinv name CS budgets).
Abbreviation SRely := (srely name CS).
Abbreviation Sok := (sok name CS budgets i).
Abbreviation Mine := (Mine i b N).
Abbreviation OwnFd := (OwnFd i).
Abbreviation OwnMap := (OwnMap i).

(** A handle as [mmlog_open] has filled it in, but for its head. *)
Record filled (x : log_handle_t) (S : sw) : Prop := {
  fl_map : exists n, OwnMap (metadata x) (MkMapping m 0 n) S;
  fl_fd : OwnFd (data_fd x) d S;
  fl_tail : tail (chunks x) = None;
  fl_cap : 0 < capacity (chunks x);
  fl_slots : exists bf, buffer (chunks x) = Some bf /\ zlen bf = capacity (chunks x) /\
    Forall (fun v => v = NULL) bf }.

(** More names come into view, and no handle of the view changes. *)
Lemma widen_rely j vh vh' vr vr' w w' g :
  (forall k, vr k = true -> vr' k = true) ->
  (forall k x, vh k = true -> w_handles w !! k = Some x -> vh' k = true /\ w_handles w' !! k = Some x) ->
  w_maps w' = w_maps w -> w_fds w' = w_fds w -> w_chunks w' = w_chunks w -> w_inodes w' = w_inodes w ->
  w_clock w' = w_clock w -> w_reads w' = w_reads w ->
  rely m d CS j (view vh vr w, g) (view vh' vr' w', g).
Proof.
  intros Hv Hh Em Ef Ec Ei Ek Er. split.
  - unfold core_of, inode_at. simpl. rewrite Ei. reflexivity.
  - split; simpl; rewrite ?Em, ?Ef, ?Ec, ?Ek, ?Er; try done.
    + intros k y Hy. apply only_Some in Hy as [Hk Hy]. by rewrite only_lookup, Hv.
    + intros k y Hy. apply only_Some in Hy as [Hk Hy]. by rewrite only_lookup, Hv.
    + intros k y Hy. apply only_Some in Hy as [Hk Hy]. destruct (Hh k y Hk Hy) as [Hk' Hy'].
      exists y. rewrite only_lookup, Hk'. done.
    + intros c k Hk _. by exists k.
Qed.

Lemma op_publish h x fs ms l S : SInv S -> Mine h x fs ms S -> Rdy m d S -> filled x S ->
  Sok (HStore HHead h (Some 0)) l S (fun _ _ S' => joined m d i S' /\
    K m d i h (metadata x) (data_fd x) (capacity (chunks x)) N b [] ∅ 0 (part i S')).
Proof using HCS.
  intros Hi [[] (Ho & Hx & Hu) _ _] Hrd []. destruct S as [w G]. unfold Rdy in Hrd. simpl in *.
  pose proof Hi as []. simpl in *. unfold phase_inv in si_phase. rewrite Hrd in si_phase.
  destruct si_phase as (N1 & N2 & Hne & Hinv).
  set (x' := h_set HHead (Some 0) x). set (w' := set_handles <[h := x']> w).
  set (G' := MkSG (s_g G) (s_own G) ({[i]} ∪ s_pub G) (s_phase G)).
  assert (forall k, vis G k = true -> vis G' k = true) as Hvis.
  { unfold vis, seen. simpl. intros k. destruct (s_own G !! k) as [j |]; [| done].
    rewrite !bool_decide_eq_true. set_solver. }
  assert (forall k, s_own G !! k = Some i -> vis G' k = true) as Hvi.
  { unfold vis, seen. simpl. intros k ->. apply bool_decide_eq_true. set_solver. }
  assert (forall k y j, s_own G !! k = Some j -> j <> i -> w_handles w !! k = Some y -> w_handles w' !! k = Some y) as Hoth.
  { intros k y j Hk Hj Hy. simpl. rewrite lookup_insert_ne; [done |]. intros <-. congruence. }
  assert (forall k y, vis G k = true -> w_handles w !! k = Some y -> w_handles w' !! k = Some y) as Hold.
  { intros k y Hk Hy. destruct (si_handles k (mk_is_Some _ _ Hy)) as [j Hj]. eapply Hoth; [exact Hj | | done].
    unfold vis, seen in Hk. rewrite Hj in Hk. apply bool_decide_eq_true in Hk. intros ->. done. }
  pose proof (widen_rely 0%nat (vis G) (vis G') (vis G) (vis G') w w' (s_g G) Hvis
    (fun k y Hk Hy => conj (Hvis k Hk) (Hold k y Hk Hy)) eq_refl eq_refl eq_refl eq_refl eq_refl eq_refl) as [Hcr Hhr].
  assert (inv m d CS 0 (full (w', G'))) as Hinv'.
  { destruct Hinv as (Hf & Hc & []). split; [exact Hf |]. split; [exact Hc |]. unfold full. simpl. split; simpl; try done.
    - intros k [y Hy]. apply only_Some in Hy as [_ Hy]. apply si_maps. by exists y.
    - intros k y Hy. apply only_Some in Hy as [Hk Hy].
      destruct (decide (k = h)) as [-> | Hkh].
      + rewrite lookup_insert_eq in Hy. injection Hy as <-. split.
        { unfold NULL. intros ->. destruct (si_own 0); [by eexists | lia]. }
        destruct fl_map0 as (n & Hmo & Hmap), fl_fd0 as (Hfo & Hfd), fl_slots0 as (bf & Hbf & Hl & Hall).
        simpl in *. split; simpl; try done.
        * exists (MkMapping m 0 n). by rewrite only_lookup, Hvi.
        * by rewrite only_lookup, Hvi.
        * intros k [= <-]. lia.
        * exists bf. split; [done |]. split; [done |]. eapply Forall_impl; [exact Hall |]. by left.
      + rewrite lookup_insert_ne in Hy by done.
        destruct (si_handles k (mk_is_Some _ _ Hy)) as [j Hj].
        assert (vis G k = true) as Hvk.
        { unfold vis, seen in *. simpl in Hk. rewrite Hj in *. apply bool_decide_eq_true in Hk. apply bool_decide_eq_true.
          apply elem_of_union in Hk as [->%elem_of_singleton | Hk]; [| done].
          destruct Hkh. apply Hu; [done | by eexists]. }
        destruct (hi_handles k y) as [Hn Hok]; [simpl; by rewrite only_lookup, Hvk |]. split; [done |].
        apply (handle_ok_mono m d CS _ _ _ _ Hhr Hok). }
  eapply (sok_done _ _ _ _ _ _ _ _ tt _ w').
  - simpl. by rewrite Hx.
  - cbn [snd s_upd is_head_field g_upd]. fold G'. split.
    + split; simpl; try done.
      * intros k [y Hy]. apply lookup_insert_Some in Hy as [[<- _] | [_ Hy]]; [by eexists | apply si_handles; by eexists].
      * rewrite Hrd. done.
    + intros j Hj. split; simpl; try done.
      * set_solver.
      * intros k Hk. rewrite lookup_insert_ne; [done |]. intros <-. congruence.
      * unfold phase_rely. simpl. rewrite Hrd. split; [done |]. unfold part. simpl.
        apply widen_rely; try done. intros k y Hk Hy. destruct (si_handles k (mk_is_Some _ _ Hy)) as [j' Hj'].
        unfold mine, seen in *. simpl. rewrite Hj' in *. apply bool_decide_eq_true in Hk as [-> Hk].
        split; [apply bool_decide_eq_true; set_solver |]. by eapply Hoth.
  - cbn [snd s_upd is_head_field g_upd]. fold G'. split; [split; [exact Hrd | simpl; set_solver] |].
    destruct fl_fd0 as (Hfo & Hfd). simpl in *. split.
    + unfold part, core_of. simpl. split; [done |]. split; [done |]. intros p v Hv. by rewrite lookup_empty in Hv.
    + unfold FsGe, part, core_of. simpl. destruct Hinv as (_ & Hc & _). by destruct (ci_size _ _ _ Hc) as [[H _] _].
    + exists x'. split; [| done]. unfold part. simpl. rewrite only_lookup. unfold mine, seen. simpl. rewrite Ho.
      rewrite bool_decide_true by (split; [done | set_solver]). apply lookup_insert_eq.
    + unfold part. simpl. by rewrite only_lookup, Hvi.
    + done.
Qed.

(** A handle that the thread can use is its own. *)
Lemma joined_own h md fd cap by_ cl S : SInv S -> K m d i h md fd cap N b cl by_ 0 (part i S) ->
  s_own S.2 !! h = Some i.
Proof.
  intros Hi HK. destruct (k_hd _ _ _ _ _ _ _ _ _ _ _ _ _ HK) as (x & Hx & _). destruct S as [w G]. unfold part in Hx. simpl in *.
  apply only_Some in Hx as [Hv Hx]. destruct (si_handles _ _ _ _ Hi h (mk_is_Some _ _ Hx)) as [j Hj].
  unfold mine, seen in Hv. simpl in Hj. rewrite Hj in *. apply bool_decide_eq_true in Hv as [-> _]. done.
Qed.

(** Nobody else sees a thread free its handle. *)
Lemma op_free_joined h l S : SInv S -> joined m d i S -> s_own S.2 !! h = Some i ->
  Sok (FreeHandle h) l S (fun _ _ S' => joined m d i S' /\ core_of m d (part i S') = core_of m d (part i S)).
Proof.
  intros Hi [Hp Hpub] Ho. destruct S as [w G]. simpl in *. pose proof Hi as []. simpl in *.
  rewrite Hp in si_phase. destruct si_phase as (N1 & N2 & Hne & (Hf & Hc & [])).
  set (w' := set_handles (delete h) w).
  assert (s_upd unit i (FreeHandle h) tt G = G) as Hu by by destruct G.
  eapply (sok_done _ _ _ _ _ _ _ _ tt _ w'); [done | |]; cbn [snd]; rewrite Hu.
  - split.
    + split; simpl; try done.
      * intros k [x Hx]. apply lookup_delete_Some in Hx as [_ Hx]. apply si_handles. by eexists.
      * rewrite Hp. do 3 (split; [done |]). split; [exact Hf |]. split; [exact Hc |]. split; simpl; try done.
        intros k x Hx. apply only_Some in Hx as [Hk Hx]. apply lookup_delete_Some in Hx as [_ Hx].
        destruct (hi_handles k x) as [Hn Hok]; [simpl; by rewrite only_lookup, Hk |]. split; [done |].
        by destruct Hok.
    + intros j Hj. split; simpl; try done.
      * intros k Hk. rewrite lookup_delete_ne; [done |]. intros <-. congruence.
      * unfold phase_rely. simpl. rewrite Hp. split; [done |]. unfold part. simpl.
        assert (only (mine j G) (w_handles w') = only (mine j G) (w_handles w)) as E.
        { apply map_eq. intros k. rewrite !only_lookup. destruct (mine j G k) eqn:Ek; [| done].
          simpl. apply lookup_delete_ne. intros <-. unfold mine, seen in Ek. rewrite Ho in Ek.
          apply bool_decide_eq_true in Ek as [-> _]. done. }
        assert (view (mine j G) (vis G) w' = view (mine j G) (vis G) w) as ->.
        { unfold view. simpl in *. by rewrite E. }
        reflexivity.
  - done.
Qed.
End Publish.
