(* ===== verification/MmlogOpening.v ===== *)
(** * mmlog.h: opening a log under concurrency

    Specifications of [files_create], [files_open], [files_open_or_create] and [mmlog_open] for a
    thread among others that open the log or use it: each call returns, and a handle
    that it returns is one through which the thread may insert. *)
From stdpp Require Import base gmap sets list strings relations.
From Stdlib Require Import ZArith Lia.
From S2P Require Import Prelude Prog Conc MmlogTypes MmlogOs MmlogOpen MmlogInv MmlogWait MmlogConc.
From S2P Require Import MmlogView MmlogShare MmlogLift MmlogJoin MmlogCreate MmlogJoined.

#[local] Arguments safe : simpl never.
#[local] Arguments bind : simpl never.
#[local] Arguments trigger : simpl never.
#[local] Arguments loop : simpl never.
#[local] Arguments Z.eqb : simpl never.
#[local] Arguments Z.ltb : simpl never.

(** [files_open_or_create] past its checks. *)
Lemma open_or_create_eq fuel name cs h : name <> EmptyString -> 0 < cs -> cs mod LOG_PAGE_SIZE = 0 -> h <> NULL ->
  files_open_or_create fuel (Some name) cs h = (
    set_errno OK ;;
    p <- trigger (Malloc (Z.of_nat (String.length name + String.length suffix + 1))) ;;
    if p =? NULL
    then set_errno FILES_OPEN_OR_CREATE_EINVAL ;; trigger (Free p) ;; Ret tt ;; Ret false
    else
    n <- trigger (Snprintf (MmlogShare.meta_name name)) ;;
    if n <? 0
    then set_errno FILES_OPEN_OR_CREATE_SNPRINTF ;; trigger (Free p) ;; Ret tt ;; Ret false
    else
    fd <- trigger (Open (MmlogShare.meta_name name) true true) ;;
    ok <- (if -1 =? fd then files_open fuel name (MmlogShare.meta_name name) h else files_create fd name cs h) ;;
    if negb ok
    then trigger (Free p) ;; (if negb (-1 =? fd) then trigger (Close fd) ;; Ret tt else Ret tt) ;; Ret false
    else Ret true).
Proof.
  intros Hn Hc Hp Hh. unfold files_open_or_create. destruct name as [| c s]; [done |].
  rewrite (proj2 (Z.eqb_neq cs 0)), (proj2 (Z.eqb_neq h NULL)) by (done || lia).
  by rewrite Hp.
Qed.

Section Opening.
Context (name : string) (CS : Z) (HCS : 0 < CS < 2 ^ 32) (budgets : list Z).
Context (Hbud : Forall (fun b => 0 <= b) budgets) (Hroom : zsum budgets <= LIMIT CS).
Context (Hpage : CS mod LOG_PAGE_SIZE = 0) (Hname : name <> EmptyString).
Context (i : nat) (b : Z) (N fuel : nat) (Hfuel : (N + 3 <= fuel)%nat) (h : Z).

Abbreviation SInv := (sinv name CS budgets).
Abbreviation SRely := (srely name CS).
Abbreviation Safe := (safe sh SInv SRely).
Abbreviation meta_name := (meta_name name).
Abbreviation Opn := (Opn i b N).
Abbreviation Mine := (Mine i b N h).
Abbreviation Names := (Names i b N h).
Abbreviation Crt := (Crt i).
Abbreviation OwnMap := (OwnMap i).
Abbreviation OwnFd := (OwnFd i).

Lemma Crt_same m im od S S' : same_files S S' -> Crt m im od S -> Crt m im od S'.
Proof. intros (E1 & E2 & E3) (P1 & P2 & P3). unfold MmlogJoin.Crt. by rewrite E2, E3. Qed.

Lemma Rdy_same m d S S' : same_files S S' -> Rdy m d S -> Rdy m d S'.
Proof. intros (E1 & E2 & E3) P. unfold Rdy. by rewrite E3. Qed.

Lemma Named_same p m S S' : same_files S S' -> Named p m S -> Named p m S'.
Proof. intros (E1 & E2 & E3) P. unfold Named. by rewrite E1. Qed.

Lemma Sized_same m S S' : same_files S S' -> Sized name m S -> Sized name m S'.
Proof. intros (E1 & E2 & E3) P. unfold Sized, inode_at. by rewrite E1, E2. Qed.

(** Carry every known fact along an interference or a step that leaves the files alone. *)
Ltac fwd :=
  repeat match goal with
  | Hr : SRely i ?s ?s', H : Mine _ _ _ ?s |- _ => apply (Mine_rely _ _ _ _ _ _ _ Hr) in H
  | Hr : SRely i ?s ?s', H : Names _ _ ?s |- _ => apply (Names_rely _ _ _ _ _ _ _ Hr) in H
  | Hr : SRely i ?s ?s', H : Opn ?s |- _ => apply (Opn_rely _ _ _ _ _ _ _ Hr) in H
  | Hr : SRely i ?s ?s', H : Virgin i ?s |- _ => apply (Virgin_rely _ _ _ _ _ Hr) in H
  | Hr : SRely i ?s ?s', H : Crt _ _ _ ?s |- _ => apply (Crt_rely _ _ _ _ _ Hr) in H
  | Hr : SRely i ?s ?s', H : Rdy _ _ ?s |- _ => apply (Rdy_rely _ _ _ _ _ Hr) in H
  | Hr : SRely i ?s ?s', H : Named _ _ ?s |- _ => apply (Named_rely _ _ _ _ _ Hr) in H
  | Hr : SRely i ?s ?s', H : Sized _ _ ?s |- _ => apply (Sized_rely _ _ _ _ _ Hr) in H
  | Hr : same_files ?s ?s', H : Crt _ _ _ ?s |- _ => apply (Crt_same _ _ _ _ _ Hr) in H
  | Hr : same_files ?s ?s', H : Rdy _ _ ?s |- _ => apply (Rdy_same _ _ _ _ Hr) in H
  | Hr : same_files ?s ?s', H : Named _ _ ?s |- _ => apply (Named_same _ _ _ _ Hr) in H
  | Hr : same_files ?s ?s', H : Sized _ _ ?s |- _ => apply (Sized_same _ _ _ Hr) in H
  end.

Lemma mine_pub x fs ms S : Mine x fs ms S -> i ∉ s_pub S.2.
Proof. intros H. apply (on_pub _ _ _ _ (mn_opn _ _ _ _ _ _ _ _ H)). Qed.

Lemma mine_fd x fs ms fd m S : Mine x fs ms S -> (fd, m) ∈ fs -> OwnFd fd m S.
Proof. intros [_ _ H _] Hin. rewrite Forall_forall in H. apply (H _ Hin). Qed.

Lemma mine_map x fs ms a mp S : Mine x fs ms S -> (a, mp) ∈ ms -> OwnMap a mp S.
Proof. intros [_ _ _ H] Hin. rewrite Forall_forall in H. apply (H _ Hin). Qed.
(** Interference, then the operation whose lemma is [lem]. *)
Tactic Notation "op" uconstr(lem) :=
  apply (safe_sok name CS budgets i);
  let S := fresh "Sx" in let Hr := fresh "Rx" in let Hi := fresh "Ix" in
  intros S Hr Hi; fwd; eapply sok_mono;
  [ solve [eapply lem; first [eassumption | lia | done | (eapply mine_pub; eassumption)
      | (eapply mine_fd; [eassumption | repeat first [left | right]])
      | (eapply mine_map; [eassumption | repeat first [left | right]]) ]] |].


(** *** Creating the files *)

(** The handle [x] after a successful open, and what it refers to. *)
Definition Opened (x0 : log_handle_t) (S : sw) : Prop :=
  exists m d x fs ms n, Mine x fs ms S /\ Rdy m d S /\ chunks x = chunks x0 /\
    (metadata x, MkMapping m 0 n) ∈ ms /\ (data_fd x, d) ∈ fs.

Lemma Opened_stable x0 : stable SInv SRely i (Opened x0).
Proof.
  intros S S' Hr _ (m & d & x & fs & ms & n & HM & HR & H). fwd. by exists m, d, x, fs, ms, n.
Qed.

Lemma opening_errno {A} e (f : mm A) Q l S :
  (forall S', SRely i S S' -> SInv S' -> Safe i f Q e S') -> Safe i (bind (set_errno e) (fun _ => f)) Q l S.
Proof. apply (timed_errno _ _ _ _ _ (sh_timed name CS budgets)). Qed.

Lemma files_create_safe fd m x fs l S : SInv S -> Mine x ((fd, m) :: fs) [] S -> Crt m new_inode None S ->
  Safe i (files_create fd name CS h) (fun r _ S' => r = true /\ Opened x S') l S.
Proof.
  intros Hi HM Hc. unfold files_create. cbv zeta. apply opening_errno. intros S1 R1 I1. fwd.
  op op_trunc_meta.
  intros r1 l1 S2 I2 (-> & HM2 & Hc2). change (-1 =? 0) with false. cbv iota.
  op op_my_mmap.
  intros a l2 S3 I3 (Ha & HF & HM3). clear HM2. fwd.
  rewrite (proj2 (Z.eqb_neq MAP_FAILED a)) by (unfold MAP_FAILED; lia).
  op op_md_store. intros _ l4 S4 I4 (HM4 & Hc4). clear HM3 Hc2.
  op op_md_store. intros _ l5 S5 I5 (HM5 & Hc5). clear HM4 Hc4.
  op op_md_store. intros _ l6 S6 I6 (HM6 & Hc6). clear HM5 Hc5.
  op op_open_data. intros fdd l7 S7 I7 (Hfd & d & HM7 & Hc7). clear HM6 Hc6.
  rewrite (proj2 (Z.eqb_neq (-1) fdd)) by lia.
  op op_trunc_data. intros r8 l8 S8 I8 (-> & HM8 & Hc8). clear HM7 Hc7.
  change (-1 =? 0) with false. cbv iota.
  op op_trunc_data. intros r9 l9 S9 I9 (-> & HM9 & Hc9). clear HM8 Hc8.
  change ((-1 =? 0)) with false. cbv beta iota. cbn [orb].
  op op_own_store. intros _ l10 S10 I10 (HM10 & F10). clear HM9. fwd. clear F10.
  op op_own_store. intros _ l11 S11 I11 (HM11 & F11). clear HM10. fwd. clear F11.
  op op_own_store. intros _ l12 S12 I12 (HM12 & F12). clear HM11. fwd. clear F12.
  op op_md_store. intros _ l13 S13 I13 (HM13 & Hc13). clear HM12.
  op op_md_ready. intros _ l14 S14 I14 (HM14 & Hr14).
  apply safe_ret; [| intros T T' Hr HI [_ HO]; split; [done |]; by apply (Opened_stable x T)].
  split; [done |]. eexists m, d, _, _, _, _. split; [exact HM14 |]. split; [done |]. split; [done |].
  split; repeat first [left | right].
Qed.

(** *** Opening the files of another thread *)

(** What [try_check_file_ready] keeps while it waits for file [p], with what the thread knows besides. *)
Section File.
Context (p : string) (size : Z) (x : log_handle_t) (fs : list (Z * Z)) (ms : list (Z * mmapping)).
Context (P : sw -> Prop) (HP : stable SInv SRely i P) (HPF : forall S S', same_files S S' -> P S -> P S').

Definition Waiting (a : try_check_file_ready_args_t) (S : sw) : Prop :=
  try_filename a = p /\ try_size a = size /\ P S /\
  if -1 =? try_fd a then Mine x fs ms S
  else exists m, Mine x ((try_fd a, m) :: fs) ms S /\ Named p m S.

(** The file is open, and large enough. *)
Definition Found (a : try_check_file_ready_args_t) (S : sw) : Prop :=
  P S /\ exists m, Mine x ((try_fd a, m) :: fs) ms S /\ Named p m S /\
  (p = meta_name -> size = sizeof_log_metadata_t -> Sized name m S).

Lemma Waiting_stable a : stable SInv SRely i (Waiting a).
Proof using HP.
  intros S S' Hr HI (E1 & E2 & H & HW). split; [done |]. split; [done |]. split; [by apply (HP S) |].
  destruct (-1 =? try_fd a); [by fwd |]. destruct HW as (m & HM & Hn). fwd. by exists m.
Qed.

Lemma Found_stable a : stable SInv SRely i (Found a).
Proof using HP.
  intros S S' Hr HI (H & m & HM & Hn & Hs). split; [by apply (HP S) |]. exists m. fwd.
  split; [done |]. split; [done |]. intros E1 E2. by apply (Sized_rely _ _ _ _ _ Hr), Hs.
Qed.

Definition Result (ok : bool) (a : try_check_file_ready_args_t) (S : sw) : Prop :=
  if ok then Found a S else Waiting a S.

Lemma Result_stable ok a : stable SInv SRely i (Result ok a).
Proof using HP. destruct ok; [apply Found_stable | apply Waiting_stable]. Qed.

Lemma check_ret_safe e ok a l S : Result ok a S ->
  Safe i (set_errno e ;; Ret (ok, a)) (fun r _ S' => Result r.1 r.2 S') l S.
Proof using HP.
  intros H. apply opening_errno. intros S1 R1 I1. apply safe_ret.
  - by apply (Result_stable ok a S S1 R1 I1).
  - intros T T' Hr HI. by apply Result_stable.
Qed.

Lemma try_check_safe a l S : SInv S -> Waiting a S ->
  Safe i (try_check_file_ready a) (fun r _ S' => Result r.1 r.2 S') l S.
Proof using HP HPF Hfuel.
  intros Hi (E1 & E2 & H & HW). destruct a as [fd fn sz]. simpl in E1, E2. subst fn sz.
  assert (forall fd m l S, SInv S -> P S -> (-1 =? fd) = false -> Mine x ((fd, m) :: fs) ms S -> Named p m S ->
    Safe i (st_ <- trigger (Fstat fd) ;;
      match st_ with
      | Some st_size => if u64 st_size <? size
          then set_errno TRY_CHECK_FILE_READY_FSTAT ;; Ret (false, TryArgs fd p size)
          else Ret (true, TryArgs fd p size)
      | None => set_errno TRY_CHECK_FILE_READY_FSTAT ;; Ret (false, TryArgs fd p size)
      end) (fun r _ S' => Result r.1 r.2 S') l S) as Hcheck.
  { clear S l H HW Hi fd. intros fd m l S Hi H Efd HM Hn.
    apply (safe_sok name CS budgets i). intros S1 R1 I1. apply (HP S S1 R1 I1) in H. fwd.
    eapply sok_mono; [apply (op_fstat _ _ _ _ fd m); [done | by eapply mine_pub | eapply mine_fd; [done | left]] |].
    intros st l2 S2 I2 [-> Hst].
    assert (Waiting (TryArgs fd p size) S1) as HW1.
    { split; [done |]. split; [done |]. split; [done |]. simpl. rewrite Efd. by exists m. }
    destruct st as [n |]; [| by apply (check_ret_safe _ false)].
    destruct (u64 n <? size) eqn:Hsz; [by apply (check_ret_safe _ false) |]. zbool.
    apply safe_ret; [| apply (Result_stable true)]. split; [done |]. exists m.
    split; [done |]. split; [done |]. intros -> ->. eapply (stat_sized _ _ _ m n); [done | done | done | lia]. }
  unfold try_check_file_ready. simpl in HW |- *. destruct (-1 =? fd) eqn:Efd.
  - apply (safe_sok name CS budgets i). intros S1 R1 I1. apply (HP S S1 R1 I1) in H. fwd.
    eapply sok_mono; [apply (op_open name CS budgets i b N p h x fs ms); done |].
    intros r l2 S2 I2 [HF Hr]. rewrite (Z.eqb_sym (-1) r). apply (HPF S1 S2 HF) in H.
    destruct (r =? -1) eqn:Er.
    + apply (check_ret_safe _ false). split; [done |]. split; [done |]. split; [done |]. simpl.
      rewrite Z.eqb_sym, Er. apply Hr.
    + destruct Hr as (m & HM & Hn). apply (Hcheck r m); try done. by rewrite Z.eqb_sym.
  - destruct HW as (m & HM & Hn). by apply (Hcheck fd m).
Qed.

Lemma wait_file_safe l S : SInv S -> P S -> Mine x fs ms S ->
  Safe i (hot_wait_for_cond fuel try_check_file_ready (TryArgs (-1) p size) SLEEP_TIME_MAX_MS)
    (fun r _ S' => Result r.1 r.2 S') l S.
Proof using HP HPF Hfuel.
  intros Hi H HM.
  apply (timed_wait _ _ _ fst i (sh_timed name CS budgets) N fuel try_check_file_ready _ Waiting Result l S Hfuel).
  - intros ok a. apply Result_stable.
  - apply Waiting_stable.
  - intros a l' S' Hi' HW. eapply safe_mono; [by apply try_check_safe |].
    intros [ok a'] l'' S'' _. simpl. unfold Result. by destruct ok.
  - done.
  - apply (on_clock _ _ _ _ (mn_opn _ _ _ _ _ _ _ _ HM)).
  - done.
  - done.
Qed.
End File.

(** *** Cleaning up *)

Lemma Names_stable x ks : stable SInv SRely i (Names x ks).
Proof. intros S S' Hr _ HN. by fwd. Qed.

Lemma close_if_safe {A} (c : bool) k x ks (f : unit -> mm A) Q l S : SInv S -> Names x ks S ->
  (c = true -> k ∈ ks) ->
  (forall l' S', SInv S' -> Names x ks S' -> Safe i (f tt) Q l' S') ->
  Safe i (bind (if c then trigger (Close k) ;; Ret tt else Ret tt) f) Q l S.
Proof.
  intros Hi HN Hk Hf. destruct c; [| by apply Hf].
  change (Safe i (bind (trigger (Close k)) (fun _ => f tt)) Q l S).
  apply (safe_sok name CS budgets i). intros S1 R1 I1. fwd.
  eapply sok_mono; [eapply op_close; [done | exact HN | by apply Hk] |]. intros r l' S' I' HN'. by apply Hf.
Qed.

Lemma munmap_if_safe {A} (c : bool) k n x ks (f : unit -> mm A) Q l S : SInv S -> Names x ks S ->
  (c = true -> k ∈ ks) ->
  (forall l' S', SInv S' -> Names x ks S' -> Safe i (f tt) Q l' S') ->
  Safe i (bind (if c then trigger (Munmap k n) ;; Ret tt else Ret tt) f) Q l S.
Proof.
  intros Hi HN Hk Hf. destruct c; [| by apply Hf].
  change (Safe i (bind (trigger (Munmap k n)) (fun _ => f tt)) Q l S).
  apply (safe_sok name CS budgets i). intros S1 R1 I1. fwd.
  eapply sok_mono; [eapply op_munmap; [done | exact HN | by apply Hk] |]. intros r l' S' I' HN'. by apply Hf.
Qed.

Lemma cleanup_safe (c1 c2 c3 : bool) a d m x ks l S : SInv S -> Names x ks S ->
  (c1 = true -> a ∈ ks) -> (c2 = true -> d ∈ ks) -> (c3 = true -> m ∈ ks) ->
  Safe i ((if c1 then trigger (Munmap a sizeof_log_metadata_t) ;; Ret tt else Ret tt) ;;
    (if c2 then trigger (Close d) ;; Ret tt else Ret tt) ;;
    (if c3 then trigger (Close m) ;; Ret tt else Ret tt) ;;
    Ret false) (fun r _ S' => r = false /\ Names x ks S') l S.
Proof.
  intros Hi HN H1 H2 H3.
  eapply munmap_if_safe; [done | done | done |]. intros l1 S1 I1 HN1.
  eapply close_if_safe; [done | done | done |]. intros l2 S2 I2 HN2.
  eapply close_if_safe; [done | done | done |]. intros l3 S3 I3 HN3.
  apply safe_ret; [done |]. intros T T' Hr HI [? HN4]. split; [done |]. by apply (Names_stable x ks T).
Qed.

(** The errno after a failed wait for a file. *)
Lemma remap_safe {A} e1 e2 (Q : A -> mmlog_err_t -> sw -> Prop) (f : mm A) l S : SInv S ->
  (forall l' S', SRely i S S' -> SInv S' -> Safe i f Q l' S') ->
  Safe i ((e <- trigger GetErrno ;;
    if decide (e = TRY_CHECK_FILE_READY_OPEN) then set_errno e1
    else if decide (e = TRY_CHECK_FILE_READY_FSTAT) then set_errno e2
    else Ret tt) ;; f) Q l S.
Proof.
  intros Hi Hf. apply (safe_read sh SInv SRely). intros S1 R1 I1. destruct S1 as [w G]. rewrite sh_eq.
  cbn [mm_h]. change (s_upd mmlog_err_t i GetErrno l G) with (MkSG (s_g G) (s_own G) (s_pub G) (s_phase G)).
  destruct G as [g o pb ph]. split; [done |]. simpl.
  assert (forall e, Safe i (set_errno e ;; f) Q l (w, MkSG g o pb ph)) as He.
  { intros e. apply opening_errno. intros S2 R2 I2. apply Hf; [by etrans | done]. }
  case_decide; [apply He |]. case_decide; [apply He |]. by apply Hf.
Qed.


(** After a failed open the thread still has its handle. *)
Definition Gave_up (x : log_handle_t) (S : sw) : Prop := exists ks, Names x ks S.

Definition Tried (x : log_handle_t) (r : bool) (S : sw) : Prop := if r then Opened x S else Gave_up x S.

Lemma Tried_stable x r : stable SInv SRely i (Tried x r).
Proof.
  destruct r; [apply Opened_stable |]. intros S S' Hr _ [ks HN]. fwd. by exists ks.
Qed.

Lemma cleanup_tried (c1 c2 c3 : bool) a d m x ks l S : SInv S -> Names x ks S ->
  (c1 = true -> a ∈ ks) -> (c2 = true -> d ∈ ks) -> (c3 = true -> m ∈ ks) ->
  Safe i ((if c1 then trigger (Munmap a sizeof_log_metadata_t) ;; Ret tt else Ret tt) ;;
    (if c2 then trigger (Close d) ;; Ret tt else Ret tt) ;;
    (if c3 then trigger (Close m) ;; Ret tt else Ret tt) ;;
    Ret false) (fun r _ S' => Tried x r S') l S.
Proof.
  intros Hi HN H1 H2 H3. eapply safe_mono; [by eapply cleanup_safe |].
  intros r l' S' _ [-> HN']. by exists ks.
Qed.

Lemma wait_ready_safe a m x fs ms l S : SInv S -> Mine x fs ms S ->
  (a, MkMapping m 0 sizeof_log_metadata_t) ∈ ms -> Sized name m S ->
  Safe i (hot_wait_for_cond fuel try_check_metadata_ready a SLEEP_TIME_MAX_MS)
    (fun r _ S' => (Mine x fs ms S' /\ Sized name m S') /\ (r.1 = true -> exists d, Rdy m d S')) l S.
Proof using Hfuel.
  intros Hi HM Hin Hs.
  assert (stable SInv SRely i (fun S => Mine x fs ms S /\ Sized name m S)) as Hst.
  { intros S1 S2 Hr _ [H1 H2]. by fwd. }
  apply (timed_wait _ _ _ fst i (sh_timed name CS budgets) N fuel try_check_metadata_ready a
    (fun a' S => a' = a /\ Mine x fs ms S /\ Sized name m S)
    (fun ok _ S => (Mine x fs ms S /\ Sized name m S) /\ (ok = true -> exists d, Rdy m d S)) l S Hfuel).
  - intros ok _ S1 S2 Hr HI [H1 H2]. split; [by apply (Hst S1) |]. intros E. destruct (H2 E) as [d Hd]. fwd. by exists d.
  - intros a' S1 S2 Hr HI [-> H]. split; [done |]. by apply (Hst S1).
  - intros a' l' S' Hi' (-> & HM' & Hs'). unfold try_check_metadata_ready.
    apply (safe_sok name CS budgets i). intros S1 R1 I1. fwd.
    eapply sok_mono; [eapply op_my_md_load; [done | exact HM' | by eapply mine_map | exact Hs'] |].
    intros r l2 S2 I2 [-> Hr]. apply safe_ret.
    + cbn [fst snd]. destruct r; [| done]. split; [done |]. intros _. by apply (ready_flag name CS budgets).
    + cbn [fst snd]. intros T T' Hr' HI. destruct r.
      * intros [H1 H2]. split; [by apply (Hst T) |]. intros E. destruct (H2 E) as [d Hd]. fwd. by exists d.
      * intros [_ H]. split; [done |]. by apply (Hst T).
  - intros a' S' [_ H]. by split.
  - apply (on_clock _ _ _ _ (mn_opn _ _ _ _ _ _ _ _ HM)).
  - done.
  - done.
Qed.


Lemma found_ne p size x fs ms P a S : SInv S -> Found p size x fs ms P a S -> (-1 =? try_fd a) = false.
Proof.
  intros Hi (_ & m & [_ _ HF _] & _). apply Forall_inv in HF as [Ho _]. simpl in Ho.
  apply mk_is_Some, (si_own _ _ _ _ Hi) in Ho. by rewrite (proj2 (Z.eqb_neq (-1) _)) by lia.
Qed.

(** What is known of a wait that failed: the names that are to be closed. *)
Lemma waiting_names p size x fs ms P a S : Waiting p size x fs ms P a S ->
  exists ks, Names x ks S /\ (forall f, f ∈ fs -> f.1 ∈ ks) /\ (forall f, f ∈ ms -> f.1 ∈ ks) /\
    (negb (-1 =? try_fd a) = true -> try_fd a ∈ ks).
Proof.
  intros (_ & _ & _ & HW). destruct (-1 =? try_fd a).
  - eexists. split; [by apply mine_names |]. split; [| split; [| done]]; intros f Hf; apply elem_of_app.
    + left. by apply list_elem_of_fmap_2.
    + right. by apply list_elem_of_fmap_2.
  - destruct HW as (m & HM & _). eexists. split; [by eapply mine_names |]. split; [| split]; [intros f Hf | intros f Hf | intros _]; simpl.
    + right. apply elem_of_app. left. by apply list_elem_of_fmap_2.
    + right. apply elem_of_app. right. by apply list_elem_of_fmap_2.
    + left.
Qed.

Lemma files_open_safe x l S : SInv S -> Mine x [] [] S -> metadata x = NULL ->
  Safe i (files_open fuel name meta_name h) (fun r _ S' => exists x', chunks x' = chunks x /\ Tried x' r S') l S.
Proof.
  intros Hi HM Hx.
  eapply (safe_mono sh SInv SRely _ _ (fun r _ S' => Tried x r S')); [| intros r l' S' _ HT; by exists x].
  unfold files_open. cbv zeta. apply opening_errno. intros S1 R1 I1. fwd.
  op op_my_load. intros md0 l2 S2 I2 [-> ->]. cbn [h_get]. rewrite Hx.
  eapply (safe_seq sh SInv SRely); [done | |].
  { apply (wait_file_safe meta_name sizeof_log_metadata_t x [] [] (fun _ => True)); done. }
  intros [ok a] l3 S3 I3 HR. cbn [fst snd] in HR. unfold Result in HR. destruct ok; cbn [negb].
  2: { apply remap_safe; [done |]. intros l4 S4 R4 I4.
       apply (Waiting_stable meta_name sizeof_log_metadata_t x [] [] (fun _ => True) (fun _ _ _ _ _ => I) a S3 S4 R4 I4) in HR.
       destruct (waiting_names _ _ _ _ _ _ _ _ HR) as (ks & HN & _ & _ & Hfd). by eapply cleanup_tried. }
  pose proof (found_ne _ _ _ _ _ _ _ _ I3 HR) as Hfd. destruct HR as (_ & m & HM3 & Hn3 & Hsz).
  specialize (Hsz eq_refl eq_refl).
  op op_my_mmap. intros ad l4 S4 I4 (Had & HF4 & HM4). clear HM3. fwd.
  op op_my_md_load. intros size l5 S5 I5 [-> Hsize]. clear Hsize.
  rewrite (proj2 (Z.eqb_neq MAP_FAILED ad)) by (unfold MAP_FAILED; lia).
  eapply (safe_seq sh SInv SRely); [done | |].
  { eapply (wait_ready_safe ad m); [done | exact HM4 | left | done]. }
  intros [ok a2] l6 S6 I6 [[HM6 Hs6] Hrd]. cbn [fst snd] in *.
  assert (forall e S7 l7, SInv S7 -> Mine x ((try_fd a, m) :: []) ((ad, MkMapping m 0 sizeof_log_metadata_t) :: []) S7 ->
    Safe i (set_errno e ;;
      (if negb (ad =? NULL) && true
       then trigger (Munmap ad sizeof_log_metadata_t) ;; Ret tt else Ret tt) ;;
      (if negb (-1 =? -1) then trigger (Close (-1)) ;; Ret tt else Ret tt) ;;
      (if negb (-1 =? try_fd a) then trigger (Close (try_fd a)) ;; Ret tt else Ret tt) ;;
      Ret false) (fun r _ S' => Tried x r S') l7 S7) as Hfail.
  { intros e S7 l7 I7 HM7. apply opening_errno. intros S8 R8 I8. fwd.
    eapply cleanup_tried; [done | by apply mine_names | | done |]; intros _; simpl; set_solver. }
  destruct ok; cbn [negb]; [| by apply Hfail].
  destruct (Hrd eq_refl) as [d Hd]. clear Hrd.
  op op_my_md_load. intros v l7 S7 I7 [-> Hv]. case_if; [by apply Hfail |]. clear Hv.
  eapply (safe_seq sh SInv SRely); [done | |].
  { apply (wait_file_safe name size x [(try_fd a, m)] [(ad, MkMapping m 0 sizeof_log_metadata_t)] (Rdy m d)); try done.
    - intros T T' Hr _ H. by fwd.
    - intros T T'. apply Rdy_same. }
  intros [ok a3] l8 S8 I8 HR. cbn [fst snd] in *. destruct ok; cbn [negb].
  2: { apply remap_safe; [done |]. intros l9 S9 R9 I9.
       apply (Waiting_stable _ _ _ _ _ _ (fun T T' Hr _ H => Rdy_rely _ _ _ _ _ Hr _ _ H) a3 S8 S9 R9 I9) in HR.
       destruct (waiting_names _ _ _ _ _ _ _ _ HR) as (ks & HN & Hk1 & Hk2 & Hfd3).
       eapply cleanup_tried; [done | done | | done |]; intros _.
       - apply (Hk2 (ad, MkMapping m 0 sizeof_log_metadata_t)). left.
       - apply (Hk1 (try_fd a, m)). left. }
  destruct HR as (HR8 & d' & HM8 & Hn8 & _).
  assert (d' = d) as ->.
  { pose proof (si_phase _ _ _ _ I8) as Hph. unfold phase_inv, Rdy, Named in *. destruct S8 as [w G]. simpl in *.
    rewrite HR8 in Hph. destruct Hph as (_ & E & _). congruence. }
  op op_own_store. intros _ l9 S9 I9 (HM9 & F9). fwd. clear HM8 F9.
  op op_own_store. intros _ l10 S10 I10 (HM10 & F10). fwd. clear HM9 F10.
  op op_own_store. intros _ l11 S11 I11 (HM11 & F11). fwd. clear HM10 F11.
  apply safe_ret; [| apply (Tried_stable x true)].
  eexists m, d, _, _, _, _. split; [exact HM11 |]. split; [done |]. split; [done |]. split; [left |].
  left.
Qed.


(** *** [mmlog_open] *)

Lemma open_or_create_safe x l S : SInv S -> Mine x [] [] S -> metadata x = NULL -> h <> NULL ->
  Safe i (files_open_or_create fuel (Some name) CS h)
    (fun r _ S' => exists x', chunks x' = chunks x /\ Tried x' r S') l S.
Proof.
  intros Hi HM Hx Hh. rewrite open_or_create_eq by (done || lia).
  apply opening_errno. intros S1 R1 I1. fwd.
  op op_malloc. intros p l2 S2 I2 [Hp R2]. fwd. rewrite (proj2 (Z.eqb_neq p NULL)) by (unfold NULL; lia).
  op op_snprintf. intros n l3 S3 I3 [Hn ->]. rewrite (proj2 (Z.ltb_ge n 0)) by lia.
  op op_open_meta. intros fd l4 S4 I4 HR. cbv beta in HR. rewrite (Z.eqb_sym (-1) fd).
  destruct (fd =? -1).
  - destruct HR as (HM4 & _).
    eapply (safe_seq sh SInv SRely); [done | by apply files_open_safe |].
    intros r l5 S5 I5 (x' & Hc & HT). destruct r; cbn [negb].
    + apply safe_ret; [by exists x' |]. intros T T' Hr HI (x2 & Hc2 & HT2). exists x2. split; [done |]. by apply (Tried_stable x2 true T).
    + destruct HT as [ks HN]. apply (safe_sok name CS budgets i). intros S6 R6 I6. fwd.
      eapply sok_mono; [eapply op_free; [done | apply (on_pub _ _ _ _ (proj1 HN))] |]. intros [] l7 S7 I7 R7. fwd.
      change (Safe i (Ret false) (fun r _ S' => exists x', chunks x' = chunks x /\ Tried x' r S') l7 S7).
      apply safe_ret; [exists x'; split; [done | by exists ks] |].
      intros T T' Hr HI (x2 & Hc2 & HT2). exists x2. split; [done |]. by apply (Tried_stable x2 false T).
  - destruct HR as (m & HM4 & Hc4).
    eapply (safe_seq sh SInv SRely); [done | by eapply files_create_safe |].
    intros r l5 S5 I5 [-> HO]. cbn [negb].
    apply safe_ret; [by exists x |]. intros T T' Hr HI (x2 & Hc2 & HT2). exists x2. split; [done |]. by apply (Tried_stable x2 true T).
Qed.

Lemma fill_slots_safe {A} (k n : nat) cap x (f : unit -> mm A) Q l S : (k + n = cap)%nat ->
  buffer (chunks x) = Some (replicate cap NULL) -> SInv S -> Mine x [] [] S ->
  (forall l' S', SInv S' -> Mine x [] [] S' -> Safe i (f tt) Q l' S') ->
  Safe i (bind (for_range (Z.of_nat k) n (fun j => trigger (SlotStore h j NULL))) f) Q l S.
Proof.
  intros Hk Hb Hi HM Hf. revert k Hk l S Hi HM. induction n as [| n IH]; intros k Hk l S Hi HM; [by apply Hf |].
  change (Safe i (bind (trigger (SlotStore h (Z.of_nat k) NULL)) (fun _ =>
    bind (for_range (Z.of_nat k + 1) n (fun j => trigger (SlotStore h j NULL))) f)) Q l S).
  apply (safe_sok name CS budgets i). intros S1 R1 I1. fwd.
  eapply sok_mono; [eapply op_own_slot; [done | exact HM | exact Hb |] |].
  { unfold zlen. rewrite length_replicate. lia. }
  intros [] l2 S2 I2 HM2. rewrite Nat2Z.id in HM2. replace (Z.of_nat k + 1) with (Z.of_nat (k + 1)) by lia.
  apply IH; [lia | done |].
  rewrite list_insert_id in HM2 by (apply lookup_replicate_2; lia).
  assert (h_set HBuffer (Some (replicate cap NULL)) x = x) as E; [| by rewrite E in HM2].
  destruct x as [? ? ? []]. simpl in *. unfold set_buf. simpl. by rewrite Hb.
Qed.

(** *** [mmlog_open] *)

(** The log is open for the thread, through [r]. *)
Definition Joined (r : Z) (S : sw) : Prop :=
  exists m d md fd cap, joined m d i S /\ K m d i r md fd cap N b [] ∅ 0 (part i S).

Lemma Joined_stable r : stable SInv SRely i (Joined r).
Proof.
  intros S S' Hr _ (m & d & md & fd & cap & Hj & HK). destruct (joined_rely _ _ _ _ _ _ _ Hr Hj) as [Hj' Hp].
  exists m, d, md, fd, cap. split; [done |]. by eapply K_rely.
Qed.

Definition Open_result (r : Z) (S : sw) : Prop := r = NULL \/ r <> NULL /\ Joined r S.

Lemma Open_result_stable r : stable SInv SRely i (Open_result r).
Proof. intros T T' Hr HI [-> | [? HJ]]; [by left | right]. split; [done |]. by apply (Joined_stable r T). Qed.

(** [mmlog_open] once it has its handle. *)
Lemma with_handle_safe n l S : SInv S -> Mine zero_handle [] [] S -> h <> NULL -> 2 <= n ->
  Safe i (
    trigger (HStore HCapacity h n) ;;
    slots <- trigger (CallocSlots n) ;;
    trigger (HStore HBuffer h slots) ;;
    bf <- trigger (HLoad HBuffer h) ;;
    match bf with
    | None => set_errno MMLOG_OPEN_ENOMEM ;; trigger (FreeHandle h) ;; Ret NULL
    | Some _ =>
    for_range 0 (Z.to_nat n) (fun i => trigger (SlotStore h i NULL)) ;;
    ok <- files_open_or_create fuel (Some name) CS h ;;
    if negb ok
    then trigger (FreeSlots h) ;; trigger (FreeHandle h) ;; Ret NULL
    else trigger (HStore HHead h (Some 0)) ;; Ret h
    end) (fun r _ S' => Open_result r S') l S.
Proof.
  intros Hi HM Hh Hn.
  op op_own_store. intros _ l1 S1 I1 (HM1 & _). clear HM.
  op op_calloc_slots. intros sl l2 S2 I2 [-> ->].
  op op_own_store. intros _ l3 S3 I3 (HM3 & _). clear HM1.
  op op_my_load. intros bf l4 S4 I4 [-> ->]. cbn [h_get h_set set_buf chunks buffer].
  set (x := h_set HBuffer _ _) in HM3.
  apply (fill_slots_safe 0 (Z.to_nat n) (Z.to_nat n) x _ _ _ _ eq_refl eq_refl I4 HM3).
  intros l5 S5 I5 HM5.
  eapply (safe_seq sh SInv SRely); [done | by apply open_or_create_safe |].
  intros ok l6 S6 I6 (x' & Hc & HT). destruct ok; cbn [negb].
  - destruct HT as (m & d & y & fs & ms & k & HM6 & HR & Hy & Hin1 & Hin2).
    apply (safe_sok name CS budgets i). intros S7 R7 I7. fwd.
    eapply sok_mono; [eapply op_publish; [done | done | exact HM6 | exact HR |] |].
    + rewrite Hc in Hy. split; rewrite ?Hy; subst x; simpl; try done; try lia.
      * exists k. by eapply mine_map.
      * by eapply mine_fd.
      * eexists. split; [done |]. split; [unfold zlen; rewrite length_replicate; lia |]. by apply Forall_replicate.
    + intros _ l8 S8 I8 [Hj HK]. apply safe_ret; [| apply Open_result_stable]. right. split; [done |].
      by eexists m, d, _, _, _.
  - destruct HT as [ks HN]. apply (safe_sok name CS budgets i). intros S7 R7 I7. fwd.
    eapply sok_mono; [by eapply op_own_free_slots |]. intros r8 l8 S8 I8 HN8.
    apply (safe_sok name CS budgets i). intros S9 R9 I9. cbv beta in HN8. fwd.
    eapply sok_mono; [by eapply op_own_free |]. intros r10 l10 S10 I10 _.
    apply safe_ret; [by left | apply Open_result_stable].
Qed.
End Opening.

Lemma mmlog_open_safe name CS budgets i b N fuel n l S :
  0 < CS < 2 ^ 32 -> Forall (fun b => 0 <= b) budgets -> zsum budgets <= LIMIT CS ->
  CS mod LOG_PAGE_SIZE = 0 -> name <> EmptyString -> (N + 3 <= fuel)%nat -> 2 <= n ->
  sinv name CS budgets S -> Opn i b N S -> Virgin i S ->
  safe sh (sinv name CS budgets) (srely name CS) i (mmlog_open fuel (Some name) CS n)
    (fun r _ S' => Open_result i b N r S') l S.
Proof.
  intros HCS Hbud Hroom Hpage Hname Hfuel Hn Hi Ho Hv.
  unfold mmlog_open. eapply opening_errno. intros S1 R1 I1.
  apply (Opn_rely _ _ _ _ _ _ _ R1) in Ho. apply (Virgin_rely _ _ _ _ _ R1) in Hv.
  rewrite Hpage, (proj2 (Z.eqb_neq CS 0)), (proj2 (Z.ltb_ge n 2)), (wrap_small 32) by lia.
  change (negb (0 =? 0) || false || false) with false. cbv iota.
  apply (safe_sok name CS budgets i). intros S2 R2 I2.
  apply (Opn_rely _ _ _ _ _ _ _ R2) in Ho. apply (Virgin_rely _ _ _ _ _ R2) in Hv.
  eapply sok_mono; [by eapply op_calloc_handle |]. intros h l3 S3 I3 [Hh HM].
  assert (h <> NULL) as Hne by (unfold NULL; lia).
  rewrite (proj2 (Z.eqb_neq h NULL)) by done. by apply with_handle_safe.
Qed.
