(* ===== verification/ThreadsWorld.v ===== *)
(** * The threads test: what its threads share

    The workers of [src/fastlog/eg/threads/src/main.c] share a log, which they open themselves, and the
    counter [global_seq_counter]. [threads_h] is the meaning of their operations; what is proved
    of a call of mmlog.h among other threads ([MmlogShare]) holds for it here. *)
From stdpp Require Import base gmap sets list strings relations list_numbers.
From Stdlib Require Import ZArith Lia.
From S2P Require Import Prelude Prog Conc MmlogTypes MmlogOs MmlogOpen MmlogInv MmlogWait.
From S2P Require Import MmlogView MmlogShare MmlogLift MmlogJoin LogTest.

(** The log's world and [global_seq_counter]. A worker makes no call of the environment but these. *)
Definition threads_h : handler (sumE mmE testE) (mmlog_err_t * (world * Z)) := fun R e s =>
  let '(l, (w, seq)) := s in
  match e with
  | inl1 e =>
      match mm_h R e (l, w) with
      | Done r (l', w') => Done r (l', (w', seq))
      | Stopped st (l', w') => Stopped st (l', (w', seq))
      end
  | inr1 e =>
      match e in testE R return outcome _ R with
      | Seq_fetch_add => Done seq (l, (w, i32 (seq + 1)))
      | Seq_store v => Done tt (l, (w, v))
      | Fprintf _ _ => Done tt s
      | Printf _ _ => Done tt s
      | _ => Stopped Undefined s
      end
  end.

(** The numbers handed out, and how many each thread may still take. *)
Record seqg := MkQ { q_handed : list (nat * Z); q_credit : list Z }.

Definition t_upd (R : Type) (i : nat) (e : sumE mmE testE R) (r : R) (G : sghost * seqg) : sghost * seqg :=
  match e with
  | inl1 e => (s_upd R i e r G.1, G.2)
  | inr1 e =>
      match e in testE R return R -> sghost * seqg with
      | Seq_fetch_add => fun r => (G.1, MkQ (q_handed G.2 ++ [(i, r)]) (spend i 1 (q_credit G.2)))
      | _ => fun _ => G
      end r
  end.

Definition th : nat -> handler (sumE mmE testE) (mmlog_err_t * (world * Z * (sghost * seqg))) :=
  instr threads_h t_upd.

Definition tw : Type := world * Z * (sghost * seqg).

Definition log_of (T : tw) : sw := (T.1.1, T.2.1).

Definition of_thread {A} (i : nat) (l : list (nat * A)) : list (nat * A) := filter (fun e => e.1 = i) l.

Record seq_inv (c : Z) (q : seqg) : Prop := {
  sq_handed : map snd (q_handed q) = seqZ 0 c;
  sq_counter : 0 <= c /\ c + zsum (q_credit q) < 2 ^ 31;
  sq_credit : Forall (fun n => 0 <= n) (q_credit q);
  sq_owner : Forall (fun e => (e.1 < length (q_credit q))%nat) (q_handed q) }.

Definition seq_rely (i : nat) (q q' : seqg) : Prop :=
  q_credit q' !! i = q_credit q !! i /\ of_thread i (q_handed q') = of_thread i (q_handed q) /\
  length (q_credit q') = length (q_credit q).

Section Shared.
Context (name : string) (CS : Z) (budgets : list Z).

Abbreviation SInv := (sinv name CS budgets).
Abbreviation SRely := (srely name CS).

Definition tinv (T : tw) : Prop := SInv (log_of T) /\ seq_inv T.1.2 T.2.2.
Definition trely (i : nat) (T T' : tw) : Prop := SRely i (log_of T) (log_of T') /\ seq_rely i T.2.2 T'.2.2.

#[export] Instance trely_pre i : PreOrder (trely i).
Proof.
  split.
  - intros T. split; [reflexivity | done].
  - intros T1 T2 T3 [H1 (E1 & E2 & E3)] [H2 (F1 & F2 & F3)]. split; [by etrans |]. split; [| split]; congruence.
Qed.

#[export] Instance trely_relypre : RelyPre trely := trely_pre.

(** Thread [i] may take [n] more numbers, and has got [l]. *)
Definition Credit (i : nat) (n : Z) (l : list (nat * Z)) (T : tw) : Prop :=
  q_credit T.2.2 !! i = Some n /\ of_thread i (q_handed T.2.2) = l.

Lemma Credit_rely i n l T T' : trely i T T' -> Credit i n l T -> Credit i n l T'.
Proof. intros [_ (E1 & E2 & _)] [H1 H2]. split; congruence. Qed.

Abbreviation Safe := (safe th tinv trely).

Lemma th_mm i R (e : mmE R) l w c G q : th i R (inl1 e) (l, (w, c, (G, q))) =
  match mm_h R e (l, w) with
  | Done r (l', w') => Done r (l', (w', c, (s_upd R i e r G, q)))
  | Stopped s (l', w') => Stopped s (l', (w', c, (G, q)))
  end.
Proof. unfold th, instr, threads_h. by destruct (mm_h R e (l, w)) as [r [l' w'] | s [l' w']]. Qed.

#[local] Arguments mm_h : simpl never.
#[local] Arguments sh : simpl never.
#[local] Arguments th : simpl never.

(** A call of mmlog.h. *)
Lemma mmlog_safe {A} i (p : mm A) Q l T n ns : safe sh SInv SRely i p Q l (log_of T) -> Credit i n ns T ->
  Safe i (mmlog p) (fun a l' T' => Q a l' (log_of T') /\ Credit i n ns T') l T.
Proof.
  revert l T. induction p as [a | s | R e k IH]; intros l T Hs Hq; simpl in *.
  - intros T' Hr [Hi _]. split; [by apply Hs; [apply Hr |] | by eapply Credit_rely].
  - done.
  - intros T' Hr [Hi Hiq]. specialize (Hs (log_of T') (proj1 Hr) Hi).
    apply (Credit_rely _ _ _ _ _ Hr) in Hq. destruct T' as [[w c] [G q]]. unfold log_of in Hs. cbn [fst snd] in Hs.
    rewrite th_mm. rewrite sh_eq in Hs. destruct (mm_h R e (l, w)) as [r [l' w'] | s [l' w']]; [| done].
    destruct Hs as (Hi' & Hg & Hk). split; [done |]. split.
    + intros j Hj. split; [by apply Hg | done].
    + by apply IH.
Qed.

(** Taking a number. *)
Lemma seq_safe {A} i (f : Z -> tp A) Q l T n ns : tinv T -> Credit i n ns T -> 0 < n ->
  (forall s T', tinv T' -> SRely i (log_of T) (log_of T') -> 0 <= s < 2 ^ 31 ->
     Credit i (n - 1) (ns ++ [(i, s)]) T' -> Safe i (f s) Q l T') ->
  Safe i (bind (call Seq_fetch_add) f) Q l T.
Proof.
  intros Hi Hq Hn Hf. apply safe_trigger. intros T' Hr [Hi' Hiq]. destruct T' as [[w c] [G q]].
  apply (Credit_rely _ _ _ _ _ Hr) in Hq as [Hc Hns]. simpl in Hc, Hns. destruct Hiq.
  simpl in sq_handed0, sq_counter0, sq_credit0, sq_owner0.
  unfold th, instr, threads_h. cbn [t_upd fst snd].
  pose proof (zsum_lookup_le _ _ _ sq_credit0 Hc) as Hle.
  assert (i32 (c + 1) = c + 1) as ->.
  { unfold swrap. rewrite Z.mod_small by lia. lia. }
  assert (tinv (w, c + 1, (G, MkQ (q_handed q ++ [(i, c)]) (spend i 1 (q_credit q))))) as HT.
  { split; [exact Hi' |]. split; simpl.
    - rewrite map_app, sq_handed0, seqZ_app by lia. done.
    - rewrite (zsum_spend _ _ _ _ Hc). lia.
    - unfold spend. rewrite Hc. apply Forall_insert; [done | lia].
    - rewrite spend_length. apply Forall_app. split; [done |]. constructor; [| done]. simpl. by eapply lookup_lt_Some. }
  split; [exact HT |]. split.
  - intros j Hj. split; [reflexivity |]. split; [by apply spend_lookup_ne |]. split; [| apply spend_length]. simpl.
    unfold of_thread. rewrite filter_app, filter_cons_False by (simpl; congruence). by rewrite filter_nil, app_nil_r.
  - apply Hf; [exact HT | | lia |].
    + apply Hr.
    + split; simpl.
      * unfold spend. rewrite Hc. apply list_lookup_insert_eq. by eapply lookup_lt_Some.
      * unfold of_thread in *. rewrite filter_app, filter_cons_True by done. by rewrite Hns, filter_nil.
Qed.

(** A message to the terminal changes nothing. *)
Lemma fprintf_safe {A} i fmt args (f : unit -> tp A) Q l T :
  (forall T', tinv T' -> trely i T T' -> Safe i (f tt) Q l T') ->
  Safe i (bind (call (Fprintf fmt args)) f) Q l T.
Proof.
  intros Hf. apply safe_read; [exact _ |]. intros [[w c] [G q]] Hr Hi. unfold th, instr, threads_h. cbn. auto.
Qed.
End Shared.
