(* ===== verification/ThreadsRun.v ===== *)
(** * The threads test: its workers under every interleaving

    [ThreadsMain.worker] as [pthread_create] starts it: a worker opens the log
    together with the others, takes a number for each message and inserts it, and frees its handle. *)
From stdpp Require Import base gmap sets list strings relations list_numbers.
From Stdlib Require Import ZArith Lia.
From S2P Require Import Prelude Prog Conc MmlogTypes MmlogOs MmlogOpen MmlogInsert MmlogInv MmlogOps MmlogWait MmlogConc.
From S2P Require Import MmlogThreads MmlogView MmlogShare MmlogLift MmlogJoin MmlogCreate MmlogJoined MmlogOpening.
From S2P Require Import Text LogTest ThreadsMain ThreadsProps ThreadsWorld.

#[local] Arguments safe : simpl never.
#[local] Arguments bind : simpl never.
#[local] Arguments trigger : simpl never.

(** ** What is written stays *)

Lemma logged_snoc i ds n cs m d s : logged i ds n true cs m -> bytes_at m s d ->
  logged i (ds ++ [d]) (n + 1) true (cs ++ [(i, s, zlen d)]) m.
Proof.
  intros Hl Hd. revert n cs Hl. induction ds as [| d0 ds IH]; intros n [| [[j s0] n0] cs] Hl; simpl in *; try done.
  - destruct Hl as [-> _]. done.
  - destruct Hl as (-> & -> & Hl). split; [done |]. split; [done |].
    destruct (0 <? n) eqn:Hn; [| by destruct Hl as (_ & ? & _)]. zbool.
    rewrite (proj2 (Z.ltb_lt 0 (n + 1))) by lia. destruct Hl as [Hb Hl]. split; [done |].
    replace (n + 1 - 1) with (n - 1 + 1) by lia. by apply IH.
Qed.

(** A thread's earlier ranges end before the last one starts. *)
Lemma tiles_before i a cs b cl s n j s' n' : tiles a cs b ->
  my_claims i cs = cl ++ [(i, s, n)] -> (j, s', n') ∈ cl -> s' + n' <= s.
Proof.
  intros Ht Hcl Hin. assert (j = i) as ->.
  { assert ((j, s', n') ∈ my_claims i cs) as Hm by (rewrite Hcl; apply elem_of_app; by left).
    unfold my_claims in Hm. by apply list_elem_of_filter in Hm as [? _]. }
  apply list_elem_of_split in Hin as (l1 & l2 & ->).
  eapply (tiles_after i a cs b l1 s' n' (l2 ++ [(i, s, n)])); [done | by rewrite Hcl, <-app_assoc |].
  apply elem_of_app. right. apply list_elem_of_singleton. done.
Qed.

Section Worker.
Context (name : string) (budgets : list Z) (Hname : name <> EmptyString).
Context (Hbud : Forall (fun b => 0 <= b) budgets) (Hroom : zsum budgets <= LIMIT CHUNK_SIZE).
Context (i : nat) (t : Z) (N fuel : nat) (Hfuel : (N + 3 <= fuel)%nat).

Abbreviation SInv := (sinv name CHUNK_SIZE budgets).
Abbreviation SRely := (srely name CHUNK_SIZE).
Abbreviation TInv := (tinv name CHUNK_SIZE budgets).
Abbreviation TRely := (trely name CHUNK_SIZE).
Abbreviation Safe := (safe th TInv TRely).

Lemma chunk_ok : 0 < CHUNK_SIZE < 2 ^ 32.
Proof. done. Qed.

(** [mmlog_insert] in the world of all threads. *)
Lemma insert_joined m d h md fd cap b cl by_ data l S : SInv S -> joined m d i S ->
  K m d i h md fd cap N b cl by_ 0 (part i S) -> 0 < zlen data <= b ->
  safe sh SInv SRely i (mmlog_insert fuel h (Some data))
    (fun r _ S' => joined m d i S' /\ Inserted m d CHUNK_SIZE i h md fd cap N data b cl by_ r (part i S')) l S.
Proof using Hfuel.
  intros Hi Hj HK Hd. destruct (joined_inv _ _ _ _ _ _ _ Hi Hj) as (_ & _ & Hne & Hfull).
  apply (lift_safe name CHUNK_SIZE chunk_ok budgets m d i (mmlog_insert fuel h (Some data))
    (fun r _ wg => Inserted m d CHUNK_SIZE i h md fd cap N data b cl by_ r wg) l S Hj).
  by apply (insert_safe m d CHUNK_SIZE 0 chunk_ok eq_refl Hne i h md fd cap N fuel Hfuel data b cl by_ l (part i S) ltac:(by apply part_inv) HK).
Qed.

(** Between two messages: the numbers [ss] were taken and their messages are in the log; [n] more may follow. *)
Definition At (h : Z) (ss : list Z) (n : nat) (T : tw) : Prop :=
  exists m d md fd cap b cl by_, joined m d i (log_of T) /\
    K m d i h md fd cap N b cl by_ 0 (part i (log_of T)) /\ 512 * Z.of_nat n <= b /\
    logged i (map (message_text t) ss) (zlen ss) true cl by_ /\
    Credit i (Z.of_nat n) (map (pair i) ss) T.

(** What a worker that succeeds leaves behind. *)
Definition Wrote_all (n : nat) (r : Z * bool) (T : tw) : Prop :=
  r.2 = true -> exists m d ss, joined m d i (log_of T) /\ length ss = n /\
    of_thread i (q_handed T.2.2) = map (pair i) ss /\
    logged i (map (message_text t) ss) (zlen ss) true (my_claims i (g_claims (s_g T.2.1)))
      (i_bytes (inode_at T.1.1 d)).

Lemma At_rely h ss n T T' : TRely i T T' -> At h ss n T -> At h ss n T'.
Proof.
  intros Hr (m & d & md & fd & cap & b & cl & by_ & Hj & HK & Hb & Hl & Hc).
  destruct (joined_rely _ _ _ _ _ _ _ (proj1 Hr) Hj) as [Hj' Hrp].
  exists m, d, md, fd, cap, b, cl, by_. split; [done |]. split; [by eapply K_rely |].
  split; [done |]. split; [done |]. by eapply Credit_rely.
Qed.

Lemma Wrote_all_stable n r : stable TInv TRely i (Wrote_all n r).
Proof.
  intros T T' [Hr (_ & Hq & _)] _ HW Hok. destruct (HW Hok) as (m & d & ss & Hj & Hn & Hh & Hl).
  destruct (joined_rely _ _ _ _ _ _ _ Hr Hj) as [Hj' [Hrp _]]. exists m, d, ss.
  split; [done |]. split; [done |]. split; [congruence |].
  pose proof (cr_mine _ _ _ Hrp) as E. unfold core_of, part in E. simpl in E. rewrite E.
  eapply logged_mono; [| exact Hl]. intros j s len p Hin Hp.
  apply (cr_bytes _ _ _ Hrp). unfold core_of, part. simpl. exists s, len. split; [| done].
  pose proof (logged_owner _ _ _ _ _ _ _ _ _ Hl Hin) as ->. by apply my_claims_in.
Qed.

(** The thread may free its handle. *)
Definition Holds (h : Z) (T : tw) : Prop :=
  exists m d, joined m d i (log_of T) /\ s_own T.2.1 !! h = Some i.

Lemma Holds_rely h T T' : TRely i T T' -> Holds h T -> Holds h T'.
Proof.
  intros [Hr _] (m & d & Hj & Ho). exists m, d. split; [apply (joined_rely _ _ _ _ _ _ _ Hr Hj) |].
  by apply (sr_own _ _ _ _ _ Hr).
Qed.

Lemma At_holds h ss n T : TInv T -> At h ss n T -> Holds h T.
Proof.
  intros [Hi _] (m & d & md & fd & cap & b & cl & by_ & Hj & HK & _). exists m, d. split; [done |].
  exact (joined_own name CHUNK_SIZE budgets i b N m d h md fd cap by_ cl (log_of T) Hi HK).
Qed.

(** A message of [n + 1] and its insertion. *)
Lemma insert_at h ss s n l T : TInv T -> 0 <= t < 2 ^ 31 -> 0 <= s < 2 ^ 31 ->
  (exists m d md fd cap b cl by_, joined m d i (log_of T) /\
    K m d i h md fd cap N b cl by_ 0 (part i (log_of T)) /\ 512 * Z.of_nat (S n) <= b /\
    logged i (map (message_text t) ss) (zlen ss) true cl by_ /\
    Credit i (Z.of_nat n) (map (pair i) (ss ++ [s])) T) ->
  Safe i (mmlog (mmlog_insert fuel h (Some (message_text t s))))
    (fun r _ T' => if r then At h (ss ++ [s]) n T' else Holds h T') l T.
Proof.
  intros [Hi Hq] Ht Hs (m & d & md & fd & cap & b & cl & by_ & Hj & HK & Hb & Hl & Hc).
  set (data := message_text t s) in *.
  assert (0 < zlen data <= 512) as Hd.
  { destruct (message_text_line t s Ht Hs) as (body & E & _ & Hle). fold data in E. unfold zlen.
    split; [rewrite E, length_app; simpl; lia |]. change (MAX_MESSAGE_SIZE - 1)%nat with 511%nat in Hle. fold data in Hle. lia. }
  eapply safe_mono; [eapply mmlog_safe; [| exact Hc]; eapply (insert_joined m d h md fd cap b cl by_ data); [done | done | done | lia] |].
  intros r l' T' [Hi' Hq'] [[Hj' (start & Hst & Hlim & m' & HK' & Hout & Hall)] Hc'].
  destruct r.
  2: { exists m, d. split; [done |]. exact (joined_own name CHUNK_SIZE budgets i _ N m d h md fd cap _ _ (log_of T') Hi' HK'). }
  specialize (Hall eq_refl). exists m, d, md, fd, cap, (b - zlen data), (cl ++ [(i, start, zlen data)]), m'.
  split; [done |]. split; [done |]. split; [lia |]. split; [| done].
  rewrite map_app, zlen_app. apply logged_snoc; [| rewrite Hall; apply put_bytes_at].
  eapply logged_mono; [| exact Hl]. intros j s0 len p Hin Hp. apply Hout.
  destruct (joined_inv _ _ _ _ _ _ _ Hi' Hj') as (_ & _ & _ & (_ & Hcore & _)).
  pose proof (ci_tiles _ _ _ Hcore) as Htl. destruct (k_me _ _ _ _ _ _ _ _ _ _ _ _ _ HK') as (_ & Hcl & _).
  pose proof (tiles_before _ _ _ _ _ _ _ _ _ _ Htl Hcl Hin). lia.
Qed.

(** Freeing the handle keeps what the worker leaves behind. *)
Lemma free_safe {A} (P : tw -> Prop) (f : unit -> tp A) Q h l T : TInv T -> Holds h T -> P T ->
  stable TInv TRely i P ->
  (forall T T' m d, P T -> joined m d i (log_of T') -> joined m d i (log_of T) ->
     core_of m d (part i (log_of T')) = core_of m d (part i (log_of T)) -> T'.2.2 = T.2.2 -> P T') ->
  (forall l' T', TInv T' -> P T' -> Safe i (f tt) Q l' T') ->
  Safe i (bind (mmlog (trigger (FreeHandle h))) f) Q l T.
Proof.
  intros Hi Hh HP Hst Hcore Hf. change (Safe i (Vis (inl1 (FreeHandle h)) f) Q l T).
  intros T1 Hr Hi1. apply (Holds_rely _ _ _ Hr) in Hh as (m & d & Hj & Ho). apply (Hst _ _ Hr Hi1) in HP.
  destruct T1 as [[w c] [G q]]. rewrite th_mm.
  pose proof (op_free_joined name CHUNK_SIZE budgets i m d h l (w, G) (proj1 Hi1) Hj Ho) as H.
  unfold sok in H. rewrite sh_eq in H. destruct (mm_h unit (FreeHandle h) (l, w)) as [[] [l' w'] | s [l' w']]; [| done].
  destruct H as (Hi2 & Hg & Hj2 & Hc). assert (TInv (w', c, (s_upd unit i (FreeHandle h) tt G, q))) as HT by (split; [done | apply Hi1]).
  split; [done |]. split; [intros j Hne; split; [by apply Hg | done] |].
  apply Hf; [done |]. by eapply (Hcore (w, c, (G, q))).
Qed.

Lemma strerror_safe {A} (f : option string -> tp A) Q l T :
  (forall s l' T', TInv T' -> TRely i T T' -> Safe i (f s) Q l' T') ->
  Safe i (bind (mmlog mmlog_strerror_cur) f) Q l T.
Proof.
  intros Hf. change (Safe i (Vis (inl1 GetErrno) (fun e => f (mmlog_strerror (err_code e)))) Q l T).
  apply safe_read; [exact _ |]. intros [[w c] [[g o pb ph] q]] Hr Hi. cbn. split; [done |]. by apply Hf.
Qed.

Lemma write_messages_safe h ss n k written l T : TInv T -> 0 <= t < 2 ^ 31 -> At h ss n T ->
  Safe i (write_messages fuel h t n k written) (fun r _ T' => Wrote_all (length ss + n) r T') l T.
Proof.
  intros Hi Ht. revert ss k written l T Hi. induction n as [| n IH]; intros ss k written l T Hi HA.
  - cbn [write_messages].
    apply (free_safe (Wrote_all (length ss + 0) (written, true))).
    + done.
    + by eapply At_holds.
    + destruct HA as (m & d & md & fd & cap & b & cl & by_ & Hj & HK & _ & Hl & Hc). intros _. exists m, d, ss.
      split; [done |]. split; [lia |]. split; [apply Hc |].
      destruct (k_me _ _ _ _ _ _ _ _ _ _ _ _ _ HK) as (_ & Hcl & Hm). unfold core_of, part in Hcl, Hm. simpl in *.
      rewrite Hcl. eapply logged_sub; [| exact Hl]. intros p v Hv. by apply Hm.
    + apply Wrote_all_stable.
    + intros T1 T2 m d HW Hj2 Hj1 Hc Hq Hok. destruct (HW Hok) as (m' & d' & s2 & Hj' & Hn & Hs & Hl).
      assert (m' = m /\ d' = d) as [-> ->] by (destruct Hj' as [E1 _], Hj1 as [E2 _]; split; congruence).
      exists m, d, s2. split; [done |]. split; [done |]. rewrite Hq. split; [done |].
      unfold core_of, part in Hc. injection Hc as Hmd Hsz Hb Hlk Hcl Hbu. unfold inode_at in *. simpl in *. by rewrite Hcl, Hb.
    + intros l' T' Hi' HW. apply safe_ret; [done | apply Wrote_all_stable].
  - cbn [write_messages]. destruct HA as (m & d & md & fd & cap & b & cl & by_ & Hj & HK & Hb & Hl & Hc).
    apply (seq_safe name CHUNK_SIZE budgets i _ _ _ _ _ _ Hi Hc); [lia |]. intros s T1 Hi1 Hr1 Hs Hc1.
    destruct (joined_rely _ _ _ _ _ _ _ Hr1 Hj) as [Hj1 Hrp].
    eapply (safe_seq th TInv TRely); [done | |].
    { apply (insert_at h ss s n); [done | done | done |]. exists m, d, md, fd, cap, b, cl, by_.
      split; [done |]. split; [by eapply K_rely |]. split; [done |]. split; [done |].
      rewrite map_app. by replace (Z.of_nat n) with (Z.of_nat (S n) - 1) by lia. }
    intros [|] l2 T2 Hi2 HR; cbn [negb].
    + replace (length ss + S n)%nat with (length (ss ++ [s]) + n)%nat by (rewrite length_app; simpl; lia). by apply IH.
    + apply strerror_safe. intros str l3 T3 Hi3 Hr3. apply (fprintf_safe name CHUNK_SIZE budgets). intros T4 Hi4 Hr4.
      apply (free_safe (fun _ => True)); [done | | done | done | done |].
      { eapply Holds_rely; [exact Hr4 |]. by eapply Holds_rely. }
      intros l5 T5 Hi5 _. apply safe_ret; [done |]. apply Wrote_all_stable.
Qed.

(** What a worker starts with. *)
Lemma worker_safe count l T b : TInv T -> 0 <= t < 2 ^ 31 -> Opn i b N (log_of T) -> Virgin i (log_of T) ->
  512 * Z.of_nat count <= b -> Credit i (Z.of_nat count) [] T ->
  Safe i (worker count fuel name t) (fun r _ T' => Wrote_all count r T') l T.
Proof using Hname Hbud Hroom Hfuel.
  intros Hi Ht Ho Hv Hb Hc. unfold worker.
  eapply (safe_seq th TInv TRely); [done | |].
  { eapply mmlog_safe; [| exact Hc].
    apply (mmlog_open_safe name CHUNK_SIZE budgets i b N fuel NUM_CHUNKS); try done. apply Hi. }
  intros h l1 T1 Hi1 [HR Hc1]. destruct HR as [-> | [Hne (m & d & md & fd & cap & Hj & HK)]].
  - rewrite Z.eqb_refl. apply strerror_safe. intros str l3 T3 Hi3 Hr3.
    apply (fprintf_safe name CHUNK_SIZE budgets). intros T4 Hi4 Hr4. apply safe_ret; [done |]. apply Wrote_all_stable.
  - rewrite (proj2 (Z.eqb_neq h NULL)) by done.
    apply (write_messages_safe h [] count); [done | done |].
    exists m, d, md, fd, cap, b, [], ∅. split; [done |]. split; [done |]. split; [done |]. done.
Qed.
End Worker.
