(* ===== verification/ThreadsTest.v ===== *)
(** * The threads test, end to end

    All interleavings of the workers of [src/fastlog/eg/threads/src/main.c] on a log that does not exist yet,
    the trim that [main] does when they are joined, and the verdict of [validate_log] on the file. *)
From stdpp Require Import base gmap sets list strings relations list_numbers.
From Stdlib Require Import ZArith Lia.
From S2P Require Import Prelude Prog Conc MmlogTypes MmlogOs MmlogOpen MmlogInsert MmlogInv MmlogOps MmlogWait MmlogConc.
From S2P Require Import MmlogThreads MmlogDemo MmlogProps MmlogTrim MmlogView MmlogShare MmlogLift MmlogJoin MmlogCreate MmlogJoined MmlogOpening.
From S2P Require Import Sys Text LogTest ThreadsMain ThreadsProps ThreadsWorld ThreadsRun.

(** ** One order of all messages *)

(** Lists whose parts agree are permutations of one another. *)
Lemma threads_permutation {A} (l1 l2 : list (nat * A)) :
  (forall i, of_thread i l1 = of_thread i l2) -> l1 ≡ₚ l2.
Proof.
  revert l2. induction l1 as [| [k a] l1 IH]; intros l2 H.
  - destruct l2 as [| [k a] l2]; [done |]. specialize (H k). unfold of_thread in H.
    rewrite filter_cons_True in H by done. done.
  - assert ((k, a) ∈ of_thread k l2) as Hin.
    { rewrite <-H. unfold of_thread. rewrite filter_cons_True by done. left. }
    apply list_elem_of_filter in Hin as [_ Hin].
    assert (exists p q, l2 = p ++ (k, a) :: q /\ of_thread k p = []) as (p & q & -> & Hp).
    { specialize (H k). clear IH. unfold of_thread in *. rewrite filter_cons_True in H by done.
      induction l2 as [| [k' a'] l2 IH2]; [by apply elem_of_nil in Hin |].
      destruct (decide (k' = k)) as [-> | Hne].
      - rewrite filter_cons_True in H by done. injection H as -> _. by exists [], l2.
      - rewrite filter_cons_False in H by done.
        destruct IH2 as (p & q & -> & Hp); [done | by apply elem_of_cons in Hin as [[=] | ?] |].
        exists ((k', a') :: p), q. split; [done |]. by rewrite filter_cons_False. }
    rewrite <-Permutation_middle. constructor. apply IH. intros i. specialize (H i).
    unfold of_thread in *. rewrite filter_app in *. rewrite !filter_cons in H. simpl in H.
    case_decide as Hk; [| done]. subst i. rewrite Hp in *. simpl in *. by injection H.
Qed.

(** The numbers behind a log of messages. *)
Lemma log_numbers T (f : nat -> Z -> list Z) (ss : nat -> list Z) log :
  Forall (fun e => (e.1 < T)%nat) log -> (forall i, (i < T)%nat -> messages_of i log = map (f i) (ss i)) ->
  exists ms : list (nat * Z), log = map (fun m => (m.1, f m.1 m.2)) ms /\
    Forall (fun m => (m.1 < T)%nat) ms /\ forall i, (i < T)%nat -> of_thread i ms = map (pair i) (ss i).
Proof.
  intros HF. revert ss. induction HF as [| [k d] log Hk HF IH]; intros ss H.
  - exists []. split; [done |]. split; [done |]. intros i Hi. specialize (H i Hi). by destruct (ss i).
  - pose proof (H k Hk) as Hm. unfold messages_of in Hm. rewrite filter_cons_True in Hm by done. simpl in Hm.
    destruct (ss k) as [| s sk] eqn:Es; [done |]. injection Hm as -> Hm.
    destruct (IH (fun i => if decide (i = k) then sk else ss i)) as (ms & -> & Hms & Hs).
    + intros i Hi. specialize (H i Hi). unfold messages_of in *. rewrite filter_cons in H. simpl in H.
      destruct (decide (i = k)) as [-> |]; [done |]. by rewrite decide_False in H by congruence.
    + exists ((k, s) :: ms). split; [done |]. split; [by constructor |]. intros i Hi. specialize (Hs i Hi).
      unfold of_thread in *. rewrite filter_cons. simpl. destruct (decide (i = k)) as [-> |].
      * rewrite decide_True by done. by rewrite Hs, Es.
      * by rewrite decide_False by congruence.
Qed.

Lemma snd_pair {A} (i : nat) (l : list A) : (map (pair i) l).*2 = l.
Proof. induction l as [| a l IH]; [done |]. simpl. by f_equal. Qed.

Lemma of_thread_none {A} T i (l : list (nat * A)) : Forall (fun e => (e.1 < T)%nat) l -> (T <= i)%nat ->
  of_thread i l = [].
Proof.
  intros HF Hi. induction HF as [| e l He _ IH]; [done |]. unfold of_thread. rewrite filter_cons_False by lia. apply IH.
Qed.

Lemma length_threads {A} T n (l : list (nat * A)) : Forall (fun e => (e.1 < T)%nat) l ->
  (forall i, (i < T)%nat -> length (of_thread i l) = n) -> length l = (T * n)%nat.
Proof.
  revert l. induction T as [| T IH]; intros l HF Hn.
  - destruct HF as [| e l He _]; [done | lia].
  - rewrite <-(filter_app_complement (fun e => e.1 = T) l), length_app.
    pose proof (Hn T ltac:(lia)) as E. unfold of_thread in E. rewrite E.
    rewrite (IH (filter (fun e => ~ e.1 = T) l)); [lia | |].
    + apply Forall_forall. intros e He. apply list_elem_of_filter in He as [Hne He].
      rewrite Forall_forall in HF. specialize (HF e He). lia.
    + intros i Hi. rewrite <-(Hn i ltac:(lia)). f_equal. unfold of_thread.
      apply list_filter_filter_l. lia.
Qed.

(** ** The bytes of a file *)

(** What reading the whole file gives; bytes never written are 0. *)
Definition file_contents (f : inode) : list Z := map (fun p => default 0 (i_bytes f !! p)) (seqZ 0 (i_size f)).

Lemma trimmed_contents f data : bytes_at (i_bytes f) 0 data ->
  file_contents (truncate_inode (zlen data) f) = data.
Proof.
  intros Hb. apply list_eq. intros k. unfold file_contents. simpl. rewrite list_lookup_fmap.
  destruct (decide (k < length data)%nat) as [Hk | Hk].
  - rewrite lookup_seqZ_lt by (unfold zlen; lia). simpl. specialize (Hb (Z.of_nat k)).
    unfold znth, zlen in Hb. rewrite (proj2 (Z.leb_le 0 _)), Nat2Z.id in Hb by lia. specialize (Hb ltac:(lia)).
    destruct (data !! k) as [v |] eqn:E; [| apply lookup_ge_None in E; lia]. f_equal.
    rewrite map_lookup_filter, Hb. simpl. by rewrite option_guard_True by (unfold zlen; lia).
  - rewrite (lookup_ge_None_2 data) by lia. rewrite lookup_seqZ_ge by (unfold zlen; lia). done.
Qed.

(** ** The pool of workers *)

(** The log [name] does not exist, nobody has opened anything, and no call fails. *)
Record clean (name : string) (w : world) : Prop := {
  cl_names : w_names w !! name = None /\ w_names w !! meta_name name = None;
  cl_faults : w_faults w = [];
  cl_next : 2 <= w_next w;
  cl_maps : forall k, is_Some (w_maps w !! k) -> 2 <= k < w_next w;
  cl_fds : forall k, is_Some (w_fds w !! k) -> k < w_next w;
  cl_inodes : forall k, is_Some (w_inodes w !! k) -> k < w_next w;
  cl_dir : forall p k, w_names w !! p = Some k -> is_Some (w_inodes w !! k);
  cl_heap : w_handles w = ∅ /\ w_chunks w = ∅ }.

Definition workers (M fuel : nat) (name : string) (T : nat) (w : world) :
    config (sumE mmE testE) mmlog_err_t (world * Z) (Z * bool) :=
  (map (fun i => (OK, worker M fuel name (Z.of_nat i))) (seq 0 T), (w, 0)).

(** What the workers may write, and the main thread nothing. *)
Definition test_budgets (M T : nat) : list Z := replicate T (512 * Z.of_nat M) ++ [0].
Definition test_ghost (M T : nat) : sghost * seqg :=
  (MkSG (ghost_start (test_budgets M T)) ∅ ∅ Absent, MkQ [] (replicate T (Z.of_nat M))).

Lemma zsum_replicate n x : zsum (replicate n x) = Z.of_nat n * x.
Proof. induction n as [| n IH]; simpl; [done | rewrite IH; lia]. Qed.

Lemma total_ok M T : Z.of_nat M <= MESSAGES_PER_THREAD -> Z.of_nat T <= NUM_THREADS ->
  0 <= Z.of_nat T * Z.of_nat M <= 8000.
Proof. unfold NUM_THREADS, MESSAGES_PER_THREAD. nia. Qed.

Section Pool.
Context (name : string) (Hname : name <> EmptyString) (M T : nat).
Context (HM : Z.of_nat M <= MESSAGES_PER_THREAD) (HT : Z.of_nat T <= NUM_THREADS).
Context (w0 : world) (N fuel : nat) (Hfuel : (N + 3 <= fuel)%nat).
Context (Hclean : clean name w0) (Hclock : clock_ok N (w_clock w0)).

Abbreviation SInv := (sinv name CHUNK_SIZE (test_budgets M T)).
Abbreviation SRely := (srely name CHUNK_SIZE).
Abbreviation TInv := (tinv name CHUNK_SIZE (test_budgets M T)).
Abbreviation TRely := (trely name CHUNK_SIZE).
Abbreviation start := ((workers M fuel name T w0).1, (w0, 0, test_ghost M T)).

Definition post (i : nat) (r : Z * bool) (l : mmlog_err_t) (S : tw) : Prop :=
  Wrote_all i (Z.of_nat i) M r S.

Lemma budgets_ok : Forall (fun b => 0 <= b) (test_budgets M T) /\ zsum (test_budgets M T) <= LIMIT CHUNK_SIZE.
Proof.
  unfold test_budgets. split.
  - apply Forall_app. split; [apply Forall_replicate; lia | by constructor].
  - rewrite zsum_app, zsum_replicate. pose proof (total_ok M T HM HT). unfold LIMIT, CHUNK_SIZE. simpl zsum. lia.
Qed.

Lemma test_inv : TInv (w0, 0, test_ghost M T).
Proof.
  destruct Hclean, cl_names0 as [E1 E2], cl_heap0 as [E3 E4]. split.
  - split; simpl; try done.
    + intros k [c Hc]. by rewrite E4, lookup_empty in Hc.
    + intros k [x Hx]. by rewrite E3, lookup_empty in Hx.
    + intros k [j Hj]. by rewrite lookup_empty in Hj.
  - split; simpl; try done.
    + rewrite zsum_replicate. pose proof (total_ok M T HM HT). lia.
    + apply Forall_replicate. lia.
Qed.

Lemma start_opn i b : test_budgets M T !! i = Some b -> Opn i b N (w0, (test_ghost M T).1) /\ Virgin i (w0, (test_ghost M T).1).
Proof.
  intros Hb. split; [split; simpl; try done |].
  - intros k. simpl. by rewrite lookup_empty.
Qed.

Lemma start_pool_ok : pool_ok th TInv TRely post start.
Proof.
  split; [apply test_inv |]. intros i l p Hp. simpl in Hp. rewrite list_lookup_fmap in Hp.
  destruct (seq 0 T !! i) as [i' |] eqn:E; [| done]. apply lookup_seq in E as [-> Hi]. injection Hp as <- <-.
  destruct budgets_ok as [Hb Hr]. destruct (start_opn i (512 * Z.of_nat M)) as [Ho Hv].
  { unfold test_budgets. rewrite lookup_app_l by (rewrite length_replicate; lia). by apply lookup_replicate_2. }
  apply (worker_safe name (test_budgets M T) Hname Hb Hr i (Z.of_nat i) N fuel Hfuel M OK _ (512 * Z.of_nat M)); try done.
  - apply test_inv.
  - unfold NUM_THREADS in HT. lia.
  - split; [by apply lookup_replicate_2 | done].
Qed.

Abbreviation steps := (rtc (pool_step (fun _ : nat => threads_h))).

(** The instrumented run of a run, and what holds at its end; the main thread has not opened anything. *)
Lemma run_ok c : steps (workers M fuel name T w0) c -> exists G : sghost * seqg,
  pool_ok th TInv TRely post (c.1, (c.2, G)) /\
  Opn T 0 N (c.2.1, G.1) /\ Virgin T (c.2.1, G.1) /\ length (q_credit G.2) = T /\
  forall j, (T <= j)%nat -> my_claims j (g_claims (s_g G.1)) = [].
Proof.
  intros Hs. destruct (instr_steps threads_h t_upd _ _ (test_ghost M T) Hs) as [G HG]. exists G.
  split; [apply (pool_ok_steps _ _ _ _ _ _ start_pool_ok HG) |].
  assert (test_budgets M T !! T = Some 0) as Hb.
  { unfold test_budgets. by rewrite lookup_app_r, length_replicate, Nat.sub_diag by (rewrite length_replicate; lia). }
  destruct (start_opn T 0 Hb) as [Ho Hv].
  assert (forall (P : tw -> Prop) j, stable TInv TRely j P -> (T <= j)%nat -> P (w0, 0, test_ghost M T) -> P (c.2, G)) as Hkeep.
  { intros P j HP Hj H0. apply (pool_keep_idle th TInv TRely post P j start (c.1, (c.2, G)) HP); try done; [| apply start_pool_ok].
    simpl. rewrite length_map, length_seq. lia. }
  split; [| split; [| split]].
  - apply (Hkeep (fun S => Opn T 0 N (log_of S)) T); try done. intros S S' [Hr _] _ H. by eapply Opn_rely.
  - apply (Hkeep (fun S => Virgin T (log_of S)) T); try done. intros S S' [Hr _] _ H. by eapply Virgin_rely.
  - apply (Hkeep (fun S => length (q_credit S.2.2) = T) T); try done; [| apply length_replicate].
    intros S S' [_ (_ & _ & E)] _ H. congruence.
  - intros j Hj. apply (Hkeep (fun S => my_claims j (g_claims (s_g S.2.1)) = []) j); try done.
    intros S S' [Hr _] _ H. pose proof (sr_claims _ _ _ _ _ Hr) as E. unfold log_of in E. simpl in E. congruence.
Qed.

(** ** When all have written *)

(** No thread but the workers has claimed anything. *)
Definition Only_workers (S : sw) : Prop := forall j, (T <= j)%nat -> my_claims j (g_claims (s_g S.2)) = [].

(** The log's data file, as all its users left it, is the messages in one order. *)
Lemma all_logged w c G q : (0 < T)%nat -> TInv (w, c, (G, q)) -> Only_workers (w, G) -> length (q_credit q) = T ->
  (forall i, (i < T)%nat -> exists n, Wrote_all i (Z.of_nat i) M (n, true) (w, c, (G, q))) ->
  exists m d (ms : list (nat * Z)), s_phase G = Ready m d /\ m <> d /\
    w_names w !! name = Some d /\
    Forall (fun e => (e.1 < T)%nat) ms /\ ms.*2 ≡ₚ seqZ 0 (Z.of_nat T * Z.of_nat M) /\
    let data := concat (map (fun e => message_text (Z.of_nat e.1) e.2) ms) in
    cursor (i_meta (inode_at w m)) = zlen data /\ zlen data < 2 ^ 63 /\
    bytes_at (i_bytes (inode_at w d)) 0 data.
Proof.
  intros H0 [Hi []] Honly Hlen Hall. simpl in *.
  set (ss := fun i => (of_thread i (q_handed q)).*2).
  destruct (Hall 0%nat H0) as (n0 & Hw0). destruct (Hw0 eq_refl) as (m & d & _ & Hj0 & _).
  destruct (joined_inv _ _ _ _ _ _ _ Hi Hj0) as (_ & Hnd & Hne & (_ & Hcore & _)).
  destruct Hj0 as [Hph _]. simpl in Hph.
  pose proof (ci_tiles _ _ _ Hcore) as Ht. pose proof (ci_cursor _ _ _ Hcore) as Hcur.
  unfold core_of, full in Ht, Hcur. simpl in Ht, Hcur.
  change (inode_at (view _ _ w) m) with (inode_at w m) in Ht, Hcur.
  assert (forall i, (i < T)%nat -> length (ss i) = M /\
    of_thread i (q_handed q) = map (pair i) (ss i) /\
    logged i (map (message_text (Z.of_nat i)) (ss i)) (zlen (ss i)) true (my_claims i (g_claims (s_g G))) (i_bytes (inode_at w d))) as Hw.
  { intros i Hlt. destruct (Hall i Hlt) as (n & Hwi). destruct (Hwi eq_refl) as (m' & d' & s & Hj & Hl & Hh & Hlg). simpl in *.
    destruct Hj as [Hph' _]. simpl in Hph'. assert (m' = m /\ d' = d) as [-> ->] by (split; congruence).
    assert (ss i = s) as ->; [| done]. unfold ss. rewrite Hh. apply snd_pair. }
  destruct (claims_log T (g_claims (s_g G)) 0 _ (i_bytes (inode_at w d))
    (fun i => map (message_text (Z.of_nat i)) (ss i)) Ht) as (log & Hc & Hb & Hlog & Hlt).
  { intros j s n Hin. destruct (decide (j < T)%nat) as [| Hge]; [done |]. exfalso.
    assert ((j, s, n) ∈ my_claims j (g_claims (s_g G))) as Hm by (apply list_elem_of_filter; done).
    pose proof (Honly j ltac:(lia)) as E. simpl in E. rewrite E in Hm. by apply elem_of_nil in Hm. }
  { intros i Hlt. exists (zlen (ss i)). by apply Hw. }
  destruct (log_numbers T (fun i => message_text (Z.of_nat i)) ss log Hlt Hlog) as (ms & -> & Hms & Hs).
  assert (ms ≡ₚ q_handed q) as HP.
  { apply threads_permutation. intros i. destruct (decide (i < T)%nat) as [Hi' |].
    - rewrite Hs by done. symmetry. by apply Hw.
    - rewrite (of_thread_none T i ms), (of_thread_none T i (q_handed q)); [done | by rewrite <-Hlen | lia | done | lia]. }
  assert (length ms = T * M)%nat as Hn.
  { apply length_threads; [done |]. intros i Hi'. rewrite Hs, length_map by done. by apply Hw. }
  assert (map snd (q_handed q) = seqZ 0 (Z.of_nat T * Z.of_nat M)) as Hseq.
  { rewrite sq_handed. f_equal. apply (f_equal length) in sq_handed. rewrite length_map, length_seqZ in sq_handed.
    rewrite <-HP, Hn in sq_handed. lia. }
  exists m, d, ms. split; [done |]. split; [done |]. split; [done |]. split; [done |].
  split; [rewrite <-Hseq; by apply fmap_Permutation |].
  assert (concat (map (fun e => message_text (Z.of_nat e.1) e.2) ms) =
    contents (map (fun e => (e.1, message_text (Z.of_nat e.1) e.2)) ms)) as ->.
  { unfold contents. by rewrite map_map. }
  split; [lia |]. split; [| done]. unfold LIMIT in Hcur. rewrite Hc in Hcur.
  pose proof (zsum_nonneg (test_budgets M T) (proj1 budgets_ok)).
  assert (0 <= zsum (g_budget (s_g G))) as Hz by apply zsum_nonneg, (ci_budget _ _ _ Hcore).
  unfold CHUNK_SIZE in *. lia.
Qed.

(** ** The main thread *)

(** What the main thread does with the log when the workers are joined. *)
Definition main_trims : mm Z :=
  handle <- mmlog_open fuel (Some name) CHUNK_SIZE NUM_CHUNKS ;;
  mmlog_trim handle ;;
  Ret handle.

(** The workers' messages are in the log, whatever the main thread does now. *)
Definition Written (cnt : Z) (q : seqg) (S : sw) : Prop :=
  (forall i, (i < T)%nat -> exists n, Wrote_all i (Z.of_nat i) M (n, true) (S.1, cnt, (S.2, q))) /\
  forall j, (T < j)%nat -> my_claims j (g_claims (s_g S.2)) = [].

Lemma Written_guar cnt q S S' : seq_inv cnt q -> guar SRely T S S' -> SInv S' -> Written cnt q S -> Written cnt q S'.
Proof.
  destruct S as [w G], S' as [w' G']. intros Hq Hg Hi [HW Hc]. split.
  - intros i Hlt. destruct (HW i Hlt) as [n Hn]. exists n.
    apply (Wrote_all_stable name (test_budgets M T) i (Z.of_nat i) _ _ (w, cnt, (G, q))); [| | done].
    + split; [apply (Hg i); lia | done].
    + by split.
  - intros j Hj. rewrite (sr_claims _ _ _ _ _ (Hg j ltac:(lia))). auto.
Qed.

Lemma main_opens w cnt G q : TInv (w, cnt, (G, q)) -> Opn T 0 N (w, G) -> Virgin T (w, G) -> Written cnt q (w, G) ->
  returns (run mm_h (mmlog_open fuel (Some name) CHUNK_SIZE NUM_CHUNKS) (OK, w)) (fun h s =>
    exists G', SInv (s.2, G') /\ Written cnt q (s.2, G') /\ Open_result T 0 N h (s.2, G')).
Proof.
  intros [Hi Hq] Ho Hv HW. destruct budgets_ok as [Hb Hr].
  apply (instr_run mm_h s_upd T _ OK w G (fun h _ w' => exists G', SInv (w', G') /\ Written cnt q (w', G') /\ Open_result T 0 N h (w', G'))).
  eapply returns_mono.
  - apply (safe_run sh SInv SRely T _ (Written cnt q) (fun h _ S => Open_result T 0 N h S)).
    + intros S S' Hg HS. by apply Written_guar.
    + exact Hi.
    + exact HW.
    + by apply (mmlog_open_safe name CHUNK_SIZE (test_budgets M T) T 0 N fuel NUM_CHUNKS).
  - intros h [l [w' G']] (H1 & H2 & H3). by exists G'.
Qed.

(** The file after the trim. *)
Definition complete (w : world) : Prop :=
  exists d f (ms : list (nat * Z)), w_names w !! name = Some d /\ w_inodes w !! d = Some f /\
    file_contents f = concat (map (fun e => message_text (Z.of_nat e.1) e.2) ms) /\
    Forall (fun e => (e.1 < T)%nat) ms /\ ms.*2 ≡ₚ seqZ 0 (Z.of_nat T * Z.of_nat M).

Lemma trim_completes w cnt G q h er : (0 < T)%nat -> seq_inv cnt q -> length (q_credit q) = T ->
  SInv (w, G) -> Written cnt q (w, G) -> h <> NULL -> Joined T 0 N h (w, G) ->
  returns (run mm_h (mmlog_trim h) (er, w)) (fun _ s => complete s.2).
Proof.
  intros H0 Hq Hlen Hi [HW Hother] Hh (m & d & md & fd & cap & Hj & HK).
  destruct (all_logged w cnt G q H0) as (m' & d' & ms & Hph & Hne & Hnd & Hms & HP & Hcur & Hlim & Hb); try done.
  { intros j Hj'. destruct (decide (j = T)) as [-> | Hne]; [| apply Hother; lia].
    destruct (k_me _ _ _ _ _ _ _ _ _ _ _ _ _ HK) as (_ & Hcl & _). exact Hcl. }
  assert (m' = m /\ d' = d) as [-> ->] by (destruct Hj as [E _]; simpl in E; split; congruence).
  destruct (joined_inv _ _ _ _ _ _ _ Hi Hj) as (_ & _ & _ & Hfull).
  assert (inv m d CHUNK_SIZE 0 (part T (w, G))) as Hpart by by apply part_inv.
  destruct (hd_handle _ _ _ _ _ _ _ _ _ Hpart (k_hd _ _ _ _ _ _ _ _ _ _ _ _ _ HK)) as (x & Hx & Hmd & Hfd & _ & _ & Hok).
  pose proof (hd_md_nonnull _ _ _ _ _ _ _ _ _ Hpart (k_hd _ _ _ _ _ _ _ _ _ _ _ _ _ HK)) as Hmd2.
  destruct Hpart as ((_ & [f Hf] & Hz) & _). unfold part in Hx, Hf, Hz. simpl in Hx, Hf, Hz.
  apply only_Some in Hx as [_ Hx]. destruct (ho_meta _ _ _ _ _ Hok) as (mp & Hmp & Hino). unfold part in Hmp. simpl in Hmp.
  apply only_Some in Hmp as [_ Hmp]. pose proof (k_fd _ _ _ _ _ _ _ _ _ _ _ _ _ HK) as Hkfd. unfold part in Hkfd. simpl in Hkfd.
  apply only_Some in Hkfd as [_ Hkfd].
  unfold inode_at in Hcur, Hb, Hz. simpl in Hz. rewrite Hf in Hb. simpl in Hb.
  destruct (w_inodes w !! m) as [im |] eqn:Em; [| simpl in Hz; lia]. simpl in Hcur, Hz.
  set (data := concat _) in *. pose proof (zlen_nonneg data).
  destruct (trim_run w h m x (i_meta im) d f er) as [Hr _]; try done; try lia.
  - rewrite Hmd. unfold NULL. lia.
  - split; [done |]. apply md_at_inode. by exists mp, im.
  - by rewrite Hfd.
  - apply (si_faults _ _ _ _ Hi).
  - rewrite Hr. simpl. exists d, (truncate_inode (cursor (i_meta im)) f), ms. simpl.
    split; [done |]. split; [by rewrite lookup_alter_eq, Hf |]. rewrite Hcur. split; [by apply trimmed_contents |]. done.
Qed.
End Pool.

(** C3. The threads test, end to end: workers that open the log themselves, in every interleaving of
    their operations and with any timing, never stop the process, and a state in which none can move is one where
    all have returned. When all report success, the main thread's trim leaves a file that is the
    concatenation of their messages in some order, with the numbers 0, 1, ... each used once, and
    [validate_log] accepts it. *)
Theorem threads_test_passes name M T w N fuel c :
  Z.of_nat M <= MESSAGES_PER_THREAD ->
  name <> EmptyString -> (0 < T)%nat -> Z.of_nat T <= NUM_THREADS -> clean name w ->
  clock_ok N (w_clock w) -> (N + 3 <= fuel)%nat ->
  rtc (pool_step (fun _ => threads_h)) (workers M fuel name T w) c ->
  (forall s, ~ pool_crash (fun _ => threads_h) c s) /\
  ((forall c', ~ pool_step (fun _ => threads_h) c c') ->
    forall i, (i < T)%nat -> exists l r, c.1 !! i = Some (l, Ret r)) /\
  ((forall i, (i < T)%nat -> exists l n, c.1 !! i = Some (l, Ret (n, true))) ->
    returns (run mm_h (main_trims name fuel) (OK, c.2.1)) (fun handle s =>
      handle = NULL \/ exists d f, w_names s.2 !! name = Some d /\ w_inodes s.2 !! d = Some f /\
        always (env (readable (file_contents f))) nothing
          (validate_log name (Z.of_nat T * Z.of_nat M)) (fun r _ => r = true))).
Proof.
  intros HM Hname H0 HT Hcl Hck Hfuel Hs.
  destruct (run_ok name Hname M T HM HT w N fuel Hfuel Hcl Hck c Hs) as (G & Hok & Ho & Hv & Hlen & Hcm).
  destruct (pool_adequacy _ _ _ _ _ _ Hok (rtc_refl _ _)) as ([Hi Hq] & Hcr & Hpost & Hstep).
  destruct c as [ts [w' cnt]], G as [G q]. cbn [fst snd] in *. split; [| split].
  - intros s Hs'. apply (Hcr s). by apply (instr_crash threads_h t_upd (ts, (w', cnt)) (G, q) s).
  - intros Hstuck i Hlt. assert (i < length ts)%nat as Hl.
    { apply rtc_pool_length in Hs. simpl in Hs. rewrite Hs, length_map, length_seq. done. }
    destruct (lookup_lt_is_Some_2 _ _ Hl) as [[l p] Hp].
    destruct (Hstep i l p Hp) as [[r ->] | [c' Hc']]; [by exists l, r |].
    apply instr_unstep in Hc'. by destruct (Hstuck _ Hc').
  - intros Hall.
    assert (Written M T cnt q (w', G)) as HW.
    { split; [| intros j Hj; apply Hcm; lia]. intros i Hlt. destruct (Hall i Hlt) as (l & n & Hl). exists n. by apply (Hpost i l (n, true)). }
    unfold main_trims. eapply returns_run_bind; [by eapply (main_opens name Hname M T HM HT) |].
    intros h [l s] (G' & Hi' & HW' & HR). cbn [snd] in *. destruct HR as [-> | [Hne HJ]].
    { exact (or_introl eq_refl). }
    eapply returns_run_bind; [by eapply (trim_completes name M T HM HT N fuel Hfuel) |].
    intros [] [l' s'] (d & f & ms & Hd & Hf & Hc & Hms & HP). cbn [run returns]. right. exists d, f. split; [done |]. split; [done |].
    rewrite Hc. assert (zlen ms = Z.of_nat T * Z.of_nat M) as Hn.
    { apply Permutation_length in HP. rewrite length_map, length_seqZ in HP. pose proof (total_ok M T HM HT). unfold zlen. lia. }
    set (ms' := map (fun e : nat * Z => (Z.of_nat e.1, e.2)) ms).
    assert (zlen ms' = Z.of_nat T * Z.of_nat M) as Hn' by (unfold zlen in *; subst ms'; by rewrite length_map).
    pose proof (complete_log_verdict name ms') as H. rewrite Hn' in H.
    assert (map (fun m => message_text m.1 m.2) ms' = map (fun e => message_text (Z.of_nat e.1) e.2) ms) as E.
    { subst ms'. by rewrite map_map. }
    rewrite E in H. refine (H _ _ _); clear H.
    + apply Forall_map. eapply Forall_impl; [exact Hms |]. intros e He. cbv beta in He. cbn [fst]. unfold NUM_THREADS in HT. split; lia.
    + pose proof (total_ok M T HM HT). lia.
    + assert (ms'.*2 = ms.*2) as ->; [| exact HP]. exact (map_map _ snd ms).
Qed.

(** Two workers of two messages each, taking turns. *)
Definition test_end : config (sumE mmE testE) mmlog_err_t (world * Z) (Z * bool) :=
  pool_run (fun _ => threads_h) (concat (replicate 500 [0%nat; 1%nat])) (workers 2 13 "log" 2 empty_world).

Lemma clean_empty : clean "log" empty_world.
Proof. by split; try (intros ? [? H]; vm_compute in H); try (intros ? ? H; vm_compute in H). Qed.

Lemma test_steps : rtc (pool_step (fun _ => threads_h)) (workers 2 13 "log" 2 empty_world) test_end.
Proof. apply pool_run_steps. Qed.

Lemma test_succeeds i : (i < 2)%nat -> exists l n, test_end.1 !! i = Some (l, Ret (n, true)).
Proof. intros Hi. destruct i as [| [| i]]; [exists OK, 2; vm_compute; reflexivity | exists OK, 2; vm_compute; reflexivity | lia]. Qed.

Lemma test_opens : exists s, run mm_h (main_trims "log" 13) (OK, test_end.2.1) = Done 19 s.
Proof. eexists. vm_compute. reflexivity. Qed.

Lemma threads_test_passes_witness : exists s d f,
  run mm_h (main_trims "log" 13) (OK, test_end.2.1) = Done 19 s /\
  w_names s.2 !! "log"%string = Some d /\ w_inodes s.2 !! d = Some f /\
  always (env (readable (file_contents f))) nothing (validate_log "log" 4) (fun r _ => r = true).
Proof.
  destruct (threads_test_passes "log" 2 2 empty_world 10 13 test_end ltac:(done) ltac:(done) ltac:(lia)
    ltac:(done) clean_empty demo_clock_ok ltac:(lia) test_steps) as (_ & _ & H).
  specialize (H test_succeeds). destruct test_opens as [s E].
  rewrite E in H. cbn [returns] in H. destruct H as [H | (d & f & Hd & Hf & Hv)]; [discriminate H |].
  exists s, d, f. split; [exact E |]. split; [exact Hd |]. split; [exact Hf | exact Hv].
Defined.
