(* ===== verification/Family.v ===== *)
(** * Families of processes

    A program that forks is one [prog]; the system call answers twice. [family] runs it and all its
    descendants and gives, for each, what it did and how it ended. Every process talks to
    a kernel of its own, so a claim about all kernels covers every way the processes may
    interleave and influence each other. *)
From stdpp Require Import base gmap sets list strings.
From Stdlib Require Import ZArith Lia.
From S2P Require Import Prelude Prog Sys.

(** How a call that makes a process answers: [f ret child] in the process that got [ret]
    (0 in the child), where [child] is the number of the child. *)
Class Forks (E : Type -> Type) := forks : forall R, E R -> option (Z -> Z -> R).

(** A process is the list of its ancestors' child numbers, its own first. *)
Definition path : Type := list nat.

(** [past] is what its ancestors had done when it was made, [did] what it did itself; its first event
    is the call that made it. *)
Record process (E : Type -> Type) (A : Type) := MkProcess {
  who : path;
  past : list (event E);
  did : list (event E);
  ended : A + stop }.
Arguments MkProcess {E A} who past did ended.
Arguments who {E A} p.
Arguments past {E A} p.
Arguments did {E A} p.
Arguments ended {E A} p.

Section Family.
Context {E : Type -> Type} `{!Forks E} (pid_of : path -> Z) (answer : path -> kernel E).

(** The process [self], which has made [born] processes, and its descendants; a
    number that is not positive is a call that failed. *)
Fixpoint family {A} (p : prog E A) (self : path) (born : nat) (old tr : list (event E)) :
    list (process E A) :=
  match p with
  | Ret a => [MkProcess self old tr (inl a)]
  | Halt s => [MkProcess self old tr (inr s)]
  | Vis e k =>
      match forks _ e with
      | Some f =>
          let child := born :: self in
          let pid := pid_of child in
          if 0 <? pid
          then family (k (f pid pid)) self (S born) old (tr ++ [ev e (f pid pid)]) ++
               family (k (f 0 pid)) child 0 (old ++ tr) [ev e (f 0 pid)]
          else family (k (f (-1) (-1))) self (S born) old (tr ++ [ev e (f (-1) (-1))])
      | None =>
          let r := answer self _ (old ++ tr) e in
          family (k r) self born old (tr ++ [ev e r])
      end
  end.

Lemma family_assoc {A B C} (p : prog E A) (f : A -> prog E B) (g : B -> prog E C) self born old tr :
  family (bind (bind p f) g) self born old tr = family (bind p (fun a => bind (f a) g)) self born old tr.
Proof.
  revert self born old tr. induction p as [a | s | R e k IH]; intros self born old tr; [done.. |].
  cbn [bind family]. destruct (forks R e); [case_if; by rewrite !IH | by rewrite IH].
Qed.

(** The whole family of a program that starts afresh. *)
Definition processes {A} (p : prog E A) : list (process E A) := family p [] 0 [] [].
End Family.

(** ** Every process of every family

    [everyone p old tr Q]: whatever the answers, as long as each satisfies [ans], every
    process of the family of [p], begun with [old] and [tr], satisfies [Q]. *)
Section Everyone.
Context {E : Type -> Type} `{!Forks E} (ans : forall R, E R -> R -> Prop).

Fixpoint everyone {A} (p : prog E A) (old tr : list (event E))
    (Q : list (event E) -> list (event E) -> A + stop -> Prop) : Prop :=
  match p with
  | Ret a => Q old tr (inl a)
  | Halt s => Q old tr (inr s)
  | Vis e k =>
      match forks _ e with
      | Some f =>
          (forall pid, 0 < pid ->
            everyone (k (f pid pid)) old (tr ++ [ev e (f pid pid)]) Q /\
            everyone (k (f 0 pid)) (old ++ tr) [ev e (f 0 pid)] Q) /\
          everyone (k (f (-1) (-1))) old (tr ++ [ev e (f (-1) (-1))]) Q
      | None => forall r, ans _ e r -> everyone (k r) old (tr ++ [ev e r]) Q
      end
  end.

Lemma everyone_mono {A} (p : prog E A) old tr (P Q : list (event E) -> list (event E) -> A + stop -> Prop) :
  everyone p old tr P -> (forall old tr a, P old tr a -> Q old tr a) -> everyone p old tr Q.
Proof.
  intros Hp HPQ. revert old tr Hp. induction p as [a | s | R e k IH]; simpl; intros old tr Hp; [auto.. |].
  destruct (forks R e) as [f |]; [| eauto].
  destruct Hp as [Hp Hf]. split; [| auto].
  intros pid Hpid. destruct (Hp pid Hpid) as [H1 H2]. auto.
Qed.

Lemma everyone_bind {A B} (p : prog E A) (f : A -> prog E B) old tr P Q :
  everyone p old tr P ->
  (forall old tr r, P old tr r ->
    match r with inl a => everyone (f a) old tr Q | inr s => Q old tr (inr s) end) ->
  everyone (bind p f) old tr Q.
Proof.
  intros Hp Hf. revert old tr Hp. induction p as [a | s | R e k IH]; simpl; intros old tr Hp.
  - by apply (Hf _ _ _ Hp).
  - by apply (Hf _ _ _ Hp).
  - destruct (forks R e) as [g |]; [| eauto].
    destruct Hp as [Hp Hg]. split; [| auto].
    intros pid Hpid. destruct (Hp pid Hpid) as [H1 H2]. auto.
Qed.

Lemma everyone_family {A} (p : prog E A) Q pid_of (answer : path -> kernel E) self born old tr :
  (forall q R tr (e : E R), ans R e (answer q R tr e)) -> everyone p old tr Q ->
  Forall (fun q => Q (past q) (did q) (ended q)) (family pid_of answer p self born old tr).
Proof.
  intros Ha. revert self born old tr. induction p as [a | s | R e k IH]; simpl; intros self born old tr Hp.
  - by constructor.
  - by constructor.
  - destruct (forks R e) as [f |]; [| auto].
    destruct Hp as [Hp Hf]. destruct (0 <? pid_of (born :: self)) eqn:H0; [zbool | auto].
    destruct (Hp _ H0) as [H1 H2]. apply Forall_app. auto.
Qed.
End Everyone.

(** ** Standard output

    What a process prints waits in its buffer, which its children inherit. A terminal is written to at every end of
    line; anything else only when the buffer is flushed, which [exit] does and [_exit] does not. *)
Inductive out_op : Type := Put (text : list Z) | Flush.

(** What is up to the last newline, and what is behind it. *)
Fixpoint upto_newline (l : list Z) : list Z * list Z :=
  match l with
  | [] => ([], [])
  | b :: l' =>
      match upto_newline l' with
      | ([], r) => if b =? 10 then ([b], r) else ([], b :: r)
      | (w, r) => (b :: w, r)
      end
  end.

(** The buffer and what has been written. *)
Definition out_step (tty : bool) (s : list Z * list Z) (o : out_op) : list Z * list Z :=
  match o with
  | Put t =>
      if tty then let '(w, r) := upto_newline (s.1 ++ t) in (r, s.2 ++ w) else (s.1 ++ t, s.2)
  | Flush => ([], s.2 ++ s.1)
  end.

(** What the operations of a signature do to standard output. *)
Class Stdio (E : Type -> Type) := stdio_of : event E -> list out_op.

Section Stdio.
Context {E : Type -> Type} `{!Stdio E} (tty : bool).

Definition out_run (s : list Z * list Z) (tr : list (event E)) : list Z * list Z :=
  fold_left (out_step tty) (flat_map stdio_of tr) s.

(** What a process itself writes. *)
Definition output {A} (q : process E A) : list Z := (out_run ((out_run ([], []) (past q)).1, []) (did q)).2.

Lemma out_run_app s t1 t2 : out_run s (t1 ++ t2) = out_run (out_run s t1) t2.
Proof. unfold out_run. by rewrite flat_map_app, fold_left_app. Qed.
End Stdio.

Lemma upto_newline_line l : upto_newline (l ++ [10]) = (l ++ [10], []).
Proof. induction l as [| b l IH]; [done |]. cbn. rewrite IH. by destruct l. Qed.

(** A line for a terminal goes out at once, behind what waits. *)
Lemma out_step_line s l : out_step true s (Put (l ++ [10])) = ([], s.2 ++ (s.1 ++ l) ++ [10]).
Proof. unfold out_step. by rewrite app_assoc, upto_newline_line. Qed.

Definition line (l : list (list Z)) : list Z := concat l ++ [10].

(** The text of the operations, and when it all goes out. *)
Definition put_of (o : out_op) : list Z := match o with Put t => t | Flush => [] end.
Definition is_line (o : out_op) : Prop := match o with Put t => exists l, t = l ++ [10] | Flush => True end.
Definition is_put (o : out_op) : Prop := match o with Put _ => True | Flush => False end.

Lemma fold_lines ops w : Forall is_line ops ->
  fold_left (out_step true) ops ([], w) = ([], w ++ concat (map put_of ops)).
Proof.
  intros H. revert w. induction H as [| o ops Ho _ IH]; intros w; [by rewrite app_nil_r |].
  cbn [fold_left map concat]. destruct o as [t |].
  - destruct Ho as [l ->]. rewrite out_step_line. cbn [fst snd app]. by rewrite IH, <-app_assoc.
  - cbn [out_step fst snd]. by rewrite app_nil_r, IH.
Qed.

Lemma fold_puts ops b w : Forall is_put ops ->
  fold_left (out_step false) ops (b, w) = (b ++ concat (map put_of ops), w).
Proof.
  intros H. revert b. induction H as [| o ops Ho _ IH]; intros b; [by rewrite app_nil_r |].
  destruct o as [t |]; [| done]. cbn [fold_left map concat out_step fst snd].
  by rewrite IH, <-app_assoc.
Qed.

(** A process that prints lines only shows them on a terminal; elsewhere one that never flushes shows nothing. *)
Section Output.
Context {E : Type -> Type} `{!Stdio E}.

Definition texts (tr : list (event E)) : list Z := concat (map put_of (flat_map stdio_of tr)).

Lemma output_tty {A} (q : process E A) :
  Forall is_line (flat_map stdio_of (past q)) -> Forall is_line (flat_map stdio_of (did q)) ->
  output true q = texts (did q).
Proof. intros H1 H2. unfold output, out_run. rewrite fold_lines by done. cbn [fst]. by rewrite fold_lines. Qed.

Lemma output_unflushed {A} (q : process E A) :
  Forall is_put (flat_map stdio_of (did q)) -> output false q = [].
Proof.
  intros H. unfold output, out_run. destruct (fold_left _ (flat_map stdio_of (past q)) _) as [b w].
  cbn [fst]. by rewrite fold_puts.
Qed.

(** What is flushed at the end was inherited or printed. *)
Lemma output_at_exit {A} who' old tr (e : event E) (r : A + stop) : stdio_of e = [Flush] ->
  Forall is_put (flat_map stdio_of old) -> Forall is_put (flat_map stdio_of tr) ->
  output false (MkProcess who' old (tr ++ [e]) r) = texts old ++ texts tr.
Proof.
  intros He Ho Ht. unfold output, out_run. cbn [past did]. rewrite (fold_puts (flat_map stdio_of old)) by done. cbn [fst].
  rewrite flat_map_app, fold_left_app, (fold_puts (flat_map stdio_of tr)) by done. cbn [flat_map].
  rewrite He, app_nil_r. unfold texts. cbn [fold_left out_step fst snd app]. done.
Qed.
(** A process that prints lines and exits shows them all, wherever standard output goes. *)
Definition just_lines (tr : list (event E)) : Prop := Forall (fun o => is_line o /\ is_put o) (flat_map stdio_of tr).

Lemma output_lines {A} tty who' old tr (e : event E) (r : A + stop) : stdio_of e = [Flush] ->
  just_lines old -> just_lines tr -> texts old = [] ->
  output tty (MkProcess who' old (tr ++ [e]) r) = texts tr.
Proof.
  unfold just_lines. intros He Ho Ht Hn. destruct tty.
  - rewrite output_tty; cbn [past did].
    + unfold texts. rewrite flat_map_app, map_app, concat_app. cbn [flat_map]. rewrite He. apply app_nil_r.
    + eapply Forall_impl; [exact Ho | by intros ? []].
    + rewrite flat_map_app. apply Forall_app_2; [eapply Forall_impl; [exact Ht | by intros ? []] |].
      cbn [flat_map]. rewrite He. by repeat constructor.
  - rewrite output_at_exit; [by rewrite Hn | done | |]; (eapply Forall_impl; [eassumption | by intros ? []]).
Qed.
End Output.
