(* ===== verification/CloneFork.v ===== *)
(** * fork_without_handlers: five ways to make a process, and who notices

    [src/fork_without_handlers/clone.c]: handlers registered with [pthread_atfork] are run by the
    library's [fork] alone; [vfork], [posix_spawn] and the two calls of [clone] pass them by. *)
From stdpp Require Import base gmap list strings.
From Stdlib Require Import ZArith Lia Ascii.
From S2P Require Import Prelude Prog Sys Family Text.

Definition CLONE_VM : Z := 256.
Definition CLONE_VFORK : Z := 16384.
Definition CLONE_CHILD_SETTID : Z := 16777216.
Definition SIGCHLD : Z := 17.
Definition SIGSEGV : Z := 11.
Definition NULL : Z := 0.

Definition has (flags bit : Z) : bool := negb (Z.land flags bit =? 0).

Inductive clE : Type -> Type :=
| Getpid : clE Z
| Pthread_atfork : clE Z                          (* registers all three handlers, or fails *)
| SysFork : clE Z                                 (* what the library's fork does between the handlers *)
| Vfork : clE Z
| SysClone (flags stack ptid ctid : Z) : clE (Z * Z)   (* the result; then *child_tid *)
| Printf (text : list Z) : clE unit
| Fflush : clE unit
| Perror (s : string) : clE unit
| Readlink (link : list Z) (n : Z) : clE (option (list Z))
| Stack (n : Z) : clE (list Z)                    (* what a fresh buffer holds *)
| PosixSpawn (path : list Z) (argv : list string) : clE (option Z)   (* the pid it stores, if it succeeds *)
| Getenv (name : string) : clE (option string)
| Signal (sig : Z) : clE unit.                    (* installs segfault_handler *)

Abbreviation clM := (prog clE).

(** The child's memory gets its own number at [child_tid] when the flag asks for it; the parent's
    keeps what it held. *)
#[export] Instance clone_forks : Forks clE := fun R e =>
  match e in clE R return option (Z -> Z -> R) with
  | SysFork | Vfork => Some (fun ret _ => ret)
  | SysClone flags _ _ ctid =>
      Some (fun ret child => (ret, if (ret =? 0) && has flags CLONE_CHILD_SETTID then child else ctid))
  | _ => None
  end.

(** The result of the call and what is at [child_tid] afterwards. A child that shares the
    memory and got no stack returns through the frames of its parent, which are gone when the parent
    goes on. *)
Definition clone (flags stack parent_tid child_tid : Z) : clM (Z * Z) :=
  r <- trigger (SysClone flags stack parent_tid child_tid) ;;
  if (0 <? r.1) && has flags CLONE_VM && (stack =? NULL) then Halt Undefined else Ret r.

Definition clone_like_fork : clM Z :=
  r <- clone (Z.lor CLONE_CHILD_SETTID SIGCHLD) NULL 0 0 ;;
  Ret r.2.

Definition clone_like_vfork : clM Z :=
  r <- clone (Z.lor (Z.lor CLONE_VM CLONE_VFORK) SIGCHLD) NULL 0 0 ;;
  Ret r.2.

Definition hit (pid : Z) : list Z :=
  line [bytes_of "Process "; dec pid; bytes_of " has hit an atfork handler"].

Definition cause_a_horrible_segmentation_fault_to_occur : clM unit :=
  pid <- trigger Getpid ;;
  trigger (Printf (hit pid)) ;;
  trigger Fflush.

(** [None] when no number was stored. The path is what [readlink] wrote and what lies
    behind it, up to a NUL. *)
Definition try_spawn (argv0 : string) : clM (option Z) :=
  path <- trigger (Stack 4096) ;;
  pid <- trigger Getpid ;;
  let link := bytes_of "/proc/" ++ dec pid ++ bytes_of "/exe" in
  len <- trigger (Readlink link 4096) ;;
  match len with
  | None => trigger (Perror "readlink") ;; Ret (Some (-1))
  | Some data => trigger (PosixSpawn (c_str (data ++ drop (length data) path)) [argv0])
  end.

Definition print_help (argv0 : string) : clM unit :=
  trigger (Printf (line [bytes_of "Usage: "; bytes_of argv0; bytes_of " [fork|vfork|clone_fork|clone_vfork|spawn]"])).

Definition segfault_handler (sig : Z) : clM unit :=
  pid <- trigger Getpid ;;
  trigger (Printf (line [bytes_of "Process "; dec pid; bytes_of " has hit a segfault"])) ;;
  trigger Fflush ;;
  Halt (Exited (128 + sig)).

Definition clean (pid : Z) : list Z := line [bytes_of "Clean exit for "; dec pid].

Definition done : clM unit :=
  pid <- trigger Getpid ;;
  trigger (Printf (clean pid)) ;;
  trigger Fflush.

(** The constructor. *)
Definition setup : clM unit :=
  v <- trigger (Getenv "LD_PRELOAD") ;;
  match v with
  | None => trigger (Signal SIGSEGV)
  | Some _ => Ret tt
  end.

(** The library's [fork] with the handlers [h], registered for the parent before and after and for
    the child. *)
Definition fork (h : clM unit) : clM Z :=
  h ;;
  pid <- trigger SysFork ;;
  h ;;
  Ret pid.

Definition lower (a : ascii) : ascii :=
  if (65 <=? code_of a) && (code_of a <=? 90) then ascii_of_nat (nat_of_ascii a + 32) else a.

(** [strcasecmp(s, t) == 0]. *)
Definition strcaseeq (s t : string) : bool :=
  bool_decide (map lower (chars s) = map lower (chars t)).

Definition main (argv0 : string) (args : list string) : clM Z :=
  r <- trigger Pthread_atfork ;;
  let handlers := if r =? 0 then cause_a_horrible_segmentation_fault_to_occur else Ret tt in
  match args with
  | arg :: _ =>
      if strcaseeq arg "fork" then fork handlers ;; done ;; Ret 0
      else if strcaseeq arg "vfork"
      then
        pid <- trigger Vfork ;;
        (if pid =? 0 then done ;; Halt (Exited 0) else Ret tt) ;;
        done ;; Ret 0
      else if strcaseeq arg "clone_fork" then clone_like_fork ;; done ;; Ret 0
      else if strcaseeq arg "clone_vfork" then clone_like_vfork ;; done ;; Ret 0
      else if strcaseeq arg "spawn" then try_spawn argv0 ;; done ;; Ret 0
      else if strcaseeq arg "help" then print_help argv0 ;; Ret 1
      else done ;; Ret 0
  | [] => done ;; Ret 0
  end.

(** ** Who prints what *)

Definition printed_of (e : event clE) : list (list Z) :=
  match e with existT _ (f, _) => match f with Printf t => [t] | _ => [] end end.

Definition report (q : process clE Z) : list (list Z) * (Z + stop) := (flat_map printed_of (did q), ended q).

Inductive method : Type := Fork_ | Vfork_ | Clone_fork | Clone_vfork | Spawn | Help | Nothing.

Definition method_of (args : list string) : method :=
  match args with
  | [] => Nothing
  | arg :: _ =>
      if strcaseeq arg "fork" then Fork_ else if strcaseeq arg "vfork" then Vfork_
      else if strcaseeq arg "clone_fork" then Clone_fork else if strcaseeq arg "clone_vfork" then Clone_vfork
      else if strcaseeq arg "spawn" then Spawn else if strcaseeq arg "help" then Help else Nothing
  end.

Section Who.
Context (pid_of : path -> Z) (answer : path -> kernel clE).
Hypothesis Hpid : forall q tr, answer q _ tr Getpid = pid_of q.
Hypothesis Hatfork : forall q tr, answer q _ tr Pthread_atfork = 0.

(** The parent's and the child's part, when there is a child. *)
Definition expected (argv0 : string) (m : method) : list (list (list Z) * (Z + stop)) :=
  let p := pid_of [] in let c := pid_of [0%nat] in
  let child l := if 0 <? c then [l] else [] in
  match m with
  | Fork_ => ([hit p; hit p; clean p], inl 0) :: child ([hit c; clean c], inl 0)
  | Vfork_ => ([clean p], inl 0) :: child ([clean c], inr (Exited 0))
  | Clone_fork => ([clean p], inl 0) :: child ([clean c], inl 0)
  | Clone_vfork =>
      if 0 <? c then [([], inr Undefined); ([clean c], inl 0)] else [([clean p], inl 0)]
  | Help => [([line [bytes_of "Usage: "; bytes_of argv0; bytes_of " [fork|vfork|clone_fork|clone_vfork|spawn]"]],
              inl 1)]
  | Spawn | Nothing => [([clean p], inl 0)]
  end.

(** Run what can be run; decide whether there is a child where that matters. *)
Ltac steps := cbn -[strcaseeq hit clean line bytes_of Z.ltb]; rewrite ?Hpid.
Ltac consts :=
  repeat match goal with
  | |- context [0 <? 0] => change (0 <? 0) with false
  | |- context [0 <? -1] => change (0 <? -1) with false
  | |- context [has ?f ?b] => let v := eval vm_compute in (has f b) in change (has f b) with v
  end; steps.
Ltac settle :=
  steps;
  lazymatch goal with
  | |- context [0 <? pid_of [0%nat]] =>
      let H := fresh "H" in let H' := fresh "H" in
      destruct (0 <? pid_of [0%nat]) eqn:H; steps;
      [assert ((pid_of [0%nat] =? 0) = false) as H' by (zbool; apply Z.eqb_neq; lia); rewrite ?H', ?H | consts];
      consts
  | _ => idtac
  end;
  try reflexivity.

(** C35. Which process prints which line and how it ends, for every argument in any case of its letters: the handlers
    run before and after the library's fork, three times in all, and never for the other four ways. They print their line
    and return, against their name and the comment at their registration: the store through a null pointer is commented out. The call of [clone] that
    imitates [fork] reports 0 to the parent and to the child its own number, the reverse of [fork];
    the one that imitates [vfork] shares its stack, so the parent, if there is a child, is lost. *)
Theorem clone_main_spec argv0 args :
  map report (processes pid_of answer (main argv0 args)) = expected argv0 (method_of args) /\
  map ended (processes pid_of answer clone_like_fork) = inl 0 ::
    (if 0 <? pid_of [0%nat] then [inl (pid_of [0%nat])] else []).
Proof.
  split; unfold processes.
  - destruct args as [| arg args]; unfold main, method_of, expected;
      [cbn -[Z.eqb]; by rewrite Hatfork; cbn; rewrite Hpid |].
    cbn -[Z.eqb strcaseeq hit clean line bytes_of]. rewrite Hatfork. change (0 =? 0) with true. cbv iota.
    destruct (strcaseeq arg "fork"); [settle |].
    destruct (strcaseeq arg "vfork"); [settle |].
    destruct (strcaseeq arg "clone_fork"); [settle |].
    destruct (strcaseeq arg "clone_vfork"); [settle |].
    destruct (strcaseeq arg "spawn").
    { settle. match goal with |- context [answer ?q _ ?tr (Readlink ?l ?n)] => destruct (answer q _ tr (Readlink l n)) end;
        settle. }
    destruct (strcaseeq arg "help"); settle.
  - settle.
Qed.
End Who.

(** Processes 100, 101, ...; the image is found and its path is terminated. *)
Definition demo_pid (q : path) : Z := 100 + zlen q.
Definition demo_answer (q : path) : kernel clE := fun R _ e =>
  match e in clE R return R with
  | Getpid => demo_pid q
  | Pthread_atfork => 0
  | SysFork | Vfork => 0
  | SysClone _ _ _ _ => (0, 0)
  | Readlink _ _ => Some (bytes_of "/bin/clone")
  | Stack n => replicate (Z.to_nat n) 0
  | PosixSpawn _ _ => Some 101
  | Getenv _ => None
  | Printf _ | Fflush | Perror _ | Signal _ => tt
  end.

Lemma clone_main_spec_witness :
  map report (processes demo_pid demo_answer (main "clone" ["FORK"%string])) =
  [([hit 100; hit 100; clean 100], inl 0); ([hit 101; clean 101], inl 0)].
Proof. apply (clone_main_spec demo_pid demo_answer ltac:(done) ltac:(done) "clone" ["FORK"%string]). Defined.
