(* ===== verification/Unshare.v ===== *)
(** * unshare_orphans: the first process of a namespace and its orphans

    [src/unshare_orphans/main.c]: a process enters a new namespace by forking, makes five
    children and one that leaves a grandchild behind, and waits for whoever is left. *)
From stdpp Require Import base gmap list strings.
From Stdlib Require Import ZArith Lia.
From S2P Require Import Prelude Prog Sys Family Text.

Definition EXIT_SUCCESS : Z := 0.
Definition EXIT_FAILURE : Z := 1.
Definition ECHILD : Z := 10.

Inductive unE : Type -> Type :=
| Unshare : unE Z
| Fork : unE Z
| Getpid : unE Z
| Sleep (seconds : Z) : unE unit
| Printf (text : list Z) : unE unit
| Flush_all : unE unit
| Perror (s : string) : unE unit
| Waitpid (pid : Z) : unE (Z * Z * Z)              (* the result, the status, errno *)
| Indeterminate : unE Z.                           (* the value of a function that returns none *)

Abbreviation unM := (prog unE).

#[export] Instance un_forks : Forks unE := fun R e =>
  match e in unE R return option (Z -> Z -> R) with Fork => Some (fun ret _ => ret) | _ => None end.

#[export] Instance un_stdio : Stdio unE := fun e =>
  match e with existT _ (f, _) => match f with Printf t => [Put t] | Flush_all => [Flush] | _ => [] end end.

Definition exit {A} (code : Z) : unM A := trigger Flush_all ;; Halt (Exited code).
Definition _exit {A} (code : Z) : unM A := Halt (Exited code).

Definition pretend_to_be_in_container : unM unit :=
  r <- trigger Unshare ;;
  if r =? -1 then trigger (Perror "unshare") ;; exit EXIT_FAILURE
  else
  pid <- trigger Fork ;;
  if pid =? -1 then trigger (Perror "fork") ;; exit EXIT_FAILURE
  else if pid =? 0 then Ret tt
  else _exit EXIT_SUCCESS.

Definition terminating (pid : Z) : list Z := line [bytes_of "PID "; dec pid; bytes_of " terminating !"].

(** Neither function has a return statement. *)
Definition spawn_timebomb_child (seconds : Z) : unM Z :=
  pid <- trigger Fork ;;
  (if pid =? -1 then trigger (Perror "fork")
   else if pid =? 0
   then trigger (Sleep seconds) ;; me <- trigger Getpid ;; trigger (Printf (terminating me)) ;; _exit EXIT_SUCCESS
   else Ret tt) ;;
  trigger Indeterminate.

Definition spawn_evil_child : unM Z :=
  pid <- trigger Fork ;;
  (if pid =? -1 then trigger (Perror "fork")
   else if pid =? 0
   then
     grandchild <- spawn_timebomb_child 60 ;;
     trigger (Printf (line [bytes_of "Spawned grandchild with PID "; dec grandchild])) ;;
     _exit EXIT_SUCCESS
   else trigger (Waitpid pid) ;; Ret tt) ;;
  trigger Indeterminate.

Definition no_more : list Z := line [bytes_of "No more children to wait for"].
Definition exited (pid status : Z) : list Z :=
  line [bytes_of "Child (PID "; dec pid; bytes_of ") exited with status "; dec status].

(** One turn of the loop that waits for all children. *)
Definition wait_turn (_ : unit) : unM (unit + unit) :=
  r <- trigger (Waitpid (-1)) ;;
  let '(result, status, errno) := r in
  if 0 <? result then trigger (Printf (exited result status)) ;; Ret (inl tt)
  else if result =? -1
  then
    if errno =? ECHILD then trigger (Printf no_more) ;; Ret (inr tt)
    else trigger (Perror "waitpid") ;; Ret (inl tt)
  else Ret (inl tt).

Definition main (fuel : nat) : unM Z :=
  pretend_to_be_in_container ;;
  me <- trigger Getpid ;;
  trigger (Printf (line [bytes_of "My PID is now "; dec me])) ;;
  for_range 0 5 (fun _ =>
    child <- spawn_timebomb_child 5 ;;
    trigger (Printf (line [bytes_of "Spawned child with PID "; dec child]))) ;;
  spawn_evil_child ;;
  loop fuel wait_turn tt ;;
  Ret 0.

(** The process returns from [main] into [exit]. *)
Definition program (fuel : nat) : unM Z := r <- main fuel ;; exit r.

(** ** The container *)

#[local] Arguments line _ : simpl never.
#[local] Arguments bytes_of _ : simpl never.

Section Container.
Context (pid_of : path -> Z) (answer : path -> kernel unE).
Context (self junk : path -> Z) (waits : list (Z * Z * Z)).

Definition is_wait (e : event unE) : bool :=
  match e with existT _ (f, _) => match f with Waitpid pid => pid =? -1 | _ => false end end.

(** Every fork succeeds; the first process of the namespace is told about its children in the order [waits], interruptions
    included, until there is none. *)
Hypothesis Hpid : forall q, 0 < pid_of q.
Hypothesis Hself : forall q tr, answer q _ tr Getpid = self q.
Hypothesis Hjunk : forall q tr, answer q _ tr Indeterminate = junk q.
Hypothesis Hunshare : forall q tr, answer q _ tr Unshare = 0.
Hypothesis Hwait : forall tr,
  answer [0%nat] _ tr (Waitpid (-1)) = default (-1, 0, ECHILD) (waits !! count is_wait tr).
Hypothesis Hwaits : Forall (fun '(r, _, e) => r <> -1 \/ e <> ECHILD) waits.

Abbreviation fam := (family pid_of answer).

Definition bomb (self_ : Z) (seconds : Z) : list (event unE) :=
  [ev Fork 0; ev (Sleep seconds) tt; ev Getpid self_; ev (Printf (terminating self_)) tt].

Lemma fam_timebomb {A} seconds (k : Z -> unM A) q born old tr :

  fam (bind (spawn_timebomb_child seconds) k) q born old tr =
  fam (k (junk q)) q (S born) old (tr ++ [ev Fork (pid_of (born :: q)); ev Indeterminate (junk q)]) ++
  [MkProcess (born :: q) (old ++ tr) (bomb (self (born :: q)) seconds) (inr (Exited EXIT_SUCCESS))].
Proof.
  pose proof (Hpid (born :: q)). unfold spawn_timebomb_child. cbn -[Z.ltb Z.eqb].
  rewrite (proj2 (Z.ltb_lt 0 _)), (proj2 (Z.eqb_neq _ (-1))), (proj2 (Z.eqb_neq _ 0)) by lia.
  cbn -[Z.ltb Z.eqb]. change (0 =? -1) with false. change (0 =? 0) with true. cbn.
  rewrite Hself, Hjunk, <-app_assoc. f_equal. unfold bomb. f_equal. f_equal.
  by destruct (answer _ _ _ (Sleep _)), (answer _ _ _ (Printf _)).
Qed.
Definition turn_events (w : Z * Z * Z) : list (event unE) :=
  let '(result, status, errno) := w in
  ev (Waitpid (-1)) w ::
  (if 0 <? result then [ev (Printf (exited result status)) tt]
   else if result =? -1 then [ev (Perror "waitpid") tt] else []).

Definition last_turn : list (event unE) := [ev (Waitpid (-1)) (-1, 0, ECHILD); ev (Printf no_more) tt].

Lemma fam_wait {A} (k : unit -> unM A) rest fuel born old tr :
  drop (count is_wait (old ++ tr)) waits = rest -> (length rest < fuel)%nat ->
  fam (bind (loop fuel wait_turn tt) k) [0%nat] born old tr =
  fam (k tt) [0%nat] born old (tr ++ concat (map turn_events rest) ++ last_turn).
Proof.
  assert (forall f (tr : list (event unE)) e, answer f unit tr e = tt) as Hu by (intros; by destruct (answer _ _ _ _)).
  revert rest tr. induction fuel as [| fuel IH]; intros rest tr Hd Hf; [lia |].
  cbn -[Z.ltb Z.eqb]. rewrite Hwait.
  destruct rest as [| [[r s] e] rest].
  - rewrite lookup_ge_None_2 by (rewrite <-(Nat.add_0_r (count _ _)); apply (f_equal length) in Hd;
      rewrite length_drop in Hd; cbn in Hd; lia).
    cbn. by rewrite Hu, <-app_assoc.
  - assert (waits !! count is_wait (old ++ tr) = Some (r, s, e)) as Hl.
    { rewrite <-(Nat.add_0_r (count _ _)), <-lookup_drop, Hd. done. }
    rewrite Hl. cbn -[Z.ltb Z.eqb turn_events].
    assert (forall new, count is_wait new = 1%nat -> drop (count is_wait (old ++ tr ++ new)) waits = rest) as Hn.
    { intros new H1. rewrite app_assoc, count_app, H1, <-drop_drop, Hd. done. }
    pose proof (Forall_lookup_1 _ _ _ _ Hwaits Hl) as Hw. cbn in Hw, Hf.
    cbn [turn_events]. destruct (0 <? r) eqn:E1; [| destruct (r =? -1) eqn:E2; [destruct (e =? ECHILD) eqn:E3 |]];
      zbool; cbn -[turn_events Z.ltb]; rewrite ?Hu.
    + rewrite (IH rest) by (rewrite <-?app_assoc; first [by apply Hn | lia]). by rewrite <-!app_assoc.
    + lia.
    + rewrite (IH rest) by (rewrite <-?app_assoc; first [by apply Hn | lia]). by rewrite <-!app_assoc.
    + rewrite (IH rest) by (rewrite <-?app_assoc; first [by apply Hn | lia]). by rewrite <-!app_assoc.
Qed.
#[local] Arguments Z.ltb _ _ : simpl never.
#[local] Arguments Z.eqb _ _ : simpl never.

Definition my_pid (pid : Z) : list Z := line [bytes_of "My PID is now "; dec pid].
Definition spawned (pid : Z) : list Z := line [bytes_of "Spawned child with PID "; dec pid].
Definition spawned_grandchild (pid : Z) : list Z := line [bytes_of "Spawned grandchild with PID "; dec pid].
Definition reaped (w : Z * Z * Z) : list Z := let '(r, s, _) := w in if 0 <? r then exited r s else [].

(** What the first process of the namespace prints. *)
Definition init_lines : list Z :=
  my_pid (self [0%nat]) ++ concat (replicate 5 (spawned (junk [0%nat]))) ++ concat (map reaped waits) ++ no_more.

Definition report (tty : bool) (q : process unE Z) : path * list Z * (Z + stop) := (who q, output tty q, ended q).

Lemma unit_eq (x y : unit) : x = y.
Proof. by destruct x, y. Qed.

(** The first process makes its well-behaved children. *)
Definition make_child (_ : Z) : unM unit :=
  child <- spawn_timebomb_child 5 ;;
  trigger (Printf (spawned child)).

Fixpoint made (born n : nat) : list (event unE) :=
  match n with
  | O => []
  | S m => [ev Fork (pid_of [born; 0%nat]); ev Indeterminate (junk [0%nat]); ev (Printf (spawned (junk [0%nat]))) tt]
           ++ made (S born) m
  end.

Definition lines_only (tr : list (event unE)) : Prop := Forall is_line (flat_map stdio_of tr).

Lemma line_is l : is_line (Put (line l)).
Proof. by exists (concat l). Qed.

Lemma bomb_report tty q old s r : lines_only old ->
  report tty (MkProcess q old (bomb (self q) s) r) = (q, if tty then terminating (self q) else [], r).
Proof.
  intros Ho. unfold report. f_equal. f_equal. destruct tty.
  - rewrite output_tty; [cbn; by rewrite app_nil_r | done |]. cbn. repeat constructor. apply line_is.
  - apply output_unflushed. cbn. by repeat constructor.
Qed.

Fixpoint kids (tty : bool) (born n : nat) : list (path * list Z * (Z + stop)) :=
  match n with
  | O => []
  | S m => let q := [born; 0%nat] in
           kids tty (S born) m ++ [(q, if tty then terminating (self q) else [], inr (Exited EXIT_SUCCESS))]
  end.

Lemma fam_children tty (k : unit -> unM Z) n lo born old tr : lines_only (old ++ tr) ->
  map (report tty) (fam (bind (for_range lo n make_child) k) [0%nat] born old tr) =
  map (report tty) (fam (k tt) [0%nat] (born + n) old (tr ++ made born n)) ++ kids tty born n.
Proof.
  revert lo born tr. induction n as [| n IH]; intros lo born tr Hl.
  { cbn [for_range bind made kids]. by rewrite Nat.add_0_r, !app_nil_r. }
  cbn [for_range]. unfold make_child at 1. rewrite !family_assoc, fam_timebomb, map_app.
  cbn [map]. rewrite bomb_report by done. cbn [bind trigger family forks un_forks kids].
  rewrite (unit_eq (answer _ _ _ (Printf _)) tt), IH.
  - rewrite <-!app_assoc, Nat.add_succ_r. by cbn.
  - unfold lines_only in *. rewrite !flat_map_app, !Forall_app in *. destruct Hl. repeat split; [done.. |].
    cbn. repeat constructor. apply line_is.
Qed.

Lemma fam_enter {A} (k : unit -> unM A) :
  fam (bind pretend_to_be_in_container k) [] 0 [] [] =
  MkProcess [] [] [ev Unshare 0; ev Fork (pid_of [0%nat])] (inr (Exited EXIT_SUCCESS)) ::
  fam (k tt) [0%nat] 0 [ev Unshare 0] [ev Fork 0].
Proof.
  pose proof (Hpid [0%nat]) as H0. unfold pretend_to_be_in_container. cbn. rewrite Hunshare.
  change (0 =? -1) with false. cbn. rewrite (proj2 (Z.ltb_lt 0 _) H0).
  by rewrite (proj2 (Z.eqb_neq _ (-1))), (proj2 (Z.eqb_neq _ 0)) by lia.
Qed.

Lemma fam_evil tty (k : Z -> unM Z) born old tr : lines_only (old ++ tr) ->
  let q := [born; 0%nat] in
  exists w, map (report tty) (fam (bind spawn_evil_child k) [0%nat] born old tr) =
  map (report tty) (fam (k (junk [0%nat])) [0%nat] (S born) old
    (tr ++ [ev Fork (pid_of q); ev (Waitpid (pid_of q)) w; ev Indeterminate (junk [0%nat])])) ++
  [(q, if tty then spawned_grandchild (junk q) else [], inr (Exited EXIT_SUCCESS));
   (0%nat :: q, if tty then terminating (self (0%nat :: q)) else [], inr (Exited EXIT_SUCCESS))].
Proof.
  intros Hl q. pose proof (Hpid q) as H0. unfold spawn_evil_child. cbn -[spawn_timebomb_child]. fold q.
  rewrite (proj2 (Z.ltb_lt 0 _) H0), (proj2 (Z.eqb_neq _ (-1))), (proj2 (Z.eqb_neq _ 0)) by lia.
  change (0 =? -1) with false. change (0 =? 0) with true. cbn -[spawn_timebomb_child].
  eexists. rewrite !family_assoc, Hjunk, fam_timebomb, !map_app. cbn [map]. rewrite bomb_report.
  - rewrite <-!app_assoc. f_equal. cbn. f_equal. unfold report. f_equal. f_equal. destruct tty.
    + rewrite output_tty; [cbn; by rewrite app_nil_r | done |]. cbn. repeat constructor. apply line_is.
    + apply output_unflushed. cbn. by repeat constructor.
  - unfold lines_only in *. rewrite flat_map_app, Forall_app. by split.
Qed.

Lemma init_wait w born : count is_wait
    ([ev Unshare 0] ++ ([ev Fork 0; ev Getpid (self [0%nat]); ev (Printf (my_pid (self [0%nat]))) tt] ++ made 0 born) ++
     [ev Fork (pid_of [5; 0]%nat); ev (Waitpid (pid_of [5; 0]%nat)) w; ev Indeterminate (junk [0%nat])]) = 0%nat.
Proof.
  assert (forall n b, count is_wait (made b n) = 0%nat) as Hm by (intros n; induction n; intros b; [done | apply IHn]).
  rewrite !count_app, Hm. unfold count. cbn [app filter]. pose proof (Hpid [5; 0]%nat).
  repeat (rewrite filter_cons_False by (cbn; first [done | rewrite (proj2 (Z.eqb_neq _ _)) by lia; done])). done.
Qed.

Lemma init_texts w tr : texts (([ev Fork 0; ev Getpid (self [0%nat]); ev (Printf (my_pid (self [0%nat]))) tt] ++ made 0 5) ++
    [ev Fork tr; ev (Waitpid tr) w; ev Indeterminate (junk [0%nat])] ++ concat (map turn_events waits) ++ last_turn) =
  init_lines.
Proof.
  unfold texts, init_lines. rewrite !flat_map_app, !map_app, !concat_app. cbn -[replicate spawned my_pid no_more].
  assert (concat (map put_of (flat_map stdio_of (concat (map turn_events waits)))) = concat (map reaped waits)) as ->.
  { clear Hwait Hwaits. induction waits as [| [[r s] e] l IH]; [done |]. cbn. rewrite flat_map_app, map_app, concat_app, IH.
    f_equal. destruct (0 <? r); [apply app_nil_r |]. by destruct (r =? -1). }
  cbn [replicate concat]. by rewrite !app_nil_r, <-!app_assoc.
Qed.

Lemma waits_lines : just_lines (concat (map turn_events waits) ++ last_turn).
Proof.
  clear Hwait Hwaits. assert (forall l, is_line (Put (line l)) /\ is_put (Put (line l))) as Hl by (split; [apply line_is | done]).
  unfold just_lines. rewrite flat_map_app. apply Forall_app_2; [| constructor; [apply Hl | done]].
  induction waits as [| [[r s] e] l IH]; [done |]. cbn. rewrite flat_map_app. apply Forall_app_2; [| done].
  destruct (0 <? r); [constructor; [apply Hl | done] |]. by destruct (r =? -1).
Qed.

(** C32. One program becomes nine processes. The first leaves at once without printing; the second makes five children and
    the evil one, reports everybody it is told of, interruptions apart, says that there is nobody left
    and exits; the other seven end by [_exit] after one line, which is seen on a terminal only:
    in a file or pipe their output is lost. The numbers shown as those of the children are the
    values of functions that return nothing. *)
Theorem container_output tty fuel : (length waits < fuel)%nat ->
  map (fun q => (who q, output tty q, ended q)) (processes pid_of answer (program fuel)) =
  map (fun '(q, lines) => (q, lines, inr (Exited EXIT_SUCCESS)))
    (([], []) :: ([0%nat], init_lines) ::
     map (fun '(q, l) => (q, if (tty : bool) then l else []))
       (([5; 0]%nat, spawned_grandchild (junk [5; 0]%nat)) ::
        map (fun q => (q, terminating (self q))) [[0; 5; 0]; [4; 0]; [3; 0]; [2; 0]; [1; 0]; [0; 0]]%nat)).
Proof.
  intros Hf. assert (forall l, is_line (Put (line l)) /\ is_put (Put (line l))) as Hl by (split; [apply line_is | done]).
  unfold processes, program, main. rewrite family_assoc, fam_enter. fold (report tty). cbn [map].
  cbn [bind trigger family forks un_forks app]. rewrite Hself, (unit_eq (answer _ _ _ (Printf _)) tt).
  change (line [bytes_of "My PID is now "; dec (self [0%nat])]) with (my_pid (self [0%nat])).
  rewrite family_assoc. change (fun _ : Z => child <- spawn_timebomb_child 5 ;; _) with make_child.
  rewrite fam_children by (repeat constructor; apply line_is).
  rewrite family_assoc. edestruct (fam_evil tty) as [w ->]; [repeat constructor; apply line_is |].
  rewrite family_assoc, fam_wait with (rest := waits) by (first [by rewrite init_wait | done]).
  cbn [bind trigger exit family forks un_forks]. rewrite (unit_eq (answer _ _ _ Flush_all) tt).
  cbn [map]. unfold report. cbn [who ended]. rewrite output_lines; [| done | by constructor | | done].
  - rewrite <-(app_assoc ([_; _; _] ++ _)), init_texts. by destruct tty.
  - unfold just_lines in *. rewrite flat_map_app. apply Forall_app_2; [| apply waits_lines].
    repeat (constructor; [apply Hl |]). done.
Qed.
End Container.

(** Five children and the adopted grandchild, with one interruption. *)
Definition demo_pid (q : path) : Z := 2 + Z.of_nat (hd 0%nat q).
Definition demo_waits : list (Z * Z * Z) :=
  [(2, 0, 0); (3, 0, 0); (-1, 0, 4); (4, 0, 0); (5, 0, 0); (6, 0, 0); (8, 0, 0)].

Definition demo_answer (q : path) : kernel unE := fun R tr e =>
  match e in unE R return R with
  | Unshare => 0
  | Fork => 0
  | Getpid => match q with [0%nat] => 1 | _ => demo_pid q end
  | Waitpid pid => if pid =? -1 then default (-1, 0, ECHILD) (demo_waits !! count is_wait tr) else (pid, 0, 0)
  | Indeterminate => 0
  | Sleep _ | Printf _ | Flush_all | Perror _ => tt
  end.

Lemma container_output_witness :
  map (fun q => (who q, output false q, ended q)) (processes demo_pid demo_answer (program 9)) =
  ([], [], inr (Exited 0)) ::
  ([0%nat], init_lines (fun _ => 1) (fun _ => 0) demo_waits, inr (Exited 0)) ::
  map (fun q => (q, [], inr (Exited 0))) [[5; 0]; [0; 5; 0]; [4; 0]; [3; 0]; [2; 0]; [1; 0]; [0; 0]]%nat.
Proof.
  apply (container_output demo_pid demo_answer
    (fun q => match q with [0%nat] => 1 | _ => demo_pid q end) (fun _ => 0) demo_waits); try done.
  - intros q. unfold demo_pid. lia.
  - unfold demo_waits, ECHILD. repeat (constructor; [lia |]). constructor.
  - cbn. lia.
Defined.
