(* ===== verification/PidOne.v ===== *)
(** * pid_1_signals: a wrapper that runs a program and gets its signals

    [src/pid_1_signals/src/wrapper.c]. The wrapper starts a binary, sets what SIGTERM and SIGINT do to itself and
    looks for the end of its child ten times. Whether a signal with its default action
    kills the wrapper depends on whether it is the first process of its namespace. *)
From stdpp Require Import base gmap list strings.
From Stdlib Require Import ZArith Lia.
From S2P Require Import Prelude Prog Sys Family Text.

Definition EXIT_SUCCESS : Z := 0.
Definition EXIT_FAILURE : Z := 1.
Definition SIGINT : Z := 2.
Definition SIGTERM : Z := 15.

Inductive disposition : Type := SIG_DFL | SIG_IGN | Signal_pass_handler.

Inductive wrE : Type -> Type :=
| Fork : wrE Z
| Execl (binary : string) : wrE unit               (* only failure returns *)
| Perror (s : string) : wrE unit
| Eprintf (s : string) : wrE unit
| Printf (text : list Z) : wrE unit
| Fflush : wrE unit
| Getpid : wrE Z
| Kill (pid sig : Z) : wrE unit
| Sigaction (sig : Z) (d : disposition) : wrE unit
| Waitpid (pid : Z) : wrE (Z * Z)                  (* with WNOHANG: the result and the status *)
| Sleep (seconds : Z) : wrE unit
| Load_child_pid : wrE Z
| Store_child_pid (pid : Z) : wrE unit.

Abbreviation wrM := (prog wrE).

Definition signal_pass_handler (signo : Z) : wrM unit :=
  child_pid <- trigger Load_child_pid ;;
  if 0 <? child_pid then trigger (Kill child_pid signo) else Ret tt.

(** The macros on a status. *)
Definition WIFEXITED (status : Z) : bool := Z.land status 127 =? 0.
Definition WEXITSTATUS (status : Z) : Z := Z.land (Z.shiftr status 8) 255.

(** One turn of the loop that waits. *)
Definition wait_turn (pid : Z) (i : Z) : wrM (Z + Z) :=
  if 10 <=? i then trigger (Printf (line [bytes_of "Timeout after 10 seconds"])) ;; Ret (inr EXIT_SUCCESS)
  else
  r <- trigger (Waitpid pid) ;;
  if r.1 =? pid
  then
    trigger (Printf (line [bytes_of "Child exited"])) ;;
    Ret (inr (if WIFEXITED r.2 then WEXITSTATUS r.2 else EXIT_FAILURE))
  else
  trigger (Sleep 1) ;;
  Ret (inl (i + 1)).

(** The mode as an action, if it is one; [None] inside leaves the signals alone. *)
Definition action_of (mode : string) : option (option disposition) :=
  if bool_decide (mode = "--default"%string) then Some None
  else if bool_decide (mode = "--ignore"%string) then Some (Some SIG_IGN)
  else if bool_decide (mode = "--no-ignore"%string) then Some (Some SIG_DFL)
  else if bool_decide (mode = "--pass"%string) then Some (Some Signal_pass_handler)
  else None.

(** [args] are [argv[1]] and on. Eleven turns end every run of the loop. *)
Definition main (args : list string) : wrM Z :=
  match args with
  | [mode; binary] =>
      pid <- trigger Fork ;;
      if pid =? -1 then trigger (Perror "fork") ;; Ret EXIT_FAILURE
      else if pid =? 0
      then trigger (Execl binary) ;; trigger (Perror "execl") ;; Halt (Exited EXIT_FAILURE)
      else
      trigger (Store_child_pid pid) ;;
      let wait :=
        me <- trigger Getpid ;;
        trigger (Printf (line [bytes_of "Wrapper PID: "; dec me; bytes_of ", Child PID: "; dec pid;
                               bytes_of ", Mode: "; bytes_of mode])) ;;
        me <- trigger Getpid ;;
        me' <- trigger Getpid ;;
        trigger (Printf (line [bytes_of "Send signal to wrapper: kill -INT "; dec me;
                               bytes_of "  (or kill -TERM "; dec me'; bytes_of ")"])) ;;
        trigger Fflush ;;
        loop 11 (wait_turn pid) 0 in
      match action_of mode with
      | Some None => wait
      | Some (Some sa) => trigger (Sigaction SIGTERM sa) ;; trigger (Sigaction SIGINT sa) ;; wait
      | None => trigger (Eprintf "Invalid mode: ") ;; trigger (Kill pid SIGTERM) ;; Ret EXIT_FAILURE
      end
  | _ => trigger (Eprintf "Usage: ") ;; Ret EXIT_FAILURE
  end.

(** ** The wrapper and its signals *)

(** What happens from one look at the child to the next: the status of the child if it is gone, otherwise
    the signals that arrive. Only SIGTERM and SIGINT are modelled. *)
Record second := MkSecond { gone : option Z; arriving : list Z }.

Record wrapper := MkWrapper {
  term : disposition;
  int : disposition;
  child_pid : Z;
  ahead : list second;
  sent : list (Z * Z) }.

Section Signals.
(** The number the fork answers, and whether the wrapper is the first process. *)
Context (child me : Z) (first : bool).

Definition action (w : wrapper) (sig : Z) : disposition := if sig =? SIGTERM then term w else int w.

(** Operations other than sleeping; nothing arrives here. *)
Definition wr_calls (nap : wrapper -> outcome (unit * wrapper) unit) : handler wrE (unit * wrapper) := fun R e s =>
  let '(u, w) := s in
  match e in wrE R return outcome (unit * wrapper) R with
  | Fork => Done child s
  | Execl _ | Perror _ | Eprintf _ | Printf _ | Fflush => Done tt s
  | Getpid => Done me s
  | Kill pid sig => Done tt (u, MkWrapper (term w) (int w) (child_pid w) (ahead w) (sent w ++ [(pid, sig)]))
  | Sigaction sig d =>
      Done tt (u, if sig =? SIGTERM then MkWrapper d (int w) (child_pid w) (ahead w) (sent w)
                  else MkWrapper (term w) d (child_pid w) (ahead w) (sent w))
  | Waitpid pid =>
      Done (match ahead w with MkSecond (Some status) _ :: _ => (pid, status) | _ => (0, 0) end) s
  | Sleep _ => nap w
  | Load_child_pid => Done (child_pid w) s
  | Store_child_pid pid => Done tt (u, MkWrapper (term w) (int w) pid (ahead w) (sent w))
  end.

(** The kernel drops a signal with its default action for the first process of a namespace. *)
Definition deliver (w : wrapper) (sig : Z) : outcome (unit * wrapper) unit :=
  if negb ((sig =? SIGTERM) || (sig =? SIGINT)) then Stopped Undefined (tt, w)
  else
  match action w sig with
  | SIG_DFL => if first then Done tt (tt, w) else Stopped (Signaled sig) (tt, w)
  | SIG_IGN => Done tt (tt, w)
  | Signal_pass_handler => run (wr_calls (fun w => Done tt (tt, w))) (signal_pass_handler sig) (tt, w)
  end.

Fixpoint deliver_all (w : wrapper) (sigs : list Z) : outcome (unit * wrapper) unit :=
  match sigs with
  | [] => Done tt (tt, w)
  | sig :: sigs' => obind (deliver w sig) (fun _ s => deliver_all s.2 sigs')
  end.

(** A signal that is handled ends the sleep early; the loop does not look at what is left. *)
Definition nap (w : wrapper) : outcome (unit * wrapper) unit :=
  match ahead w with
  | [] => Done tt (tt, w)
  | sec :: rest => deliver_all (MkWrapper (term w) (int w) (child_pid w) rest (sent w)) (arriving sec)
  end.

Definition wr_h : handler wrE (unit * wrapper) := wr_calls nap.
Definition fresh (turns : list second) : wrapper := MkWrapper SIG_DFL SIG_DFL 0 turns [].

(** The signals that arrive in the first [n] turns while the child lives, and the status that ends them. *)
Fixpoint heard (n : nat) (turns : list second) : list Z * option Z :=
  match n, turns with
  | S m, MkSecond (Some status) _ :: _ => ([], Some status)
  | S m, MkSecond None sigs :: turns' => let '(l, r) := heard m turns' in (sigs ++ l, r)
  | _, _ => ([], None)
  end.

Definition verdict (status : option Z) : Z :=
  match status with
  | None => EXIT_SUCCESS
  | Some status => if WIFEXITED status then WEXITSTATUS status else EXIT_FAILURE
  end.

Definition known (turns : list second) : Prop :=
  Forall (fun t => Forall (fun s => s = SIGTERM \/ s = SIGINT) (arriving t)) turns.

(** With both signals set to [d]. *)
Definition under (d : disposition) (w : wrapper) : Prop := term w = d /\ int w = d /\ child_pid w = child.

(** The signals [sigs], one after the other: the first kills, or all are dropped or passed on. *)
Definition lethal (d : disposition) : bool := match d with SIG_DFL => negb first | _ => false end.
Definition passed (d : disposition) (sigs : list Z) : list (Z * Z) :=
  match d with Signal_pass_handler => map (pair child) sigs | _ => [] end.

Lemma deliver_all_spec d w sigs : 0 < child -> under d w ->
  Forall (fun s => s = SIGTERM \/ s = SIGINT) sigs ->
  deliver_all w sigs =
  match sigs with
  | s :: _ => if lethal d then Stopped (Signaled s) (tt, w)
              else Done tt (tt, MkWrapper d d child (ahead w) (sent w ++ passed d sigs))
  | [] => Done tt (tt, w)
  end.
Proof.
  intros Hc Hu Hs. revert w Hu. induction Hs as [| s sigs Hs Hss IH]; intros w (Ht & Hi & Hp); [done |].
  assert (action w s = d) as Ha by (unfold action; by destruct (s =? SIGTERM)).
  cbn [deliver_all]. unfold deliver. rewrite Ha.
  replace (negb ((s =? SIGTERM) || (s =? SIGINT))) with false
    by (destruct Hs as [-> | ->]; done).
  assert (forall w', w' = MkWrapper d d child (ahead w) (sent w ++ passed d [s]) ->
    deliver_all w' sigs = match sigs with
      | s' :: _ => if lethal d then Stopped (Signaled s') (tt, w')
                   else Done tt (tt, MkWrapper d d child (ahead w) (sent w ++ passed d (s :: sigs)))
      | [] => Done tt (tt, w') end) as Hw.
  { intros w' ->. rewrite IH by (by repeat split). destruct sigs as [| s' sigs]; [done |]. cbn [ahead sent].
    destruct (lethal d); [done |]. rewrite <-app_assoc. by destruct d. }
  assert (w = MkWrapper d d child (ahead w) (sent w)) as Hw0 by (destruct w; cbn in *; by subst).
  unfold lethal in *. destruct d; cbn [passed] in *.
  - destruct first; cbn [negb obind snd]; [| done].
    rewrite Hw by (rewrite app_nil_r; exact Hw0). destruct sigs; [by rewrite app_nil_r, <-Hw0 | done].
  - cbn [obind snd]. rewrite Hw by (rewrite app_nil_r; exact Hw0). destruct sigs; [by rewrite app_nil_r, <-Hw0 | done].
  - cbn -[Z.ltb]. rewrite Hp, (proj2 (Z.ltb_lt 0 child)) by done. cbn -[Z.ltb deliver_all].
    rewrite Ht, Hi, Hp, Hw by done. by destruct sigs.
Qed.
Lemma wait_spec d n i w : 0 < child -> i = 10 - Z.of_nat n -> (n <= 10)%nat -> under d w -> known (ahead w) ->
  exists w',
  run wr_h (loop (S n) (wait_turn child) i) (tt, w) =
  (let '(sigs, status) := heard n (ahead w) in
   match sigs with
   | s :: _ => if lethal d then Stopped (Signaled s) (tt, w') else Done (verdict status) (tt, w')
   | [] => Done (verdict status) (tt, w')
   end) /\
  sent w' = sent w ++ passed d (heard n (ahead w)).1.
Proof.
  intros Hc. revert i w. induction n as [| n IH]; intros i w Hi Hn Hu Hk.
  { subst i. cbn. exists w. split; [done |]. unfold passed. destruct d; by rewrite app_nil_r. }
  assert (forall l, l ++ passed d [] = l) as Hnil by (intros; unfold passed; destruct d; cbn; by rewrite app_nil_r).
  assert ((10 <=? i) = false) as Hlt by (apply Z.leb_gt; lia).
  change (loop (S (S n)) (wait_turn child) i) with (r <- wait_turn child i ;;
    match r with inl s' => loop (S n) (wait_turn child) s' | inr a => Ret a end).
  rewrite run_bind. unfold wait_turn at 1. rewrite Hlt, run_bind, run_trigger.
  unfold wr_h at 1. cbn [wr_calls obind].
  destruct (ahead w) as [| [[status |] sigs] turns] eqn:Ha; cbn [fst snd].
  - rewrite (proj2 (Z.eqb_neq 0 child)), run_bind, run_trigger by lia. unfold wr_h at 1. cbn [wr_calls].
    unfold nap. rewrite Ha. cbn [obind run]. destruct (IH (i + 1) w) as (w' & -> & Hs); [lia | lia | done | by rewrite Ha |].
    exists w'. rewrite Ha in *. cbn [heard]. by destruct n.
  - rewrite Z.eqb_refl. exists w. cbn. by rewrite Hnil.
  - rewrite (proj2 (Z.eqb_neq 0 child)), run_bind, run_trigger by lia. unfold wr_h at 1. cbn [wr_calls].
    unfold nap. rewrite Ha. cbn [arriving].
    destruct Hu as (Ht & Hin & Hp). inversion Hk as [| ? ? Hk1 Hk2]; subst. cbn [arriving] in Hk1.
    rewrite (deliver_all_spec (term w)) by (done || by repeat split). rewrite Hp, Hin. cbn [ahead sent].
    set (w1 := MkWrapper (term w) (term w) child turns (sent w ++ passed (term w) sigs)).
    destruct (IH (10 - Z.of_nat (S n) + 1) w1) as (w' & Hr & Hs); [lia | lia | done | done |].
    cbn [heard]. cbn [w1 ahead] in Hr, Hs. destruct (heard n turns) as [l st] eqn:Hh. cbn [fst] in Hs |- *.
    destruct (lethal (term w)) eqn:Hd.
    + destruct sigs as [| s sigs]; [exists w' | eexists]; cbn [obind run app] in *.
      * unfold w1 in Hr, Hs. rewrite Hnil in Hr. rewrite Hr. cbn [sent] in Hs. by rewrite Hnil in Hs.
      * split; [reflexivity |]. cbn [sent]. by destruct (term w); rewrite ?app_nil_r.
    + exists w'. assert (obind match sigs with
        | [] => Done () ((), MkWrapper (term w) (term w) child turns (sent w))
        | s :: _ => Done () ((), w1) end (fun (_ : unit) w'0 => run wr_h (Ret (inl (10 - Z.of_nat (S n) + 1))) w'0) =
        Done (inl (10 - Z.of_nat (S n) + 1)) ((), w1)) as ->.
      { destruct sigs; [| done]. unfold w1. by rewrite Hnil. }
      cbn [obind]. rewrite Hr. split; [by destruct sigs, l |]. rewrite Hs. unfold w1. cbn [sent].
      rewrite <-app_assoc. f_equal. unfold passed. destruct (term w); [done.. | by rewrite map_app].
Qed.

(** C33. A wrapper in one of the four modes looks for its child at most ten times. It ends with the child's status, with failure when the child
    died of a signal, and with success when it gave up, the child still running. Until then
    SIGTERM and SIGINT kill it by default, or are dropped if it is the first process; with
    [--ignore] they are dropped, and with [--pass] all are sent on to the child, in their order. Any
    other mode sends the child SIGTERM and fails. The README says of the test in a container that the
    wrapper exits on SIGTERM in the default mode; it is the first process there, and drops it. *)
Theorem wrapper_spec mode binary turns : 0 < child -> known turns ->
  let w0 := MkWrapper SIG_DFL SIG_DFL 0 turns [] in
  let '(sigs, status) := heard 10 turns in
  match action_of mode with
  | Some a =>
      let d := default SIG_DFL a in
      exists w, sent w = passed d sigs /\
        run wr_h (main [mode; binary]) (tt, w0) =
        match sigs with
        | s :: _ => if lethal d then Stopped (Signaled s) (tt, w) else Done (verdict status) (tt, w)
        | [] => Done (verdict status) (tt, w)
        end
  | None => exists w, sent w = [(child, SIGTERM)] /\
        run wr_h (main [mode; binary]) (tt, w0) = Done EXIT_FAILURE (tt, w)
  end.
Proof.
  intros Hc Hk w0. pose proof (fun d w => wait_spec d 10 0 w Hc eq_refl (le_n 10)) as Hw.
  destruct (heard 10 turns) as [sigs status] eqn:Hh.
  unfold main. cbn [bind trigger run]. unfold wr_h. cbn [wr_calls obind].
  rewrite (proj2 (Z.eqb_neq child (-1))), (proj2 (Z.eqb_neq child 0)) by lia. cbn [bind run].
  assert (forall d, exists w', run wr_h (loop 11 (wait_turn child) 0) (tt, MkWrapper d d child turns []) =
    match sigs with
    | s :: _ => if lethal d then Stopped (Signaled s) (tt, w') else Done (verdict status) (tt, w')
    | [] => Done (verdict status) (tt, w')
    end /\ sent w' = passed d sigs) as Hd.
  { intros d. destruct (Hw d (MkWrapper d d child turns [])) as (w' & Hr & Hs); [done.. |].
    cbn [ahead] in Hr, Hs. rewrite Hh in Hr, Hs. exists w'. by rewrite Hr. }
  destruct (action_of mode) as [[sa |] |].
  - destruct (Hd sa) as (w' & Hr & Hs). exists w'. split; [done |]. etransitivity; [| exact Hr]. reflexivity.
  - destruct (Hd SIG_DFL) as (w' & Hr & Hs). exists w'. split; [done |]. etransitivity; [| exact Hr]. reflexivity.
  - by exists (MkWrapper SIG_DFL SIG_DFL child turns [(child, SIGTERM)]).
Qed.
End Signals.

(** Two signals are passed on before the child is seen to have died of the second. *)
Lemma wrapper_spec_witness : exists w, sent w = [(7, SIGTERM); (7, SIGINT)] /\
  run (wr_h 7 1 true) (main ["--pass"; "/bin/app"]%string)
    (tt, MkWrapper SIG_DFL SIG_DFL 0 [MkSecond None [SIGTERM]; MkSecond None [SIGINT]; MkSecond (Some 2) []] []) =
  Done EXIT_FAILURE (tt, w).
Proof.
  assert (known [MkSecond None [SIGTERM]; MkSecond None [SIGINT]; MkSecond (Some 2) []]) as Hk
    by (repeat constructor; cbn; auto).
  exact (wrapper_spec 7 1 true "--pass" "/bin/app" _ eq_refl Hk).
Defined.
