(* ===== verification/TimeWait.v ===== *)
(** * tcp_close_timewait: a server and a client that may or may not close

    [src/tcp_close_timewait/server.c] and [client.c]. Both take a port and whether to close their sockets. *)
From stdpp Require Import base gmap list strings.
From Stdlib Require Import ZArith Lia.
From S2P Require Import Prelude Prog Sys Family Text.

Definition EMFILE : Z := 24.
Definition EINTR : Z := 4.

(** Of an argument. *)
Definition atoi (s : string) : Z := Text.atoi (bytes_of s).

Definition htons (port : Z) : Z := let p := u16 port in (p mod 256) * 256 + p / 256.

Definition need_port : list Z := line [bytes_of "Need to specify a port"].
Definition need_close : list Z := line [bytes_of "Need to specify close behavior"].
Definition bad_port (s : string) : list Z := line [bytes_of "Couldn't parse port '"; bytes_of s; bytes_of "'"].

(** ** server.c *)

Inductive srvE : Type -> Type :=
| Printf (text : list Z) : srvE unit
| Socket : srvE Z
| Bind (fd sin_port : Z) : srvE Z
| Listen (fd backlog : Z) : srvE Z
| Strerror : srvE (list Z)                         (* of errno *)
| Getrlimit : srvE (option (Z * Z))                (* the soft and the hard limit on descriptors *)
| Setrlimit (cur max : Z) : srvE unit
| Accept (fd : Z) : srvE (Z * Z)                   (* the descriptor and errno *)
| Fork : srvE Z
| Recv (fd n : Z) : srvE unit
| Send (fd : Z) (data : list Z) : srvE unit
| Close (fd : Z) : srvE unit
| Flush_all : srvE unit.

Abbreviation srvM := (prog srvE).

#[export] Instance srv_forks : Forks srvE := fun R e =>
  match e in srvE R return option (Z -> Z -> R) with Fork => Some (fun ret _ => ret) | _ => None end.

Definition exit {A} (code : Z) : srvM A := trigger Flush_all ;; Halt (Exited code).

(** The answer is sent with its terminator. *)
Definition res : list Z := bytes_of "OK" ++ [0].

Definition listener_worker (fd closeit : Z) : srvM unit :=
  trigger (Recv fd 4096) ;;
  trigger (Send fd res) ;;
  (if truthy closeit then trigger (Close fd) else Ret tt) ;;
  trigger (Printf (bytes_of ".")) ;;
  exit 1.

Definition serve_turn (lfd clos : Z) (_ : unit) : srvM (unit + Z) :=
  r <- trigger (Accept lfd) ;;
  let '(rfd, errno) := r in
  if (-1 =? rfd) && (errno =? EMFILE)
  then trigger (Printf (bytes_of "Too many files")) ;; Ret (inr (-1))
  else
  pid <- trigger Fork ;;
  (if pid =? 0 then listener_worker rfd clos ;; exit (-1) else Ret tt) ;;
  (if truthy clos then trigger (Close rfd) else Ret tt) ;;
  Ret (inl tt).

(** Whether the socket could be made, bound and listened to, and its descriptor. *)
Definition open_listener (port : Z) : srvM (Z * bool) :=
  lfd <- trigger Socket ;;
  if -1 =? lfd then Ret (lfd, false)
  else
  r <- trigger (Bind lfd (htons port)) ;;
  if -1 =? r then Ret (lfd, false)
  else
  r <- trigger (Listen lfd 1000) ;;
  Ret (lfd, negb (-1 =? r)).

Definition server (fuel : nat) (args : list string) : srvM Z :=
  match args with
  | [] => trigger (Printf need_port) ;; Ret (-1)
  | [_] => trigger (Printf need_close) ;; Ret (-1)
  | a1 :: a2 :: _ =>
      let port := atoi a1 in
      if port =? 0 then trigger (Printf (bad_port a1)) ;; Ret (-1)
      else
      let clos := atoi a2 in
      l <- open_listener port ;;
      if negb l.2
      then
        why <- trigger Strerror ;;
        trigger (Printf (bytes_of "ERROR " ++ why)) ;;
        trigger (Printf (line [bytes_of "Couldn't bind/listen to port "; dec port])) ;;
        Ret (-1)
      else
      rl <- trigger Getrlimit ;;
      let max := match rl with Some (_, max) => max | None => 0 end in
      trigger (Setrlimit max max) ;;
      loop fuel (serve_turn l.1 clos) tt
  end.

(** *** Who closes what *)

Definition taken_of (e : event srvE) : list Z :=
  match e with
  | existT _ (f, r) =>
      match f in srvE R return R -> list Z with
      | Accept _ => fun '(fd, errno) => if (-1 =? fd) && (errno =? EMFILE) then [] else [fd]
      | _ => fun _ => []
      end r
  end.
Definition closed_of (e : event srvE) : list Z :=
  match e with existT _ (f, _) => match f with Close fd => [fd] | _ => [] end end.
Definition is_fork (e : event srvE) : bool :=
  match e with existT _ (f, _) => match f with Fork => true | _ => false end end.

Definition taken (tr : list (event srvE)) : list Z := flat_map taken_of tr.
Definition closed (tr : list (event srvE)) : list Z := flat_map closed_of tr.

(** The server itself: one process for every descriptor, closed or kept. *)
Definition serving (clos : Z) (tr : list (event srvE)) : Prop :=
  count is_fork tr = length (taken tr) /\ closed tr = if truthy clos then taken tr else [].

(** A worker: born when [fd] was the last descriptor accepted. *)
Definition worker (clos : Z) (old tr : list (event srvE)) (r : Z + stop) : Prop :=
  exists fd, last (taken old) = Some fd /\ r = inr (Exited 1) /\
    tr = [ev Fork 0; ev (Recv fd 4096) tt; ev (Send fd res) tt] ++
         (if truthy clos then [ev (Close fd) tt] else []) ++
         [ev (Printf (bytes_of ".")) tt; ev Flush_all tt].

Lemma unit_same (x y : unit) : x = y.
Proof. by destruct x, y. Qed.

Lemma taken_snoc tr fd lfd errno : (-1 =? fd) && (errno =? EMFILE) = false ->
  taken (tr ++ [ev (Accept lfd) (fd, errno)]) = taken tr ++ [fd].
Proof. intros H. unfold taken. rewrite flat_map_app. cbn -[andb Z.eqb]. by rewrite H. Qed.

Lemma taken_other tr new : flat_map taken_of new = [] -> taken (tr ++ new) = taken tr.
Proof. intros H. unfold taken. by rewrite flat_map_app, H, app_nil_r. Qed.

Lemma closed_other tr new : flat_map closed_of new = [] -> closed (tr ++ new) = closed tr.
Proof. intros H. unfold closed. by rewrite flat_map_app, H, app_nil_r. Qed.

Section Server.
Context (clos : Z).

Definition server_ok (old tr : list (event srvE)) (r : Z + stop) : Prop :=
  (old = [] /\ serving clos tr /\ (r = inl (-1) \/ r = inr OutOfFuel)) \/ worker clos old tr r.

(** One more client: accepted, forked for, and closed or not. *)
Lemma serving_more tr fd lfd errno pid : (-1 =? fd) && (errno =? EMFILE) = false -> serving clos tr ->
  serving clos (((tr ++ [ev (Accept lfd) (fd, errno)]) ++ [ev Fork pid]) ++
                (if truthy clos then [ev (Close fd) tt] else [])).
Proof.
  intros Hfd [H1 H2]. unfold serving. rewrite !count_app, H1.
  assert (taken (((tr ++ [ev (Accept lfd) (fd, errno)]) ++ [ev Fork pid]) ++
                (if truthy clos then [ev (Close fd) tt] else [])) = taken tr ++ [fd]) as ->.
  { rewrite taken_other by (by destruct (truthy clos)). rewrite taken_other by done. by rewrite taken_snoc. }
  assert (count is_fork (if truthy clos then [ev (Close fd) tt] else []) = 0%nat) as -> by (by destruct (truthy clos)).
  rewrite length_app. change (count is_fork [ev (Accept lfd) (fd, errno)]) with 0%nat.
  change (count is_fork [ev Fork pid]) with 1%nat. split; [cbn; lia |].
  unfold closed in *. rewrite !flat_map_app, H2. destruct (truthy clos); cbn; by rewrite ?app_nil_r.
Qed.

Lemma serve_loop fuel lfd tr : serving clos tr ->
  everyone anything (loop fuel (serve_turn lfd clos) tt) [] tr server_ok.
Proof.
  revert tr. induction fuel as [| fuel IH]; intros tr Hs.
  { left. split; [done |]. split; [done | by right]. }
  cbn [loop]. unfold serve_turn at 1. intros [rfd errno] _. cbn [bind].
  destruct ((-1 =? rfd) && (errno =? EMFILE)) eqn:E.
  - intros [] _. left. split; [done |]. split; [| by left]. destruct Hs as [H1 H2]. split.
    + rewrite !count_app, H1. change (count is_fork [ev (Accept lfd) (rfd, errno)]) with 0%nat.
      change (count is_fork [ev (Printf (bytes_of "Too many files")) tt]) with 0%nat. rewrite taken_other by done. unfold taken. rewrite flat_map_app. cbn -[andb Z.eqb].
      rewrite E, app_nil_r. lia.
    + rewrite closed_other, closed_other by done. rewrite H2. destruct (truthy clos); [| done].
      rewrite taken_other by done. unfold taken. rewrite flat_map_app. cbn -[andb Z.eqb]. by rewrite E, app_nil_r.
  - assert (forall pid, (pid =? 0) = false -> everyone anything
      (r <- ((if pid =? 0 then listener_worker rfd clos ;; exit (-1) else Ret tt) ;;
             (if truthy clos then trigger (Close rfd) else Ret tt) ;; Ret (inl tt)) ;;
       match r with inl s' => loop fuel (serve_turn lfd clos) s' | inr a => Ret a end)
      [] ((tr ++ [ev (Accept lfd) (rfd, errno)]) ++ [ev Fork pid]) server_ok) as Hp.
    { intros pid ->. cbn [bind]. pose proof (serving_more tr rfd lfd errno pid E Hs) as Hm.
      destruct (truthy clos); [intros [] _; by apply IH |]. rewrite app_nil_r in Hm. by apply IH. }
    split; [| by apply Hp]. intros pid Hpid. split; [apply Hp, Z.eqb_neq; lia |].
    change (0 =? 0) with true. cbn [bind]. unfold listener_worker, exit. intros [] _ [] _.
    assert (last (taken ([] ++ tr ++ [ev (Accept lfd) (rfd, errno)])) = Some rfd) as Hl
      by (cbn [app]; rewrite taken_snoc by done; by rewrite last_app).
    destruct (truthy clos) eqn:Ec; cbn [bind]; [intros [] _ |]; intros [] _ [] _; right; exists rfd;
      (split; [exact Hl |]); split; try done; by rewrite Ec.
Qed.

(** C34. Whatever the system answers, however long it runs, and whichever process is looked at: the server forks once for every descriptor
    [accept] gave, even one that stands for a failure other than EMFILE, and closes all of them or
    none, as it was told: all for every argument that is not zero (a comment in the source says: only if it is 1); it stops for a wrong command line, a listener that cannot be made, or
    EMFILE, and always with -1. Every other process is a worker that receives once, sends
    "OK" with its terminator on the descriptor accepted last, and exits with status 1. *)
Theorem server_descriptors fuel args : default 0 (atoi <$> args !! 1%nat) = clos ->
  everyone anything (server fuel args) [] [] server_ok.
Proof.
  intros Hc. assert (forall tr, count is_fork tr = 0%nat -> taken tr = [] -> closed tr = [] ->
    forall n, n = -1 -> server_ok [] tr (inl n)) as Hend.
  { intros tr H1 H2 H3 n ->. left. split; [done |]. split; [| by left]. unfold serving.
    rewrite H1, H2, H3. by destruct (truthy clos). }
  destruct args as [| a1 [| a2 args]]; [by intros [] _; apply Hend.. |]. cbn in Hc. unfold server.
  destruct (atoi a1 =? 0); [by intros [] _; apply Hend |]. rewrite Hc.
  assert (forall lfd tr, count is_fork tr = 0%nat -> taken tr = [] -> closed tr = [] ->
    everyone anything (why <- trigger Strerror ;; trigger (Printf (bytes_of "ERROR " ++ why)) ;;
      trigger (Printf (line [bytes_of "Couldn't bind/listen to port "; dec (atoi a1)])) ;; Ret (-1)) [] tr server_ok /\
    everyone anything (rl <- trigger Getrlimit ;;
      trigger (Setrlimit match rl with Some (_, max) => max | None => 0 end
                         match rl with Some (_, max) => max | None => 0 end) ;;
      loop fuel (serve_turn lfd clos) tt) [] tr server_ok) as Hrest.
  { intros lfd tr H1 H2 H3. split.
    - intros why _ [] _ [] _. apply Hend; [rewrite !count_app, H1 | rewrite !taken_other | rewrite !closed_other |]; done.
    - intros rl _ [] _. apply serve_loop. unfold serving. rewrite !count_app, H1, !taken_other, !closed_other, H2, H3 by done.
      by destruct (truthy clos). }
  unfold open_listener. intros lfd _. cbn [bind]. destruct (-1 =? lfd); [by apply (Hrest lfd) |].
  intros r _. cbn [bind]. destruct (-1 =? r); [by apply (Hrest lfd) |].
  intros r' _. cbn [bind fst snd]. destruct (-1 =? r'); by apply (Hrest lfd).
Qed.
End Server.

Lemma server_descriptors_witness :
  everyone anything (server 100 ["8080"; "0"]%string) [] [] (fun old tr r =>
    old = [] -> closed tr = [] \/ exists fd, tr = [ev Fork 0; ev (Recv fd 4096) tt; ev (Send fd res) tt;
                                                   ev (Printf (bytes_of ".")) tt; ev Flush_all tt]).
Proof.
  eapply everyone_mono; [apply (server_descriptors 0 100 ["8080"; "0"]%string); reflexivity |].
  intros old tr r [(_ & [_ H] & _) | (fd & _ & _ & H)] _; [by left | right; by exists fd].
Defined.

(** ** client.c *)

Module Client.

Inductive cltE : Type -> Type :=
| Printf (text : list Z) : cltE unit
| Socket : cltE Z
| Connect (fd sin_port : Z) : cltE Z               (* to 127.0.0.1 *)
| Send (fd : Z) (data : list Z) : cltE (Z * Z)     (* the result and errno *)
| Close (fd : Z) : cltE unit.

Abbreviation cltM := (prog cltE).

#[export] Instance clt_forks : Forks cltE := fun _ _ => None.

Definition no_connection (port : Z) : list Z := line [bytes_of "Couldn't connect on port "; dec port].

(** One turn of the loop with the descriptor it keeps. *)
Definition turn (port clos fd : Z) : cltM (Z + Z) :=
  c <- (if fd =? -1
        then
          fd <- trigger Socket ;;
          if -1 =? fd then Ret (fd, false)
          else
          r <- trigger (Connect fd (htons port)) ;;
          Ret (fd, negb (-1 =? r))
        else Ret (fd, true)) ;;
  if negb c.2 then trigger (Printf (no_connection port)) ;; Ret (inr (-1))
  else
  let fd := c.1 in
  let hang_up := if truthy clos then trigger (Close fd) else Ret tt in
  r <- trigger (Send fd (bytes_of "0")) ;;
  if (-1 =? r.1) && negb (r.2 =? EINTR) then hang_up ;; Ret (inl (-1))
  else hang_up ;; Ret (inl (-1)).

Definition client (fuel : nat) (args : list string) : cltM Z :=
  match args with
  | [] => trigger (Printf need_port) ;; Ret (-1)
  | [_] => trigger (Printf need_close) ;; Ret (-1)
  | a1 :: a2 :: _ =>
      let port := atoi a1 in
      if port =? 0 then trigger (Printf (bad_port a1)) ;; Ret (-1)
      else loop fuel (turn port (atoi a2)) (-1)
  end.

Definition opened_of (e : event cltE) : list Z :=
  match e with
  | existT _ (f, r) =>
      match f in cltE R return R -> list Z with
      | Socket => fun fd => if -1 =? fd then [] else [fd]
      | _ => fun _ => []
      end r
  end.
Definition closed_of (e : event cltE) : list Z :=
  match e with existT _ (f, _) => match f with Close fd => [fd] | _ => [] end end.
Definition sent_of (e : event cltE) : list Z :=
  match e with existT _ (f, _) => match f with Send fd _ => [fd] | _ => [] end end.

Definition opened (tr : list (event cltE)) : list Z := flat_map opened_of tr.
Definition closed (tr : list (event cltE)) : list Z := flat_map closed_of tr.
Definition sent (tr : list (event cltE)) : list Z := flat_map sent_of tr.

(** The connections so far, each used for one message and then closed or forgotten. *)
Definition talking (clos : Z) (tr : list (event cltE)) : Prop :=
  sent tr = opened tr /\ closed tr = if truthy clos then opened tr else [].

(** At the end there may be one socket more, which could not be connected. *)
Definition client_ok (clos : Z) (old tr : list (event cltE)) (r : Z + stop) : Prop :=
  (r = inr OutOfFuel /\ talking clos tr) \/
  (r = inl (-1) /\ exists extra, (length extra <= 1)%nat /\ opened tr = sent tr ++ extra /\
    closed tr = if truthy clos then sent tr else []).

Lemma client_loop clos port fuel old tr : talking clos tr ->
  everyone anything (loop fuel (turn port clos) (-1)) old tr (client_ok clos).
Proof.
  revert tr. induction fuel as [| fuel IH]; intros tr Ht; [by left |].
  cbn [loop]. unfold turn at 1. intros fd _. cbn [bind]. destruct Ht as [H1 H2].
  destruct (-1 =? fd) eqn:Ef.
  - intros [] _. right. split; [done |]. exists []. unfold sent, opened, closed in *. rewrite !flat_map_app.
    cbn -[Z.eqb]. rewrite Ef, !app_nil_r, H1. by split; [lia |].
  - intros r _. cbn [bind fst snd]. destruct (-1 =? r).
    + intros [] _. right. split; [done |]. exists [fd]. unfold sent, opened, closed in *. rewrite !flat_map_app.
      cbn -[Z.eqb]. rewrite Ef, !app_nil_r, H1. by split; [lia |].
    + intros [s errno] _. cbn [bind fst snd negb].
      assert (everyone anything (r <- ((if truthy clos then trigger (Close fd) else Ret tt) ;; Ret (inl (-1))) ;;
        match r with inl s' => loop fuel (turn port clos) s' | inr a => Ret a end) old
        (((tr ++ [ev Socket fd]) ++ [ev (Connect fd (htons port)) r]) ++ [ev (Send fd (bytes_of "0")) (s, errno)])
        (client_ok clos)) as Hk; [| by destruct (_ && _)].
      destruct (truthy clos) eqn:Ec; [intros [] _ |]; apply IH; unfold talking, sent, opened, closed in *;
        rewrite Ec, !flat_map_app in *; cbn -[Z.eqb]; rewrite Ef, ?app_nil_r, H1, H2; done.
Qed.

(** The client uses each connection for one message, whether it was sent, failed or was interrupted, and closes all its
    connections or none, as it was told. It stops only for a wrong command line or when
    no connection can be made, and then returns -1 and leaves at most the unconnected socket behind: without
    closing, it ends when its descriptors are used up. *)
Theorem client_descriptors fuel args :
  everyone anything (client fuel args) [] [] (client_ok (default 0 (atoi <$> args !! 1%nat))).
Proof.
  assert (forall clos t, everyone anything (trigger (Printf t) ;; Ret (-1)) [] [] (client_ok clos)) as Hend.
  { intros clos t [] _. right. split; [done |]. exists []. repeat split; [cbn; lia |]. by destruct (truthy clos). }
  destruct args as [| a1 [| a2 args]]; [apply Hend.. |]. unfold client. cbn [lookup list_lookup fmap option_fmap].
  destruct (atoi a1 =? 0); [apply Hend |]. apply client_loop. split; [done |]. by destruct (truthy _).
Qed.
End Client.
