(* ===== verification/Notifier.v ===== *)
(** * here_and_gone: a program and the events on a directory

    [src/here_and_gone/notifier.c]: marks a directory with fanotify, starts a program and prints the
    events the kernel reports. Buffers are bytes; an event is the structure of the kernel's header, at its offsets. *)
From stdpp Require Import base gmap list strings.
From Stdlib Require Import ZArith Lia.
From S2P Require Import Prelude Prog Sys Family Text.

Definition EXIT_FAILURE : Z := 1.
Definition EAGAIN : Z := 11.
Definition BUFFER_SIZE : Z := 8192.

Definition FAN_ACCESS : Z := 1.
Definition FAN_MODIFY : Z := 2.
Definition FAN_CLOSE_WRITE : Z := 8.
Definition FAN_CLOSE_NOWRITE : Z := 16.
Definition FAN_OPEN : Z := 32.
Definition FAN_DELETE : Z := 512.
Definition FAN_CLOEXEC : Z := 1.
Definition FAN_REPORT_FID : Z := 512.

(** The list the macros are applied to. *)
Definition FAN : list (Z * string) :=
  [(FAN_ACCESS, "ACCESS"); (FAN_DELETE, "DELETE"); (FAN_MODIFY, "MODIFY");
   (FAN_CLOSE_WRITE, "CLOSE_WRITE"); (FAN_CLOSE_NOWRITE, "CLOSE_NOWRITE"); (FAN_OPEN, "OPEN")]%string.

Definition lut : list Z := map fst FAN.
Definition st : list string := map snd FAN.

(** [ADD_EVENT] for all of them. *)
Definition the_mask : Z := fold_left (fun mask e => Z.lor mask e.1) FAN 0.

Inductive noE : Type -> Type :=
| Eprintf (s : string) : noE unit
| Perror (s : string) : noE unit
| Printf (text : list Z) : noE unit
| Flush_all : noE unit
| Fanotify_init (flags : Z) : noE Z
| Fanotify_mark (fan mask : Z) : noE Z
| Fork : noE Z
| Execvp (file : string) : noE unit                (* only failure returns *)
| Read (fan n : Z) : noE (list Z + Z)              (* the bytes, or errno *)
| Close (fd : Z) : noE unit.

Abbreviation noM := (prog noE).

#[export] Instance no_forks : Forks noE := fun R e =>
  match e in noE R return option (Z -> Z -> R) with Fork => Some (fun ret _ => ret) | _ => None end.

Definition exit {A} (code : Z) : noM A := trigger Flush_all ;; Halt (Exited code).

(** The fields of [struct fanotify_event_metadata] at the front of [buf]. *)
Definition METADATA_LEN : Z := 24.
Definition event_len (buf : list Z) : Z := le_combine (take 4 buf).
Definition mask (buf : list Z) : Z := le_combine (take 8 (drop 8 buf)).

Definition FAN_EVENT_OK (buf : list Z) (len : Z) : bool :=
  (METADATA_LEN <=? len) && (METADATA_LEN <=? event_len buf) && (event_len buf <=? len).

(** The [switch]: a case for each constant. *)
Definition report (m : Z) : noM unit :=
  match list_find (fun e => e.1 = m) FAN with
  | Some (_, (_, name)) => trigger (Printf (line [bytes_of name]))
  | None => Ret tt
  end.

Fixpoint walk (fuel : nat) (buf : list Z) (len : Z) : noM unit :=
  match fuel with
  | O => Halt OutOfFuel
  | S n =>
      if FAN_EVENT_OK buf len
      then report (mask buf) ;; walk n (drop (Z.to_nat (event_len buf)) buf) (len - event_len buf)
      else Ret tt
  end.

(** One turn of the loop that reads. A buffer has room for 341 events and one turn more. *)
Definition read_turn (fan : Z) (_ : unit) : noM (unit + unit) :=
  r <- trigger (Read fan BUFFER_SIZE) ;;
  match r with
  | inr errno =>
      if negb (errno =? EAGAIN) then trigger (Perror "read") ;; exit EXIT_FAILURE else Ret (inr tt)
  | inl buffer =>
      let len := zlen buffer in
      if len <=? 0 then Ret (inr tt) else walk 342 buffer len ;; Ret (inl tt)
  end.

(** [args] are [argv[1]] and on. *)
Definition main (fuel : nat) (args : list string) : noM Z :=
  match args with
  | [filename] =>
      fan <- trigger (Fanotify_init FAN_CLOEXEC) ;;
      if fan =? -1 then trigger (Perror "fanotify_init") ;; exit EXIT_FAILURE
      else
      r <- trigger (Fanotify_mark fan the_mask) ;;
      if r =? -1 then trigger (Perror "fanotify_mark") ;; exit EXIT_FAILURE
      else
      pid <- trigger Fork ;;
      if pid =? 0 then trigger (Execvp filename) ;; trigger (Perror "execvp") ;; exit EXIT_FAILURE
      else if pid <? 0 then trigger (Perror "fork") ;; exit EXIT_FAILURE
      else
      loop fuel (read_turn fan) tt ;;
      trigger (Close fan) ;;
      Ret 0
  | _ => trigger (Eprintf "Usage: ") ;; exit EXIT_FAILURE
  end.

(** ** Buffers of events *)

(** [rest] is what the kernel may put behind the fixed part. *)
Record fan_event := MkEvent { ev_vers : Z; ev_mask : Z; ev_fd : Z; ev_pid : Z; ev_rest : list Z }.

Definition size (e : fan_event) : Z := METADATA_LEN + zlen (ev_rest e).

Definition encode (e : fan_event) : list Z :=
  le_split 4 (size e) ++ [ev_vers e; 0] ++ le_split 2 METADATA_LEN ++ le_split 8 (ev_mask e) ++
  le_split 4 (ev_fd e) ++ le_split 4 (ev_pid e) ++ ev_rest e.

Definition fits (e : fan_event) : Prop := size e < 2 ^ 32 /\ 0 <= ev_mask e < 2 ^ 64.

(** The line for an event: only a mask that is one of the six bits has one. *)
Definition lines_of (e : fan_event) : list (list Z) :=
  match list_find (fun x => x.1 = ev_mask e) FAN with
  | Some (_, (_, name)) => [line [bytes_of name]]
  | None => []
  end.

Lemma encode_length e : zlen (encode e) = size e.
Proof.
  assert (forall n x, zlen (le_split n x) = Z.of_nat n) as Hl by (intros; unfold zlen; by rewrite le_split_length).
  unfold encode, size. rewrite !zlen_app, !Hl. change (zlen [ev_vers e; 0]) with 2. unfold METADATA_LEN. lia.
Qed.

Lemma encode_fields e rest : fits e -> event_len (encode e ++ rest) = size e /\ mask (encode e ++ rest) = ev_mask e.
Proof.
  intros [Hs Hm]. pose proof (zlen_nonneg (ev_rest e)) as Hz. unfold event_len, mask, encode. rewrite <-!app_assoc. split.
  - rewrite take_app_length' by (by rewrite le_split_length). rewrite le_combine_split. apply Z.mod_small.
    unfold size, METADATA_LEN in *. change (256 ^ Z.of_nat 4) with (2 ^ 32). lia.
  - rewrite drop_app_ge by (rewrite le_split_length; lia). rewrite le_split_length. cbn [Nat.sub].
    rewrite drop_app_ge by (cbn; lia). cbn [length Nat.sub].
    rewrite drop_app_ge by (rewrite le_split_length; lia). rewrite le_split_length. cbn [Nat.sub]. rewrite drop_0.
    rewrite take_app_length' by (by rewrite le_split_length). rewrite le_combine_split. by apply Z.mod_small.
Qed.

Lemma report_lines e : always anything nothing (report (ev_mask e))
  (fun _ tr => tr = map (fun l => ev (Printf l) tt) (lines_of e)).
Proof. unfold report, lines_of. destruct (list_find _ _) as [[i [m name]] |]; [by intros [] _ | done]. Qed.

(** C36. A buffer of events is walked to its end, whatever lies behind the fixed part of each: an event is shown exactly when its mask is
    one of the six bits, so events the kernel has merged are passed over in silence, and so are overflows of the queue; no
    descriptor that came with an event is closed. *)
Theorem walk_reports es fuel : Forall fits es -> (length es < fuel)%nat ->
  always anything nothing (walk fuel (concat (map encode es)) (zlen (concat (map encode es))))
    (fun _ tr => tr = map (fun l => ev (Printf l) tt) (concat (map lines_of es))).
Proof.
  intros Hes. revert fuel. induction Hes as [| e es He Hes IH]; intros [| fuel] Hf; cbn [length] in Hf; [lia | | lia |].
  { cbn [walk]. unfold FAN_EVENT_OK. by cbn. }
  cbn [map concat walk]. destruct (encode_fields e (concat (map encode es)) He) as [H1 H2].
  pose proof (zlen_nonneg (ev_rest e)). pose proof (zlen_nonneg (concat (map encode es))).
  rewrite zlen_app, encode_length. unfold FAN_EVENT_OK. rewrite H1, H2.
  rewrite !(proj2 (Z.leb_le _ _)) by (unfold size, METADATA_LEN; lia). cbn [andb].
  eapply always_bind; [apply report_lines |]. intros [] tr ->.
  replace (size e + zlen (concat (map encode es)) - size e) with (zlen (concat (map encode es))) by lia.
  rewrite drop_app_length' by (rewrite <-encode_length; unfold zlen; lia).
  eapply always_mono; [apply IH; lia |]. intros [] tr ->. by rewrite map_app.
Qed.

(** Any bytes at all: every event taken is at least as long as its fixed part, so the walk ends, and 342 turns
    are enough for a buffer. *)
Lemma walk_ends fuel buf len : len < METADATA_LEN * (Z.of_nat fuel + 1) ->
  always anything nothing (walk (S fuel) buf len) (fun _ _ => True).
Proof.
  revert buf len. induction fuel as [| fuel IH]; intros buf len Hl; unfold METADATA_LEN in Hl.
  - cbn [walk]. unfold FAN_EVENT_OK. rewrite (proj2 (Z.leb_gt METADATA_LEN len)) by (unfold METADATA_LEN; lia). done.
  - change (walk (S (S fuel)) buf len) with (if FAN_EVENT_OK buf len
      then report (mask buf) ;; walk (S fuel) (drop (Z.to_nat (event_len buf)) buf) (len - event_len buf)
      else Ret tt).
    destruct (FAN_EVENT_OK buf len) eqn:E; [| done]. unfold FAN_EVENT_OK, METADATA_LEN in *. zbool.
    eapply always_bind with (P := fun _ _ => True).
    + unfold report. destruct (list_find _ _) as [[i [m name]] |]; [by intros [] _ | done].
    + intros [] tr _. apply IH. unfold METADATA_LEN. lia.
Qed.

Lemma buffer_walked buf : zlen buf <= BUFFER_SIZE -> always anything nothing (walk 342 buf (zlen buf)) (fun _ _ => True).
Proof. intros H. apply (walk_ends 341); unfold METADATA_LEN, BUFFER_SIZE in *; lia. Qed.

(** The kernel takes FAN_DELETE only in a group that reports file handles. *)
Definition documented (R : Type) (e : noE R) : R -> Prop :=
  match e in noE R return R -> Prop with
  | Fanotify_mark _ mask => fun r => Z.land mask FAN_DELETE <> 0 -> r = -1
  | _ => fun _ => True
  end.

(** The group is made without file handles and the mask asks for deletions, so the mark is refused: whatever else happens,
    the program ends with failure before it starts anything. *)
Theorem never_watches fuel args :
  everyone documented (main fuel args) [] [] (fun old tr r => old = [] /\ r = inr (Exited EXIT_FAILURE)).
Proof.
  destruct args as [| a [| b args]]; try by intros [] _ [] _.
  intros fan _. cbn [bind]. destruct (fan =? -1); [by intros [] _ [] _ |].
  intros r Hr. cbn in Hr. rewrite Hr by discriminate. by intros [] _ [] _.
Qed.

Lemma walk_reports_witness :
  always anything nothing
    (walk 4 (concat (map encode [MkEvent 3 32 5 77 []; MkEvent 3 33 6 77 []; MkEvent 3 16 7 77 [0; 0; 0; 0]])) 76)
    (fun _ tr => tr = [ev (Printf (bytes_of "OPEN" ++ [10])) tt; ev (Printf (bytes_of "CLOSE_NOWRITE" ++ [10])) tt]).
Proof.
  apply (walk_reports [MkEvent 3 32 5 77 []; MkEvent 3 33 6 77 []; MkEvent 3 16 7 77 [0; 0; 0; 0]]).
  - repeat constructor; cbn; done.
  - cbn. lia.
Defined.
