(* ===== verification/Args.v ===== *)
(** * argv, argv0 and start_so: finding one's own arguments

    [src/argv/lib.c], [src/argv0/lib.c], [src/start_so/foo.cpp]. The kernel puts the number of arguments, the pointers to them
    and the environment on the stack, in this order; the libraries look for the arguments from [environ]
    downwards. Pointers into that array are indices of its words; strings are bytes at addresses. *)
From stdpp Require Import base gmap list strings.
From Stdlib Require Import ZArith Lia.
From S2P Require Import Prelude Prog Sys Family Text.

Definition NULL : Z := 0.

Inductive argE : Type -> Type :=
| Environ : argE Z                                 (* the index of the first pointer of the environment *)
| Word (i : Z) : argE Z
| Byte (a : Z) : argE Z
| Set_byte (a b : Z) : argE unit
| Strlen (a : Z) : argE Z
| Memset (a b n : Z) : argE unit
| Str (a : Z) : argE (list Z)                      (* what %s prints *)
| Open_cmdline : argE Z
| Read (fd n : Z) : argE (option (list Z))         (* nothing when it fails *)
| Write (fd : Z) (data : list Z) : argE unit
| Close (fd : Z) : argE unit
| Printf (text : list Z) : argE unit
| Eprintf (text : list Z) : argE unit
| Fflush : argE unit
| Getpid : argE Z
| Readlink (n : Z) : argE (option (list Z))        (* of /proc/self/exe *)
| Popen (cmd : list Z) : argE Z
| Fgets (n fp : Z) : argE (option (list Z))
| Pclose (fp : Z) : argE unit.

Abbreviation argM := (prog argE).

(** ** argv/lib.c *)

Record Args := MkArgs { argc : Z; argv : Z }.

(** The loop that looks for a word that holds its own distance; [argv] is where it stands. *)
Fixpoint find_argc (n : nat) (argc argv : Z) : argM (option Args * Z) :=
  match n with
  | O => Ret (None, argv)
  | S m =>
      w <- trigger (Word (argv - 1)) ;;
      if argc =? w then Ret (Some (MkArgs argc argv), argv) else find_argc m (argc + 1) (argv - 1)
  end.

Definition get_args : argM Args :=
  e <- trigger Environ ;;
  r <- find_argc 1024 0 (e - 1) ;;
  Ret (default (MkArgs 0 NULL) r.1).

Definition STAR : Z := 42.

(** [for (j = 0; p[j]; j++) p[j] = '*'], from [j] on. *)
Definition star_step (p j : Z) : argM (Z + unit) :=
  b <- trigger (Byte (p + j)) ;;
  if b =? 0 then Ret (inr tt) else trigger (Set_byte (p + j) STAR) ;; Ret (inl (j + 1)).

Definition sanitize_args (fuel : nat) (args : Args) : argM unit :=
  for_range 1 (Z.to_nat (argc args - 1)) (fun i =>
    p <- trigger (Word (argv args + i)) ;;
    loop fuel (star_step p) 0).

Definition print_args (args : Args) : argM unit :=
  trigger (Printf (line [bytes_of "argc: "; dec (argc args)])) ;;
  for_range 0 (Z.to_nat (argc args)) (fun i =>
    p <- trigger (Word (argv args + i)) ;;
    s <- trigger (Str p) ;;
    trigger (Printf (line [bytes_of "argv["; dec i; bytes_of "]: "; s]))).

Definition print_ps (fuel : nat) : argM unit :=
  pid <- trigger Getpid ;;
  let cmd := bytes_of "ps -p " ++ dec pid ++ bytes_of " -o args=" in
  if 1024 <=? zlen cmd then trigger (Eprintf (line [bytes_of "Command formatting error"]))
  else
  fp <- trigger (Popen cmd) ;;
  if fp =? NULL then trigger (Eprintf (line [bytes_of "Failed to run command"]))
  else
  trigger (Printf (line [bytes_of "ps output:"])) ;;
  loop fuel (fun _ =>
    l <- trigger (Fgets 1024 fp) ;;
    match l with
    | None => Ret (inr tt)
    | Some text => trigger (Printf (c_str text)) ;; Ret (inl tt)
    end) tt ;;
  trigger (Pclose fp).

(** [mutate_argv.c]; [argv] is the parameter of main. *)
Definition mutate_main (fuel : nat) (argv : Z) : argM Z :=
  p <- trigger (Word argv) ;;
  trigger (Set_byte p STAR) ;;
  print_ps fuel ;;
  Ret 0.

(** ** argv0/lib.c *)

Record argv0_state := MkState { has_run : bool; this_argc : Z; this_argv : Z }.

Definition get_argc (s : argv0_state) : argM (Z * argv0_state) :=
  if has_run s then Ret (this_argc s, s)
  else
  e <- trigger Environ ;;
  r <- find_argc 1024 0 (e - 1) ;;
  let s := MkState true (this_argc s) r.2 in
  Ret (match r.1 with Some a => argc a | None => 0 end, s).

(** An index equal to [this_argc] reads the pointer behind the last. *)
Definition get_argv (s : argv0_state) (idx : Z) : argM Z :=
  if (idx <? 0) || (this_argc s <? idx) then Ret NULL else trigger (Word (this_argv s + idx)).

Definition get_exe : argM (option (list Z)) :=
  r <- trigger (Readlink 4095) ;;
  match r with
  | None => Ret None
  | Some data => Ret (Some (c_str (data ++ [0])))
  end.

(** The library's [%s] shows a null pointer as "(null)". *)
Definition shown (s : option (list Z)) : list Z := default (bytes_of "(null)") s.

Definition str (p : Z) : argM (list Z) := if p =? NULL then Ret (shown None) else trigger (Str p).

(** The constructor. *)
Definition init_for_fun (s : argv0_state) : argM argv0_state :=
  r <- get_argc s ;;
  let s := MkState (has_run r.2) r.1 (this_argv r.2) in
  pid <- trigger Getpid ;;
  let tag := bytes_of "[" ++ dec pid ++ bytes_of "] " in
  p <- get_argv s 0 ;;
  t <- str p ;;
  trigger (Eprintf (line [tag; bytes_of "argv[0] = "; t])) ;;
  (if 1 <? this_argc s
   then p <- get_argv s 1 ;; t <- str p ;; trigger (Eprintf (line [tag; bytes_of "argv[1] = "; t]))
   else Ret tt) ;;
  exe <- get_exe ;;
  trigger (Eprintf (line [tag; bytes_of "exe = "; shown exe])) ;;
  Ret s.

(** ** start_so/foo.cpp *)

Definition CHUNK : Z := 1024.
Definition QUESTION : Z := 63.

(** [for (; n; n--) if (!buf[n]) argc++]: the byte at [n] itself is looked at, the first is not. *)
Fixpoint count_nuls (buf : list Z) (n : nat) (argc : Z) : option Z :=
  match n with
  | O => Some argc
  | S m => match buf !! n with
           | Some b => count_nuls buf m (if b =? 0 then argc + 1 else argc)
           | None => None
           end
  end.

(** One turn of the loop that reads: the buffer and the count. *)
Definition scrub_turn (fd : Z) (s : list Z * Z) : argM (list Z * Z + Z) :=
  r <- trigger (Read fd CHUNK) ;;
  match r with
  | Some (b :: data) =>
      let data := b :: data in
      let buf := data ++ drop (length data) s.1 in
      match count_nuls buf (length data) s.2 with
      | Some argc => Ret (inl (buf, argc))
      | None => Halt Undefined
      end
  | _ => Ret (inr s.2)
  end.

(** [for (; argc > 1; argc--) memset(args[-argc], ...)], for [n + 1] down to 2. *)
Fixpoint scrub_words (n : nat) (args : Z) : argM unit :=
  match n with
  | O => Ret tt
  | S m =>
      p <- trigger (Word (args - (Z.of_nat n + 1))) ;;
      len <- trigger (Strlen p) ;;
      trigger (Memset p QUESTION len) ;;
      scrub_words m args
  end.

Definition scrub_args (fuel : nat) : argM unit :=
  args <- trigger Environ ;;
  fd <- trigger Open_cmdline ;;
  argc <- loop fuel (scrub_turn fd) (replicate (Z.to_nat CHUNK) 0, 0) ;;
  scrub_words (Z.to_nat (argc - 1)) args ;;
  trigger (Close fd).

Definition SPACE : Z := 32.

Definition read_cmdline (fuel : nat) : argM unit :=
  fd <- trigger Open_cmdline ;;
  loop fuel (fun _ =>
    r <- trigger (Read fd CHUNK) ;;
    match r with
    | Some (b :: data) =>
        trigger (Write 1 (map (fun b => if b =? 0 then SPACE else b) (b :: data))) ;; Ret (inl tt)
    | _ => Ret (inr tt)
    end) tt ;;
  trigger (Write 1 [10]) ;;
  trigger Fflush ;;
  trigger (Close fd).

Definition mymain (fuel : nat) : argM unit :=
  trigger (Printf (line [bytes_of "Main from lib"])) ;;
  read_cmdline fuel ;;
  trigger (Printf (line [bytes_of "OK, done."; [10]])) ;;
  scrub_args fuel ;;
  read_cmdline fuel ;;
  trigger Fflush ;;
  Halt (Exited 0).

(** ** The process image *)

(** The words of the stack, with the environment at [top]; the strings of the arguments from
    [start] on; how far the open file has been read, and what was written to descriptor 1. *)
Record image := MkImage {
  word : Z -> Z;
  top : Z;
  start : Z;
  area : list Z;
  pos : Z;
  shown_ : list Z }.

Definition in_area (im : image) (a : Z) : bool := (start im <=? a) && (a <? start im + zlen (area im)).
Definition at_ (im : image) (a : Z) : nat := Z.to_nat (a - start im).
Definition set_area (im : image) (l : list Z) : image := MkImage (word im) (top im) (start im) l (pos im) (shown_ im).

(** Accesses outside the area are undefined. The file of the command line is the area itself. *)
Definition args_h : handler argE (unit * image) := fun R e s =>
  let '(u, im) := s in
  match e in argE R return outcome (unit * image) R with
  | Environ => Done (top im) s
  | Word i => Done (word im i) s
  | Byte a => match area im !! at_ im a with
              | Some b => if start im <=? a then Done b s else Stopped Undefined s
              | None => Stopped Undefined s
              end
  | Set_byte a b =>
      if in_area im a then Done tt (u, set_area im (<[at_ im a := b]> (area im))) else Stopped Undefined s
  | Strlen a =>
      if in_area im a then Done (zlen (c_str (drop (at_ im a) (area im)))) s else Stopped Undefined s
  | Memset a b n =>
      if n =? 0 then Done tt s
      else if in_area im a && in_area im (a + n - 1)
      then Done tt (u, set_area im (take (at_ im a) (area im) ++ replicate (Z.to_nat n) b ++
                                    drop (at_ im (a + n)) (area im)))
      else Stopped Undefined s
  | Str a => if in_area im a then Done (c_str (drop (at_ im a) (area im))) s else Stopped Undefined s
  | Open_cmdline => Done 3 (u, MkImage (word im) (top im) (start im) (area im) 0 (shown_ im))
  | Read _ n =>
      let data := take (Z.to_nat n) (drop (Z.to_nat (pos im)) (area im)) in
      Done (Some data) (u, MkImage (word im) (top im) (start im) (area im) (pos im + zlen data) (shown_ im))
  | Write _ data => Done tt (u, MkImage (word im) (top im) (start im) (area im) (pos im) (shown_ im ++ data))
  | Close _ | Pclose _ | Printf _ | Eprintf _ | Fflush => Done tt s
  | Getpid => Done 1 s
  | Readlink _ => Done None s
  | Popen _ => Done NULL s
  | Fgets _ _ => Done None s
  end.

(** What the kernel puts on the stack for pointers [addrs]: their number at [base], the pointers, a null pointer. *)
Definition layout (w : Z -> Z) (base : Z) (addrs : list Z) : Prop :=
  w base = zlen addrs /\ (forall i a, addrs !! i = Some a -> w (base + 1 + Z.of_nat i) = a) /\
  w (base + 1 + zlen addrs) = NULL.

(** No string is as low in memory as a number of arguments the search accepts. *)
Definition high (addrs : list Z) : Prop := Forall (fun a => 1024 <= a) addrs.

Lemma find_argc_spec w base addrs im n i : layout w base addrs -> high addrs -> word im = w ->
  0 <= i <= zlen addrs -> i + Z.of_nat n <= 1024 ->
  run args_h (find_argc n i (base + 1 + zlen addrs - i)) (tt, im) =
  Done (if zlen addrs <? i + Z.of_nat n then (Some (MkArgs (zlen addrs) (base + 1)), base + 1)
        else (None, base + 1 + zlen addrs - (i + Z.of_nat n))) (tt, im).
Proof.
  intros (Hb & Ha & _) Hh Hw. revert i. induction n as [| n IH]; intros i Hi Hn.
  { cbn [find_argc run]. rewrite (proj2 (Z.ltb_ge _ _)) by lia. do 3 f_equal. lia. }
  cbn [find_argc]. rewrite run_bind, run_trigger. cbn [args_h obind]. rewrite Hw.
  destruct (decide (i = zlen addrs)) as [-> |].
  - replace (base + 1 + zlen addrs - zlen addrs - 1) with base by lia. rewrite Hb, Z.eqb_refl.
    rewrite (proj2 (Z.ltb_lt _ _)) by lia. cbn [run]. do 3 f_equal; [f_equal; f_equal |]; lia.
  - destruct (lookup_lt_is_Some_2 addrs (Z.to_nat (zlen addrs - 1 - i))) as [a Hl]; [unfold zlen in *; lia |].
    pose proof (Ha _ _ Hl) as Hwa. pose proof (Forall_lookup_1 _ _ _ _ Hh Hl) as H1024. cbn in H1024.
    replace (base + 1 + zlen addrs - i - 1) with (base + 1 + Z.of_nat (Z.to_nat (zlen addrs - 1 - i)))
      by (unfold zlen in *; lia).
    rewrite Hwa, (proj2 (Z.eqb_neq i a)) by lia.
    replace (base + 1 + Z.of_nat (Z.to_nat (zlen addrs - 1 - i)) ) with (base + 1 + zlen addrs - (i + 1))
      by (unfold zlen in *; lia).
    rewrite IH by lia. by replace (i + 1 + Z.of_nat n) with (i + Z.of_nat (S n)) by lia.
Qed.

(** C37. Both libraries find the arguments the kernel put on the stack. With fewer than 1024 of them [get_args] gives their number and the
    array, and [get_argv] the pointer at every index that has one, a null pointer at the index behind the last and at all others. With more,
    [get_args] gives nothing; the other library believes that there are none and gives the 1024th argument from the end as the
    first. *)
Theorem arguments_found w base addrs im idx : layout w base addrs -> high addrs ->
  word im = w -> top im = base + 2 + zlen addrs ->
  run args_h get_args (tt, im) =
    Done (if zlen addrs <? 1024 then MkArgs (zlen addrs) (base + 1) else MkArgs 0 NULL) (tt, im) /\
  run args_h (r <- get_argc (MkState false 0 NULL) ;; get_argv (MkState true r.1 (this_argv r.2)) idx) (tt, im) =
    Done (if zlen addrs <? 1024 then (if idx <? 0 then NULL else default NULL (addrs !! Z.to_nat idx))
          else if idx =? 0 then default NULL (addrs !! Z.to_nat (zlen addrs - 1024)) else NULL) (tt, im).
Proof.
  intros Hl Hh Hw Ht. pose proof (find_argc_spec w base addrs im 1024 0 Hl Hh Hw) as Hf.
  pose proof (zlen_nonneg addrs) as Hz. specialize (Hf ltac:(lia) ltac:(lia)).
  rewrite Z.sub_0_r, Z.add_0_l in Hf. change (Z.of_nat 1024) with 1024 in Hf.
  destruct Hl as (_ & Ha & Hn). split.
  - unfold get_args. rewrite run_bind, run_trigger. cbn [args_h obind]. rewrite Ht.
    replace (base + 2 + zlen addrs - 1) with (base + 1 + zlen addrs) by lia.
    rewrite run_bind, Hf. by destruct (zlen addrs <? 1024).
  - unfold get_argc. cbn [has_run]. rewrite !run_bind, run_trigger. cbn [args_h obind]. rewrite Ht.
    replace (base + 2 + zlen addrs - 1) with (base + 1 + zlen addrs) by lia.
    rewrite run_bind, Hf. unfold get_argv.
    destruct (zlen addrs <? 1024) eqn:E; zbool; cbn [obind run fst snd this_argc this_argv argc].
    + destruct (idx <? 0) eqn:E0; zbool; cbn [orb]; [done |].
      destruct (zlen addrs <? idx) eqn:E1; zbool; cbn [run].
      * rewrite lookup_ge_None_2 by (unfold zlen in *; lia). done.
      * rewrite run_trigger. cbn [args_h]. rewrite Hw.
        destruct (decide (idx = zlen addrs)) as [-> |].
        { rewrite Hn, lookup_ge_None_2 by (unfold zlen in *; lia). done. }
        destruct (lookup_lt_is_Some_2 addrs (Z.to_nat idx)) as [a Hl]; [unfold zlen in *; lia |].
        rewrite Hl. pose proof (Ha _ _ Hl) as H. rewrite Z2Nat.id in H by lia. by rewrite H.
    + destruct (idx =? 0) eqn:E0; zbool.
      * subst idx. cbn [Z.ltb Z.compare orb]. rewrite run_trigger. cbn [args_h]. rewrite Hw.
        destruct (lookup_lt_is_Some_2 addrs (Z.to_nat (zlen addrs - 1024))) as [a Hl]; [unfold zlen in *; lia |].
        rewrite Hl. pose proof (Ha _ _ Hl) as H. rewrite Z2Nat.id in H by lia. cbn [default].
        replace (base + 1 + zlen addrs - 1024 + 0) with (base + 1 + (zlen addrs - 1024)) by lia. by rewrite H.
      * destruct (idx <? 0) eqn:E1; zbool; [done |]. by rewrite (proj2 (Z.ltb_lt 0 idx)) by lia.
Qed.

(** ** Hiding the arguments *)

(** The strings as the kernel lays them out, and the address of each. *)
Definition flat (args : list (list Z)) : list Z := concat (map (fun s => s ++ [0]) args).

Fixpoint addresses (p : Z) (args : list (list Z)) : list Z :=
  match args with
  | [] => []
  | s :: args' => p :: addresses (p + zlen s + 1) args'
  end.

Definition no_nul (s : list Z) : Prop := Forall (fun b => b <> 0) s.

(** All its bytes replaced by [b]. *)
Definition masked (b : Z) (s : list Z) : list Z := replicate (length s) b.

Lemma flat_cons s args : flat (s :: args) = s ++ 0 :: flat args.
Proof. unfold flat. cbn. by rewrite <-app_assoc. Qed.

Lemma flat_app a b : flat (a ++ b) = flat a ++ flat b.
Proof. unfold flat. by rewrite map_app, concat_app. Qed.

Lemma zlen_flat_masked b args : zlen (flat (map (masked b) args)) = zlen (flat args).
Proof.
  induction args as [| s args IH]; [done |]. cbn [map]. rewrite !flat_cons, !zlen_app, !zlen_cons, IH.
  unfold masked, zlen. by rewrite length_replicate.
Qed.

Lemma addresses_length p args : length (addresses p args) = length args.
Proof. revert p. induction args as [| s args IH]; intros p; [done |]. cbn. by rewrite IH. Qed.

Section Hide.
Context (w : Z -> Z) (top_ start_ base : Z).

Definition im_of (area : list Z) (off : Z) (out : list Z) : image := MkImage w top_ start_ area off out.

(** The cursor of the image in front of [l], behind [pre]. *)
Lemma at_app pre k l off out : 0 <= k ->
  at_ (im_of (pre ++ l) off out) (start_ + zlen pre + k) = (length pre + Z.to_nat k)%nat.
Proof. intros Hk. unfold at_. cbn [start im_of]. unfold zlen. lia. Qed.

Lemma star_loop fuel pre done_ s rest off out : no_nul s -> (length s < fuel)%nat ->
  run args_h (loop fuel (star_step (start_ + zlen pre)) (zlen done_))
    (tt, im_of (pre ++ done_ ++ s ++ 0 :: rest) off out) =
  Done tt (tt, im_of (pre ++ done_ ++ masked STAR s ++ 0 :: rest) off out).
Proof.
  intros Hs. revert fuel done_. induction Hs as [| b s Hb Hs IH]; intros [| fuel] done_ Hf; cbn [length] in Hf; [lia | | lia |].
  - cbn [loop]. unfold star_step. rewrite !run_bind, run_trigger. cbn [args_h].
    pose proof (zlen_nonneg pre). pose proof (zlen_nonneg done_).
    rewrite at_app by apply zlen_nonneg. cbn [area im_of start]. unfold zlen at 1. rewrite Nat2Z.id.
    rewrite app_assoc, lookup_app_r by (rewrite length_app; lia). rewrite length_app, Nat.sub_diag. cbn [lookup list_lookup app].
    rewrite (proj2 (Z.leb_le _ _)) by lia. cbn. by rewrite <-app_assoc.
  - cbn [loop]. unfold star_step at 1. rewrite !run_bind, run_trigger. cbn [args_h].
    pose proof (zlen_nonneg pre). pose proof (zlen_nonneg done_).
    rewrite at_app by apply zlen_nonneg. cbn [area im_of start]. unfold zlen at 1. rewrite Nat2Z.id.
    rewrite (app_assoc pre done_), lookup_app_r by (rewrite length_app; lia). rewrite length_app, Nat.sub_diag. cbn [lookup list_lookup app].
    rewrite (proj2 (Z.leb_le _ _)) by lia. cbn [obind]. rewrite (proj2 (Z.eqb_neq b 0)) by done.
    rewrite run_bind, run_trigger. cbn [args_h]. unfold in_area. cbn [start area im_of].
    rewrite (proj2 (Z.leb_le _ _)), (proj2 (Z.ltb_lt _ _)) by (rewrite ?zlen_app, ?zlen_cons; unfold zlen; lia).
    cbn [andb obind run].
    assert (set_area (im_of ((pre ++ done_) ++ b :: s ++ 0 :: rest) off out)
      (<[at_ (im_of ((pre ++ done_) ++ b :: s ++ 0 :: rest) off out) (start_ + zlen pre + zlen done_) := STAR]>
        ((pre ++ done_) ++ b :: s ++ 0 :: rest)) =
      im_of (pre ++ (done_ ++ [STAR]) ++ s ++ 0 :: rest) off out) as ->.
    { replace (at_ _ _) with (length (pre ++ done_) + 0)%nat
        by (unfold at_; cbn [start im_of]; rewrite length_app; unfold zlen; lia).
      rewrite insert_app_r. unfold set_area, im_of. cbn. by rewrite <-!app_assoc. }
    replace (zlen done_ + 1) with (zlen (done_ ++ [STAR])) by (rewrite zlen_app; done).
    rewrite IH by lia. cbn. by rewrite <-!app_assoc.
Qed.
(** The words [i], [i + 1], ... point to the strings [args], which lie from [p] on. *)
Definition points (i p : Z) (args : list (list Z)) : Prop :=
  forall k a, addresses p args !! k = Some a -> w (i + Z.of_nat k) = a.

Lemma points_cons i p s args : points i p (s :: args) -> w i = p /\ points (i + 1) (p + zlen s + 1) args.
Proof.
  intros H. split; [rewrite <-(Z.add_0_r i); by apply (H 0%nat) |].
  intros k a Hk. rewrite <-(H (S k) a Hk). f_equal. lia.
Qed.

Lemma sanitize_loop fuel av lo pre args off out : points (av + lo) (start_ + zlen pre) args ->
  Forall no_nul args -> Forall (fun s => (length s < fuel)%nat) args ->
  run args_h (for_range lo (length args) (fun i =>
    p <- trigger (Word (av + i)) ;; loop fuel (star_step p) 0)) (tt, im_of (pre ++ flat args) off out) =
  Done tt (tt, im_of (pre ++ flat (map (masked STAR) args)) off out).
Proof.
  revert lo pre. induction args as [| s args IH]; intros lo pre Hp Hn Hl; [done |].
  apply points_cons in Hp as [Hw Hp]. inversion_clear Hn. inversion_clear Hl.
  cbn [length for_range map]. rewrite !run_bind, run_trigger. cbn [args_h obind word im_of]. rewrite Hw.
  rewrite !flat_cons. pose proof (star_loop fuel pre [] s (flat args) off out) as Hs. cbn [app] in Hs.
  rewrite zlen_nil in Hs. rewrite Hs by done. cbn [obind].
  replace (pre ++ masked STAR s ++ 0 :: flat args) with ((pre ++ masked STAR s ++ [0]) ++ flat args)
    by (rewrite <-!app_assoc; done).
  rewrite IH; [| | done..].
  - by rewrite <-!app_assoc.
  - rewrite !zlen_app. replace (zlen (masked STAR s)) with (zlen s) by (unfold masked, zlen; by rewrite length_replicate).
    change (zlen [0]) with 1. rewrite !Z.add_assoc in *. exact Hp.
Qed.

Lemma in_area_first pre s rest off out : in_area (im_of (pre ++ s ++ 0 :: rest) off out) (start_ + zlen pre) = true.
Proof.
  unfold in_area. cbn [start area im_of]. rewrite !zlen_app, zlen_cons. pose proof (zlen_nonneg pre).
  pose proof (zlen_nonneg s). pose proof (zlen_nonneg rest).
  by rewrite (proj2 (Z.leb_le _ _)), (proj2 (Z.ltb_lt _ _)) by lia.
Qed.

(** Overwriting one string. *)
Lemma memset_string pre s rest off out :
  run args_h (trigger (Memset (start_ + zlen pre) QUESTION (zlen s))) (tt, im_of (pre ++ s ++ 0 :: rest) off out) =
  Done tt (tt, im_of (pre ++ masked QUESTION s ++ 0 :: rest) off out).
Proof.
  rewrite run_trigger. cbn [args_h]. destruct s as [| b s]; [done |].
  pose proof (zlen_nonneg pre). pose proof (zlen_nonneg s). pose proof (zlen_nonneg rest).
  rewrite (proj2 (Z.eqb_neq _ 0)) by (rewrite zlen_cons; lia). rewrite in_area_first.
  assert (in_area (im_of (pre ++ (b :: s) ++ 0 :: rest) off out) (start_ + zlen pre + zlen (b :: s) - 1) = true) as ->.
  { unfold in_area. cbn [start area im_of]. rewrite !zlen_app, !zlen_cons.
    by rewrite (proj2 (Z.leb_le _ _)), (proj2 (Z.ltb_lt _ _)) by lia. }
  cbn [andb]. do 2 f_equal. unfold set_area, im_of. cbn [word top start area pos shown_]. f_equal. unfold at_. cbn [start].
  replace (Z.to_nat (start_ + zlen pre - start_)) with (length pre) by (unfold zlen; lia).
  replace (Z.to_nat (start_ + zlen pre + zlen (b :: s) - start_)) with (length pre + length (b :: s))%nat by (unfold zlen; lia).
  rewrite take_app_length, drop_app_add, drop_app_length. unfold masked. f_equal. f_equal. unfold zlen. by rewrite Nat2Z.id.
Qed.

Lemma scrub_words_spec pre args off out : points (top_ - (zlen args + 1)) (start_ + zlen pre) args ->
  Forall no_nul args ->
  run args_h (scrub_words (length args) top_) (tt, im_of (pre ++ flat args) off out) =
  Done tt (tt, im_of (pre ++ flat (map (masked QUESTION) args)) off out).
Proof.
  revert pre. induction args as [| s args IH]; intros pre Hp Hn; [done |].
  apply points_cons in Hp as [Hw Hp]. inversion_clear Hn as [| ? ? Hs Hns].
  cbn [length map]. change (scrub_words (S (length args)) top_) with (
    p <- trigger (Word (top_ - (Z.of_nat (S (length args)) + 1))) ;; len <- trigger (Strlen p) ;;
    trigger (Memset p QUESTION len) ;; scrub_words (length args) top_).
  rewrite run_bind, run_trigger. cbn [args_h obind word im_of].
  change (Z.of_nat (S (length args))) with (zlen (s :: args)). rewrite Hw, run_bind, run_trigger, !flat_cons.
  cbn [args_h]. rewrite in_area_first. cbn [obind].
  replace (at_ (im_of (pre ++ s ++ 0 :: flat args) off out) (start_ + zlen pre)) with (length pre)
    by (unfold at_; cbn [start im_of]; unfold zlen; lia).
  cbn [area im_of]. rewrite drop_app_length, c_str_nul, run_bind by done.
  fold (im_of (pre ++ s ++ 0 :: flat args) off out). rewrite memset_string. cbn [obind].
  replace (pre ++ masked QUESTION s ++ 0 :: flat args) with ((pre ++ masked QUESTION s ++ [0]) ++ flat args)
    by (rewrite <-!app_assoc; done).
  rewrite IH; [by rewrite <-!app_assoc | | done].
  rewrite !zlen_app. replace (zlen (masked QUESTION s)) with (zlen s) by (unfold masked, zlen; by rewrite length_replicate).
  change (zlen [0]) with 1. rewrite zlen_cons, !Z.add_assoc in *.
  replace (top_ - (zlen args + 1)) with (top_ - (1 + zlen args + 1) + 1) by lia. exact Hp.
Qed.
(** *** Counting terminators *)

Definition nuls (l : list Z) : Z := zsum (map (fun b => if b =? 0 then 1 else 0) l).

Lemma nuls_app a b : nuls (a ++ b) = nuls a + nuls b.
Proof. unfold nuls. by rewrite map_app, zsum_app. Qed.

Lemma nuls_flat args : Forall no_nul args -> nuls (flat args) = zlen args.
Proof.
  induction 1 as [| s args Hs _ IH]; [done |]. rewrite flat_cons, nuls_app, zlen_cons, <-IH.
  change (nuls (0 :: flat args)) with (1 + nuls (flat args)).
  assert (nuls s = 0) as -> by (induction Hs as [| b s Hb _ IHs]; [done |]; unfold nuls in *; cbn;
    rewrite (proj2 (Z.eqb_neq b 0)), IHs by done; done). lia.
Qed.

(** The loop counts positions 1 to [n]. *)
Lemma count_nuls_spec buf n c : (n < length buf)%nat ->
  count_nuls buf n c = Some (c + nuls (take n (drop 1 buf))).
Proof.
  revert c. induction n as [| n IH]; intros c Hn; [cbn [count_nuls take]; change (nuls []) with 0; by rewrite Z.add_0_r |].
  cbn [count_nuls]. destruct (lookup_lt_is_Some_2 buf (S n) Hn) as [b Hb]. rewrite Hb, IH by lia. f_equal.
  rewrite (take_S_r (drop 1 buf) n b) by (by rewrite lookup_drop). rewrite nuls_app.
  change (nuls [b]) with ((if b =? 0 then 1 else 0) + 0). destruct (b =? 0); lia.
Qed.

Lemma count_nuls_out buf n c : (0 < n)%nat -> (length buf <= n)%nat -> count_nuls buf n c = None.
Proof. intros H0 Hn. destruct n as [| n]; [lia |]. cbn [count_nuls]. by rewrite lookup_ge_None_2 by lia. Qed.

(** Behind the last byte read lies a zero that was never overwritten; the first byte is not counted. *)
Lemma count_cmdline b data z : zlen (b :: data) < CHUNK ->
  z = replicate (Z.to_nat CHUNK) 0 ->
  count_nuls ((b :: data) ++ drop (length (b :: data)) z) (length (b :: data)) 0 =
  Some (nuls (b :: data) + (if b =? 0 then 0 else 1)).
Proof.
  intros Hl ->. unfold zlen, CHUNK in *. rewrite count_nuls_spec.
  - cbn [app]. rewrite skipn_cons, drop_0. cbn [length]. rewrite take_app_ge by (cbn; lia).
    replace (S (length data) - length data)%nat with 1%nat by lia.
    rewrite drop_replicate. change (Z.to_nat 1024) with 1024%nat. cbn [length] in *.
    destruct (1024 - S (length data))%nat eqn:E; [lia |]. cbn [replicate firstn]. rewrite take_0, nuls_app.
    change (nuls (b :: data)) with ((if b =? 0 then 1 else 0) + nuls data). change (nuls [0]) with 1.
    destruct (b =? 0); f_equal; lia.
  - rewrite length_app, length_drop, length_replicate. change (Z.to_nat 1024) with 1024%nat. lia.
Qed.
(** *** The library that is also a program *)

Definition spaced (l : list Z) : list Z := map (fun b => if b =? 0 then SPACE else b) l.

(** The file is shorter than a buffer: one read gives it all, the next gives nothing. *)
Lemma read_first {A} fd area out (k : option (list Z) -> argM A) : zlen area < CHUNK ->
  run args_h (r <- trigger (Read fd CHUNK) ;; k r) (tt, im_of area 0 out) =
  run args_h (k (Some area)) (tt, im_of area (zlen area) out).
Proof.
  intros Hl. unfold zlen, CHUNK in *. rewrite run_bind, run_trigger. cbn [args_h obind pos im_of Args.area].
  change (Z.to_nat 0) with 0%nat. rewrite drop_0, take_ge by lia. done.
Qed.

Lemma read_second {A} fd area out (k : option (list Z) -> argM A) :
  run args_h (r <- trigger (Read fd CHUNK) ;; k r) (tt, im_of area (zlen area) out) =
  run args_h (k (Some [])) (tt, im_of area (zlen area) out).
Proof.
  unfold zlen. rewrite run_bind, run_trigger. cbn [args_h obind pos im_of Args.area].
  rewrite Nat2Z.id, drop_all, take_nil. cbn [zlen length Z.of_nat obind]. unfold im_of. cbn [word top start Args.area shown_].
  by rewrite zlen_nil, Z.add_0_r.
Qed.

Lemma read_cmdline_spec fuel area out pos0 : zlen area < CHUNK ->
  exists pos1, run args_h (read_cmdline (S (S fuel))) (tt, im_of area pos0 out) =
    Done tt (tt, im_of area pos1 (out ++ spaced area ++ [10])).
Proof.
  intros Hl. exists (zlen area). unfold read_cmdline. rewrite run_bind, run_trigger. cbn [args_h obind].
  change (MkImage _ _ _ _ 0 _) with (im_of area 0 out). cbn [loop]. rewrite run_bind.
  rewrite run_bind, (read_first 3 area out) by done. destruct area as [| b area].
  - cbn. done.
  - cbn [bind]. rewrite (run_bind args_h (trigger (Write _ _))), run_trigger. cbn [args_h obind run].
    change (MkImage _ _ _ _ _ _) with (im_of (b :: area) (zlen (b :: area)) (out ++ spaced (b :: area))).
    rewrite run_bind, read_second. cbn. by rewrite <-app_assoc.
Qed.

Lemma scrub_spec fuel args out pos0 : zlen (flat args) < CHUNK -> Forall no_nul args ->
  points (top_ - (zlen args + 1)) start_ args ->
  exists pos1, run args_h (scrub_args (S (S fuel))) (tt, im_of (flat args) pos0 out) =
    Done tt (tt, im_of (flat (map (masked QUESTION) args)) pos1 out).
Proof.
  intros Hl Hn Hp. exists (zlen (flat args)). unfold scrub_args. rewrite run_bind, run_trigger. cbn [args_h obind top im_of].
  rewrite run_bind, run_trigger. cbn [args_h obind]. change (MkImage _ _ _ _ 0 _) with (im_of (flat args) 0 out).
  cbn [loop]. rewrite !run_bind. unfold scrub_turn at 1. cbn [snd fst]. rewrite read_first by done.
  destruct (flat args) as [| b data] eqn:Hf.
  - destruct args as [| s args]; [cbn; done |]. rewrite flat_cons in Hf. by destruct s.
  - rewrite count_cmdline by done. cbn [run obind]. rewrite run_bind. unfold scrub_turn at 1. rewrite read_second. cbn [run obind snd].
    rewrite <-Hf, nuls_flat by done.
    assert (run args_h (scrub_words (Z.to_nat (zlen args + (if b =? 0 then 0 else 1) - 1)) top_)
      (tt, im_of (flat args) (zlen (flat args)) out) =
      Done tt (tt, im_of (flat (map (masked QUESTION) args)) (zlen (flat args)) out)) as Hw.
    { destruct (b =? 0) eqn:Eb; zbool.
      - destruct args as [| s args]; [done |]. rewrite flat_cons in Hf. inversion_clear Hn as [| ? ? Hs Hns].
        destruct s as [| b' s]; [| inversion Hs; subst; by simplify_eq/=].
        replace (Z.to_nat (zlen ([] :: args) + 0 - 1)) with (length args) by (rewrite zlen_cons; unfold zlen; lia).
        rewrite zlen_cons in Hp. apply points_cons in Hp as [_ Hp].
        apply (scrub_words_spec [0]); [| done].
        replace (top_ - (zlen args + 1)) with (top_ - (1 + zlen args + 1) + 1) by lia.
        rewrite zlen_nil, Z.add_0_r in Hp. exact Hp.
      - replace (Z.to_nat (zlen args + 1 - 1)) with (length args) by (unfold zlen; lia).
        apply (scrub_words_spec []); [| done]. by rewrite zlen_nil, Z.add_0_r. }
    by rewrite run_bind, Hw.
Qed.
(** The whole image as the kernel lays it out. *)
Definition started (args : list (list Z)) : Prop :=
  layout w base (addresses start_ args) /\ top_ = base + 2 + zlen args /\ 1024 <= start_ /\ Forall no_nul args.

Lemma addresses_high p args : 1024 <= p -> high (addresses p args).
Proof.
  revert p. induction args as [| s args IH]; intros p Hp; constructor; [done |]. apply IH.
  pose proof (zlen_nonneg s). lia.
Qed.

Lemma started_points args : started args -> points (base + 1) start_ args /\ zlen (addresses start_ args) = zlen args.
Proof.
  intros ((_ & Hp & _) & _). split; [exact Hp |]. unfold zlen. by rewrite addresses_length.
Qed.

(** The arguments are found and sanitized: the first stays, every byte of the others becomes a star, all
    terminators and lengths stay as they are, and nothing else is touched. *)
Theorem sanitized a0 args fuel pos0 out : started (a0 :: args) -> zlen (a0 :: args) < 1024 ->
  Forall (fun s => (length s < fuel)%nat) args ->
  run args_h (a <- get_args ;; sanitize_args fuel a) (tt, im_of (flat (a0 :: args)) pos0 out) =
  Done tt (tt, im_of (flat (a0 :: map (masked STAR) args)) pos0 out).
Proof.
  intros Hs Hn Hf. destruct (started_points _ Hs) as [Hp Hz]. destruct Hs as (Hl & Ht & H1024 & Hnul).
  pose proof (find_argc_spec w base _ (im_of (flat (a0 :: args)) pos0 out) 1024 0 Hl
    (addresses_high _ _ H1024) eq_refl) as Hfind. rewrite Hz in Hfind.
  pose proof (zlen_nonneg (a0 :: args)). specialize (Hfind ltac:(lia) ltac:(lia)).
  rewrite Z.sub_0_r, Z.add_0_l in Hfind. change (Z.of_nat 1024) with 1024 in Hfind.
  rewrite (proj2 (Z.ltb_lt _ _)) in Hfind by done.
  unfold get_args. rewrite !run_bind, run_trigger. cbn [args_h obind top im_of]. rewrite Ht.
  replace (base + 2 + zlen (a0 :: args) - 1) with (base + 1 + zlen (a0 :: args)) by lia.
  rewrite run_bind, Hfind. cbn [obind run default fst from_option]. unfold sanitize_args. cbn [id argc argv].
  apply points_cons in Hp as [_ Hp]. inversion_clear Hnul. rewrite zlen_cons.
  replace (Z.to_nat (1 + zlen args - 1)) with (length args) by (unfold zlen; lia).
  rewrite !flat_cons. pose proof (sanitize_loop fuel (base + 1) 1 (a0 ++ [0]) args pos0 out) as Hloop.
  rewrite <-!app_assoc in Hloop. cbn [app] in Hloop. apply Hloop; [| done..].
  rewrite zlen_app. change (zlen [0]) with 1. by rewrite Z.add_assoc.
Qed.

(** C38. The shared library that is run as a program shows its command line, hides it and shows it again: with less than 1024 bytes, every
    byte of every argument, the first included, has become a question mark. The count of terminators is one too high, which
    makes up for the null pointer behind the arguments. From 1024 bytes on the count reads behind
    the buffer. *)
Theorem command_line_hidden args fuel pos0 out : started args ->
  (zlen (flat args) < CHUNK ->
    exists pos1, run args_h (mymain (S (S fuel))) (tt, im_of (flat args) pos0 out) =
    Stopped (Exited 0) (tt, im_of (flat (map (masked QUESTION) args)) pos1
      (out ++ spaced (flat args) ++ [10] ++ spaced (flat (map (masked QUESTION) args)) ++ [10]))) /\
  (CHUNK <= zlen (flat args) ->
    exists s, run args_h (scrub_args (S (S fuel))) (tt, im_of (flat args) pos0 out) = Stopped Undefined s).
Proof.
  intros Hs. destruct (started_points _ Hs) as [Hp Hz]. destruct Hs as (_ & Ht & _ & Hnul). split; intros Hl.
  - unfold mymain. rewrite run_bind, run_trigger. cbn [args_h obind]. rewrite run_bind.
    destruct (read_cmdline_spec fuel (flat args) out pos0 Hl) as [p1 ->]. cbn [obind].
    rewrite run_bind, run_trigger. cbn [args_h obind]. rewrite run_bind.
    destruct (scrub_spec fuel args (out ++ spaced (flat args) ++ [10]) p1 Hl Hnul) as [p2 ->].
    { replace (top_ - (zlen args + 1)) with (base + 1) by lia. exact Hp. }
    cbn [obind]. rewrite run_bind.
    destruct (read_cmdline_spec fuel (flat (map (masked QUESTION) args)) (out ++ spaced (flat args) ++ [10]) p2) as [p3 ->];
      [by rewrite zlen_flat_masked |].
    exists p3. cbn [obind run trigger bind args_h]. by rewrite <-!app_assoc.
  - unfold scrub_args. rewrite run_bind, run_trigger. cbn [args_h obind]. rewrite run_bind, run_trigger. cbn [args_h obind].
    cbn [loop]. rewrite !run_bind. unfold scrub_turn at 1. rewrite run_bind, run_trigger.
    cbn [args_h obind Args.pos Args.area im_of]. change (Z.to_nat 0) with 0%nat. rewrite drop_0. unfold CHUNK, zlen in *.
    destruct (take (Z.to_nat 1024) (flat args)) as [| b data] eqn:E.
    { apply (f_equal length) in E. rewrite length_take in E. cbn [length] in E. lia. }
    pose proof (f_equal length E) as E'. rewrite length_take in E'. cbn [snd fst].
    rewrite drop_ge by (rewrite length_replicate; lia). rewrite app_nil_r.
    rewrite count_nuls_out by (cbn [length]; lia). by eexists.
Qed.
End Hide.

(** [ls -l], with the count at word 10 and the strings from 5000 on. *)
Definition demo_args : list (list Z) := [bytes_of "ls"; bytes_of "-l"].
Definition demo_word (i : Z) : Z := if i =? 10 then 2 else if i =? 11 then 5000 else if i =? 12 then 5003 else 0.

Lemma demo_started : started demo_word 14 5000 10 demo_args.
Proof.
  split; [split; [done | split; [| done]] |].
  - intros [| [| i]] a Hi; by simplify_eq/=.
  - split; [done | split; [lia |]]. repeat constructor; done.
Qed.

Lemma arguments_found_witness :
  run args_h get_args (tt, im_of demo_word 14 5000 (flat demo_args) 0 []) =
    Done (MkArgs 2 11) (tt, im_of demo_word 14 5000 (flat demo_args) 0 []) /\
  run args_h (r <- get_argc (MkState false 0 NULL) ;; get_argv (MkState true r.1 (this_argv r.2)) 1)
    (tt, im_of demo_word 14 5000 (flat demo_args) 0 []) = Done 5003 (tt, im_of demo_word 14 5000 (flat demo_args) 0 []).
Proof.
  apply (arguments_found demo_word 10 [5000; 5003] (im_of demo_word 14 5000 (flat demo_args) 0 []) 1).
  - apply demo_started.
  - repeat constructor; lia.
  - reflexivity.
  - reflexivity.
Defined.

Lemma sanitized_witness :
  run args_h (a <- get_args ;; sanitize_args 3 a) (tt, im_of demo_word 14 5000 (flat demo_args) 0 []) =
  Done tt (tt, im_of demo_word 14 5000 (bytes_of "ls" ++ [0] ++ bytes_of "**" ++ [0]) 0 []).
Proof.
  apply (sanitized demo_word 14 5000 10 (bytes_of "ls") [bytes_of "-l"] 3 0 []).
  - apply demo_started.
  - reflexivity.
  - repeat constructor; cbn; lia.
Defined.

Lemma command_line_hidden_witness : exists pos1,
  run args_h (mymain 5) (tt, im_of demo_word 14 5000 (flat demo_args) 0 []) =
  Stopped (Exited 0) (tt, im_of demo_word 14 5000 (bytes_of "??" ++ [0] ++ bytes_of "??" ++ [0]) pos1
    (bytes_of "ls -l " ++ [10] ++ bytes_of "?? ?? " ++ [10])).
Proof. apply (command_line_hidden demo_word 14 5000 10 demo_args 3 0 [] demo_started). reflexivity. Defined.
