(* ===== verification/Skimmer.v ===== *)
(** * skimmer: where the lines of a file end

    [src/skimmer/skimmer.c]: maps a file and prints, for every newline, the number of the line, the offset, and the
    offset in pages. *)
From stdpp Require Import base gmap list strings.
From Stdlib Require Import ZArith Lia.
From S2P Require Import Prelude Prog Sys.

Inductive skE : Type -> Type :=
| Eprintf (s : string) : skE unit
| Perror (s : string) : skE unit
| Open (path : string) : skE Z
| Fstat (fd : Z) : skE (option Z)                  (* the size *)
| Mmap (len fd : Z) : skE (option (list Z))        (* the bytes, unless it fails *)
| Close (fd : Z) : skE unit
| Header (names : list string) : skE unit          (* a row of column names *)
| Row (cells : list Z) : skE unit                  (* a row of numbers, each ten wide *)
| Munmap : skE unit.

Abbreviation skM := (prog skE).

Definition NEWLINE : Z := 10.
Definition PAGE : Z := 4096.

(** The loop: [n] bytes are left, from [byte_offset] on; a byte outside the mapping cannot be read. *)
Fixpoint skim (data : list Z) (n : nat) (line byte_offset : Z) : skM unit :=
  match n with
  | O => Ret tt
  | S m =>
      match znth data byte_offset with
      | None => Halt Undefined
      | Some b =>
          if b =? NEWLINE
          then trigger (Row [line; byte_offset; byte_offset mod PAGE; byte_offset / PAGE]) ;;
               skim data m (u64 (line + 1)) (byte_offset + 1)
          else skim data m line (byte_offset + 1)
      end
  end.

(** [args] are [argv[1]] and on. *)
Definition main (args : list string) : skM Z :=
  match args with
  | [file_path] =>
      fd <- trigger (Open file_path) ;;
      if fd =? -1 then trigger (Perror "Error opening file") ;; Ret 1
      else
      st <- trigger (Fstat fd) ;;
      match st with
      | None => trigger (Perror "Error stating file") ;; Ret 1
      | Some st_size =>
          m <- trigger (Mmap st_size fd) ;;
          match m with
          | None => trigger (Perror "Error mapping file") ;; Ret 1
          | Some data =>
              trigger (Close fd) ;;
              trigger (Header ["Line"; "Byte"; "Page off."; "Page"]%string) ;;
              skim data (Z.to_nat st_size) 1 0 ;;
              trigger Munmap ;;
              Ret 0
          end
      end
  | _ => trigger (Eprintf "Usage: ") ;; Ret 1
  end.

(** ** What is printed *)

(** How many lines end before [off]. *)
Definition ends_before (data : list Z) (off : Z) : Z :=
  zlen (filter (fun b => b = NEWLINE) (take (Z.to_nat off) data)).

(** The row for the newline at [off]. *)
Definition row_at (data : list Z) (off : Z) : list Z :=
  [1 + ends_before data off; off; off mod PAGE; off / PAGE].

(** The offsets of the newlines, in order. *)
Definition newlines (data : list Z) : list Z :=
  filter (fun i => data !! Z.to_nat i = Some NEWLINE) (seqZ 0 (zlen data)).

Definition shown_of (e : event skE) : list (list Z) :=
  match e with existT _ (f, _) => match f with Row c => [c] | _ => [] end end.
Definition shown (tr : list (event skE)) : list (list Z) := flat_map shown_of tr.

(** The kernel's part: an open file has a size that is not negative, an empty file cannot be mapped, any other
    mapping gives the bytes of the file. *)
Definition mapping (file : list Z) (R : Type) (e : skE R) : R -> Prop :=
  match e in skE R return R -> Prop with
  | Fstat _ => fun r => forall n, r = Some n -> n = zlen file
  | Mmap len _ => fun r => (len = 0 -> r = None) /\ forall data, r = Some data -> data = file
  | _ => fun _ => True
  end.

Lemma ends_before_snoc data off b : 0 <= off -> znth data off = Some b ->
  ends_before data (off + 1) = ends_before data off + (if b =? NEWLINE then 1 else 0).
Proof.
  intros H0 Hb. unfold znth in Hb. rewrite (proj2 (Z.leb_le 0 off)) in Hb by done. unfold ends_before.
  replace (Z.to_nat (off + 1)) with (S (Z.to_nat off)) by lia. rewrite (take_S_r _ _ _ Hb), filter_app, zlen_app.
  f_equal. rewrite filter_cons. destruct (b =? NEWLINE) eqn:E; zbool.
  - subst b. by rewrite decide_True by done.
  - by rewrite decide_False by done.
Qed.

Lemma skim_spec A data n off : 0 <= off -> off + Z.of_nat n = zlen data -> zlen data < 2 ^ 63 ->
  always A nothing (skim data n (1 + ends_before data off) off)
    (fun _ tr => shown tr = map (row_at data)
      (filter (fun i => data !! Z.to_nat i = Some NEWLINE) (seqZ off (Z.of_nat n)))).
Proof.
  revert off. induction n as [| n IH]; intros off H0 Hn H63; [done |].
  cbn [skim]. destruct (lookup_lt_is_Some_2 data (Z.to_nat off)) as [b Hb]; [unfold zlen in *; lia |].
  assert (znth data off = Some b) as Hz by (unfold znth; by rewrite (proj2 (Z.leb_le 0 off))).
  rewrite Hz, Nat2Z.inj_succ, seqZ_cons by lia. rewrite Z.pred_succ. change (Z.succ off) with (off + 1).
  pose proof (ends_before_snoc data off b H0 Hz) as He. rewrite filter_cons.
  assert (ends_before data off < 2 ^ 63) as Hlt.
  { unfold ends_before, zlen in *. pose proof (length_filter (fun b => b = NEWLINE) (take (Z.to_nat off) data)).
    rewrite length_take in *. lia. }
  assert (0 <= ends_before data off) by apply zlen_nonneg.
  destruct (b =? NEWLINE) eqn:Eb; zbool.
  - subst b. rewrite decide_True by done. intros [] _. cbn [bind].
    rewrite wrap_small by lia. replace (1 + ends_before data off + 1) with (1 + ends_before data (off + 1)) by lia.
    eapply always_mono; [apply IH; lia |]. intros [] tr Htr. cbn. by rewrite <-Htr.
  - rewrite decide_False by (rewrite Hb; congruence). rewrite Z.add_0_r in He. rewrite <-He.
    eapply always_mono; [apply IH; lia |]. by intros [] tr Htr.
Qed.

(** The program prints one row for every newline of the file, in their order: which line it ends, its offset, and the offset
    split into page and rest. It returns 0 exactly when the file was mapped; an empty file
    never is. *)
Theorem skimmed file path : zlen file < 2 ^ 63 ->
  always (mapping file) nothing (main [path]) (fun r tr =>
    (r = 0 /\ file <> [] /\ shown tr = map (row_at file) (newlines file)) \/ (r = 1 /\ shown tr = [])).
Proof.
  intros H63 fd _. cbn [bind]. destruct (fd =? -1); [intros [] _; by right |].
  intros st Hst. cbn in Hst. cbn [bind]. destruct st as [n |]; [| intros [] _; by right].
  rewrite (Hst n eq_refl). intros m [Hm0 Hm]. cbn [bind]. destruct m as [data |]; [| intros [] _; by right].
  pose proof (Hm data eq_refl) as ->. intros [] _ [] _. cbn [bind].
  eapply always_bind; [apply (skim_spec _ _ _ 0); [done | unfold zlen; lia | done] |].
  intros [] tr Htr [] _. left. split; [done |]. split; [intros ->; by specialize (Hm0 eq_refl) |].
  unfold shown in *. cbn. rewrite flat_map_app, Htr. cbn. rewrite app_nil_r. unfold newlines.
  f_equal. f_equal. f_equal. unfold zlen. lia.
Qed.

Lemma skimmed_witness : always (mapping [104; 105; 10; 10]) nothing (main ["notes"%string])
  (fun r tr => r = 0 -> shown tr = [[1; 2; 2; 0]; [2; 3; 3; 0]]).
Proof.
  eapply always_mono; [apply (skimmed [104; 105; 10; 10] "notes"); vm_compute; reflexivity |].
  intros r tr [(_ & _ & H) | [-> _]] Hr; [exact H | discriminate].
Defined.
