(* ===== verification/Split.v ===== *)
(** * cxx20_split_with_ranges: splitting and trimming in place

    [src/cxx20_split_with_ranges/split.cpp]: a string is split at semicolons by the ranges library, and each piece is
    trimmed by moving two pointers into the string. Pointers are positions in the string and its terminator. *)
From stdpp Require Import base gmap list strings.
From Stdlib Require Import ZArith Lia.
From S2P Require Import Prelude Prog Sys.

Definition SEMICOLON : Z := 59.

(** [isspace] in the C locale. *)
Definition isspace (b : Z) : bool := (b =? 32) || ((9 <=? b) && (b <=? 13)).

(** [std::views::split]: the pieces as pairs of positions, the end of each on its delimiter or on the terminator; [b] is where
    the current piece began, [i] where the view stands. *)
Fixpoint split_from (d : Z) (s : list Z) (b i : nat) : list (nat * nat) :=
  match s with
  | [] => [(b, i)]
  | c :: s' => if c =? d then (b, i) :: split_from d s' (S i) (S i) else split_from d s' b (S i)
  end.

Definition split (d : Z) (s : list Z) : list (nat * nat) :=
  match s with [] => [] | _ => split_from d s 0 0 end.

(** [while (isspace( *start)) ++start]; [None] when the pointer leaves the string. *)
Fixpoint skip_forward (fuel : nat) (text : list Z) (start : nat) : option nat :=
  match fuel with
  | O => None
  | S n => c ← text !! start; if isspace c then skip_forward n text (S start) else Some start
  end.

(** [while (isspace( *end)) --end]. *)
Fixpoint skip_backward (text : list Z) (end_ : nat) : option nat :=
  c ← text !! end_;
  if isspace c then match end_ with O => None | S e => skip_backward text e end else Some end_.

(** The lambda: the characters of the view it returns. *)
Definition range_to_trimmed_sv (s : list Z) (rng : nat * nat) : option (list Z) :=
  let text := s ++ [0] in
  start ← skip_forward (S (length s)) text rng.1;
  end_ ← skip_backward text rng.2;
  if bool_decide (start <= end_)%nat then Some (take (end_ - start) (drop start s)) else None.

Definition shown (el : list Z) : list Z := match el with [] => bytes_of "Empty!" | _ => el end.

(** The loop over the view: the lines it prints. *)
Definition run_split (s : list Z) : option (list (list Z)) :=
  mapM (fun rng => el ← range_to_trimmed_sv s rng; Some (shown el)) (split SEMICOLON s).

Definition main : option (list (list Z)) :=
  run_split (bytes_of "key1=val1;key2=val2; key3=val3 ; key4=val4 ;; key5==val5").

(** ** What the pieces are *)

(** The pieces as texts. *)
Fixpoint pieces (d : Z) (s : list Z) : list (list Z) :=
  match s with
  | [] => [[]]
  | c :: s' =>
      if c =? d then [] :: pieces d s'
      else match pieces d s' with p :: ps => (c :: p) :: ps | [] => [[c]] end
  end.

Fixpoint drop_spaces (l : list Z) : list Z :=
  match l with
  | [] => []
  | c :: l' => if isspace c then drop_spaces l' else l
  end.

Lemma skip_forward_spec fuel pre p c rest : isspace c = false -> (length p < fuel)%nat ->
  skip_forward fuel (pre ++ p ++ c :: rest) (length pre) =
  Some (length pre + (length p - length (drop_spaces p)))%nat.
Proof.
  intros Hc. revert fuel pre. induction p as [| x p IH]; intros [| fuel] pre Hf; cbn [length] in Hf; [lia | | lia |]; cbn.
  - rewrite lookup_app_r, Nat.sub_diag by lia. cbn. rewrite Hc. f_equal. lia.
  - rewrite lookup_app_r, Nat.sub_diag by lia. cbn. destruct (isspace x); [| f_equal; cbn; lia].
    replace (pre ++ x :: p ++ c :: rest) with ((pre ++ [x]) ++ p ++ c :: rest) by (by rewrite <-app_assoc).
    replace (S (length pre)) with (length (pre ++ [x])) by (rewrite length_app; cbn; lia).
    rewrite IH by lia. f_equal. rewrite length_app. cbn.
    assert (length (drop_spaces p) <= length p)%nat; [| lia].
    clear. induction p as [| y p IH]; cbn; [lia |]. destruct (isspace y); cbn; lia.
Qed.

(** The character at the end is never a space: nothing is trimmed there. *)
Lemma skip_backward_stays text e c : text !! e = Some c -> isspace c = false -> skip_backward text e = Some e.
Proof. intros He Hc. destruct e; cbn; rewrite He; cbn; by rewrite Hc. Qed.

Lemma drop_spaces_suffix p : p = take (length p - length (drop_spaces p)) p ++ drop_spaces p.
Proof.
  assert (forall l, (length (drop_spaces l) <= length l)%nat) as Hle
    by (intros l; induction l as [| y l IH]; cbn; [lia | destruct (isspace y); cbn; lia]).
  induction p as [| x p IH]; [done |]. cbn. destruct (isspace x).
  - pose proof (Hle p). replace (S (length p) - length (drop_spaces p))%nat with
      (S (length p - length (drop_spaces p))) by lia. cbn. by f_equal.
  - by rewrite Nat.sub_diag.
Qed.

Lemma trimmed_piece pre p c rest s : s ++ [0] = pre ++ p ++ c :: rest -> isspace c = false ->
  range_to_trimmed_sv s (length pre, length pre + length p)%nat = Some (drop_spaces p).
Proof.
  intros Hs Hc. unfold range_to_trimmed_sv. cbn [fst snd]. rewrite Hs.
  pose proof (f_equal length Hs) as Hl. rewrite !length_app in Hl. cbn [length] in Hl.
  rewrite skip_forward_spec by (done || lia). cbn [mbind option_bind].
  rewrite (skip_backward_stays _ _ c); [| | done].
  2: { rewrite app_assoc, lookup_app_r by (rewrite length_app; lia). rewrite length_app, Nat.sub_diag. done. }
  cbn [mbind option_bind]. pose proof (drop_spaces_suffix p) as Hp. pose proof (f_equal length Hp) as Hpl.
  rewrite length_app, length_take in Hpl. rewrite bool_decide_eq_true_2 by lia. f_equal.
  assert (take (length pre + length p) s = pre ++ p) as Ht.
  { rewrite <-(take_app_le s [0]) by lia. rewrite Hs, app_assoc. apply take_app_length'. by rewrite length_app. }
  rewrite take_drop_commute.
  replace (length pre + (length p - length (drop_spaces p)) +
    (length pre + length p - (length pre + (length p - length (drop_spaces p)))))%nat
    with (length pre + length p)%nat by lia.
  rewrite Ht, drop_app_add. rewrite Hp at 3. rewrite drop_app_length'; [done |]. rewrite length_take. lia.
Qed.

Lemma split_from_spec s rest : forall pre p, s = pre ++ p ++ rest ->
  mapM (fun rng => el ← range_to_trimmed_sv s rng; Some (shown el))
    (split_from SEMICOLON rest (length pre) (length pre + length p)) =
  Some (match pieces SEMICOLON rest with
        | q :: qs => map (fun l => shown (drop_spaces l)) ((p ++ q) :: qs)
        | [] => []
        end).
Proof.
  induction rest as [| c rest IH]; intros pre p Hs.
  - cbn [split_from mapM pieces]. rewrite (trimmed_piece pre p 0 []) by (done || by rewrite Hs, app_nil_r, <-app_assoc).
    cbn. by rewrite app_nil_r.
  - cbn [split_from pieces]. destruct (c =? SEMICOLON) eqn:E; zbool.
    + subst c. cbn [mapM]. rewrite (trimmed_piece pre p SEMICOLON (rest ++ [0]))
        by (done || by rewrite Hs, <-!app_assoc).
      cbn [mbind option_bind]. specialize (IH (pre ++ p ++ [SEMICOLON]) []).
      rewrite Nat.add_0_r, !length_app in IH. cbn [length] in IH.
      replace (S (length pre + length p)) with (length pre + (length p + 1))%nat by lia.
      rewrite IH by (by rewrite Hs, <-!app_assoc). cbn. rewrite app_nil_r.
      by destruct (pieces SEMICOLON rest).
    + specialize (IH pre (p ++ [c])). rewrite length_app in IH. cbn [length] in IH.
      replace (S (length pre + length p)) with (length pre + (length p + 1))%nat by lia.
      rewrite IH by (by rewrite Hs, <-!app_assoc). destruct (pieces SEMICOLON rest) as [| q qs] eqn:Ep.
      * destruct rest; cbn in Ep; [done |]. case_match; [done | by destruct (pieces _ _)].
      * by rewrite <-app_assoc.
Qed.

(** C39. For every string but the empty one, which has no pieces, the program prints its pieces, one a line, without the spaces in
    front of them. Spaces behind a piece stay: the pointer that should step back over them starts on the delimiter,
    which is no space. No access leaves the string and its terminator. *)
Theorem split_trims_front s : s <> [] ->
  run_split s = Some (map (fun l => shown (drop_spaces l)) (pieces SEMICOLON s)).
Proof.
  intros Hs. unfold run_split, split. destruct s as [| c s]; [done |].
  pose proof (split_from_spec (c :: s) (c :: s) [] [] eq_refl) as H. cbn [length Nat.add app] in H. rewrite H.
  by destruct (pieces SEMICOLON (c :: s)) eqn:E.
Qed.

Lemma split_trims_front_witness : main = Some (map bytes_of
  ["key1=val1"; "key2=val2"; "key3=val3 "; "key4=val4 "; "Empty!"; "key5==val5"]%string).
Proof.
  unfold main. rewrite (split_trims_front (bytes_of "key1=val1;key2=val2; key3=val3 ; key4=val4 ;; key5==val5"));
    [reflexivity | discriminate].
Defined.
