(* ===== verification/OwnFile.v ===== *)
(** * sofile_with_main: a shared library that runs itself

    [src/sofile_with_main/main.c]: [foo] looks in /proc/self/maps for the file its own code was mapped from, and executes
    it. Lines are bytes. *)
From stdpp Require Import base gmap list strings.
From Stdlib Require Import ZArith Lia.
From S2P Require Import Prelude Prog Sys Text.

Definition SPACE : Z := 32.
Definition NEWLINE : Z := 10.
Definition MINUS : Z := 45.

Inductive ownE : Type -> Type :=
| Fopen : ownE Z                                   (* of /proc/self/maps *)
| Fgets (n fp : Z) : ownE (option (list Z))
| Execl (file : list Z) : ownE Z                   (* only failure returns *)
| Perror (s : string) : ownE unit
| Printf (text : list Z) : ownE unit.

Abbreviation ownM := (prog ownE).

(** *** %lx *)

(** Space, a sign, a prefix 0x and digits; a number that is too large gives the largest. *)
Definition scan_hex (s : list Z) : option (Z * list Z) :=
  let s := skip_space s in
  let '(neg, s) := match s with
                   | b :: s' => if b =? 45 then (true, s') else if b =? 43 then (false, s') else (false, s)
                   | [] => (false, s)
                   end in
  let s := match s with
           | z :: x :: s' => if (z =? 48) && ((x =? 120) || (x =? 88)) then s' else s
           | _ => s
           end in
  let '(n, v, rest) := hex_digits s 0 0 in
  match n with
  | O => None
  | _ => let v := if 2 ^ 64 <=? v then 2 ^ 64 - 1 else if (neg : bool) then u64 (- v) else v in
         Some (v, rest)
  end.

(** [sscanf(line, "%lx-%lx", &start, &end)] where both are needed afterwards; [None] when one keeps its indeterminate value. *)
Definition scan_range (line : list Z) : option (Z * Z) :=
  match scan_hex line with
  | Some (start, m :: rest) =>
      if m =? MINUS then match scan_hex rest with Some (end_, _) => Some (start, end_) | None => None end
      else None
  | _ => None
  end.

(** [1 + strrchr(s, c)], if there is one. *)
Fixpoint after_last (c : Z) (s : list Z) : option (list Z) :=
  match s with
  | [] => None
  | b :: s' => match after_last c s' with
               | Some r => Some r
               | None => if b =? c then Some s' else None
               end
  end.

(** The string cut at the first [c]. *)
Fixpoint before_first (c : Z) (s : list Z) : option (list Z) :=
  match s with
  | [] => None
  | b :: s' => if b =? c then Some [] else r ← before_first c s'; Some (b :: r)
  end.

(** One turn of the loop; [addr] is the address of [foo]. *)
Definition maps_turn (addr fp : Z) (_ : unit) : ownM (unit + list Z) :=
  l <- trigger (Fgets 256 fp) ;;
  match l with
  | None => Ret (inr [])
  | Some l =>
      let line := c_str l in
      match scan_range line with
      | None => Halt Undefined
      | Some (start, end_) =>
          if (start <=? addr) && (addr <? end_)
          then
            match after_last SPACE line with
            | None => Halt Undefined
            | Some file =>
                match before_first NEWLINE file with
                | None => Halt (Signaled 11)
                | Some file => Ret (inr file)
                end
            end
          else Ret (inl tt)
      end
  end.

Definition foo (fuel : nat) (addr : Z) : ownM unit :=
  maps <- trigger Fopen ;;
  file <- loop fuel (maps_turn addr maps) tt ;;
  r <- trigger (Execl file) ;;
  if r =? -1 then trigger (Perror "execve") else Ret tt.

(** The entry point when the library is executed. Nothing flushes the buffer. *)
Definition start : ownM unit :=
  trigger (Printf (bytes_of "Hello, World!" ++ [NEWLINE])) ;;
  Halt (Exited 0).

(** [caller.c]. *)
Definition caller_main (fuel : nat) (addr : Z) : ownM Z := foo fuel addr ;; Ret 0.

(** ** The file of mappings *)

(** A line: two numbers in hexadecimal, what stands between them and the path, the path. *)
Record mapping := MkMapping { lo : list Z; hi : list Z; middle : list Z; path : list Z }.

Definition line_of (m : mapping) : list Z := lo m ++ [MINUS] ++ hi m ++ [SPACE] ++ middle m ++ [SPACE] ++ path m ++ [NEWLINE].

Definition number (ds : list Z) : Prop := ds <> [] /\ Forall (fun b => hexval b <> None) ds /\ value16 ds < 2 ^ 64.

Definition plain (s : list Z) : Prop := Forall (fun b => b <> 0 /\ b <> NEWLINE) s.

Definition well_formed (m : mapping) : Prop :=
  number (lo m) /\ number (hi m) /\ plain (middle m) /\ plain (path m).

Definition covers (addr : Z) (m : mapping) : bool := (value16 (lo m) <=? addr) && (addr <? value16 (hi m)).

(** The path from behind its last space on. *)
Definition last_word (p : list Z) : list Z := default p (after_last SPACE p).

Lemma scan_hex_app ds c rest : number ds -> hexval c = None -> (c =? 120) = false -> (c =? 88) = false ->
  scan_hex (ds ++ c :: rest) = Some (value16 ds, c :: rest).
Proof.
  intros (Hne & Hd & Hv) Hc Hx HX. pose proof (value16_nonneg ds) as H0. unfold scan_hex.
  destruct ds as [| b ds]; [done |]. inversion_clear Hd as [| ? ? Hb Hd'].
  destruct (hexval_some b Hb) as (Hs & H45 & H43 & _).
  assert (skip_space ((b :: ds) ++ c :: rest) = (b :: ds) ++ c :: rest) as -> by (cbn; by rewrite Hs).
  cbn [app]. rewrite H45, H43.
  assert ((match ds ++ c :: rest with x :: s' => if (b =? 48) && ((x =? 120) || (x =? 88)) then s' else b :: ds ++ c :: rest
           | [] => b :: ds ++ c :: rest end) = b :: ds ++ c :: rest) as ->.
  { destruct ds as [| b2 ds]; cbn [app]; [by rewrite Hx, HX, andb_false_r |].
    inversion_clear Hd' as [| ? ? Hb2 _]. destruct (hexval_some b2 Hb2) as (_ & _ & _ & -> & -> & _). by rewrite andb_false_r. }
  change (b :: ds ++ c :: rest) with ((b :: ds) ++ c :: rest).
  rewrite hex_digits_app; [| by constructor | by intros ? ? [= <- <-]].
  cbn [length Nat.add]. change (fold_left _ _ 0) with (value16 (b :: ds)).
  by rewrite (proj2 (Z.leb_gt _ _)) by done.
Qed.

Lemma scan_range_line m : well_formed m -> scan_range (line_of m) = Some (value16 (lo m), value16 (hi m)).
Proof.
  intros (Hlo & Hhi & _). unfold scan_range, line_of. cbn [app].
  rewrite scan_hex_app by done. rewrite Z.eqb_refl, scan_hex_app by done. done.
Qed.

Lemma digits_nonzero ds : number ds -> Forall (fun b => b <> 0) ds.
Proof.
  intros (_ & Hd & _). eapply Forall_impl; [exact Hd |]. intros b Hb.
  destruct (hexval_some b Hb) as (_ & _ & _ & _ & _ & H0 & _). by apply Z.eqb_neq.
Qed.

Lemma plain_nonzero s : plain s -> Forall (fun b => b <> 0) s.
Proof. intros H. eapply Forall_impl; [exact H |]. by intros b []. Qed.

Lemma line_c_str m : well_formed m -> c_str (line_of m) = line_of m.
Proof.
  intros (Hlo & Hhi & Hm & Hp). apply c_str_plain. unfold line_of.
  repeat (apply Forall_app_2); first [by apply digits_nonzero | by apply plain_nonzero | by repeat constructor].
Qed.

Lemma after_last_app a b : after_last SPACE (a ++ SPACE :: b) = Some (default b (after_last SPACE b)).
Proof.
  induction a as [| c a IH]; cbn [app after_last]; [| by rewrite IH].
  by destruct (after_last SPACE b).
Qed.

Lemma after_last_snoc s : after_last SPACE (s ++ [NEWLINE]) = option_map (fun r => r ++ [NEWLINE]) (after_last SPACE s).
Proof.
  induction s as [| c s IH]; [done |]. cbn [app after_last]. rewrite IH. destruct (after_last SPACE s); [done |].
  cbn. by destruct (c =? SPACE).
Qed.

Lemma after_last_sub s r : after_last SPACE s = Some r -> plain s -> plain r.
Proof.
  revert r. induction s as [| c s IH]; intros r; [done |]. cbn. intros H Hs. inversion_clear Hs.
  destruct (after_last SPACE s) as [r' |]; [simplify_eq; by apply IH |]. destruct (c =? SPACE); [by simplify_eq | done].
Qed.

Lemma before_newline s : plain s -> before_first NEWLINE (s ++ [NEWLINE]) = Some s.
Proof.
  induction 1 as [| b s [_ Hb] _ IH]; [done |]. cbn [app before_first].
  rewrite (proj2 (Z.eqb_neq b NEWLINE)), IH by done. done.
Qed.

Lemma file_of_line m : well_formed m -> exists f, after_last SPACE (line_of m) = Some f /\
  before_first NEWLINE f = Some (last_word (path m)).
Proof.
  intros (_ & _ & _ & Hp). unfold line_of, last_word.
  replace (lo m ++ [MINUS] ++ hi m ++ [SPACE] ++ middle m ++ [SPACE] ++ path m ++ [NEWLINE]) with
    ((lo m ++ [MINUS] ++ hi m ++ [SPACE] ++ middle m) ++ SPACE :: (path m ++ [NEWLINE])) by (by rewrite <-!app_assoc).
  rewrite after_last_app. eexists. split; [done |]. rewrite after_last_snoc.
  destruct (after_last SPACE (path m)) as [r |] eqn:E; cbn; apply before_newline; [by eapply after_last_sub | done].
Qed.

(** *** The process *)

(** The lines that are still to be read, and the files that were executed in vain. *)
Definition own_h : handler ownE (list (list Z) * list (list Z)) := fun R e s =>
  let '(ls, ex) := s in
  match e in ownE R return outcome (list (list Z) * list (list Z)) R with
  | Fopen => Done 3 s
  | Fgets n _ => match ls with
                 | [] => Done None s
                 | l :: ls' => if zlen l <? n then Done (Some l) (ls', ex) else Stopped Undefined s
                 end
  | Execl file => Done (-1) (ls, ex ++ [file])
  | Perror _ | Printf _ => Done tt s
  end.

(** The mapping that holds the address. *)
Definition own_mapping (addr : Z) (ms : list mapping) : option mapping := head (filter (fun m => covers addr m = true) ms).

Lemma maps_loop addr ms fuel ex : Forall well_formed ms -> Forall (fun m => zlen (line_of m) < 256) ms ->
  (length ms < fuel)%nat ->
  exists ls, run own_h (loop fuel (maps_turn addr 3) tt) (map line_of ms, ex) =
    Done (match own_mapping addr ms with Some m => last_word (path m) | None => [] end) (ls, ex).
Proof.
  intros Hw. revert fuel. induction Hw as [| m ms Hm Hw IH]; intros [| fuel] Hl Hf; cbn [length] in Hf; [lia | | lia |].
  - by exists [].
  - inversion_clear Hl as [| ? ? Hlm Hl']. cbn [loop map]. rewrite run_bind. unfold maps_turn at 1.
    rewrite run_bind, run_trigger. cbn [own_h]. rewrite (proj2 (Z.ltb_lt _ _)) by done. cbn [obind].
    rewrite line_c_str, scan_range_line by done. unfold own_mapping. rewrite filter_cons.
    fold (covers addr m). destruct (decide (covers addr m = true)) as [E | E].
    + destruct (file_of_line m Hm) as (f & -> & ->). rewrite E. cbn. by eexists.
    + apply not_true_is_false in E. rewrite E. cbn [run obind]. by apply IH; [| lia].
Qed.

(** With every line of the file of mappings shorter than the buffer, [foo] executes the file of the mapping its address lies in,
    or an empty name when there is no such mapping or it has no file. A path is only taken from behind
    its last space on. *)
Theorem own_file_executed addr ms fuel : Forall well_formed ms -> Forall (fun m => zlen (line_of m) < 256) ms ->
  (length ms < fuel)%nat ->
  exists ls, run own_h (foo fuel addr) (map line_of ms, []) =
    Done tt (ls, [match own_mapping addr ms with Some m => last_word (path m) | None => [] end]).
Proof.
  intros Hw Hl Hf. destruct (maps_loop addr ms fuel [] Hw Hl Hf) as [ls Hr]. exists ls.
  unfold foo. rewrite run_bind, run_trigger. cbn [own_h obind]. rewrite run_bind, Hr. by cbn.
Qed.

Definition demo_maps : list mapping :=
  [MkMapping (bytes_of "55d0") (bytes_of "55f0") (bytes_of "r-xp 00000000 08:01 42") (bytes_of "/bin/caller");
   MkMapping (bytes_of "7f00") (bytes_of "7fff") (bytes_of "r-xp 00000000 08:01 43") (bytes_of "/tmp/my libs/libfoo.so")].

Lemma own_file_executed_witness : exists ls,
  run own_h (foo 3 32528) (map line_of demo_maps, []) = Done tt (ls, [bytes_of "libs/libfoo.so"]).
Proof.
  apply (own_file_executed 32528 demo_maps 3).
  - repeat constructor; done.
  - repeat constructor; done.
  - cbn. lia.
Defined.
