(* ===== verification/Lotsa.v ===== *)
(** * lotsathreads: a thousand functions, one thread each

    [src/lotsathreads/lotsathreads.c]: macros declare [f0000] to [f0999]; each wastes a time that doubles with the number of its
    thread. [main] starts the last of them first and joins them from the first on. *)
From stdpp Require Import base gmap list strings.
From Stdlib Require Import ZArith Lia.
From S2P Require Import Prelude Prog Sys Family Text Doubles.

Inductive loE : Type -> Type :=
| Get_nprocs : loE Z
| Gettid : loE Z
| Getpid : loE Z
| Rdtsc : loE Z
| Sched_fifo : loE unit                            (* sched_setscheduler of the calling thread *)
| Printf (text : list Z) : loE unit
| Pthread_create (fun_ : Z) : loE Z                (* what it leaves in the slot for the handle *)
| Pthread_join (tid : Z) : loE unit.

Abbreviation loM := (prog loE).

(** The number of functions the macros produce: ten, nested three times. *)
Definition N1 {X} (x : X) : list X := [x].
Definition N2 (f : list Z) : list (list Z) := flat_map (fun d => N1 (f ++ [d])) (seqZ 48 10).
Definition N3 (f : list Z) : list (list Z) := flat_map (fun d => N2 (f ++ [d])) (seqZ 48 10).
Definition C (N : list Z -> list (list Z)) : list (list Z) := flat_map (fun d => N (bytes_of "f" ++ [d])) (seqZ 48 10).
Definition funs : list (list Z) := C N3.
Definition numfuns : Z := zlen funs.

(** The time to waste: a shift of an [int], a sum in binary64, a conversion back. *)
Definition WASTE_LINEAR_TIME (fuel : nat) : loM unit :=
  tid <- trigger Gettid ;;
  pid <- trigger Getpid ;;
  let d := tid - pid in
  if negb ((0 <=? d) && (d <? 31)) then Halt Undefined
  else
  let O := Z.shiftl 1 d in
  now <- trigger Rdtsc ;;
  goal <- to_u64 (fadd (of_int now) (fmul (of_int 1000000) (of_int O))) ;;
  trigger Sched_fifo ;;
  loop fuel (fun _ => t <- trigger Rdtsc ;; Ret (if t <? goal then inl tt else inr tt)) tt.

(** [strtoll] in base 10. *)
Definition strtoll (s : list Z) : Z :=
  let s := skip_space s in
  let '(neg, s) := match s with
                   | b :: s' => if b =? 45 then (true, s') else if b =? 43 then (false, s') else (false, s)
                   | [] => (false, s)
                   end in
  let '(_, v, _) := scan_digits s 0 0 in
  if (neg : bool) then Z.max (- v) (- 2 ^ 63) else Z.min v (2 ^ 63 - 1).

Definition clamp (numthreads : Z) : Z :=
  if 0 <? numthreads then if numfuns <? numthreads then numfuns else numthreads else 1.

(** [while (numthreads-- > 0) pthread_create(...)]: [n] threads are left to make; the slots, one for each function. *)
Fixpoint create_threads (n : nat) (tids : list Z) : loM (list Z) :=
  match n with
  | O => Ret tids
  | S m =>
      tid <- trigger (Pthread_create (Z.of_nat m)) ;;
      create_threads m (<[m := tid]> tids)
  end.

(** [for (...; tids[i]; i++)]; behind the array nothing can be read. *)
Definition join_turn (tids : list Z) (i : Z) : loM (Z + unit) :=
  match znth tids i with
  | None => Halt Undefined
  | Some tid =>
      if tid =? 0 then Ret (inr tt)
      else trigger (Printf (bytes_of ".")) ;; trigger (Pthread_join tid) ;; Ret (inl (i + 1))
  end.

(** [n] is [argc], [A] the arguments behind the name of the program. A number that is missing is read through a null pointer. The
    loop that joins makes at most one turn for every function and one more. *)
Definition main (n : Z) (A : list (list Z)) : loM unit :=
  numthreads <- (if 0 <=? n - 1
                 then match A with a :: _ => Ret (strtoll a) | [] => Halt (Signaled 11) end
                 else p <- trigger Get_nprocs ;; Ret (p - 1)) ;;
  let numthreads := clamp numthreads in
  trigger (Printf (line [bytes_of "Going to use "; dec numthreads; bytes_of " threads"])) ;;
  tids <- create_threads (Z.to_nat numthreads) (replicate (Z.to_nat numfuns) 0) ;;
  loop (S (Z.to_nat numfuns)) (join_turn tids) 0.

(** ** Which threads are joined *)

Definition created_of (e : event loE) : list (Z * Z) :=
  match e with
  | existT _ (f, r) =>
      match f in loE R return R -> list (Z * Z) with Pthread_create k => fun tid => [(k, tid)] | _ => fun _ => [] end r
  end.
Definition joined_of (e : event loE) : list Z :=
  match e with existT _ (f, _) => match f with Pthread_join tid => [tid] | _ => [] end end.

Definition created (tr : list (event loE)) : list (Z * Z) := flat_map created_of tr.
Definition joined (tr : list (event loE)) : list Z := flat_map joined_of tr.

(** Every thread can be made, and a handle is never zero. *)
Definition makes_threads (R : Type) (e : loE R) : R -> Prop :=
  match e in loE R return R -> Prop with Pthread_create _ => fun tid => tid <> 0 | _ => fun _ => True end.

Lemma create_spec H n tids : (n <= length tids)%nat ->
  always makes_threads H (create_threads n tids) (fun tids' tr => exists hs, length hs = n /\
    Forall (fun h => h <> 0) hs /\ tids' = hs ++ drop n tids /\
    created tr = rev (zip (seqZ 0 (Z.of_nat n)) hs) /\ joined tr = []).
Proof.
  revert tids. induction n as [| n IH]; intros tids Hn.
  { cbn [create_threads always]. exists []. by split; [| split; [constructor |]]. }
  cbn [create_threads]. intros tid Htid. cbn in Htid. cbn [bind].
  eapply always_mono; [apply IH; rewrite length_insert; lia |].
  intros tids' tr (hs & Hl & Hh & -> & Hc & Hj). exists (hs ++ [tid]). rewrite length_app, Hl.
  split; [cbn; lia |]. split; [by apply Forall_app_2; [| constructor] |]. split.
  - rewrite <-app_assoc. f_equal. cbn [app].
    assert (n < length tids)%nat as Hlt by lia. apply lookup_lt_is_Some_2 in Hlt as [x Hx].
    rewrite (drop_S (<[n:=tid]> tids) tid n) by (apply list_lookup_insert_eq; lia).
    f_equal. rewrite drop_insert_lt by lia. done.
  - unfold created, joined in *. cbn. rewrite Hc, Hj. split; [| done].
    rewrite seqZ_S. rewrite zip_with_app by (rewrite length_seqZ; lia).
    cbn [zip_with]. rewrite rev_app_distr. cbn. done.
Qed.

Lemma join_spec A H hs zs fuel i : Forall (fun h => h <> 0) hs -> (i <= length hs)%nat ->
  (length hs - i < fuel)%nat -> (zs = [] -> H Undefined) -> (forall z zs', zs = z :: zs' -> z = 0) ->
  always A H (loop fuel (join_turn (hs ++ zs)) (Z.of_nat i)) (fun _ tr => created tr = [] /\ joined tr = drop i hs /\ zs <> []).
Proof.
  intros Hh Hi Hf Hz Hzs. revert i Hi Hf. induction fuel as [| fuel IH]; intros i Hi Hf; [lia |].
  cbn [loop]. unfold join_turn at 1. unfold znth. rewrite (proj2 (Z.leb_le 0 _)), Nat2Z.id by lia.
  destruct (decide (i = length hs)) as [-> |].
  - rewrite lookup_app_r, Nat.sub_diag by lia. destruct zs as [| z zs]; cbn; [by apply Hz |].
    rewrite (Hzs z zs eq_refl). cbn. by rewrite drop_all.
  - destruct (lookup_lt_is_Some_2 hs i) as [h Hl]; [lia |]. rewrite (lookup_app_l_Some _ _ _ _ Hl).
    pose proof (Forall_lookup_1 _ _ _ _ Hh Hl) as H0. cbn in H0. rewrite (proj2 (Z.eqb_neq h 0)) by done.
    intros [] _ [] _. cbn [bind]. replace (Z.of_nat i + 1) with (Z.of_nat (S i)) by lia.
    eapply always_mono; [apply IH; lia |]. intros [] tr (Hc & Hj & Hn). unfold created, joined in *. cbn.
    rewrite Hc, Hj, (drop_S hs h i Hl). done.
Qed.

(** Started with a number, the program makes as many threads as asked for, at least one and at most a thousand, the last first, and
    joins all of them from the first on. With all thousand there is no empty slot behind the last and the
    loop that joins leaves the array: the program never returns. Without an argument it reads
    through a null pointer; the count of processors is only used when there is not even a name. *)
Theorem threads_joined n a A :
  let num := clamp (strtoll a) in
  (1 <= n -> always makes_threads (fun s => s = Undefined /\ num = numfuns) (main n (a :: A))
    (fun _ tr => num < numfuns /\ exists hs, zlen hs = num /\
      created tr = rev (zip (seqZ 0 num) hs) /\ joined tr = hs)) /\
  main 1 [] = Halt (Signaled 11).
Proof.
  intros num. split; [| reflexivity]. intros Hn. unfold main. rewrite (proj2 (Z.leb_le 0 (n - 1))) by lia.
  cbn [bind]. fold num. intros [] _.
  assert (1 <= num <= numfuns) as Hnum.
  { unfold num, clamp. change numfuns with 1000. repeat case_if; lia. }
  cbn [bind]. eapply always_bind; [apply create_spec; rewrite length_replicate; lia |].
  intros tids tr (hs & Hl & Hh & -> & Hc & Hj). rewrite drop_replicate.
  replace (0 : Z) with (Z.of_nat 0) at 2 by done.
  eapply always_mono; [apply join_spec; [done | lia | | |] |].
  - rewrite Hl. change numfuns with 1000 in *. lia.
  - intros Hz. split; [done |]. apply (f_equal length) in Hz. rewrite length_replicate in Hz. cbn in Hz. lia.
  - intros z zs Hz. destruct (Z.to_nat numfuns - Z.to_nat num)%nat; cbn in Hz; by simplify_eq.
  - intros [] tr' (Hc' & Hj' & Hz). split.
    + destruct (decide (num = numfuns)) as [E |]; [| lia]. rewrite E, Nat.sub_diag in Hz. done.
    + exists hs. split; [unfold zlen; rewrite Hl; lia |].
      unfold created, joined in *. cbn. rewrite !flat_map_app, Hc, Hc', Hj, Hj', app_nil_r, drop_0.
      rewrite Z2Nat.id by lia. done.
Qed.

(** Three threads; a handle is the number of the function and one. *)
Lemma threads_joined_witness :
  always makes_threads nothing (main 2 [bytes_of "3"]) (fun _ tr => exists h0 h1 h2,
    created tr = [(2, h2); (1, h1); (0, h0)] /\ joined tr = [h0; h1; h2]).
Proof.
  eapply always_mono.
  - eapply always_weaken; [| | apply (proj1 (threads_joined 2 (bytes_of "3") [])); lia].
    + auto.
    + cbn. intros s [_ H]. vm_compute in H. discriminate.
  - intros [] tr (_ & hs & Hl & Hc & Hj). destruct hs as [| h0 [| h1 [| h2 [| h3 hs]]]]; try (vm_compute in Hl; discriminate).
    + exists h0, h1, h2. split; [exact Hc | exact Hj].
    + unfold zlen in Hl. change (clamp (strtoll (bytes_of "3"))) with 3 in Hl. cbn [length] in Hl. lia.
Defined.
