(* ===== verification/Orphanizer.v ===== *)
(** * reaping_orphans: counting zombies by their state in /proc

    [src/reaping_orphans/src/orphanizer.c] and [call_orphanizer.c]: a hundred children exit at once and are not waited for; the
    parent reads the state of each and prints how many are in which. *)
From stdpp Require Import base gmap list strings.
From Stdlib Require Import ZArith Lia.
From S2P Require Import Prelude Prog Sys Text.

Definition MAX_CHILDREN : Z := 100.
Definition STATS : Z := 256.

Inductive disposition : Type := SIG_IGN | Donothing_handler.

Inductive orE : Type -> Type :=
| Fork : orE Z
| Fopen (path : list Z) : orE (option (list Z))    (* what the file holds *)
| Fclose : orE unit
| Printf_row (c count : Z) : orE unit              (* "%c: %d\n" *)
| Printf_pid (pid : Z) : orE unit
| Getpid : orE Z
| Scanf_char : orE unit
| Signal (d : disposition) : orE unit              (* of SIGCHLD *)
| Sigaction (d : disposition) : orE Z
| Indeterminate : orE Z.

Abbreviation orM := (prog orE).

Definition donothing_handler : orM unit := Ret tt.

Definition make_zombie : orM Z :=
  pid <- trigger Fork ;;
  if pid =? 0 then Halt (Exited 0) else Ret pid.

(** The function ends behind the first step of its plan, and returns nothing. *)
Definition make_detached_orphan : orM Z :=
  r <- trigger (Sigaction SIG_IGN) ;;
  if r <? 0 then Ret (-1) else trigger Indeterminate.

(** A word of [%*s] at the front: what follows it, if there is one. *)
Fixpoint skip_word (s : list Z) : list Z :=
  match s with
  | b :: s' => if space b then s else skip_word s'
  | [] => []
  end.

(** [fscanf(fp, "%*d %*s %c", &status)]. *)
Definition scan_status (s : list Z) : option Z :=
  match scan_int s with
  | None => None
  | Some (_, s) =>
      match skip_space s with
      | [] => None
      | b :: s' =>
          match skip_space (skip_word s') with
          | c :: _ => Some c
          | [] => None
          end
      end
  end.

Definition E_ : Z := 69.

(** What is read from an open file is the state; without it the variable is indeterminate. *)
Definition get_status (pid : Z) : orM Z :=
  f <- trigger (Fopen (bytes_of "/proc/" ++ dec pid ++ bytes_of "/stat")) ;;
  match f with
  | None => Ret E_
  | Some content =>
      match scan_status content with
      | None => Halt Undefined
      | Some status => trigger Fclose ;; Ret status
      end
  end.

Definition setup_orphanizer : orM unit := trigger (Signal Donothing_handler).

(** ** call_orphanizer.c *)

Fixpoint make_children (n : nat) : orM (list Z) :=
  match n with
  | O => Ret []
  | S m => pid <- make_zombie ;; pids <- make_children m ;; Ret (pid :: pids)
  end.

(** [stats[get_status(pid)]++]: a [char] above 127 is a negative index. *)
Fixpoint collect (children stats : list Z) : orM (list Z) :=
  match children with
  | [] => Ret stats
  | pid :: children' =>
      c <- get_status pid ;;
      match (if c <? 128 then znth stats c else None) with
      | None => Halt Undefined
      | Some n => collect children' (<[Z.to_nat c := n + 1]> stats)
      end
  end.

Definition print_stats (stats : list Z) : orM unit :=
  for_range 0 (Z.to_nat STATS) (fun i =>
    match znth stats i with
    | Some n => if 0 <? n then trigger (Printf_row i n) else Ret tt
    | None => Halt Undefined
    end).

Definition main : orM Z :=
  children <- make_children (Z.to_nat MAX_CHILDREN) ;;
  stats <- collect children (replicate (Z.to_nat STATS) 0) ;;
  print_stats stats ;;
  pid <- trigger Getpid ;;
  trigger (Printf_pid pid) ;;
  trigger Scanf_char ;;
  Ret 0.

(** ** The table *)

Definition state_of (f : option (list Z)) : option Z := match f with None => Some E_ | Some s => scan_status s end.

Definition states_of (e : event orE) : list Z :=
  match e with
  | existT _ (f, r) =>
      match f in orE R return R -> list Z with
      | Fopen _ => fun f => match state_of f with Some c => [c] | None => [] end
      | _ => fun _ => []
      end r
  end.
Definition rows_of (e : event orE) : list (Z * Z) :=
  match e with existT _ (f, _) => match f with Printf_row c n => [(c, n)] | _ => [] end end.

Definition states (tr : list (event orE)) : list Z := flat_map states_of tr.
Definition rows (tr : list (event orE)) : list (Z * Z) := flat_map rows_of tr.

(** How often [c] occurs. *)
Definition times (c : Z) (l : list Z) : Z := zlen (filter (fun x => x = c) l).

(** The row for each state that occurs, in the order of their characters. *)
Definition table (sts : list Z) : list (Z * Z) :=
  filter (fun r => 0 < r.2) (map (fun c => (c, times c sts)) (seqZ 0 STATS)).

(** The parent: no fork answers it 0; a file of the kernel has a state that is an ASCII character. *)
Definition parent (R : Type) (e : orE R) : R -> Prop :=
  match e in orE R return R -> Prop with
  | Fork => fun r => r <> 0
  | Fopen _ => fun f => exists c, state_of f = Some c /\ 0 <= c < 128
  | _ => fun _ => True
  end.

Lemma children_spec n : always parent nothing (make_children n)
  (fun pids tr => length pids = n /\ states tr = [] /\ rows tr = []).
Proof.
  induction n as [| n IH]; [done |]. cbn [make_children]. unfold make_zombie. intros pid Hp. cbn in Hp. cbn [bind].
  rewrite (proj2 (Z.eqb_neq pid 0)) by done. cbn [bind]. eapply always_bind; [exact IH |].
  intros pids tr (Hl & Hs & Hr). cbn. rewrite !app_nil_r, Hl. by repeat split.
Qed.

Lemma status_spec pid : always parent nothing (get_status pid)
  (fun c tr => 0 <= c < 128 /\ states tr = [c] /\ rows tr = []).
Proof.
  unfold get_status. intros f (c & Hc & Hr). cbn [bind]. destruct f as [s |]; cbn [state_of] in Hc.
  - rewrite Hc. intros [] _. split; [done |]. unfold states, rows. cbn -[state_of]. cbn [state_of]. by rewrite Hc.
  - cbn. simplify_eq. done.
Qed.

Lemma times_cons c x l : times c (x :: l) = (if x =? c then 1 else 0) + times c l.
Proof.
  unfold times. rewrite filter_cons. destruct (x =? c) eqn:E; zbool.
  - rewrite decide_True by done. by rewrite zlen_cons.
  - rewrite decide_False by done. done.
Qed.

Lemma times_app c a b : times c (a ++ b) = times c a + times c b.
Proof. unfold times. by rewrite filter_app, zlen_app. Qed.

(** The counters hold the states seen so far. *)
Definition counts (stats sts : list Z) : Prop :=
  zlen stats = STATS /\ forall c, 0 <= c < STATS -> stats !! Z.to_nat c = Some (times c sts).

Lemma collect_spec children stats sts : counts stats sts ->
  always parent nothing (collect children stats) (fun stats' tr => counts stats' (sts ++ states tr) /\
    length (states tr) = length children /\ Forall (fun c => 0 <= c < 128) (states tr) /\ rows tr = []).
Proof.
  revert stats sts. induction children as [| pid children IH]; intros stats sts Hc.
  { cbn. by rewrite app_nil_r. }
  cbn [collect]. eapply always_bind; [apply status_spec |]. intros c tr (Hr & Hs & Hrow).
  rewrite (proj2 (Z.ltb_lt c 128)) by lia. unfold znth. rewrite (proj2 (Z.leb_le 0 c)) by lia.
  destruct Hc as [Hl Hc]. rewrite (Hc c) by (unfold STATS; lia).
  eapply always_mono; [apply (IH _ (sts ++ [c])) |].
  - split; [unfold zlen in *; by rewrite length_insert |]. intros c' Hc'. rewrite times_app, times_cons.
    change (times c' []) with 0. destruct (decide (c = c')) as [-> |].
    + rewrite list_lookup_insert_eq by (unfold zlen, STATS in *; lia). rewrite Z.eqb_refl. by rewrite Z.add_0_r.
    + rewrite list_lookup_insert_ne by lia. rewrite (proj2 (Z.eqb_neq c c')), Hc by done. by rewrite !Z.add_0_r.
  - intros stats' tr' (H1 & H2 & H3 & H4). unfold states, rows in *. rewrite !flat_map_app, Hs, Hrow, H4.
    rewrite <-app_assoc in H1. split; [exact H1 |]. rewrite length_app, H2. split; [done |]. split; [| done].
    by apply Forall_app_2; [constructor |].
Qed.

Lemma rows_spec stats sts n lo : counts stats sts -> 0 <= lo -> lo + Z.of_nat n = STATS ->
  always parent nothing (for_range lo n (fun i =>
    match znth stats i with Some n => if 0 <? n then trigger (Printf_row i n) else Ret tt | None => Halt Undefined end))
    (fun _ tr => states tr = [] /\
      rows tr = filter (fun r => 0 < r.2) (map (fun c => (c, times c sts)) (seqZ lo (Z.of_nat n)))).
Proof.
  intros [Hl Hc]. revert lo. induction n as [| n IH]; intros lo H0 Hn; [done |].
  cbn [for_range]. rewrite Nat2Z.inj_succ, seqZ_cons, Z.pred_succ by lia. change (Z.succ lo) with (lo + 1). cbn [map].
  unfold znth at 1. rewrite (proj2 (Z.leb_le 0 lo)), Hc by lia. rewrite filter_cons. cbn [snd].
  destruct (0 <? times lo sts) eqn:E; zbool.
  - rewrite decide_True by done. intros [] _. eapply always_mono; [apply IH; lia |].
    intros [] tr [H1 H2]. unfold states, rows in *. cbn. by rewrite H1, H2.
  - rewrite decide_False by lia. cbn [bind]. eapply always_mono; [apply IH; lia |]. by intros [] tr [H1 H2].
Qed.

(** *** The counts add up *)

Lemma sum_indicator x n : 0 <= x -> zsum (map (fun c => if x =? c then 1 else 0) (seqZ 0 (Z.of_nat n))) =
  if x <? Z.of_nat n then 1 else 0.
Proof.
  intros Hx. induction n as [| n IH]; [by rewrite (proj2 (Z.ltb_ge _ _)) |].
  rewrite seqZ_S, map_app, zsum_app, IH. cbn [map zsum]. rewrite Z.add_0_l.
  destruct (x =? Z.of_nat n) eqn:E; zbool.
  - subst x. rewrite Z.ltb_irrefl, (proj2 (Z.ltb_lt _ _)) by lia. done.
  - destruct (x <? Z.of_nat n) eqn:E1; zbool; [rewrite (proj2 (Z.ltb_lt _ _)) by lia | rewrite (proj2 (Z.ltb_ge _ _)) by lia]; done.
Qed.

Lemma sum_positive (l : list (Z * Z)) : Forall (fun r => 0 <= r.2) l ->
  zsum (map snd (filter (fun r => 0 < r.2) l)) = zsum (map snd l).
Proof.
  induction 1 as [| [c n] l Hn _ IH]; [done |]. rewrite filter_cons. cbn [snd] in *.
  destruct (decide (0 < n)); cbn [map zsum snd]; rewrite IH; lia.
Qed.

Lemma table_sum sts : Forall (fun c => 0 <= c < STATS) sts -> zsum (map snd (table sts)) = zlen sts.
Proof.
  intros H. unfold table. rewrite sum_positive; [rewrite map_map; cbn [snd] |].
  - induction H as [| x sts Hx _ IH]; [done |]. rewrite zlen_cons, <-IH.
    rewrite <-(Z2Nat.id STATS) by done. transitivity (zsum (map (fun c => if x =? c then 1 else 0) (seqZ 0 (Z.of_nat (Z.to_nat STATS)))) +
      zsum (map (fun c => times c sts) (seqZ 0 (Z.of_nat (Z.to_nat STATS))))).
    + induction (seqZ 0 (Z.of_nat (Z.to_nat STATS))) as [| c l IHl]; [done |]. cbn [map zsum].
      rewrite IHl, times_cons. lia.
    + rewrite sum_indicator by lia. rewrite Z2Nat.id by done. by rewrite (proj2 (Z.ltb_lt _ _)) by lia.
  - apply Forall_map, Forall_true. intros c. apply zlen_nonneg.
Qed.

(** The parent prints one row for each state that occurs among its hundred children, with the number of children in that state, in the
    order of the characters; the numbers add up to a hundred. A child whose file cannot be opened, and a fork that failed, count as E. *)
Theorem zombies_counted : always parent nothing main (fun r tr => r = 0 /\
  length (states tr) = 100%nat /\ rows tr = table (states tr) /\ zsum (map snd (rows tr)) = 100).
Proof.
  unfold main. eapply always_bind; [apply children_spec |]. intros pids tr1 (Hl & Hs1 & Hr1).
  eapply always_bind; [apply (collect_spec _ _ []) |].
  { split; [unfold zlen; by rewrite length_replicate |]. intros c Hc. apply lookup_replicate_2. unfold STATS in *. lia. }
  intros stats tr2 (Hc & Hl2 & HF & Hr2). cbn [app] in Hc.
  eapply always_bind; [apply (rows_spec _ _ _ 0 Hc); [done | unfold STATS; lia] |].
  intros [] tr3 [Hs3 Hr3] p _ [] _ [] _. cbn [bind always]. unfold states, rows in *. rewrite !flat_map_app. cbn [flat_map states_of rows_of ev].
  rewrite Hs1, Hs3, Hr1, Hr2, !app_nil_r. cbn [app]. rewrite Hl2, Hl.
  assert (rows tr3 = table (flat_map states_of tr2)) as Ht by exact Hr3.
  split; [done |]. split; [done |]. split; [exact Ht |]. unfold rows in Ht. rewrite Ht.
  rewrite table_sum; [unfold zlen; rewrite Hl2, Hl; done |]. eapply Forall_impl; [exact HF |]. unfold STATS. intros c; cbn. lia.
Qed.

(** *** The file of a process *)

(** A state file: number, name in parentheses, state, the rest. *)
Definition stat_file (pid : Z) (name : list Z) (st : Z) (rest : list Z) : list Z :=
  dec pid ++ [32; 40] ++ name ++ [41; 32; st] ++ rest.

Lemma skip_word_app w s : Forall (fun b => space b = false) w -> skip_word (w ++ 32 :: s) = 32 :: s.
Proof. induction 1 as [| b w Hb _ IH]; [done |]. cbn [app skip_word]. by rewrite Hb. Qed.

(** The state is found behind a name without spaces; of a longer name the first character behind its first space is
    taken for it. *)
Theorem state_found pid name st rest : 0 <= pid < 2 ^ 31 -> space st = false ->
  (Forall (fun b => space b = false) name -> scan_status (stat_file pid name st rest) = Some st) /\
  (forall a c b, Forall (fun x => space x = false) a -> space c = false -> name = a ++ [32; c] ++ b ->
    scan_status (stat_file pid name st rest) = Some c).
Proof.
  intros Hp Hst. unfold scan_status, stat_file. rewrite scan_dec by (done || by intros ? ? [= <- _]).
  cbn [app skip_space space Z.eqb]. change (space 32) with true. change (space 40) with false. cbn iota. split.
  - intros Hn. replace (name ++ 41 :: 32 :: st :: rest) with ((name ++ [41]) ++ 32 :: st :: rest) by (by rewrite <-app_assoc).
    rewrite skip_word_app by (apply Forall_app_2; [done | by repeat constructor]).
    cbn [skip_space]. change (space 32) with true. by rewrite Hst.
  - intros a c b Ha Hc ->. rewrite <-app_assoc. cbn [app]. rewrite skip_word_app by done.
    cbn [skip_space]. change (space 32) with true. by rewrite Hc.
Qed.
