(* ===== verification/ForkLoops.v ===== *)
(** * Loops that fork: threaded_forks, sleepytime, return_codes

    [src/threaded_forks/main.cpp] and [foo.cpp] fork while other threads take and release a mutex; [src/sleepytime/waste.c] and
    [src/return_codes/return.c] fork a fixed number of times. The question is how many processes there are and what becomes
    of each. *)
From stdpp Require Import base gmap list strings.
From Stdlib Require Import ZArith Lia.
From S2P Require Import Prelude Prog Sys Family Text.

(** A process that waits for ever makes no further step, as one whose loop has no bound. *)
Definition blocked : stop := OutOfFuel.

Inductive flE : Type -> Type :=
| Fork : flE Z
| Getpid : flE Z
| Cout (text : list Z) : flE unit
| Printf (text : list Z) : flE unit
| Lock : flE bool                                  (* of the mutex; false when it is never released *)
| Unlock : flE unit
| Thread : flE unit                                (* a thread that takes and releases the mutex for ever *)
| Sleep (seconds : Z) : flE unit
| Sleep_ms (ms : Z) : flE unit
| Rand : flE Z
| Kill_self (sig : Z) : flE unit.

Abbreviation flM := (prog flE).

#[export] Instance fl_forks : Forks flE := fun R e =>
  match e in flE R return option (Z -> Z -> R) with Fork => Some (fun ret _ => ret) | _ => None end.

Definition lock : flM unit := ok <- trigger Lock ;; if (ok : bool) then Ret tt else Halt blocked.

(** ** threaded_forks/main.cpp *)

(** A thread that is started keeps the guard until it runs; the guard of the loop is released at the end of each turn. *)
Fixpoint spin_thread (n : nat) : flM unit :=
  match n with
  | O => Ret tt
  | S m =>
      pid <- trigger Getpid ;;
      trigger (Cout (line [bytes_of "Spawning thread from PID "; dec pid])) ;;
      lock ;; trigger Thread ;; trigger Unlock ;;
      spin_thread m
  end.

(** [sleep(0.1)] is [sleep(0)]. *)
Definition fork_n_go : flM unit :=
  pid <- trigger Fork ;;
  (if pid =? 0 then spin_thread 10 else Ret tt) ;;
  trigger (Sleep 0).

Fixpoint fork_loop (n : nat) : flM unit :=
  match n with
  | O => Ret tt
  | S m => fork_n_go ;; fork_loop m
  end.

Definition main_cpp : flM Z :=
  spin_thread 10 ;;
  fork_loop 5 ;;
  trigger (Sleep 1) ;;
  Ret 0.

(** ** threaded_forks/foo.cpp *)

Definition threadFunction (fuel : nat) : flM unit :=
  loop fuel (fun _ =>
    lock ;; trigger Unlock ;;
    r <- trigger Rand ;;
    trigger (Sleep_ms (Z.rem r 100)) ;;
    Ret (inl tt)) tt.

Fixpoint make_threads (n : nat) : flM unit :=
  match n with O => Ret tt | S m => trigger Thread ;; make_threads m end.

Fixpoint start_children (fuel n : nat) : flM unit :=
  match n with
  | O => Ret tt
  | S m =>
      pid <- trigger Fork ;;
      (if pid =? 0 then threadFunction fuel else Ret tt) ;;
      start_children fuel m
  end.

Definition SIGABRT : Z := 6.

(** When [main] returns it destroys its vector of threads that were neither joined nor detached, which aborts the process. *)
Definition foo_main (fuel : nat) : flM Z :=
  make_threads 10 ;;
  trigger (Cout (line [bytes_of "Starting 5 child processes..."])) ;;
  start_children fuel 5 ;;
  trigger (Sleep 1) ;;
  trigger (Cout (line [bytes_of "Done"])) ;;
  Halt (Signaled SIGABRT).

(** ** sleepytime/waste.c *)

Fixpoint fork_break (n : nat) : flM unit :=
  match n with
  | O => Ret tt
  | S m => pid <- trigger Fork ;; if pid =? 0 then Ret tt else fork_break m
  end.

Definition waste_main : flM Z :=
  fork_break 7 ;;
  pid <- trigger Getpid ;;
  trigger (Printf (line [bytes_of "Process "; dec pid])) ;;
  Halt blocked.

(** ** return_codes/return.c *)

(** What the kernel does to a process that has set no handler: SIGCHLD, SIGCONT, SIGURG and SIGWINCH are ignored, SIGSTOP,
    SIGTSTP, SIGTTIN and SIGTTOU stop it. *)
Inductive default_action : Type := Terminate | Stop | Ignore.

Definition action_of (sig : Z) : default_action :=
  if bool_decide (sig ∈ [17; 18; 23; 28]) then Ignore
  else if bool_decide (sig ∈ [19; 20; 21; 22]) then Stop
  else Terminate.

(** [kill(getpid(), sig)]. *)
Definition kill_self (sig : Z) : flM unit :=
  trigger (Kill_self sig) ;;
  match action_of sig with
  | Terminate => Halt (Signaled sig)
  | Stop => Halt blocked
  | Ignore => Ret tt
  end.

Definition return_turn (i : Z) : flM unit :=
  pid <- trigger Fork ;;
  if pid =? 0 then kill_self i ;; Halt (Exited (-1)) else Ret tt.

Definition return_main : flM Z := for_range 1 64 return_turn ;; Ret 0.

(** ** Who there is in the end *)

Section Families.
Context (pid_of : path -> Z) (answer : path -> kernel flE) (ok : path -> bool).

(** Every fork succeeds; [ok] tells whether the copy of the mutex a process got was free, or has an owner that lives there. *)
Hypothesis Hpid : forall q, 0 < pid_of q.
Hypothesis Hlock : forall q tr, answer q _ tr Lock = ok q.

Abbreviation fam := (family pid_of answer).
Definition fate (q : process flE Z) : path * (Z + stop) := (who q, ended q).

Lemma fam_fork {A} (k : Z -> flM A) self born old tr :
  fam (pid <- trigger Fork ;; k pid) self born old tr =
  fam (k (pid_of (born :: self))) self (S born) old (tr ++ [ev Fork (pid_of (born :: self))]) ++
  fam (k 0) (born :: self) 0 (old ++ tr) [ev Fork 0].
Proof. cbn. by rewrite (proj2 (Z.ltb_lt 0 _)). Qed.

Lemma not_child q : (pid_of q =? 0) = false.
Proof. apply Z.eqb_neq. specialize (Hpid q). lia. Qed.

Lemma fam_spin {A} n (k : unit -> flM A) self born old tr : exists tr',
  fam (bind (spin_thread n) k) self born old tr =
  if ok self || (n =? 0)%nat then fam (k tt) self born old tr' else [MkProcess self old tr' (inr blocked)].
Proof.
  revert tr. induction n as [| n IH]; intros tr; [exists tr; by rewrite orb_true_r |].
  cbn. rewrite Hlock. destruct (ok self) eqn:E; cbn; [| by eexists].
  edestruct IH as [tr' H]. exists tr'. cbn in H. exact H.
Qed.

Ltac spun :=
  match goal with
  | |- context [fam (bind (spin_thread 10) ?k) ?s ?b ?o ?t] => destruct (fam_spin 10 k s b o t) as [tr' ->]
  end.

(** The processes of the loop with [n] turns left: a child that gets the mutex goes on with the loop itself. *)
Fixpoint tree (self : path) (born n : nat) : list (path * (Z + stop)) :=
  match n with
  | O => [(self, inl 0)]
  | S m =>
      tree self (S born) m ++
      (let child := born :: self in if ok child then tree child 0 m else [(child, inr blocked)])
  end.

Lemma fam_fork_loop n self born old tr :
  map fate (fam (fork_loop n ;; trigger (Sleep 1) ;; Ret 0) self born old tr) = tree self born n.
Proof.
  revert self born old tr. induction n as [| n IH]; intros self born old tr; [done |].
  cbn [fork_loop tree]. rewrite family_assoc. unfold fork_n_go. rewrite family_assoc, fam_fork, map_app.
  rewrite not_child. change (0 =? 0) with true. cbv iota. f_equal.
  - cbn [bind trigger family forks fl_forks]. apply IH.
  - rewrite family_assoc. spun. rewrite orb_false_r. destruct (ok (born :: self)); [| done].
    cbn [bind trigger family forks fl_forks]. apply IH.
Qed.

Lemma tree_all self born n : (forall q, ok q = true) -> length (tree self born n) = (2 ^ n)%nat.
Proof.
  intros H. revert self born. induction n as [| n IH]; intros self born; [done |].
  cbn [tree]. rewrite H, length_app, !IH. cbn. lia.
Qed.

Lemma tree_none self born n : (forall q, q <> [] -> ok q = false) -> length (tree self born n) = S n.
Proof.
  intros H. revert self born. induction n as [| n IH]; intros self born; [done |].
  cbn [tree]. rewrite H, length_app, IH by done. cbn. lia.
Qed.

(** A child that finds the mutex taken waits for ever, since its owner was not copied, and makes no more processes; a child that does not runs
    the rest of the loop of its parent as well. So the five turns make between five children that are
    all stuck and thirty-one that are not. *)
Theorem threaded_forks_family : ok [] = true ->
  map fate (processes pid_of answer main_cpp) = tree [] 0 5 /\
  ((forall q, ok q = true) -> length (processes pid_of answer main_cpp) = 32%nat) /\
  ((forall q, q <> [] -> ok q = false) -> length (processes pid_of answer main_cpp) = 6%nat).
Proof.
  intros H0. assert (map fate (processes pid_of answer main_cpp) = tree [] 0 5) as Ht.
  { unfold processes, main_cpp. spun. rewrite H0. apply fam_fork_loop. }
  split; [exact Ht |]. rewrite <-(length_map fate), Ht. split; intros H.
  - by rewrite tree_all.
  - apply (tree_none [] 0 5). intros q Hq. by apply H.
Qed.
(** *** foo.cpp: the children never leave their loop *)

Lemma fam_thread_function {A} fuel (k : unit -> flM A) self born old tr : exists tr',
  fam (bind (threadFunction fuel) k) self born old tr = [MkProcess self old tr' (inr OutOfFuel)].
Proof.
  unfold threadFunction. revert tr. induction fuel as [| fuel IH]; intros tr; [by eexists |].
  cbn. destruct (answer self bool _ Lock); cbn; [apply IH | by eexists].
Qed.

Definition children (self : path) (born n : nat) (r : nat -> Z + stop) : list (path * (Z + stop)) :=
  map (fun i => ((born + i)%nat :: self, r i)) (rev (seq 0 n)).

Lemma children_S self born n r :
  children self born (S n) r = children self (S born) n (fun i => r (S i)) ++ [(born :: self, r 0%nat)].
Proof.
  unfold children. cbn [seq rev]. rewrite map_app. cbn [map]. rewrite Nat.add_0_r. f_equal.
  rewrite <-seq_shift, <-map_rev, map_map. apply map_ext. intros i. by rewrite Nat.add_succ_r.
Qed.

Lemma fam_start_children fuel n (k : unit -> flM Z) self born old tr : exists tr',
  map fate (fam (start_children fuel n ;; k tt) self born old tr) =
  map fate (fam (k tt) self (born + n) old tr') ++ children self born n (fun _ => inr OutOfFuel).
Proof.
  revert born tr. induction n as [| n IH]; intros born tr.
  { exists tr. cbn [start_children bind]. unfold children. cbn. by rewrite Nat.add_0_r, app_nil_r. }
  cbn [start_children]. rewrite family_assoc, fam_fork, map_app, not_child. change (0 =? 0) with true. cbv iota.
  rewrite !family_assoc. cbn [bind].
  match goal with |- context [fam (bind (threadFunction fuel) ?k) ?s ?b ?o ?t] =>
    destruct (fam_thread_function fuel k s b o t) as [tr1 ->] end.
  match goal with |- context [fam (start_children fuel n ;; k tt) self (S born) old ?t] =>
    destruct (IH (S born) t) as [tr2 ->] end.
  exists tr2. rewrite children_S, Nat.add_succ_r, <-app_assoc. done.
Qed.

(** The children of foo.cpp loop or wait for ever and never reach the loop that made them: there are six processes, whatever the
    mutex does, and only the parent ends: it is aborted. *)
Theorem foo_family fuel :
  map fate (processes pid_of answer (foo_main fuel)) =
  ([], inr (Signaled SIGABRT)) :: children [] 0 5 (fun _ => inr OutOfFuel).
Proof.
  unfold processes, foo_main. cbn [make_threads bind trigger family forks fl_forks].
  match goal with |- context [fam (start_children fuel 5 ;; ?q) [] 0 [] ?t] =>
    destruct (fam_start_children fuel 5 (fun _ => q) [] 0 [] t) as [tr ->] end.
  done.
Qed.

(** *** waste.c and return.c *)

(** A process that does no more than print its number and go on for ever. *)
Definition waiting : flM Z :=
  pid <- trigger Getpid ;; trigger (Printf (line [bytes_of "Process "; dec pid])) ;; Halt blocked.

Lemma fam_fork_break n self born old tr :
  map fate (fam (fork_break n ;; waiting) self born old tr) =
  (self, inr blocked) :: children self born n (fun _ => inr blocked).
Proof.
  revert born tr. induction n as [| n IH]; intros born tr; [done |].
  cbn [fork_break]. rewrite family_assoc, fam_fork, map_app, not_child. change (0 =? 0) with true. cbv iota.
  rewrite IH, children_S. done.
Qed.

Theorem waste_family : map fate (processes pid_of answer waste_main) =
  ([], inr blocked) :: children [] 0 7 (fun _ => inr blocked).
Proof. apply fam_fork_break. Qed.

Definition fate_of_signal (sig : Z) : Z + stop :=
  match action_of sig with
  | Terminate => inr (Signaled sig)
  | Stop => inr blocked
  | Ignore => inr (Exited (-1))
  end.

Lemma fam_return n lo self born old tr :
  map fate (fam (for_range lo n return_turn ;; Ret 0) self born old tr) =
  (self, inl 0) :: children self born n (fun i => fate_of_signal (lo + Z.of_nat i)).
Proof.
  revert lo born tr. induction n as [| n IH]; intros lo born tr; [done |].
  cbn [for_range]. rewrite family_assoc. unfold return_turn at 1. rewrite family_assoc, fam_fork, map_app, not_child.
  change (0 =? 0) with true. cbv iota. cbn [bind]. rewrite IH, children_S. cbn [app]. f_equal. f_equal.
  - unfold children. apply map_ext. intros i. do 2 f_equal. lia.
  - rewrite Z.add_0_r. unfold kill_self, fate_of_signal, bind. cbn. by destruct (action_of lo).
Qed.

(** The child with number [i] ends by signal [i], except that four signals stop it and four do nothing, and those
    children exit with all bits set. *)
Theorem return_family : map fate (processes pid_of answer return_main) =
  ([], inl 0) :: children [] 0 64 (fun i => fate_of_signal (1 + Z.of_nat i)).
Proof. apply fam_return. Qed.
End Families.

(** The mutex is taken whenever a child is made. *)
Definition demo_pid (q : path) : Z := 1 + zlen q.
Definition demo_answer (q : path) : kernel flE := fun R _ e =>
  match e in flE R return R with
  | Fork => 0
  | Getpid => demo_pid q
  | Lock => match q with [] => true | _ => false end
  | Rand => 0
  | Cout _ | Printf _ | Unlock | Thread | Sleep _ | Sleep_ms _ | Kill_self _ => tt
  end.

Lemma threaded_forks_family_witness :
  map fate (processes demo_pid demo_answer main_cpp) =
  ([], inl 0) :: map (fun i => ([i], inr blocked)) [4; 3; 2; 1; 0]%nat.
Proof.
  rewrite (proj1 (threaded_forks_family demo_pid demo_answer (fun q => match q with [] => true | _ => false end)
    ltac:(intros q; unfold demo_pid; pose proof (zlen_nonneg q); lia) ltac:(by intros) eq_refl)).
  reflexivity.
Defined.
