(* ===== verification/Evil.v ===== *)
(** * evil_static_init: a constructor that replaces the program

    [src/evil_static_init/evil.cpp]: a global object of a library, constructed before [main], executes the program again with
    arguments of its own, once. [innocent.cpp] prints its arguments. *)
From stdpp Require Import base gmap sets list strings.
From Stdlib Require Import ZArith Lia.
From S2P Require Import Prelude Prog Sys Family.

Inductive evE : Type -> Type :=
| Getenv (name : string) : evE (option string)
| Setenv (name value : string) (overwrite : Z) : evE Z
| Open_cmdline : evE bool
| Getline_nul : evE (list Z)                       (* up to the first terminator *)
| Cerr (s : string) : evE unit
| Cout (text : list Z) : evE unit
| Execv (path : list Z) (argv : list (list Z)) : evE unit.   (* only failure returns *)

Abbreviation evM := (prog evE).

Definition evil_args : list (list Z) := map bytes_of ["Who"; "touched"; "my"; "keyboard?"]%string.

Definition AutoStart : evM unit :=
  see <- trigger (Getenv "SEE_NO_EVIL") ;;
  match see with
  | Some _ => Ret tt
  | None =>
      trigger (Setenv "SEE_NO_EVIL" "lolok" 1) ;;
      is_open <- trigger Open_cmdline ;;
      if negb (is_open : bool) then trigger (Cerr "Failed to introspect")
      else
      first <- trigger Getline_nul ;;
      trigger (Execv first (first :: evil_args))
  end.

(** ** innocent.cpp *)

Fixpoint print_all (V : list (list Z)) : evM unit :=
  match V with
  | [] => Ret tt
  | v :: V' => trigger (Cout (line [v])) ;; print_all V'
  end.

(** Without even a name the count goes below zero and the loop leaves the array. *)
Definition innocent_main (V : list (list Z)) : evM Z :=
  match V with
  | [] => Halt Undefined
  | _ :: V' => print_all V' ;; Ret 0
  end.

(** Linked with the library; and the variant that loads it from [main]: both run the constructor first. *)
Definition program (V : list (list Z)) : evM Z := AutoStart ;; innocent_main V.

(** ** Running it *)

Record proc := MkProc {
  see_no_evil : bool;                              (* whether the variable is set *)
  out : list Z }.

Section Life.
(** Whether the environment can grow, whether /proc can be read, and which paths are this program. *)
Context (can_set readable : bool) (runnable : list Z -> bool).

Definition evil_h (exec : list (list Z) -> proc -> outcome (unit * proc) Z) (argv0 : list Z) :
    handler evE (unit * proc) := fun R e s =>
  let '(u, w) := s in
  match e in evE R return outcome (unit * proc) R with
  | Getenv _ => Done (if see_no_evil w then Some "lolok"%string else None) s
  | Setenv _ _ _ => if can_set then Done 0 (u, MkProc true (out w)) else Done (-1) s
  | Open_cmdline => Done readable s
  | Getline_nul => Done argv0 s
  | Cerr _ => Done tt s
  | Cout t => Done tt (u, MkProc (see_no_evil w) (out w ++ t))
  | Execv path argv =>
      if runnable path
      then match exec argv w with
           | Done code s' => Stopped (Exited code) s'
           | Stopped st s' => Stopped st s'
           end
      else Done tt s
  end.

(** The program with the arguments [V], and what it executes, at most [n] times. *)
Fixpoint life (n : nat) (V : list (list Z)) (w : proc) : outcome (unit * proc) Z :=
  match n with
  | O => Stopped OutOfFuel (tt, w)
  | S m => run (evil_h (life m) (hd [] V)) (program V) (tt, w)
  end.

Definition lines (V : list (list Z)) : list Z := concat (map (fun v => line [v]) V).

Lemma run_print_all ex a V w :
  run (evil_h ex a) (print_all V) (tt, w) = Done tt (tt, MkProc (see_no_evil w) (out w ++ lines V)).
Proof.
  revert w. induction V as [| v V IH]; intros w; [cbn; rewrite app_nil_r; by destruct w |].
  cbn [print_all]. rewrite run_bind, run_trigger. cbn [evil_h obind]. rewrite IH. cbn [see_no_evil out].
  by rewrite <-app_assoc.
Qed.

Lemma life_seen n v V o :
  life (S n) (v :: V) (MkProc true o) = Done 0 (tt, MkProc true (o ++ lines V)).
Proof.
  cbn [life hd]. unfold program, AutoStart. rewrite run_bind, run_bind, run_trigger. cbn [evil_h see_no_evil obind run].
  unfold innocent_main. rewrite run_bind, run_print_all. done.
Qed.

(** C40. A program that is not warned prints the library's four words instead of its arguments, and ends: it is executed exactly once more. It
    prints its own arguments when the variable was set, when /proc cannot be read, or when its name is not a path that can be executed, as for a program that was found by a search. If the
    variable cannot be set, the program executes itself for ever. *)
Theorem evil_life v V n o :
  life (S n) (v :: V) (MkProc true o) = Done 0 (tt, MkProc true (o ++ lines V)) /\
  (negb readable || negb (runnable v) = true ->
    life (S n) (v :: V) (MkProc false o) = Done 0 (tt, MkProc can_set (o ++ lines V))) /\
  (readable && runnable v = true -> can_set = true ->
    life (S (S n)) (v :: V) (MkProc false o) = Stopped (Exited 0) (tt, MkProc true (o ++ lines evil_args))) /\
  (readable && runnable v = true -> can_set = false ->
    life n (v :: V) (MkProc false o) = Stopped OutOfFuel (tt, MkProc false o)).
Proof.
  split; [apply life_seen |].
  assert (forall m V, life (S m) (v :: V) (MkProc false o) =
    (if readable
     then if runnable v
          then match life m (v :: evil_args) (MkProc can_set o) with
               | Done code s' => Stopped (Exited code) s'
               | Stopped st s' => Stopped st s'
               end
          else Done 0 (tt, MkProc can_set (o ++ lines V))
     else Done 0 (tt, MkProc can_set (o ++ lines V)))) as Hstep.
  { clear V. intros m V. change (life (S m) (v :: V) (MkProc false o)) with
      (run (evil_h (life m) v) (program (v :: V)) (tt, MkProc false o)).
    unfold program, AutoStart. rewrite run_bind, run_bind, run_trigger. cbn [evil_h see_no_evil obind].
    rewrite run_bind, run_trigger. cbn [evil_h].
    destruct can_set; cbn [obind out]; rewrite run_bind, run_trigger; cbn [evil_h obind];
      (destruct readable; cbn [negb obind]; [| rewrite run_trigger; cbn [evil_h obind];
        unfold innocent_main; rewrite run_bind, run_print_all; done]);
      rewrite run_bind, run_trigger; cbn [evil_h obind]; rewrite run_trigger; cbn [evil_h];
      (destruct (runnable v); [by destruct (life m _ _) |]); cbn [obind];
      unfold innocent_main; rewrite run_bind, run_print_all; done. }
  split; [| split].
  - intros H. rewrite Hstep. destruct readable, (runnable v); done.
  - intros H Hs. apply andb_prop in H as [Hr Hv]. rewrite Hstep, Hr, Hv, Hs, life_seen. done.
  - intros H Hs. apply andb_prop in H as [Hr Hv]. rewrite Hr, Hv in Hstep.
    rewrite Hs in Hstep. revert V. induction n as [| m IH]; intros V; [done |]. by rewrite Hstep, IH.
Qed.
End Life.

Lemma evil_life_witness :
  life true true (fun p => bool_decide (p = bytes_of "./innocent")) 2
    (map bytes_of ["./innocent"; "hello"]%string) (MkProc false []) =
  Stopped (Exited 0) (tt, MkProc true (lines evil_args)).
Proof.
  apply (evil_life true true (fun p => bool_decide (p = bytes_of "./innocent")) (bytes_of "./innocent")
    [bytes_of "hello"] 0 []); reflexivity.
Defined.
