(* ===== verification/SmallSignals.v ===== *)
(** * Small experiments with signals and timers

    [src/stack_overflow_finitely/explode.c], [src/crash_in_malloc/alarm.c], [src/itimer_signals/itimer_rate.c] and
    [src/sigev_thread/sigev_thread.c]. *)
From stdpp Require Import base gmap list strings.
From Stdlib Require Import ZArith Lia.
From S2P Require Import Prelude Prog Sys Family Text Doubles.

Definition SIGSEGV : Z := 11.
Definition SIGALRM : Z := 14.

(** ** explode.c *)

Module Explode.

Inductive exE : Type -> Type :=
| Printf (text : list Z) : exE unit
| Fflush : exE unit
| Setrlimit (cur max : Z) : exE unit               (* of RLIMIT_STACK *)
| Sigaction_nodefer : exE unit                     (* installs sigsegv_handler *)
| Count : exE Z                                    (* count++ *)
| Alloca (n : Z) : exE unit                        (* moves the stack pointer *)
| Flush_all : exE unit
| Store_null : exE unit.                           (* *p = 0 *)

Abbreviation exM := (prog exE).

Definition exit {A} (code : Z) : exM A := trigger Flush_all ;; Halt (Exited code).

(** The array is set up by the prologue, before the first statement. *)
Definition sigsegv_handler (signum : Z) : exM unit :=
  trigger (Alloca 1000000) ;;
  count <- trigger Count ;;
  trigger (Printf (line [bytes_of "Caught signal "; dec count; bytes_of " times"])) ;;
  trigger Fflush ;;
  trigger (Printf (line [bytes_of "Allocated 1MB on the stack"])) ;;
  trigger Fflush ;;
  exit 1.

(** Register the handler and cause a fault. *)
Definition crash : exM Z := trigger Sigaction_nodefer ;; trigger Store_null ;; Ret 0.

(** [argv0] is the name of the program, [args] what follows it. *)
Definition main (argv0 : list Z) (args : list (list Z)) : exM Z :=
  match args with
  | a :: _ =>
      let stack_size := atoi a in
      if stack_size <? 0
      then trigger (Printf (line [bytes_of "Usage: "; argv0; bytes_of " [stack_size]"])) ;; Ret 1
      else
      trigger (Printf (line [bytes_of "Setting stack size to "; dec stack_size])) ;;
      trigger (Setrlimit stack_size stack_size) ;;
      crash
  | [] => crash
  end.

(** *** The stack *)

(** What a function call needs below the stack pointer, and what the frame of a signal needs. *)
Record process := MkProcess {
  used : Z;                  (* bytes above the stack pointer *)
  room : Z;                  (* bytes below it that may be used; negative once the pointer has left the stack *)
  mapped : Z;                (* how much of that is there already, whatever the limit *)
  installed : bool;
  count : Z;
  out : list Z }.

Section Stack.
Context (need frame : Z).

Definition with_room (w : process) (r : Z) : process := MkProcess (used w) r (mapped w) (installed w) (count w) (out w).
Definition with_out (w : process) (o : list Z) : process := MkProcess (used w) (room w) (mapped w) (installed w) (count w) o.

(** A call without stack below the pointer faults. *)
Definition ex_calls (deliver : process -> outcome (unit * process) unit) : handler exE (unit * process) := fun R e s =>
  let '(u, w) := s in
  let call (w' : process) : outcome (unit * process) unit := if room w <? need then deliver w else Done tt (u, w') in
  match e in exE R return outcome (unit * process) R with
  | Printf t => call (with_out w (out w ++ t))
  | Fflush | Flush_all => call w
  | Setrlimit cur _ =>
      call (MkProcess (used w) (Z.max (mapped w) (cur - used w)) (mapped w) (installed w) (count w) (out w))
  | Sigaction_nodefer => call (MkProcess (used w) (room w) (mapped w) true (count w) (out w))
  | Count => Done (count w) (u, MkProcess (used w) (room w) (mapped w) (installed w) (count w + 1) (out w))
  | Alloca n => Done tt (u, with_room w (room w - n))
  | Store_null => deliver w
  end.

(** A fault, at most [n] deep: the kernel puts a frame on the stack, if there is room and a handler. *)
Fixpoint deliver (n : nat) (w : process) : outcome (unit * process) unit :=
  match n with
  | O => Stopped OutOfFuel (tt, w)
  | S m =>
      if negb (installed w) || (room w <? frame) then Stopped (Signaled SIGSEGV) (tt, w)
      else obind (run (ex_calls (deliver m)) (sigsegv_handler SIGSEGV) (tt, with_room w (room w - frame)))
             (fun _ s => deliver m s.2)
  end.

Definition ex_h (n : nat) : handler exE (unit * process) := ex_calls (deliver n).

Definition caught (c : Z) : list Z :=
  line [bytes_of "Caught signal "; dec c; bytes_of " times"] ++ line [bytes_of "Allocated 1MB on the stack"].

(** A call where there is room for it. *)
Lemma deliver_once n w : 0 < need <= frame -> installed w = true ->
  exists w', deliver (S (S n)) w =
    (if room w <? frame + 1000000 + need then Stopped (Signaled SIGSEGV) (tt, w') else Stopped (Exited 1) (tt, w')) /\
    out w' = out w ++ (if room w <? frame + 1000000 + need then [] else caught (count w)).
Proof.
  intros Hn Hi. remember (S n) as m eqn:Hm. cbn [deliver]. rewrite Hi. cbn [negb orb].
  destruct (room w <? frame) eqn:E1; zbool.
  { rewrite (proj2 (Z.ltb_lt _ _)) by lia. exists w. by rewrite app_nil_r. }
  unfold sigsegv_handler. rewrite run_bind, run_trigger. cbn [ex_calls obind].
  rewrite run_bind, run_trigger. cbn [ex_calls obind]. rewrite run_bind, run_trigger. cbn [ex_calls room with_room].
  replace (room w - frame - 1000000 <? need) with (room w <? frame + 1000000 + need)
    by (apply eq_true_iff_eq; rewrite !Z.ltb_lt; lia).
  destruct (room w <? frame + 1000000 + need) eqn:E2; zbool.
  - subst m. cbn [deliver installed with_room]. rewrite Hi. cbn [negb orb room].
    rewrite (proj2 (Z.ltb_lt _ _)) by lia. cbn [obind]. eexists. split; [reflexivity |]. cbn. by rewrite app_nil_r.
  - assert (forall x y : outcome (unit * process) unit, (if room w - frame - 1000000 <? need then x else y) = y) as Hif
      by (intros; by rewrite (proj2 (Z.ltb_ge _ _)) by lia).
    cbn [obind]. do 3 (rewrite run_bind, run_trigger; cbn [ex_calls room with_room with_out]; rewrite Hif; cbn [obind]).
    unfold exit. rewrite run_bind, run_trigger. cbn [ex_calls room with_room with_out]. rewrite Hif. cbn [obind run].
    eexists. split; [reflexivity |]. cbn [out with_out with_room]. unfold caught. by rewrite <-app_assoc.
Qed.

Lemma crash_spec n w : 0 < need <= frame -> installed w = false ->
  exists w', run (ex_h (S (S n))) crash (tt, w) =
    (if room w <? frame + 1000000 + need then Stopped (Signaled SIGSEGV) (tt, w') else Stopped (Exited 1) (tt, w')) /\
    out w' = out w ++ (if room w <? frame + 1000000 + need then [] else caught (count w)).
Proof.
  intros Hn Hi. unfold crash. rewrite run_bind, run_trigger. unfold ex_h at 1. cbn [ex_calls].
  destruct (room w <? need) eqn:E; zbool.
  - cbn [deliver]. rewrite Hi. cbn [negb orb obind]. rewrite (proj2 (Z.ltb_lt _ _)) by lia.
    exists w. by rewrite app_nil_r.
  - cbn [obind]. rewrite run_bind, run_trigger. unfold ex_h at 1. cbn [ex_calls].
    destruct (deliver_once n (MkProcess (used w) (room w) (mapped w) true (count w) (out w)) Hn eq_refl) as (w' & Hd & Ho).
    cbn [room out Explode.count] in Hd, Ho. exists w'. rewrite Hd. by destruct (_ <? _).
Qed.

(** The room once the limit is set, and the line that says so. *)
Definition limited (args : list (list Z)) (w : process) : Z :=
  match args with a :: _ => Z.max (mapped w) (atoi a - used w) | [] => room w end.
Definition said (args : list (list Z)) : list Z :=
  match args with a :: _ => line [bytes_of "Setting stack size to "; dec (atoi a)] | [] => [] end.

(** The handler runs to its end or not at all, although it does not block its signal: if its array leaves the stack, so does the frame of
    the next signal, and the kernel kills the process before the handler has printed anything. With a megabyte, a frame and room for a call
    below the stack pointer it reports one signal and exits with 1. A limit only takes room away that is not
    mapped yet. *)
Theorem handler_runs_once argv0 args n w : 0 < need <= frame -> need <= room w -> installed w = false ->
  (forall a, head args = Some a -> 0 <= atoi a) ->
  exists w', run (ex_h (S (S n))) (main argv0 args) (tt, w) =
    (if limited args w <? frame + 1000000 + need then Stopped (Signaled SIGSEGV) (tt, w') else Stopped (Exited 1) (tt, w')) /\
    out w' = out w ++ said args ++ (if limited args w <? frame + 1000000 + need then [] else caught (count w)).
Proof.
  intros Hn Hr Hi Ha. destruct args as [| a args]; [exact (crash_spec n w Hn Hi) |].
  unfold main. rewrite (proj2 (Z.ltb_ge _ _)) by (by apply Ha).
  rewrite run_bind, run_trigger. unfold ex_h at 1. cbn [ex_calls]. rewrite (proj2 (Z.ltb_ge (room w) need)) by done.
  cbn [obind]. rewrite run_bind, run_trigger. unfold ex_h at 1. cbn [ex_calls room with_out].
  rewrite (proj2 (Z.ltb_ge (room w) need)) by done. cbn [obind].
  match goal with |- context [run _ crash (tt, ?w1)] => destruct (crash_spec n w1 Hn Hi) as (w' & Hc & Ho) end.
  exists w'. rewrite Hc. split; [done |]. rewrite Ho. cbn [out with_out limited said room Explode.count]. by rewrite <-app_assoc.
Qed.
End Stack.

(** Eight megabytes of stack, and a limit of one of which little is mapped. *)
Lemma handler_runs_once_witness :
  exists w', run (ex_h 64 1024 2) (main (bytes_of "explode") [bytes_of "1000000"])
    (tt, MkProcess 4096 8000000 132000 false 1 []) = Stopped (Signaled SIGSEGV) (tt, w') /\
    out w' = bytes_of "Setting stack size to 1000000" ++ [10].
Proof.
  destruct (handler_runs_once 64 1024 (bytes_of "explode") [bytes_of "1000000"] 0
    (MkProcess 4096 8000000 132000 false 1 [])) as (w' & H1 & H2).
  - lia.
  - cbn. lia.
  - reflexivity.
  - intros a [= <-]. vm_compute. discriminate.
  - exists w'. split; [exact H1 | exact H2].
Defined.
End Explode.

(** ** alarm.c *)

Module Alarm.

Inductive alE : Type -> Type :=
| Seq_post_inc (which : Z) : alE Z                 (* seq++ (0) or seq2++ (1): the old value *)
| Seq_load (which : Z) : alE Z
| Malloc (n : Z) : alE Z                           (* 0 when it fails *)
| Free (p : Z) : alE unit
| Set_byte (p b : Z) : alE unit
| Printf (text : list Z) : alE unit
| Perror (s : string) : alE unit
| Sigaction_alrm : alE Z
| Setitimer (value_usec interval_usec : Z) : alE Z.

Abbreviation alM := (prog alE).

(** A message for every thousandth turn. *)
Definition report (which : Z) (who : string) : alM unit :=
  old <- trigger (Seq_post_inc which) ;;
  if Z.rem old 1000 =? 0
  then
    seq <- trigger (Seq_load which) ;;
    trigger (Printf (line [bytes_of who; bytes_of " loop: Attempting to allocate memory "; dec seq]))
  else Ret tt.

Definition sigalrm_handler (signum : Z) : alM unit :=
  report 1 "Signal" ;;
  buffer <- trigger (Malloc 4096) ;;
  if negb (buffer =? 0) then trigger (Free buffer) else Ret tt.

(** One turn of the loop of [main]. *)
Definition main_turn : alM unit :=
  report 0 "Main" ;;
  buffer <- trigger (Malloc 4096) ;;
  (if negb (buffer =? 0) then trigger (Set_byte buffer 98) else Ret tt) ;;
  trigger (Free buffer).

Definition main (fuel : nat) : alM Z :=
  r <- trigger Sigaction_alrm ;;
  if r =? -1 then trigger (Perror "Error setting up signal handler") ;; Ret 1
  else
  r <- trigger (Setitimer 4 4) ;;
  if r =? -1 then trigger (Perror "Error setting up timer") ;; Ret 1
  else loop fuel (fun _ => main_turn ;; Ret (inl tt)) tt.

(** *** The heap under interruption *)

(** The live blocks, the next fresh address, the two counters. *)
Record heap := MkHeap { live : list Z; next : Z; seqs : Z * Z; lines : nat }.

Section Heap.
(** Which allocations succeed, and where the signal arrives: before the operations of [main] with these numbers. *)
Context (succeeds : nat -> bool).

(** A block that is written or freed must be live; a counter at the end of its range must not be incremented. *)
Definition al_h : handler alE (nat * heap) := fun R e s =>
  let '(n, h) := s in
  let sq (which : Z) := if which =? 0 then (seqs h).1 else (seqs h).2 in
  match e in alE R return outcome (nat * heap) R with
  | Seq_post_inc which =>
      if sq which <? 2 ^ 31 - 1
      then Done (sq which) (n, MkHeap (live h) (next h)
             (if which =? 0 then ((seqs h).1 + 1, (seqs h).2) else ((seqs h).1, (seqs h).2 + 1)) (lines h))
      else Stopped Undefined s
  | Seq_load which => Done (sq which) s
  | Malloc _ =>
      if succeeds n then Done (next h) (S n, MkHeap (next h :: live h) (next h + 1) (seqs h) (lines h))
      else Done 0 (S n, h)
  | Free p =>
      if p =? 0 then Done tt s
      else if bool_decide (p ∈ live h)
      then Done tt (n, MkHeap (filter (fun q => q <> p) (live h)) (next h) (seqs h) (lines h))
      else Stopped Undefined s
  | Set_byte p _ => if bool_decide (p ∈ live h) then Done tt s else Stopped Undefined s
  | Printf _ => Done tt (n, MkHeap (live h) (next h) (seqs h) (S (lines h)))
  | Perror _ => Done tt s
  | Sigaction_alrm | Setitimer _ _ => Done 0 s
  end.

(** Fresh blocks are new. *)
Definition heap_ok (h : heap) : Prop := 0 < next h /\ Forall (fun p => 0 < p < next h) (live h).

(** A piece of code returns, keeps the blocks that were live and adds none. *)
Definition balanced (p : alM unit) : Prop := forall n h, heap_ok h -> (seqs h).1 < 2 ^ 31 - 1 -> (seqs h).2 < 2 ^ 31 - 1 ->
  exists n' h', run al_h p (n, h) = Done tt (n', h') /\ live h' = live h /\ heap_ok h' /\ next h <= next h' /\
    (seqs h').1 <= (seqs h).1 + 1 /\ (seqs h').2 <= (seqs h).2 + 1.

Lemma filter_fresh x l : Forall (fun p => 0 < p < x) l -> filter (fun q => q <> x) l = l.
Proof.
  induction 1 as [| p l Hp _ IH]; [done |]. rewrite filter_cons, decide_True by lia. by rewrite IH.
Qed.

Lemma report_spec which who n h : (if which =? 0 then (seqs h).1 else (seqs h).2) < 2 ^ 31 - 1 -> heap_ok h ->
  exists h', run al_h (report which who) (n, h) = Done tt (n, h') /\ live h' = live h /\ next h' = next h /\
    (seqs h').1 <= (seqs h).1 + 1 /\ (seqs h').2 <= (seqs h).2 + 1.
Proof.
  intros Hs _. unfold report. rewrite run_bind, run_trigger. cbn [al_h]. rewrite (proj2 (Z.ltb_lt _ _)) by done.
  cbn [obind]. destruct (Z.rem _ 1000 =? 0); [cbn [bind run trigger al_h obind] |]; eexists;
    (split; [reflexivity |]); cbn [live next seqs]; (split; [done |]); (split; [done |]); destruct (which =? 0); cbn; lia.
Qed.

Lemma handler_balanced : balanced (sigalrm_handler SIGALRM).
Proof.
  intros n h [Hn Hl] H1 H2. unfold sigalrm_handler. rewrite run_bind.
  destruct (report_spec 1 "Signal" n h H2 (conj Hn Hl)) as (h1 & -> & El & En & Hs1 & Hs2).
  cbn [obind]. rewrite run_bind, run_trigger. cbn [al_h]. destruct (succeeds n); cbn [obind].
  - rewrite (proj2 (Z.eqb_neq (next h1) 0)) by lia. cbn [negb]. rewrite run_trigger. cbn [al_h live next seqs lines].
    rewrite (proj2 (Z.eqb_neq (next h1) 0)) by lia. rewrite bool_decide_eq_true_2 by (left; done).
    eexists _, _. split; [reflexivity |]. cbn [live next seqs]. rewrite filter_cons, decide_False by lia.
    rewrite El, En, filter_fresh by done. unfold heap_ok. cbn [live next].
    repeat split; try lia. eapply Forall_impl; [exact Hl |]. cbn. lia.
  - eexists _, _. split; [reflexivity |]. unfold heap_ok. rewrite El, En. repeat split; try lia. done.
Qed.

Lemma main_turn_balanced : balanced main_turn.
Proof.
  intros n h [Hn Hl] H1 H2. unfold main_turn. rewrite run_bind.
  destruct (report_spec 0 "Main" n h H1 (conj Hn Hl)) as (h1 & -> & El & En & Hs1 & Hs2).
  cbn [obind]. rewrite run_bind, run_trigger. cbn [al_h]. destruct (succeeds n); cbn [obind].
  - rewrite (proj2 (Z.eqb_neq (next h1) 0)) by lia. cbn [negb]. rewrite run_bind, run_trigger. cbn [al_h live next seqs lines].
    rewrite bool_decide_eq_true_2 by (left; done). cbn [obind]. rewrite run_trigger. cbn [al_h live next seqs lines].
    rewrite (proj2 (Z.eqb_neq (next h1) 0)) by lia. rewrite bool_decide_eq_true_2 by (left; done).
    eexists _, _. split; [reflexivity |]. cbn [live next seqs]. rewrite filter_cons, decide_False by lia.
    rewrite El, En, filter_fresh by done. unfold heap_ok. cbn [live next].
    repeat split; try lia. eapply Forall_impl; [exact Hl |]. cbn. lia.
  - eexists _, _. split; [reflexivity |]. unfold heap_ok. rewrite El, En. repeat split; try lia. done.
Qed.
End Heap.
End Alarm.

(** ** itimer_rate.c *)

Module Itimer.

Inductive disposition : Type := Handler | SIG_IGN.
Inductive which : Type := ITIMER_REAL | ITIMER_VIRTUAL | ITIMER_PROF.
Inductive variant : Type := USE_REAL | USE_VIRT | USE_PROF | Default.

Inductive itE : Type -> Type :=
| Signal (sig : Z) (d : disposition) : itE unit
| Setitimer (w : which) (usecs : Z) : itE unit     (* the interval and the first value, in microseconds *)
| Rdtsc : itE Z
| Count : itE double                               (* what the handler has counted *)
| Printf_jiffy : itE unit
| Printf_hits (hits : Z) (cycles : Z) (count : double) : itE unit.   (* the ratio is kept as its operands *)

Abbreviation itM := (prog itE).

Definition SIGVTALRM : Z := 26.
Definition SIGPROF : Z := 27.

(** The handler's effect on the counter. *)
Definition handler (count : double) : double := fadd count one.

Definition timer_of (v : variant) : which :=
  match v with USE_REAL => ITIMER_REAL | USE_VIRT => ITIMER_VIRTUAL | USE_PROF | Default => ITIMER_PROF end.

Definition CYCLES : Z := 10000000000.

(** [usecs] is 100 ms without an argument. *)
Definition main (fuel : nat) (v : variant) (arg : option Z) : itM unit :=
  let usecs := default (1000 * 100) arg in
  trigger (Signal SIGPROF Handler) ;;
  trigger (Signal SIGALRM Handler) ;;
  trigger (Signal SIGVTALRM Handler) ;;
  trigger (Setitimer (timer_of v) usecs) ;;
  t1 <- trigger Rdtsc ;;
  t2 <- trigger Rdtsc ;;
  t2 <- loop fuel (fun _ =>
    t2 <- trigger Rdtsc ;;
    Ret (if u64 (t2 - t1) <? CYCLES then inl tt else inr t2)) tt ;;
  trigger (Signal SIGPROF SIG_IGN) ;;
  trigger Printf_jiffy ;;
  count <- trigger Count ;;
  count' <- trigger Count ;;
  n <- match trunc count with Some n => Ret n | None => Halt Undefined end ;;
  trigger (Printf_hits n (u64 (t2 - t1)) count').

(** Whatever the clock shows, the elapsed cycles that are reported are at least ten thousand million. *)
Definition hits_of (e : event itE) : list Z :=
  match e with existT _ (f, _) => match f with Printf_hits _ c _ => [c] | _ => [] end end.

Lemma measured fuel v arg : always anything (fun s => s = OutOfFuel \/ s = Undefined) (main fuel v arg)
  (fun _ tr => exists c, flat_map hits_of tr = [c] /\ CYCLES <= c).
Proof.
  unfold main. intros [] _ [] _ [] _ [] _ t1 _ t2 _. cbn [bind].
  eapply always_bind with (P := fun t tr => CYCLES <= u64 (t - t1) /\ flat_map hits_of tr = []).
  - induction fuel as [| fuel IH]; [by left |]. cbn [loop]. intros t _. cbn [bind].
    destruct (u64 (t - t1) <? CYCLES) eqn:E; zbool; [| by split].
    eapply always_mono; [exact IH |]. by intros t' tr [H1 H2].
  - intros t tr [H1 H2] [] _ [] _ c _ c' _. cbn [bind]. destruct (trunc c) as [n |]; [| by right].
    intros [] _. exists (u64 (t - t1)). cbn. rewrite flat_map_app, H2. by split.
Qed.
End Itimer.

(** ** sigev_thread.c *)

Module Sigev.

Definition EINTR : Z := 4.

Inductive sgE : Type -> Type :=
| Timer_create : sgE Z                             (* SIGEV_THREAD, on CLOCK_REALTIME *)
| Timer_settime (value interval : Z) : sgE unit    (* seconds *)
| Sigprocmask_query : sgE unit
| Read_stdin : sgE (Z * Z)                         (* one byte: the result and errno *)
| Gettid : sgE Z
| Printf (text : list Z) : sgE unit.

Abbreviation sgM := (prog sgE).

Definition thread_fun : sgM unit :=
  tid <- trigger Gettid ;;
  trigger (Printf (line [bytes_of "I am handling a signal and my TID is "; dec tid])).

(** The mask that is queried is changed in memory only. *)
Definition main : sgM unit :=
  trigger Timer_create ;;
  trigger (Timer_settime 2 2) ;;
  trigger Sigprocmask_query ;;
  r <- trigger Read_stdin ;;
  if r.1 =? 1 then trigger (Printf (line [bytes_of "Got a successful read?"]))
  else if r.1 =? -1
  then
    if r.2 =? EINTR then trigger (Printf (line [bytes_of "Whoa, eintr!"]))
    else trigger (Printf (line [bytes_of "Not eintr..."]))
  else Ret tt.

(** The end of the input is the one outcome that is not reported. *)
Lemma silent_only_at_end : always (fun R (e : sgE R) =>
    match e in sgE R return R -> Prop with Read_stdin => fun r => r.1 = -1 \/ r.1 = 0 \/ r.1 = 1 | _ => fun _ => True end)
  nothing main (fun _ tr => exists r, tr !! 3%nat = Some (ev Read_stdin r) /\ (length tr = 4%nat <-> r.1 = 0)).
Proof.
  intros t _ [] _ [] _ [r errno] Hr. cbn in Hr. cbn [bind fst snd].
  destruct Hr as [-> | [-> | ->]]; cbn.
  - destruct (errno =? EINTR); intros [] _; eexists; (split; [reflexivity |]); by split.
  - eexists. by split.
  - intros [] _. eexists. split; [reflexivity |]. by split.
Qed.
End Sigev.
