(* ===== verification/Loaders.v ===== *)
(** * Small experiments with loading and starting

    [src/can_pthreads_join_late], [src/dlopen_vs_ldd/main.c], [src/static_tls/dlopener.c] and [src/no_libc]: libraries that are
    loaded by hand and a program without a C library. *)
From stdpp Require Import base gmap list strings.
From Stdlib Require Import ZArith Lia.
From S2P Require Import Prelude Prog Sys Family Text.

Definition NULL : Z := 0.
Definition SIGSEGV : Z := 11.

(** ** can_pthreads_join_late *)

Module JoinLate.

(** *** foo.c *)

(** [for (int j = 0; j < n; j++) i += j] from [j] on; [None] when the [int] overflows. *)
Fixpoint sum_loop (n : nat) (j i : Z) : option Z :=
  match n with
  | O => Some i
  | S m => if i + j <? 2 ^ 31 then sum_loop m (j + 1) (i + j) else None
  end.

Inductive jlE : Type -> Type :=
| Malloc (n : Z) : jlE Z
| Free (p : Z) : jlE unit
| Pthread_create : jlE Z                           (* a thread that runs bar; its handle *)
| Pthread_join (t : Z) : jlE unit
| Dlopen (name : string) : jlE Z
| Dlsym (handle : Z) (name : string) : jlE Z
| Dlclose (handle : Z) : jlE unit
| Dlerror : jlE (option string)
| Eprintf (fmt : string) (arg : option string) : jlE unit
| Load_foo : jlE Z                                 (* the global pointer *)
| Store_foo (p : Z) : jlE unit
| Call (p : Z) : jlE unit.                         (* of the code at an address *)

Abbreviation jlM := (prog jlE).

(** [while (num--)], ten times. *)
Definition checked (i : option Z) : jlM unit := match i with Some _ => Ret tt | None => Halt Undefined end.
Definition work : jlM unit := for_range 0 10 (fun _ => checked (sum_loop (Z.to_nat 1000000) 0 0)).

Definition bar : jlM Z :=
  p <- trigger (Malloc 10) ;;
  work ;;
  trigger (Free p) ;;
  Ret NULL.

Definition foo : jlM unit :=
  t1 <- trigger Pthread_create ;;
  t2 <- trigger Pthread_create ;;
  trigger (Pthread_join t1) ;;
  trigger (Pthread_join t2).

(** *** main.c *)

Definition get_foo (libname : string) : jlM unit :=
  handle <- trigger (Dlopen libname) ;;
  if handle =? NULL then e <- trigger Dlerror ;; trigger (Eprintf "dlopen failed: %s" e)
  else
  p <- trigger (Dlsym handle "foo") ;;
  trigger (Store_foo p) ;;
  foo <- trigger Load_foo ;;
  if foo =? NULL then e <- trigger Dlerror ;; trigger (Eprintf "dlsym failed: %s" e)
  else
  foo <- trigger Load_foo ;;
  trigger (Call foo) ;;
  trigger (Dlclose handle).

Definition main : jlM Z :=
  get_foo "./libfoo.so" ;;
  foo <- trigger Load_foo ;;
  trigger (Call foo) ;;
  Ret 0.

(** *** The loader *)

(** Whether the library is mapped, the global pointer, how often [foo] has run. *)
Record loader := MkLoader { mapped : bool; foo_ptr : Z; calls : nat }.

Section Loader.
(** Whether the library is there, the address of its function (0 when it has none), and whether closing the last handle
    unmaps it. *)
Context (present : bool) (address : Z) (unloads : bool).

Definition jl_h : handler jlE (unit * loader) := fun R e s =>
  let '(u, l) := s in
  match e in jlE R return outcome (unit * loader) R with
  | Malloc _ => Done 1 s
  | Free _ => Done tt s
  | Pthread_create => Done 1 s
  | Pthread_join _ => Done tt s
  | Dlopen _ => if present then Done 1 (u, MkLoader true (foo_ptr l) (calls l)) else Done NULL s
  | Dlsym _ _ => Done address s
  | Dlclose _ => Done tt (u, MkLoader (mapped l && negb unloads) (foo_ptr l) (calls l))
  | Dlerror => Done None s
  | Eprintf _ _ => Done tt s
  | Load_foo => Done (foo_ptr l) s
  | Store_foo p => Done tt (u, MkLoader (mapped l) p (calls l))
  | Call p =>
      if negb (p =? NULL) && mapped l then Done tt (u, MkLoader (mapped l) (foo_ptr l) (S (calls l)))
      else Stopped (Signaled SIGSEGV) s
  end.

(** The program calls the function once more after it has closed the library: it returns only when closing leaves the library mapped.
    Otherwise, and when the library or its function is missing, it dies of SIGSEGV, after one call or none. *)
Theorem called_after_close :
  run jl_h main (tt, MkLoader false NULL 0) =
  if present
  then if address =? NULL then Stopped (Signaled SIGSEGV) (tt, MkLoader true NULL 0)
       else if unloads then Stopped (Signaled SIGSEGV) (tt, MkLoader false address 1)
       else Done 0 (tt, MkLoader true address 2)
  else Stopped (Signaled SIGSEGV) (tt, MkLoader false NULL 0).
Proof.
  destruct present eqn:Ep; [| unfold main, get_foo; cbn; by rewrite Ep].
  unfold main, get_foo. cbn -[Z.eqb]. rewrite Ep. cbn -[Z.eqb]. change (1 =? NULL) with false. cbn -[Z.eqb].
  destruct (address =? NULL) eqn:E; cbn -[Z.eqb]; rewrite ?E.
  - apply Z.eqb_eq in E. by subst address.
  - cbn -[Z.eqb]. destruct unloads eqn:Eu; cbn -[Z.eqb]; rewrite ?E; reflexivity.
Qed.
End Loader.

(** The sum of the first 65536 numbers is the last that fits an [int]: the loop of [bar] overflows. *)
Lemma sum_loop_spec n j i : 0 <= j -> 0 <= i -> 2 * i = j * (j - 1) ->
  sum_loop n j i = if j + Z.of_nat n <=? 65536 then Some ((j + Z.of_nat n) * (j + Z.of_nat n - 1) / 2)
                   else if 65536 <? j then sum_loop n j i else None.
Proof.
  revert j i. induction n as [| n IH]; intros j i Hj Hi H2.
  { cbn [sum_loop]. rewrite Z.add_0_r, <-H2. destruct (j <=? 65536) eqn:E; zbool.
    - f_equal. by rewrite Z.mul_comm, Z.div_mul.
    - by rewrite (proj2 (Z.ltb_lt 65536 j)). }
  destruct (65536 <? j) eqn:Ej; zbool.
  { by rewrite (proj2 (Z.leb_gt _ _)) by lia. }
  cbn [sum_loop]. destruct (i + j <? 2 ^ 31) eqn:E; zbool.
  - rewrite IH by lia. replace (j + 1 + Z.of_nat n) with (j + Z.of_nat (S n)) by lia.
    destruct (j + Z.of_nat (S n) <=? 65536) eqn:E1; zbool; [done |].
    rewrite (proj2 (Z.ltb_ge _ _)); [done |]. nia.
  - rewrite (proj2 (Z.leb_gt _ _)); [done |]. nia.
Qed.

Lemma bar_overflows : sum_loop (Z.to_nat 1000000) 0 0 = None.
Proof. rewrite sum_loop_spec by lia. rewrite Z2Nat.id by lia. reflexivity. Qed.
End JoinLate.

(** ** dlopen_vs_ldd and static_tls *)

Module Dlopen.

Inductive dlE : Type -> Type :=
| Dlopen (name : string) : dlE Z
| Dlsym (handle : Z) (name : string) : dlE Z
| Dlclose (handle : Z) : dlE unit
| Dlerror : dlE (option string)
| Eprintf (fmt : string) (args : list (option string)) : dlE unit
| Call_cos (f : Z) (x : string) : dlE string       (* of a double, as it is printed *)
| Call (f : Z) : dlE unit
| Printf (s : string) : dlE unit.

Abbreviation dlM := (prog dlE).

(** [dlopen_vs_ldd/main.c]. *)
Definition ldd_main : dlM Z :=
  handle <- trigger (Dlopen "libm.so.6") ;;
  if handle =? NULL then e <- trigger Dlerror ;; trigger (Eprintf "%s" [e]) ;; Halt (Exited 1)
  else
  trigger Dlerror ;;
  cosine <- trigger (Dlsym handle "cos") ;;
  error <- trigger Dlerror ;;
  match error with
  | Some e => trigger (Eprintf "%s" [Some e]) ;; Halt (Exited 1)
  | None =>
      v <- trigger (Call_cos cosine "2.0") ;;
      trigger (Printf v) ;;
      trigger (Dlclose handle) ;;
      Halt (Exited 0)
  end.

(** [static_tls/dlopener.c]; [TARGET] is chosen by the build. The handle is never closed. *)
Definition dlopener_main (TARGET : string) : dlM Z :=
  let target := String.append "./" TARGET in
  handle <- trigger (Dlopen target) ;;
  if handle =? NULL
  then e <- trigger Dlerror ;; trigger (Eprintf "[%s] dlopen failed: %s" [Some target; e]) ;; Ret 1
  else
  foo <- trigger (Dlsym handle "foo") ;;
  if foo =? NULL then e <- trigger Dlerror ;; trigger (Eprintf "dlsym failed: %s" [e]) ;; Ret 1
  else
  trigger (Call foo) ;;
  Ret 0.

(** Each ends with 0 exactly when it called what it looked for. *)
Definition called_of (e : event dlE) : bool :=
  match e with existT _ (f, _) => match f with Call_cos _ _ | Call _ => true | _ => false end end.

Lemma dlopener_calls TARGET : always anything nothing (dlopener_main TARGET)
  (fun r tr => (r = 0 /\ count called_of tr = 1%nat) \/ (r = 1 /\ count called_of tr = 0%nat)).
Proof.
  intros h _. cbn [bind]. destruct (h =? NULL); [intros e _ [] _; by right |].
  intros f _. cbn [bind]. destruct (f =? NULL); [intros e _ [] _; by right |]. intros [] _. by left.
Qed.
End Dlopen.

(** ** no_libc *)

Module NoLibc.

Inductive nlE : Type -> Type :=
| Syscall (call_no : Z) (path : string) (argv : list string) (envp : option (list string)) : nlE Z
| Printf (s : string) : nlE unit
| Dlsym_next (name : string) : nlE Z
| Call_opendir (f : Z) (name : string) : nlE Z.

Abbreviation nlM := (prog nlE).

(** The instruction with four registers, as the one caller fills them; the result is the lower half of rax. *)
Definition syscall_3 (call_no : Z) (path : string) (argv : list string) (envp : option (list string)) : nlM Z :=
  rax <- trigger (Syscall call_no path argv envp) ;; Ret (i32 rax).

(** The third pointer may be null. *)
Definition execvpe (pathname : string) (argv : list string) (envp : option (list string)) : nlM Z :=
  syscall_3 59 pathname argv envp.

(** There is nothing to return to. *)
Definition start : nlM unit :=
  execvpe "/usr/bin/ls" ["/tmp"%string] (Some ["LD_PRELOAD=./lolopenat.so"%string]) ;;
  execvpe "/usr/bin/ls" ["/tmp"%string] None ;;
  Halt (Signaled SIGSEGV).

(** lolopenat.c: the override of [opendir]. *)
Definition opendir (name : string) : nlM Z :=
  trigger (Printf (String.append "HELLO I OPENED <" (String.append name ">"))) ;;
  real_fun <- trigger (Dlsym_next "opendir") ;;
  trigger (Call_opendir real_fun name).

(** The program to run is given one argument vector of one element, its name: the directory that was meant is never passed. *)
Lemma start_args : always anything (fun s => s = Signaled SIGSEGV) start (fun _ _ => False).
Proof. by intros r _ r' _. Qed.
End NoLibc.

(** ** start_so *)

Module StartSo.

Inductive ssE : Type -> Type :=
| Puts (text : list Z) : ssE unit
| Flush_all : ssE unit
| Fork : ssE Z
| Execl (file : string) (args : list string) : ssE bool    (* whether the library runs now, in the place of the program *)
| Sleep (seconds : Z) : ssE unit.

Abbreviation ssM := (prog ssE).

#[export] Instance ss_forks : Forks ssE := fun R e =>
  match e in ssE R return option (Z -> Z -> R) with Fork => Some (fun ret _ => ret) | _ => None end.

#[export] Instance ss_stdio : Stdio ssE := fun e =>
  match e with existT _ (f, _) => match f with Puts t => [Put t] | Flush_all => [Flush] | _ => [] end end.

Definition starting : list Z := line [bytes_of "Starting"].

(** The library's own main ends with [exit(0)]; what the program had not written yet is gone by then. *)
Definition start : ssM unit :=
  trigger (Puts starting) ;;
  pid <- trigger Fork ;;
  if pid =? 0
  then
    replaced <- trigger (Execl "./libfoo.so" ["libfoo.so"%string]) ;;
    if (replaced : bool) then Halt (Exited 0) else Ret tt
  else Ret tt.

(** [main.cpp]; the process returns from it into [exit]. *)
Definition starter_main : ssM Z := start ;; trigger (Sleep 2) ;; Ret 0.
Definition program : ssM Z := r <- starter_main ;; trigger Flush_all ;; Halt (Exited r).

Section Starter.
Context (pid_of : path -> Z) (answer : path -> kernel ssE) (executed : bool).
Hypothesis Hpid : forall q, 0 < pid_of q.
Hypothesis Hexec : forall q tr file args, answer q _ tr (Execl file args) = executed.

(** A child that cannot execute the library goes on as a second copy of the program, and shows the parent's line a second
    time unless that has gone to a terminal before. *)
Lemma start_shows tty : map (fun q => (who q, output tty q)) (processes pid_of answer program) =
  [([], starting); ([0%nat], if executed || tty then [] else starting)].
Proof.
  pose proof (Hpid [0%nat]) as H0. unfold processes. cbn -[starting]. rewrite (proj2 (Z.ltb_lt 0 _)) by done.
  cbn -[starting]. rewrite (proj2 (Z.eqb_neq _ 0)) by lia. rewrite Hexec. by destruct executed, tty.
Qed.
End Starter.
End StartSo.
