(* ===== verification/RingMain.v ===== *)
(** * simple_ringbuffer: the demonstration, from its first line to its last

    [src/simple_ringbuffer/main.cpp], with the two operators by which the ring itself lies
    in shared memory. The parent writes one entry until it is refused and waits; the child sleeps, reads until there is
    nothing, and says so. The operations of the ring are those of [RingBuffer]; what the
    reader calls for each element is an argument, as in the source. *)
From stdpp Require Import base gmap sets list strings relations.
From Stdlib Require Import ZArith Lia.
From S2P Require Import Prelude Prog Conc Sys Text Mapping RingBuffer RingProps RingDemo.

Inductive mainE : Type -> Type :=
| Ring {R} (e : rbE R) : mainE R
| Map {R} (e : mapE R) : mainE R
| MmapObject (sz : Z) : mainE Z          (* shared and anonymous *)
| MunmapObject (ptr sz : Z) : mainE unit
| Fork : mainE Z
| Sleep (seconds : Z) : mainE unit
| Waitpid (pid : Z) : mainE unit
| Cout (text : list Z) : mainE unit.

Abbreviation mainM := (prog mainE).

Definition SIGABRT : Z := 6.

(** An exception nobody catches. *)
Definition throw {A} : mainM A := Halt (Signaled SIGABRT).

(** [size], the two positions and the two pointers. *)
Definition sizeof_RingBuffer : Z := 40.

Definition operator_new (sz : Z) : mainM Z :=
  ptr <- trigger (MmapObject sz) ;;
  if ptr =? MAP_FAILED then throw else Ret ptr.

Definition operator_delete (ptr : Z) : mainM unit := trigger (MunmapObject ptr sizeof_RingBuffer).

Definition IteratorFunction : Type := list Z -> list Z -> Z -> mainM unit.

Definition endl (l : list Z) : mainM unit := trigger (Cout (l ++ [10])).

(** 58 is a colon. *)
Definition element_text (e : list Z * list Z * Z) : list Z := e.1.1 ++ [58] ++ e.1.2 ++ [58] ++ dec e.2.

Definition my_iterator : IteratorFunction := fun filename name line =>
  endl (element_text (filename, name, line)).

Definition null_iterator : IteratorFunction := fun _ _ _ => Ret tt.

(** The ring's operations, with [fun_] in the place of the call to the reader's function. *)
Definition ring_call (fun_ : IteratorFunction) {R} (e : rbE R) : mainM R :=
  match e in rbE R return mainM R with
  | Iterate filename name line => fun_ filename name line
  | LoadWritePos => trigger (Ring LoadWritePos)
  | LoadReadPos => trigger (Ring LoadReadPos)
  | StoreReadPos v => trigger (Ring (StoreReadPos v))
  | CasWritePos a b => trigger (Ring (CasWritePos a b))
  | Yield => trigger (Ring Yield)
  | StoreByte p b => trigger (Ring (StoreByte p b))
  | LoadByte p => trigger (Ring (LoadByte p))
  end.

Fixpoint ring_calls (fun_ : IteratorFunction) {A} (p : rbM A) : mainM A :=
  match p with
  | Ret a => Ret a
  | Halt s => Halt s
  | Vis e k => r <- ring_call fun_ e ;; ring_calls fun_ (k r)
  end.

Fixpoint map_calls {A} (p : mapM A) : mainM A :=
  match p with
  | Ret a => Ret a
  | Halt s => Halt s
  | Vis e k => r <- trigger (Map e) ;; map_calls (k r)
  end.

Section Main.
Context {LB FB : Type} `{BufferOps Z LB} `{BufferOps (list Z) FB}.

(** What a new [RBIn] holds. *)
Context (in_ : RBIn LB FB).

Definition filled : RBIn LB FB :=
  fold_left (fun e i => push (bytes_of "Hello" ++ dec i) (bytes_of "Checkers" ++ dec i) i e) (seqZ 0 10) in_.

(** [while (rb.read(my_iterator)) std::cout << "Read" << std::endl;] *)
Definition show_all (size : Z) (fuel turns : nat) : mainM unit :=
  loop turns (fun _ =>
    ok <- ring_calls my_iterator (read size fuel) ;;
    if (ok : bool) then endl (bytes_of "Read") ;; Ret (inl tt) else Ret (inr tt)) tt.

(** The two branches behind [fork], and what follows the parent's. *)
Definition child (size : Z) (fuel : nat) : mainM Z :=
  trigger (Sleep 1) ;;
  show_all size fuel fuel ;;
  endl (bytes_of "Ring buffer empty") ;;
  Halt (Exited 0).

Definition parent (size : Z) (fuel : nat) (pid : Z) : mainM Z :=
  ring_calls null_iterator (write_all size fuel filled) ;;
  trigger (Waitpid pid) ;;
  ok <- ring_calls null_iterator (read size fuel) ;;
  if (ok : bool) then endl (bytes_of "Ring buffer not empty after read") ;; Ret 1 else Ret 0.

Definition forked (size : Z) (fuel : nat) (pid : Z) : mainM Z :=
  if pid =? 0 then child size fuel else parent size fuel pid.

(** Up to [fork]: the ring in shared memory. *)
Definition setup : mainM Z :=
  operator_new sizeof_RingBuffer ;;
  rb <- map_calls (RingBuffer 1024) ;;
  match rb with
  | None => throw
  | Some (size, _, _) => Ret size
  end.

Definition main (fuel : nat) : mainM Z :=
  size <- setup ;; pid <- trigger Fork ;; forked size fuel pid.
End Main.

(** ** The two processes *)

(** The shared ring, the address space the constructor works on, and what was printed. Whether the object itself can be
    mapped, and what [fork] answers, are arguments. *)
Record world := MkWorld {
  w_ring : ring;
  w_space : space;
  w_out : list (list Z) }.

Section World.
Context (size object pid : Z).

Definition w_h : handler mainE (unit * world) := fun R e s =>
  match e in mainE R return outcome (unit * world) R with
  | Ring e =>
      match rb_h size _ e (tt, w_ring s.2) with
      | Done r (_, rg) => Done r (s.1, MkWorld rg (w_space s.2) (w_out s.2))
      | Stopped st _ => Stopped st s
      end
  | Map e =>
      match map_h _ e (w_space s.2) with
      | Done r sp => Done r (s.1, MkWorld (w_ring s.2) sp (w_out s.2))
      | Stopped st _ => Stopped st s
      end
  | MmapObject _ => Done object s
  | MunmapObject _ _ => Done tt s
  | Fork => Done pid s
  | Sleep _ => Done tt s
  | Waitpid _ => Done tt s
  | Cout text => Done tt (s.1, MkWorld (w_ring s.2) (w_space s.2) (w_out s.2 ++ [text]))
  end.

(** The ring as the processes of [main] see it: who reads gets its elements by a call. *)
Definition undelivered (st : ring) : ring := MkRing (mem st) (read_pos st) (write_pos st) [].

(** What a function for the reader prints for an element. *)
Definition prints (fun_ : IteratorFunction) (show : list Z * list Z * Z -> list (list Z)) : Prop :=
  forall f n l rg sp o, run w_h (fun_ f n l) (tt, MkWorld rg sp o) = Done tt (tt, MkWorld rg sp (o ++ show (f, n, l))).

Lemma my_iterator_prints : prints my_iterator (fun e => [element_text e ++ [10]]).
Proof. intros f n l rg sp o. reflexivity. Qed.

Lemma null_iterator_prints : prints null_iterator (fun _ => []).
Proof. intros f n l rg sp o. simpl. by rewrite app_nil_r. Qed.

(** What the ring does alone it does within [main], with the calls of the reader's function in between. *)
Lemma ring_calls_run fun_ show (Hp : prints fun_ show) {A} (p : rbM A) a st st' sp o :
  run (rb_h size) p (tt, st) = Done a (tt, st') ->
  exists ds, delivered st' = delivered st ++ ds /\
    run w_h (ring_calls fun_ p) (tt, MkWorld (undelivered st) sp o) =
    Done a (tt, MkWorld (undelivered st') sp (o ++ concat (map show ds))).
Proof.
  revert st o. induction p as [b | s | R e k IH]; intros st o Hr; simpl in Hr; [| done |].
  - injection Hr as -> ->. exists []. cbn. by rewrite !app_nil_r.
  - cbn [ring_calls]. rewrite run_bind. destruct e; cbn [rb_h obind] in Hr; cbn [ring_call].
    all: try (rewrite run_trigger; cbn [w_h rb_h w_ring snd undelivered mem read_pos write_pos obind];
      cbn [mem read_pos write_pos] in Hr).
    all: try (destruct (IH _ _ o Hr) as (ds & Hd & E); exists ds; split; [exact Hd | exact E]).
    + destruct (write_pos st =? expected); cbn [obind] in *;
        destruct (IH _ _ o Hr) as (ds & Hd & E); exists ds; (split; [exact Hd | exact E]).
    + destruct (in_mapping size p); [| discriminate Hr]; cbn [obind] in *.
      destruct (IH _ _ o Hr) as (ds & Hd & E); exists ds; (split; [exact Hd | exact E]).
    + destruct (in_mapping size p); [| discriminate Hr]; cbn [obind] in *.
      destruct (IH _ _ o Hr) as (ds & Hd & E); exists ds; (split; [exact Hd | exact E]).
    + rewrite Hp. cbn [obind].
      destruct (IH _ _ (o ++ show (filename, name, line)) Hr) as (ds & Hd & E).
      exists ((filename, name, line) :: ds). cbn [delivered] in Hd. split; [by rewrite Hd, <-app_assoc |].
      cbn [map concat]. rewrite app_assoc. exact E.
Qed.

Lemma map_calls_run {A} (p : mapM A) a rg o : forall sp sp',
  run map_h p sp = Done a sp' ->
  run w_h (map_calls p) (tt, MkWorld rg sp o) = Done a (tt, MkWorld rg sp' o).
Proof.
  induction p as [b | s | R e k IH]; intros sp sp' Hr; simpl in Hr; [by injection Hr as -> -> | done |].
  cbn [map_calls]. rewrite run_bind, run_trigger. cbn [w_h w_space w_ring w_out snd fst].
  destruct (map_h R e sp) as [r sp1 | s sp1]; [| done]. cbn [obind] in *. by apply IH.
Qed.
End World.

(** ** One stage of a process after another *)

Section Reach.
Context {E : Type -> Type} {L W A : Type} (h : nat -> handler E (L * W)).

Definition reaches (c c' : config E L W A) : Prop := exists schedule, pool_run h schedule c = c'.

Lemma reaches_refl c : reaches c c.
Proof. by exists []. Qed.

Lemma reaches_trans c1 c2 c3 : reaches c1 c2 -> reaches c2 c3 -> reaches c1 c3.
Proof. intros [s1 H1] [s2 H2]. exists (s1 ++ s2). by rewrite pool_run_app, H1. Qed.

Lemma reaches_stage {B} i ts w l (p : prog E B) (f : B -> prog E A) b l' w' c :
  ts !! i = Some (l, bind p f) -> run (h i) p (l, w) = Done b (l', w') ->
  reaches (<[i := (l', f b)]> ts, w') c -> reaches (ts, w) c.
Proof.
  intros Hi Hr Hc. eapply reaches_trans; [| exact Hc].
  destruct (pool_run_prefix h i ts w l p f b l' w' Hi Hr) as [n Hn]. by eexists.
Qed.
End Reach.

(** ** What is delivered *)

Section Delivery.
Context {LB FB : Type} `{BufferOps Z LB} `{BufferOps (list Z) FB}.
Context (ls_of : LB -> list Z) (ss_of : FB -> list (list Z)).
Context `{!BufferLaws Z LB enc_word ls_of} `{!BufferLaws (list Z) FB enc_str ss_of}.
Context (in_ : RBIn LB FB) (object pid : Z) (fuel : nat).

Abbreviation size := 4096.
Abbreviation WH := (w_h size object pid).
Abbreviation entry := (filled in_).
Abbreviation Holds := (holds ls_of ss_of size).

(** What the child prints for an entry. *)
Definition report (e : RBIn LB FB) : list (list Z) :=
  map (fun x => element_text x ++ [10]) (elements ls_of ss_of e) ++ [bytes_of "Read" ++ [10]].

Context (Hfuel : size * 2 < Z.of_nat fuel).

Lemma concat_singletons {A B} (f : A -> B) l : concat (map (fun x => [f x]) l) = map f l.
Proof. induction l as [| x l IH]; [done |]. simpl. by rewrite IH. Qed.

Lemma concat_nothing {A B} (l : list A) : concat (map (fun _ => @nil B) l) = [].
Proof. by induction l. Qed.

Lemma holds_undelivered q st : Holds q st -> Holds q (undelivered st).
Proof. by intros []. Qed.

Lemma run_calls {A} fun_ show (p : rbM A) a st st' sp o ds :
  prints size object pid fun_ show -> run (rb_h size) p (tt, st) = Done a (tt, st') ->
  delivered st' = delivered st ++ ds ->
  run WH (ring_calls fun_ p) (tt, MkWorld (undelivered st) sp o) =
  Done a (tt, MkWorld (undelivered st') sp (o ++ concat (map show ds))).
Proof.
  intros Hp Hr Hd. destruct (ring_calls_run size object pid fun_ show Hp p a st st' sp o Hr) as (ds' & Hd' & ->).
  rewrite Hd in Hd'. by apply app_inv_head in Hd' as ->.
Qed.

Lemma holds_nothing st : Holds [] st -> read_pos st = write_pos st.
Proof.
  intros []. change (used ls_of ss_of []) with 0 in *. rewrite Z.add_0_r, Z.mod_small in * by lia. congruence.
Qed.

Lemma run_show_all q sp : forall n st o, Holds q st -> (length q < n)%nat ->
  exists st', Holds [] st' /\ run WH (show_all size fuel n) (tt, MkWorld (undelivered st) sp o) =
    Done tt (tt, MkWorld (undelivered st') sp (o ++ concat (map report q))).
Proof.
  induction q as [| e q IH]; intros [| n] st o Hq Hn; try (simpl in Hn; lia);
    unfold show_all; cbn [loop]; rewrite !run_bind.
  - exists st. split; [done |].
    rewrite (run_calls _ (fun e => [element_text e ++ [10]]) _ false st st sp o []); [| apply my_iterator_prints | | by rewrite app_nil_r].
    + done.
    + by apply run_read_empty, holds_nothing.
  - destruct (read_pops ls_of ss_of size ltac:(lia) ltac:(lia) e q fuel tt st Hfuel Hq) as (st1 & E1 & Hq1 & Hd1).
    rewrite (run_calls _ (fun e => [element_text e ++ [10]]) _ true st st1 sp o _ (my_iterator_prints _ _ _) E1 Hd1).
    cbn [obind]. destruct (IH n st1 (o ++ report e) Hq1 ltac:(simpl in Hn; lia)) as (st2 & Hq2 & E2).
    exists st2. split; [exact Hq2 |]. unfold show_all in E2. cbn [map concat]. rewrite app_assoc, <-E2.
    unfold endl. rewrite run_bind, run_trigger. cbn [w_h obind run fst snd w_ring w_space w_out].
    unfold report. rewrite concat_singletons, app_assoc. done.
Qed.

(** *** The entry of [main] *)

Definition nothing_in (e : RBIn LB FB) : Prop :=
  ls_of (lines e) = [] /\ ss_of (filenames e) = [] /\ ss_of (names e) = [] /\ values e = [].

Context (Hin : nothing_in in_).

Definition hello (i : Z) : list Z := bytes_of "Hello" ++ dec i.
Definition checkers (i : Z) : list Z := bytes_of "Checkers" ++ dec i.

Lemma filled_contents : ls_of (lines entry) = seqZ 0 10 /\ ss_of (filenames entry) = map hello (seqZ 0 10) /\
  ss_of (names entry) = map checkers (seqZ 0 10) /\ values entry = [].
Proof.
  destruct Hin as (Hl & Hf & Hn & Hv). unfold filled. change (seqZ 0 10) with [0; 1; 2; 3; 4; 5; 6; 7; 8; 9].
  cbn [fold_left push lines filenames names values].
  rewrite !(b_add_contents (enc := enc_word) (contents := ls_of)), Hl.
  rewrite !(b_add_contents (enc := enc_str) (contents := ss_of)), Hf, Hn. done.
Qed.

Lemma filled_ok : entry_ok ls_of ss_of entry.
Proof.
  destruct filled_contents as (Hl & Hf & Hn & _). split; rewrite ?Hl, ?Hf, ?Hn; try done.
  - apply Forall_forall. intros x Hx. apply elem_of_seqZ in Hx. lia.
  - apply Forall_forall. intros x Hx. apply Forall_forall. intros b Hb. revert x Hx b Hb.
    apply no_zeros. vm_compute. reflexivity.
  - apply Forall_forall. intros x Hx. apply Forall_forall. intros b Hb. revert x Hx b Hb.
    apply no_zeros. vm_compute. reflexivity.
Qed.

Lemma filled_zlen : zlen (image ls_of ss_of entry) = 306.
Proof.
  destruct filled_contents as (Hl & Hf & Hn & Hv). rewrite image_zlen, Hl, Hf, Hn, Hv. vm_compute. reflexivity.
Qed.

(** The ten lines for one entry, and what follows them. *)
Definition ten_lines : list (list Z) :=
  map (fun i => hello i ++ [58] ++ checkers i ++ [58] ++ dec i ++ [10]) (seqZ 0 10) ++ [bytes_of "Read" ++ [10]].

Lemma report_filled : report entry = ten_lines.
Proof.
  destruct filled_contents as (Hl & Hf & Hn & _). unfold report, elements. rewrite Hl, Hf, Hn.
  vm_compute. reflexivity.
Qed.

(** *** The two processes *)

Lemma used_replicate n e : used ls_of ss_of (replicate n e) = Z.of_nat n * zlen (image ls_of ss_of e).
Proof. induction n as [| n IH]; [reflexivity |]. cbn [replicate]. rewrite used_cons, IH. lia. Qed.

(** The parent fills the ring with thirteen copies. *)
Lemma run_parent_writes sp o : exists st, Holds (replicate 13 entry) st /\
  run WH (ring_calls null_iterator (write_all size fuel entry)) (tt, MkWorld (undelivered fresh) sp o) =
  Done tt (tt, MkWorld (undelivered st) sp o).
Proof.
  pose proof filled_zlen as Hz.
  replace fuel with (Datatypes.S (Nat.pred fuel)) by lia.
  destruct (run_write_all ls_of ss_of size ltac:(lia) ltac:(lia) entry tt (Nat.pred fuel) filled_ok ltac:(lia) [] fresh
    (fresh_holds ls_of ss_of size ltac:(lia)) eq_refl) as (k & st & E & Hq & Hd & Hk).
  { change (used ls_of ss_of []) with 0. lia. }
  change (used ls_of ss_of []) with 0 in Hk. cbn [app] in Hq.
  pose proof (ho_room _ _ _ _ _ Hq) as Hroom. rewrite used_replicate, Hz in *. assert (k = 13%nat) as -> by lia.
  exists st. split; [exact Hq |].
  rewrite (run_calls null_iterator (fun _ => []) _ tt fresh st sp o []); [| apply null_iterator_prints | exact E |].
  - simpl. by rewrite app_nil_r.
  - by rewrite Hd.
Qed.

Lemma run_children st sp o : Holds (replicate 13 entry) st -> exists st', Holds [] st' /\
  run WH (show_all size fuel fuel) (tt, MkWorld (undelivered st) sp o) =
  Done tt (tt, MkWorld (undelivered st') sp (o ++ concat (replicate 13 ten_lines))).
Proof.
  intros Hq. destruct (run_show_all (replicate 13 entry) sp fuel st o Hq) as (st' & Hq' & E).
  { rewrite length_replicate. lia. }
  exists st'. split; [exact Hq' |]. rewrite E. by rewrite <-report_filled, <-(fmap_replicate report 13 entry).
Qed.

Lemma run_final_read q st sp o : Holds q st -> q = [] \/ q = replicate 13 entry -> exists rg,
  run WH (ring_calls null_iterator (read size fuel)) (tt, MkWorld (undelivered st) sp o) =
  Done (bool_decide (q <> [])) (tt, MkWorld rg sp o).
Proof.
  intros Hq [-> | ->].
  - exists (undelivered st). rewrite (run_calls _ (fun _ => []) _ false st st sp o []).
    + simpl. by rewrite app_nil_r.
    + apply null_iterator_prints.
    + by apply run_read_empty, holds_nothing.
    + by rewrite app_nil_r.
  - destruct (read_pops ls_of ss_of size ltac:(lia) ltac:(lia) entry _ fuel tt st Hfuel Hq) as (st1 & E1 & Hq1 & Hd1).
    exists (undelivered st1).
    rewrite (run_calls _ (fun _ => []) _ true st st1 sp o _ (null_iterator_prints _ _ _) E1 Hd1).
    by rewrite concat_nothing, app_nil_r.
Qed.

Lemma run_setup sp : clean sp ->
  match run WH setup (tt, MkWorld (undelivered fresh) sp []) with
  | Stopped s _ => s = Signaled SIGABRT
  | Done sz (_, w) => sz = size /\ w_ring w = undelivered fresh /\ w_out w = []
  end.
Proof.
  intros Hc. unfold setup, operator_new. rewrite run_bind, run_bind, run_trigger. cbn [w_h obind].
  destruct (object =? MAP_FAILED); [done |]. cbn [run obind].
  assert (returns (run map_h (RingBuffer 1024) sp) (fun r _ => match r with Some (sz, _, _) => sz = size | None => True end)) as Hr.
  { unfold RingBuffer. change (PAGE_ALIGN 1024) with (1 * size).
    eapply returns_run_bind; [apply (memfd_attempt 1 ltac:(lia) sp Hc) |]. intros [[b m] |] sp1 (_ & Hc1 & _); [done |].
    eapply returns_run_bind; [apply (tmpfile_attempt 1 ltac:(lia) sp1 Hc1) |]. by intros [[b m] |] sp2 _. }
  rewrite run_bind. destruct (run map_h (RingBuffer 1024) sp) as [r sp' | s sp'] eqn:E; [| done].
  rewrite (map_calls_run _ _ _ _ _ _ _ _ _ E). cbn [obind]. destruct r as [[[sz b] m] |]; [| done]. by rewrite Hr.
Qed.

(** C14. The demonstration, whatever its system calls answer: without the ring it is aborted. With two processes, and a
    child that sleeps until the parent has written, the child shows the parent's entry thirteen times, which is as often as
    it fits, and then an empty ring, and the parent agrees and returns 0. Without
    a child nobody reads, and the parent says so and returns 1. *)
Theorem demonstration sp : clean sp ->
  match run WH setup (tt, MkWorld (undelivered fresh) sp []) with
  | Stopped s _ => s = Signaled SIGABRT
  | Done sz (_, w) =>
      (0 < pid -> exists w', w_out w' = concat (replicate 13 ten_lines) ++ [bytes_of "Ring buffer empty" ++ [10]] /\
        reaches (fun _ => WH) ([(tt, forked in_ sz fuel pid); (tt, forked in_ sz fuel 0)], w)
          ([(tt, Ret 0); (tt, Halt (Exited 0))], w')) /\
      (pid = -1 -> exists w', w_out w' = [bytes_of "Ring buffer not empty after read" ++ [10]] /\
        run WH (forked in_ sz fuel pid) (tt, w) = Done 1 (tt, w'))
  end.
Proof.
  intros Hc. pose proof (run_setup sp Hc) as Hs.
  destruct (run WH setup _) as [sz [[] w] |]; [| exact Hs]. destruct w as [rg sp1 o], Hs as (-> & Hr & Ho).
  simpl in Hr, Ho. subst rg o. destruct (run_parent_writes sp1 []) as (st1 & Hq1 & E1).
  split; intros Hpid; unfold forked; cbn [Z.eqb]; rewrite (proj2 (Z.eqb_neq pid 0)) by lia.
  - destruct (run_children st1 sp1 [] Hq1) as (st2 & Hq2 & E2).
    destruct (run_final_read [] st2 sp1 (concat (replicate 13 ten_lines) ++ [bytes_of "Ring buffer empty" ++ [10]]) Hq2
      ltac:(by left)) as (rg & E3).
    eexists. split; [| eapply (reaches_stage _ 0); [reflexivity | exact E1 |]].
    2: { eapply (reaches_stage _ 1); [reflexivity | by rewrite run_trigger |].
         eapply (reaches_stage _ 1); [reflexivity | exact E2 |].
         eapply (reaches_stage _ 1); [reflexivity | unfold endl; by rewrite run_trigger |].
         eapply (reaches_stage _ 0); [reflexivity | by rewrite run_trigger |].
         eapply (reaches_stage _ 0); [reflexivity | exact E3 |]. apply reaches_refl. }
    reflexivity.
  - destruct (run_final_read _ st1 sp1 [] Hq1 ltac:(by right)) as (rg & E2).
    eexists. split; [| unfold parent; rewrite run_bind, E1; cbn [obind]; rewrite run_bind, run_trigger; cbn [w_h obind];
      rewrite run_bind, E2; cbn; reflexivity]. reflexivity.
Qed.
End Delivery.

Definition empty_in : demo_rbin := MkRBIn [] [] [] [].

Lemma demonstration_witness :
  match run (w_h 4096 0 7) setup (tt, MkWorld (undelivered fresh) empty_space []) with
  | Stopped s _ => False
  | Done sz (_, w) => exists w',
      reaches (fun _ => w_h 4096 0 7) ([(tt, forked empty_in sz demo_fuel 7); (tt, forked empty_in sz demo_fuel 0)], w)
          ([(tt, Ret 0); (tt, Halt (Exited 0))], w') /\ length (w_out w') = 144%nat
  end.
Proof.
  assert (clean empty_space) as Hc.
  { split; simpl; [intros; apply lookup_empty | intros; apply lookup_empty | lia | lia]. }
  pose proof (demonstration ws ss empty_in 0 7 demo_fuel demo_fuel_ok ltac:(repeat split) empty_space Hc) as Hd.
  destruct (run (w_h 4096 0 7) setup _) as [sz [u w] | s w] eqn:E; [| vm_compute in E; discriminate E].
  destruct Hd as [Hd _]. destruct (Hd ltac:(lia)) as (w' & Ho & Hr). exists w'. split; [exact Hr |]. by rewrite Ho.
Defined.
