(* ===== verification/Remote.v ===== *)
(** * Reading memory by its address: process_vm_readv_bench and ptrace_me_yama

    [src/process_vm_readv_bench/test.c] measures the system call on the own process, for many numbers of regions
    and sizes; [src/ptrace_me_yama/test.c] is meant to find out when a child may read its parent. *)
From stdpp Require Import base gmap list strings.
From Stdlib Require Import ZArith Lia.
From S2P Require Import Prelude Prog Sys Family Text.

(** ** process_vm_readv_bench *)

Module Bench.

Definition MAX_ARENAS : nat := 128.
Definition ARENA_SIZE : Z := 4096.
Definition MAP_FAILED : Z := -1.

Inductive benchE : Type -> Type :=
| Mmap (len : Z) : benchE Z
| Fprintf (s : string) : benchE unit
| Getpid : benchE Z
| Rdtsc : benchE Z
| Process_vm_readv (pid : Z) (local remote : list (Z * Z)) : benchE Z
| PrintHeader : benchE unit
| PrintRow (copies sz bytes cycles : Z) : benchE unit.   (* the ratio is that of the last two *)

Abbreviation benchM := (prog benchE).

(** The globals. *)
Record globals := MkGlobals { arena : list Z; source : Z; pid : Z }.

Definition mmap_or_exit (len : Z) : benchM Z :=
  p <- trigger (Mmap len) ;;
  if p =? MAP_FAILED then trigger (Fprintf "mmap failed") ;; Halt (Exited 1) else Ret p.

Fixpoint map_arenas (n : nat) : benchM (list Z) :=
  match n with
  | O => Ret []
  | S m => p <- mmap_or_exit ARENA_SIZE ;; ps <- map_arenas m ;; Ret (p :: ps)
  end.

(** The constructor. *)
Definition init : benchM globals :=
  arena <- map_arenas MAX_ARENAS ;;
  source <- mmap_or_exit (ARENA_SIZE * Z.of_nat MAX_ARENAS) ;;
  pid <- trigger Getpid ;;
  Ret (MkGlobals arena source pid).

(** The first [copies] elements of both arrays; what an earlier call left behind them is not passed. *)
Definition regions (g : globals) (copies : nat) (src sz : Z) : option (list (Z * Z) * list (Z * Z)) :=
  if (copies <=? length (arena g))%nat
  then Some (map (fun a => (a, sz)) (take copies (arena g)),
             map (fun i => (u64 (src + u64 (Z.of_nat i * sz)), sz)) (seq 0 copies))
  else None.

Definition test_process_vm_readv (g : globals) (copies : nat) (src sz : Z) : benchM bool :=
  match regions g copies src sz with
  | None => Halt Undefined
  | Some (local, remote) =>
      r <- trigger (Process_vm_readv (pid g) local remote) ;;
      Ret (u64 (sz * Z.of_nat copies) =? u64 r)
  end.

Definition run_trial (g : globals) (copies : nat) (sz : Z) : benchM Z :=
  start <- trigger Rdtsc ;;
  ok <- test_process_vm_readv g copies (source g) sz ;;
  if negb (ok : bool) then Ret (2 ^ 64 - 1)
  else now <- trigger Rdtsc ;; Ret (u64 (now - start)).

Definition print_trial (g : globals) (copies : nat) (sz : Z) : benchM unit :=
  cycles <- run_trial g copies sz ;;
  trigger (PrintRow (Z.of_nat copies) sz (u64 (Z.of_nat copies * sz)) cycles).

(** [for (v = 1; v <= hi; v *= 2)]. *)
Definition doubling (fuel : nat) (hi : Z) (body : Z -> benchM unit) : benchM unit :=
  loop fuel (fun v => if v <=? hi then body v ;; Ret (inl (v * 2)) else Ret (inr tt)) 1.

(** Nine values of [copies] and fourteen of [sz], the last of which end the loops. *)
Definition bench_main (g : globals) (args : list (list Z)) : benchM Z :=
  if bool_decide (head args = Some (bytes_of "header")) then trigger PrintHeader ;; Ret 0
  else
  for_range 0 100 (fun _ =>
    doubling 9 128 (fun copies =>
      doubling 14 4096 (fun sz => print_trial g (Z.to_nat copies) sz))) ;;
  Ret 0.

Definition program (args : list (list Z)) : benchM Z := g <- init ;; bench_main g args.

(** *** The rows *)

(** The kernel gives whole pages that lie below the upper half of the addresses, a number of a process that is positive and 64 bits of the counter. *)
Definition bench_answers (R : Type) (e : benchE R) : R -> Prop :=
  match e in benchE R return R -> Prop with
  | Mmap len => fun p => p = MAP_FAILED \/ 0 < p /\ p + len <= 2 ^ 63
  | Rdtsc => fun t => 0 <= t < 2 ^ 64
  | _ => fun _ => True
  end.

(** A row and the system call it is about: as many regions as it says, each at the start of an arena and not longer
    than it, read from regions that follow each other from the start of the source and end within it. *)
Definition trial (g : globals) (tr : list (event benchE)) : Prop :=
  exists copies sz local remote t r, (1 <= copies <= 128)%nat /\ 1 <= sz <= ARENA_SIZE /\
    local = map (fun a => (a, sz)) (take copies (arena g)) /\ length local = copies /\
    remote = map (fun i => (source g + Z.of_nat i * sz, sz)) (seq 0 copies) /\
    Forall (fun x => source g <= x.1 /\ x.1 + x.2 <= source g + ARENA_SIZE * Z.of_nat MAX_ARENAS) remote /\
    let bytes := Z.of_nat copies * sz in
    let call := [ev Rdtsc t; ev (Process_vm_readv (pid g) local remote) r] in
    (u64 r <> bytes /\ tr = call ++ [ev (PrintRow (Z.of_nat copies) sz bytes (2 ^ 64 - 1)) tt] \/
     exists t', u64 r = bytes /\
       tr = call ++ [ev Rdtsc t'; ev (PrintRow (Z.of_nat copies) sz bytes (u64 (t' - t))) tt]).

Definition good (g : globals) : Prop :=
  length (arena g) = MAX_ARENAS /\ 0 < source g /\ source g + ARENA_SIZE * Z.of_nat MAX_ARENAS <= 2 ^ 63.

Definition trials (g : globals) (n : nat) (tr : list (event benchE)) : Prop :=
  exists ts, tr = concat ts /\ length ts = n /\ Forall (trial g) ts.

Lemma trials_app g n m t1 t2 : trials g n t1 -> trials g m t2 -> trials g (n + m) (t1 ++ t2).
Proof.
  intros (ts1 & -> & <- & H1) (ts2 & -> & <- & H2). exists (ts1 ++ ts2).
  rewrite concat_app, length_app. split; [done |]. split; [done |]. by apply Forall_app_2.
Qed.

Lemma print_trial_ok g copies sz : good g -> (1 <= copies <= 128)%nat -> 1 <= sz <= ARENA_SIZE ->
  always bench_answers nothing (print_trial g copies sz) (fun _ tr => trials g 1 tr).
Proof.
  intros (Ha & Hs0 & Hs) Hc Hsz. unfold print_trial, run_trial, test_process_vm_readv, regions, ARENA_SIZE, MAX_ARENAS in *.
  assert (forall i, (i < copies)%nat -> 0 <= Z.of_nat i * sz /\ Z.of_nat i * sz + sz <= 4096 * 128) as Hi by (intros; nia).
  rewrite (proj2 (Nat.leb_le _ _)) by (rewrite Ha; lia).
  assert (map (fun i => (u64 (source g + u64 (Z.of_nat i * sz)), sz)) (seq 0 copies) =
          map (fun i => (source g + Z.of_nat i * sz, sz)) (seq 0 copies)) as ->.
  { apply map_ext_in. intros i Hin%in_seq. destruct (Hi i); [lia |].
    rewrite (wrap_small 64 (Z.of_nat i * sz)), wrap_small by lia. done. }
  assert (u64 (Z.of_nat copies * sz) = Z.of_nat copies * sz) as E by (apply wrap_small; nia).
  cbn [bind trigger]. intros t Ht. cbn [bind]. intros r _. cbn [bind].
  rewrite (Z.mul_comm sz), E.
  match goal with |- context [Process_vm_readv _ ?l ?m] => set (local := l); set (remote := m) end.
  assert (forall tr, (u64 r <> Z.of_nat copies * sz /\ tr = [ev Rdtsc t; ev (Process_vm_readv (pid g) local remote) r] ++
      [ev (PrintRow (Z.of_nat copies) sz (Z.of_nat copies * sz) (2 ^ 64 - 1)) tt] \/
    exists t', u64 r = Z.of_nat copies * sz /\ tr = [ev Rdtsc t; ev (Process_vm_readv (pid g) local remote) r] ++
      [ev Rdtsc t'; ev (PrintRow (Z.of_nat copies) sz (Z.of_nat copies * sz) (u64 (t' - t))) tt]) -> trials g 1 tr) as Hk.
  { intros tr Htr. exists [tr]. split; [by rewrite concat_cons, app_nil_r |]. split; [done |]. constructor; [| done].
    exists copies, sz, local, remote, t, r. split; [done |]. split; [done |]. split; [done |]. split.
    { unfold local. rewrite length_map, length_take, Ha. lia. }
    split; [done |]. split; [| exact Htr].
    apply Forall_map, Forall_seq. intros i Hin. cbn. unfold ARENA_SIZE, MAX_ARENAS. destruct (Hi i); lia. }
  destruct (Z.of_nat copies * sz =? u64 r) eqn:Er; cbn [negb bind]; zbool.
  - intros t' _. cbn [bind]. rewrite ?E. intros [] _. apply Hk. right. exists t'. by split.
  - rewrite ?E. intros [] _. apply Hk. left. by split.
Qed.

(** A loop of [S n] turns, each of which makes [m] rows. *)
Lemma doubling_ok g (n m j fuel : nat) hi (body : Z -> benchM unit) : hi = 2 ^ Z.of_nat (j + n) -> (S n < fuel)%nat ->
  (forall v, 1 <= v <= hi -> always bench_answers nothing (body v) (fun _ tr => trials g m tr)) ->
  always bench_answers nothing
    (loop fuel (fun v => if v <=? hi then body v ;; Ret (inl (v * 2)) else Ret (inr tt)) (2 ^ Z.of_nat j))
    (fun _ tr => trials g (S n * m) tr).
Proof.
  intros Hhi Hf Hb. revert j fuel Hhi Hf.
  assert (forall j fuel, hi < 2 ^ Z.of_nat j -> (0 < fuel)%nat ->
    always bench_answers nothing (loop fuel (fun v => if v <=? hi then body v ;; Ret (inl (v * 2)) else Ret (inr tt))
      (2 ^ Z.of_nat j)) (fun _ tr => trials g 0 tr)) as Hend.
  { intros j [| fuel] Hj Hf; [lia |]. cbn [loop]. rewrite (proj2 (Z.leb_gt _ _)) by done. by exists []. }
  assert (forall j, 0 < 2 ^ Z.of_nat j) as Hpos by (intros; apply Z.pow_pos_nonneg; lia).
  induction n as [| n IH]; intros j [| fuel] Hhi Hf; try lia.
  all: assert (2 ^ Z.of_nat j <= hi) as Hle by (rewrite Hhi; apply Z.pow_le_mono_r; lia).
  all: cbn [loop]; rewrite (proj2 (Z.leb_le _ _)) by done.
  all: assert (2 ^ Z.of_nat j * 2 = 2 ^ Z.of_nat (S j)) as E by (rewrite Nat2Z.inj_succ, Z.pow_succ_r by lia; lia).
  all: rewrite E; eapply always_bind; [eapply always_bind; [apply Hb; specialize (Hpos j); lia |] |].
  1, 3: by intros [] tr Htr; cbn; rewrite app_nil_r; instantiate (1 := fun r tr => r = inl (2 ^ Z.of_nat (S j)) /\ trials g m tr); split.
  all: intros r tr [-> Htr]; cbn beta iota.
  - eapply always_mono; [apply Hend; [| lia] |].
    + rewrite Hhi, Nat.add_0_r, <-E. specialize (Hpos j). lia.
    + intros [] tr' Htr'. rewrite Nat.mul_1_l, <-(Nat.add_0_r m). by apply trials_app.
  - eapply always_mono; [apply IH; [by rewrite Hhi, Nat.add_succ_r | lia] |].
    intros [] tr' Htr'. by apply (trials_app g m (S n * m)).
Qed.

Lemma rounds_ok g n lo m (body : Z -> benchM unit) :
  (forall i, always bench_answers nothing (body i) (fun _ tr => trials g m tr)) ->
  always bench_answers nothing (for_range lo n body) (fun _ tr => trials g (n * m) tr).
Proof.
  intros Hb. revert lo. induction n as [| n IH]; intros lo; [by exists [] |]. cbn [for_range].
  eapply always_bind; [apply Hb |]. intros [] tr Htr. eapply always_mono; [apply IH |].
  intros [] tr' Htr'. by apply (trials_app g m (n * m)).
Qed.

Definition failed (s : stop) : Prop := s = Exited 1.

Lemma mmap_ok len : always bench_answers failed (mmap_or_exit len) (fun p tr => 0 < p /\ p + len <= 2 ^ 63 /\ tr = [ev (Mmap len) p]).
Proof.
  intros p Hp. cbn in *. destruct (p =? MAP_FAILED) eqn:E; [by intros [] _ |].
  zbool. destruct Hp as [-> | [H1 H2]]; done.
Qed.

Lemma map_arenas_ok n : always bench_answers failed (map_arenas n) (fun ps tr =>
  length ps = n /\ tr = map (fun p => ev (Mmap ARENA_SIZE) p) ps).
Proof.
  induction n as [| n IH]; [done |]. cbn [map_arenas]. eapply always_bind; [apply mmap_ok |].
  intros p tr (_ & _ & ->). eapply always_bind; [exact IH |]. intros ps tr' [<- ->]. cbn. by rewrite app_nil_r.
Qed.

Lemma init_ok : always bench_answers failed init (fun g tr => good g /\
  tr = map (fun p => ev (Mmap ARENA_SIZE) p) (arena g) ++
       [ev (Mmap (ARENA_SIZE * Z.of_nat MAX_ARENAS)) (source g); ev Getpid (pid g)]).
Proof.
  unfold init. eapply always_bind; [apply map_arenas_ok |]. intros ps tr [Hl ->].
  eapply always_bind; [apply mmap_ok |]. intros s tr (H0 & H1 & ->). intros p _. cbn. done.
Qed.

(** The constructor maps the arenas and the source or ends the program with status 1; then, whatever the system call answers, the
    program makes exactly 10400 trials, none of which reaches outside the regions it mapped, and returns 0. *)
Theorem bench_inside args : head args <> Some (bytes_of "header") ->
  always bench_answers failed (program args) (fun code tr => code = 0 /\ exists g rows,
    tr = map (fun p => ev (Mmap ARENA_SIZE) p) (arena g) ++
         [ev (Mmap (ARENA_SIZE * Z.of_nat MAX_ARENAS)) (source g); ev Getpid (pid g)] ++ rows /\
    length (arena g) = MAX_ARENAS /\ trials g 10400 rows).
Proof.
  intros Hargs. unfold program. eapply always_bind; [apply init_ok |]. intros g tr [Hg ->].
  unfold bench_main. rewrite bool_decide_false by done.
  eapply (always_weaken bench_answers bench_answers nothing); [done.. |].
  eapply always_bind; [apply (rounds_ok g 100 0 104) |].
  - intros _. apply (doubling_ok g 7 13 0 9); [done | lia |]. intros copies Hc.
    apply (doubling_ok g 12 1 0 14); [done | lia |]. intros sz Hsz. by apply print_trial_ok; [| lia |].
  - intros [] rows Hrows. split; [done |]. exists g, rows. rewrite app_nil_r, <-app_assoc. by destruct Hg.
Qed.
End Bench.

(** ** ptrace_me_yama *)

Module Yama.

Definition super_secret_message : list Z := bytes_of "Hello, this is a super secret message!" ++ [10; 0].
Definition super_secret_message_len : Z := zlen super_secret_message.

Definition EPERM : Z := 1.
Definition EFAULT : Z := 14.

Inductive yamE : Type -> Type :=
| Fork : yamE Z
| Getpid : yamE Z
| Usleep (us : Z) : yamE unit
| Execve (args : list (list Z)) : yamE bool          (* true: this process is now the file args[0] *)
| Prctl_set_ptracer (pid : Z) : yamE Z
| Waitpid (pid : Z) : yamE Z
| Process_vm_readv (pid len ptr len' : Z) : yamE (list Z + Z)   (* the bytes, or errno *)
| Perror (s : string) : yamE unit
| Printf (text : list Z) : yamE unit.

Abbreviation yamM := (prog yamE).

#[export] Instance yam_forks : Forks yamE := fun R e =>
  match e in yamE R return option (Z -> Z -> R) with Fork => Some (fun ret _ => ret) | _ => None end.

(** [snprintf] into 32 bytes. *)
Definition snprintf32 (text : list Z) : list Z := take 31 text.

Section Program.
(** [fuel] bounds the calls of [waitpid]; the message lies at [message_at]; [image] is the program as it starts afresh. *)
Context (fuel : nat) (message_at : Z) (image : list (list Z) -> yamM Z).

(** No caller looks at the result, which the parent's branch does not set. *)
Definition create_child_and_wait (use_ptracer : bool) : yamM unit :=
  pid <- trigger Fork ;;
  if pid =? -1 then trigger (Perror "fork")
  else
  ppid <- trigger Getpid ;;
  if pid =? 0
  then
    trigger (Usleep 500000) ;;
    let ppid_str := snprintf32 (dec ppid) in
    let ptr_str := snprintf32 (pointer message_at) in
    trigger (Printf (line [bytes_of "The secret message is at 0x"; pointer message_at])) ;;
    ok <- trigger (Execve [bytes_of "/proc/self/exe"; ppid_str; ptr_str]) ;;
    if (ok : bool) then code <- image [bytes_of "/proc/self/exe"; ppid_str; ptr_str] ;; Halt (Exited code)
    else trigger (Perror "execve")
  else
    r <- (if use_ptracer then trigger (Prctl_set_ptracer pid) else Ret 0) ;;
    if use_ptracer && (r =? -1) then trigger (Perror "prctl")
    else
    loop fuel (fun _ =>
      r <- trigger (Waitpid pid) ;;
      if r =? -1 then Ret (inr tt) else Ret (inl tt)) tt.

(** The bytes in [copy_buffer], which is zero at first, or errno. *)
Definition read_remote_buffer (ppid ptr : Z) : yamM (list Z + Z) :=
  let n := super_secret_message_len in
  res <- trigger (Process_vm_readv ppid n ptr n) ;;
  match res with
  | inl bytes => Ret (inl (bytes ++ drop (length bytes) (replicate (length super_secret_message) 0)))
  | inr errno => Ret (inr errno)
  end.

Definition print_secret_message (ppid ptr : Z) : yamM unit :=
  r <- read_remote_buffer ppid ptr ;;
  match r with
  | inl copy_buffer =>
      match strlen copy_buffer with
      | Some _ => trigger (Printf (line [bytes_of "Secret message: "; c_str copy_buffer]))
      | None => Halt Undefined
      end
  | inr errno =>
      (if errno =? EPERM then trigger (Printf (line [bytes_of "Failed to read secret message: EPERM"]))
       else if errno =? EFAULT then trigger (Printf (line [bytes_of "Failed to read secret message: EFAULT"]))
       else trigger (Perror "Failed to read secret message")) ;;
      trigger (Printf (line [bytes_of "Failed to read secret message"]))
  end.

Definition main (argv : list (list Z)) : yamM Z :=
  match argv with
  | [_] => create_child_and_wait true ;; Ret 0
  | [_; a1] => create_child_and_wait (bool_decide (a1 = bytes_of "true")) ;; Ret 0
  | [_; a1; a2] =>
      let ppid := atoi a1 in
      let ptr := strtoull a2 in
      trigger (Printf (line [bytes_of "Going to read from PID "; dec ppid; bytes_of " at address "; pointer ptr])) ;;
      print_secret_message ppid ptr ;;
      Ret 0
  | _ =>
      trigger (Printf (line [bytes_of "Usage: "; default (bytes_of "(null)") (head argv);
                             bytes_of " [use_ptracer] [pid] [address]"])) ;;
      Ret 1
  end.
End Program.

(** The program, which executes itself at most [n] times. *)
Fixpoint program (n fuel : nat) (message_at : Z) (argv : list (list Z)) : yamM Z :=
  match n with
  | O => Halt OutOfFuel
  | S m => main fuel message_at (program m fuel message_at) argv
  end.

(** *** Who reads whom *)

Definition yam_answers (R : Type) (e : yamE R) : R -> Prop :=
  match e in yamE R return R -> Prop with
  | Getpid => fun p => 0 < p < 2 ^ 31
  | _ => fun _ => True
  end.

Definition reads_of (e : event yamE) : list (Z * Z) :=
  match e with existT _ (f, _) => match f with Process_vm_readv pid _ ptr _ => [(pid, ptr)] | _ => [] end end.
Definition pids_of (e : event yamE) : list Z :=
  match e with existT _ (f, r) => match f in yamE R return R -> list Z with Getpid => fun p => [p] | _ => fun _ => [] end r end.

Definition reads (tr : list (event yamE)) : list (Z * Z) := flat_map reads_of tr.
Definition own_pids (tr : list (event yamE)) : list Z := flat_map pids_of tr.

(** A process reads nothing, or once: from the number it got itself, at the address of the message. *)
Definition self_reading (message_at : Z) (old tr : list (event yamE)) (r : Z + stop) : Prop :=
  reads tr = [] \/ exists own, own_pids tr = [own] /\ reads tr = [(own, message_at)].

Lemma short_numbers p m : 0 < p < 2 ^ 31 -> 0 < m < 2 ^ 64 ->
  atoi (snprintf32 (dec p)) = p /\ strtoull (snprintf32 (pointer m)) = m.
Proof.
  intros Hp Hm. destruct (strtoull_pointer m Hm) as [Hv Hl]. unfold snprintf32, zlen in *.
  pose proof (dec_length p 9 ltac:(split; [lia |]; cbn; lia)) as Hd. unfold zlen in Hd.
  rewrite !take_ge by lia. split; [apply atoi_dec; lia | exact Hv].
Qed.

Lemma reader_ok m old tr0 (Q : list (event yamE) -> list (event yamE) -> Z + stop -> Prop) n fuel at_ a1 a2 :
  reads tr0 = [] -> own_pids tr0 = [atoi a1] -> strtoull a2 = m ->
  (forall tr r, (exists own, own_pids tr = [own] /\ reads tr = [(own, m)]) -> Q old tr r) ->
  everyone yam_answers (code <- program (S n) fuel at_ [bytes_of "/proc/self/exe"; a1; a2] ;; Halt (Exited code)) old tr0
    (fun o tr (r : unit + stop) => match r with inr s => Q o tr (inr s) | inl _ => False end).
Proof.
  intros Hr Hp Hm HQ. cbn [program main]. rewrite Hm. unfold print_secret_message, read_remote_buffer.
  set (ppid := atoi a1) in *. intros [] _. cbn [bind]. intros res _. cbn [bind].
  assert (forall text tr' r, reads tr' = [] -> own_pids tr' = [] ->
    Q old (((tr0 ++ [ev (Printf text) tt]) ++ [ev (Process_vm_readv ppid super_secret_message_len m super_secret_message_len) res]) ++ tr') r) as Hk.
  { intros text tr' r H1 H2. apply HQ. exists ppid. unfold reads, own_pids in *. rewrite !flat_map_app, Hr, Hp, H1, H2.
    by destruct res. }
  destruct res as [bytes | errno]; cbn [bind].
  - destruct (strlen _); cbn [bind]; [intros [] _; by apply Hk |].
    specialize (Hk (line [bytes_of "Going to read from PID "; dec ppid; bytes_of " at address "; pointer m]) []).
    rewrite app_nil_r in Hk. by apply Hk.
  - destruct (errno =? EPERM); [| destruct (errno =? EFAULT)]; intros [] _ [] _; rewrite <-app_assoc; by apply Hk.
Qed.

Lemma parent_waits fuel pid message_at old tr : reads tr = [] ->
  everyone yam_answers (loop fuel (fun _ : unit =>
      r <- trigger (Waitpid pid) ;; if r =? -1 then Ret (inr tt) else Ret (inl tt)) tt ;; Ret 0) old tr
    (self_reading message_at).
Proof.
  revert tr. induction fuel as [| fuel IH]; intros tr Htr; [by left |].
  cbn [loop bind trigger]. intros r _. assert (reads (tr ++ [ev (Waitpid pid) r]) = []) as Hn
    by (unfold reads in *; by rewrite flat_map_app, Htr).
  cbn [bind]. destruct (r =? -1); [by left | by apply IH].
Qed.

(** Started to make a child, no process of the family ever reads another one: the child takes its own number for that of its
    parent, so what may be read of a parent, and whether the parent allowed it, is not found out. *)
Theorem child_reads_itself fuel message_at argv : 0 < message_at < 2 ^ 64 -> length argv <> 3%nat ->
  everyone yam_answers (program 2 fuel message_at argv) [] [] (self_reading message_at).
Proof.
  intros Hm Hargv. assert (forall use, everyone yam_answers
    (create_child_and_wait fuel message_at (program 1 fuel message_at) use ;; Ret 0) [] [] (self_reading message_at)) as Hmain.
  { intros use. unfold create_child_and_wait. split; [| by intros [] _; left].
    intros pid Hpid. split.
    - cbn [bind app]. rewrite (proj2 (Z.eqb_neq pid (-1))) by lia. intros own _. cbn [bind].
      rewrite (proj2 (Z.eqb_neq pid 0)) by lia.
      destruct use; [| by apply parent_waits]. intros r _. cbn [andb bind].
      destruct (r =? -1); [by intros [] _; left | by apply parent_waits].
    - intros own Hown [] _ [] _ ok _. destruct (short_numbers own message_at Hown Hm) as [E1 E2].
      destruct ok; [| by intros [] _; left]. eapply everyone_bind.
      + apply (reader_ok message_at _ _ (self_reading message_at)); [done | by rewrite E1 | done |]. intros tr r H. by right.
      + by intros o tr [a | s]. }
  destruct argv as [| a0 [| a1 [| a2 [| a3 argv]]]]; [| apply Hmain.. | done |]; intros [] _; by left.
Qed.

(** And the child may always read itself: it shows the message whether or not the parent allowed it. *)
Definition at_message (tr : list (event yamE)) (own m : Z) : Prop :=
  reads tr = [(own, m)] /\ last tr = Some (ev (Printf (line [bytes_of "Secret message: "; c_str super_secret_message])) tt).

Lemma message_shown own m : always
    (fun R (e : yamE R) => match e in yamE R return R -> Prop with
       | Process_vm_readv p n ptr _ => fun r => p = own -> ptr = m -> n = super_secret_message_len -> r = inl super_secret_message
       | _ => fun _ => True
       end) nothing (print_secret_message own m) (fun _ tr => at_message tr own m).
Proof.
  unfold print_secret_message, read_remote_buffer. cbn [bind trigger]. intros r Hr. rewrite (Hr eq_refl eq_refl eq_refl).
  intros [] _. done.
Qed.
End Yama.
