(* ===== verification/SelfLook.v ===== *)
(** * Programs that look at themselves: what_is_my_exe, smaps, who_are_my_kids, vdso_elf, under_alignment

    Each reads files of /proc about the own process, or its own memory, and prints what it found:
    [src/what_is_my_exe/test.cpp], [src/smaps/test.cpp], [src/who_are_my_kids/test.c], [src/vdso_elf/test.c],
    [src/under_alignment/test.cpp]. The lines of the file of mappings are those of [OwnFile.v]. *)
From stdpp Require Import base gmap list strings.
From Stdlib Require Import ZArith Lia.
From S2P Require Import Prelude Prog Sys Family Text OwnFile.

(** The operations they share. A file that could not be opened has no lines. *)
Inductive lookE : Type -> Type :=
| Open (file : list Z) : lookE bool
| Getline : lookE (option (list Z))                (* without its newline *)
| Fgets (n : Z) : lookE (option (list Z))          (* with it *)
| Close : lookE unit
| Print (text : list Z) : lookE unit
| Perror (s : string) : lookE unit
| Getpid : lookE Z
| Fork : lookE Z
| Sleep (seconds : Z) : lookE unit
| Readlink (file : list Z) (n : Z) : lookE (option (list Z))
| Getauxval : lookE Z
| Memfd_create : lookE Z
| Write (fd addr n : Z) : lookE Z
| Popen (cmd : list Z) : lookE bool
| Alloc (cpp : bool) : lookE Z                     (* operator new or malloc *)
| Dealloc (cpp : bool) (ptr : Z) : lookE unit.

Abbreviation lookM := (prog lookE).

#[export] Instance look_forks : Forks lookE := fun R e =>
  match e in lookE R return option (Z -> Z -> R) with Fork => Some (fun ret _ => ret) | _ => None end.

Definition self_maps : list Z := bytes_of "/proc/self/maps".

(** A number in hexadecimal at the front: how many digits, the number, whether it is negative, the rest. *)
Definition hex_number (s : list Z) : nat * Z * bool * list Z :=
  let s := skip_space s in
  let '(neg, s) := match s with
                   | b :: s' => if b =? 45 then (true, s') else if b =? 43 then (false, s') else (false, s)
                   | [] => (false, s)
                   end in
  let s := match s with
           | z :: x :: d :: s' =>
               if (z =? 48) && ((x =? 120) || (x =? 88)) && bool_decide (is_Some (hexval d)) then d :: s' else s
           | _ => s
           end in
  let '(n, v, rest) := hex_digits s 0 0 in (n, v, neg, rest).

(** The value of [v] as an unsigned word, when it is one, with its sign. *)
Definition word (n : nat) (v : Z) (neg : bool) : option Z :=
  if (n =? 0)%nat || (2 ^ 64 <=? v) then None else Some (if neg then u64 (- v) else v).

(** ** what_is_my_exe *)

Module Exe.

Definition SIGABRT : Z := 6.

(** [std::stoull(s, nullptr, 16)], whose exceptions nothing catches. *)
Definition stoull16 (s : list Z) : lookM Z :=
  let '(n, v, neg, _) := hex_number s in
  match word n v neg with Some x => Ret x | None => Halt (Signaled SIGABRT) end.

Definition exe_turn (addr : Z) (_ : unit) : lookM (unit + list Z) :=
  l <- trigger Getline ;;
  match l with
  | None => Ret (inr [])
  | Some line =>
      match before_first MINUS line with
      | None => Ret (inl tt)
      | Some front =>
          start_addr <- stoull16 front ;;
          end_addr <- stoull16 (drop (S (length front)) line) ;;
          if (start_addr <=? addr) && (addr <? end_addr)
          then match after_last SPACE line with
               | Some file => Ret (inr file)
               | None => Ret (inl tt)
               end
          else Ret (inl tt)
      end
  end.

Definition file_from_addr (fuel : nat) (addr : Z) : lookM (list Z) :=
  trigger (Open self_maps) ;; loop fuel (exe_turn addr) tt.

(** The addresses of [fingerprint] and of [main]. *)
Definition exe_main (fuel : nat) (fingerprint main_ : Z) : lookM Z :=
  f <- file_from_addr fuel fingerprint ;;
  trigger (Print (line [f])) ;;
  f <- file_from_addr fuel main_ ;;
  trigger (Print (line [f])) ;;
  Ret 0.

End Exe.

(** ** smaps *)

Module Smaps.

(** [iss >> std::hex >> start >> dash >> end]; [None] when [end] keeps its indeterminate value. A number that is
    not there is zero, one that is too large the largest. *)
Definition addresses (line : list Z) : option (Z * Z) :=
  let '(n, v, neg, rest) := hex_number line in
  start ← word n v neg;
  match skip_space rest with
  | _ :: rest =>
      match skip_space rest with
      | [] => None
      | rest =>
          let '(n, v, neg, _) := hex_number rest in
          Some (start, match word n v neg with Some end_ => end_ | None => if (n =? 0)%nat then 0 else 2 ^ 64 - 1 end)
      end
  | [] => None
  end.

Definition maps_total (fuel : nat) : lookM Z :=
  loop fuel (fun total =>
    l <- trigger Getline ;;
    match l with
    | None => Ret (inr total)
    | Some line =>
        match addresses line with
        | Some (start, end_) => Ret (inl (u64 (total + u64 (end_ - start))))
        | None => Halt Undefined
        end
    end) 0.

Definition get_addressable (fuel : nat) : lookM Z :=
  trigger (Open self_maps) ;;
  total <- maps_total fuel ;;
  Ret (total / 1024).

(** [line.find(name) != npos]. *)
Fixpoint contains (name line : list Z) : bool :=
  bool_decide (name `prefix_of` line) || match line with [] => false | _ :: line' => contains name line' end.

Fixpoint skip_word (s : list Z) : list Z :=
  match s with
  | b :: s' => if space b then s else skip_word s'
  | [] => []
  end.

(** [iss >> rss >> value]: a word and a number, which may have a sign; [None] when [value] keeps its indeterminate value. *)
Definition second_number (line : list Z) : option Z :=
  match skip_space (skip_word (skip_space line)) with
  | [] => None
  | s =>
      let '(neg, s) := match s with
                       | b :: s' => if b =? 45 then (true, s') else if b =? 43 then (false, s') else (false, s)
                       | [] => (false, s)
                       end in
      let '(n, v, _) := scan_digits s 0 0 in
      Some (match word n v neg with Some x => x | None => if (n =? 0)%nat then 0 else 2 ^ 64 - 1 end)
  end.

(** [insert] keeps an entry that is there. *)
Definition insert_new (name : list Z) (value : Z) (m : gmap (list Z) Z) : gmap (list Z) Z :=
  match m !! name with Some _ => m | None => <[name := value]> m end.

Fixpoint look_for (names : list (list Z)) (line : list Z) (m : gmap (list Z) Z) : option (gmap (list Z) Z) :=
  match names with
  | [] => Some m
  | name :: names =>
      if contains name line
      then value ← second_number line; look_for names line (insert_new name value m)
      else look_for names line m
  end.

Definition read_smaps (fuel : nat) (names : list (list Z)) : lookM (gmap (list Z) Z) :=
  trigger (Open (bytes_of "/proc/self/smaps_rollup")) ;;
  loop fuel (fun m =>
    l <- trigger Getline ;;
    match l with
    | None => Ret (inr m)
    | Some line => match look_for names line m with Some m => Ret (inl m) | None => Halt Undefined end
    end) ∅.

Section Print.
(** The order in which an unordered map shows its entries. *)
Context (order : gmap (list Z) Z -> list (list Z * Z)).

Fixpoint print_entries (msg : list Z) (es : list (list Z * Z)) : lookM unit :=
  match es with
  | [] => Ret tt
  | (name, v) :: es =>
      trigger (Print (line [bytes_of "["; msg; bytes_of "] "; name; bytes_of " "; dec v])) ;; print_entries msg es
  end.

Definition print_mem (fuel : nat) (msg : list Z) : lookM unit :=
  kb <- get_addressable fuel ;;
  trigger (Print (line [bytes_of "["; msg; bytes_of "] maps: "; dec kb])) ;;
  m <- read_smaps fuel [bytes_of "Rss:"; bytes_of "Pss:"] ;;
  print_entries msg (order m).

(** The vector of a million in between is not looked at. *)
Definition smaps_main (fuel : nat) : lookM Z :=
  print_mem fuel (bytes_of "Initial") ;;
  print_mem fuel (bytes_of "Step 1") ;;
  Ret 0.
End Print.

End Smaps.

(** ** who_are_my_kids *)

Module Kids.

Definition exe_size : Z := 256.

(** [exe[len] = 0] is outside the array when the link fills it. *)
Definition kid_turn (_ : unit) : lookM (unit + unit) :=
  l <- trigger (Fgets 256) ;;
  match l with
  | None => Ret (inr tt)
  | Some buf =>
      let pid := atoi (c_str buf) in
      r <- trigger (Readlink (bytes_of "/proc/" ++ dec pid ++ bytes_of "/exe") exe_size) ;;
      match r with
      | None => trigger (Perror "readlink") ;; Ret (inl tt)
      | Some exe =>
          if zlen exe <? exe_size then trigger (Print (line [c_str exe])) ;; Ret (inl tt) else Halt Undefined
      end
  end.

Definition list_kids (fuel : nat) : lookM unit :=
  pid <- trigger Getpid ;;
  ok <- trigger (Open (bytes_of "/proc/self/task/" ++ dec pid ++ bytes_of "/children")) ;;
  if negb (ok : bool) then trigger (Perror "fopen") else loop fuel kid_turn tt.

Definition kids_main (fuel : nat) : lookM Z :=
  pid <- trigger Fork ;;
  (if truthy pid then list_kids fuel else trigger (Sleep 1)) ;;
  Ret 0.

End Kids.

(** ** vdso_elf *)

Module Vdso.

(** The address and the number of writes so far. *)
Definition write_turn (fd : Z) (s : Z * Z) : lookM (Z * Z + unit) :=
  let '(vdso_map, n) := s in
  w <- trigger (Write fd vdso_map 4096) ;;
  if -1 <? w
  then if 2 ^ 31 <=? 4096 * (n + 1) then Halt Undefined
       else Ret (inl (u64 (vdso_map + 4096 * (n + 1)), n + 1))
  else Ret (inr tt).

Definition show_output (fuel : nat) (cmd : list Z) : lookM unit :=
  ok <- trigger (Popen cmd) ;;
  (if ok : bool then Ret tt else Halt (Signaled 11)) ;;
  loop fuel (fun _ =>
    l <- trigger (Fgets 128) ;;
    match l with
    | Some line => trigger (Print (c_str line)) ;; Ret (inl tt)
    | None => Ret (inr tt)
    end) tt ;;
  trigger Close.

Definition readelf (flags : string) (pid fd : Z) : list Z :=
  bytes_of "readelf " ++ bytes_of flags ++ bytes_of " /proc/" ++ dec pid ++ bytes_of "/fd/" ++ dec fd.

Definition vdso_main (fuel : nat) : lookM Z :=
  vdso_map <- trigger Getauxval ;;
  fd <- trigger Memfd_create ;;
  loop fuel (write_turn fd) (vdso_map, 0) ;;
  pid <- trigger Getpid ;;
  show_output fuel (readelf "-h" pid fd) ;;
  pid <- trigger Getpid ;;
  show_output fuel (readelf "-sW" pid fd) ;;
  Ret 0.

End Vdso.

(** ** under_alignment *)

Module Align.

Definition num_allocations : Z := 500000.
Definition counts_size : nat := 32.

(** The globals: what is to be freed, and the histogram. *)
Definition glob : Type := list Z * list Z.

Definition no_counts : list Z := replicate counts_size 0.

Definition counted (ptr : Z) (counts : list Z) : list Z :=
  let i := Z.to_nat (ptr mod Z.of_nat counts_size) in
  <[i := default 0 (counts !! i) + 1]> counts.

Fixpoint allocate (cpp : bool) (n : nat) (g : glob) : lookM glob :=
  match n with
  | O => Ret g
  | S m => ptr <- trigger (Alloc cpp) ;; allocate cpp m (g.1 ++ [ptr], counted ptr g.2)
  end.

Fixpoint print_counts (label : list Z) (offset : Z) (counts : list Z) : lookM unit :=
  match counts with
  | [] => Ret tt
  | freq :: counts =>
      (if truthy freq
       then trigger (Print (line [dec offset; bytes_of "-byte offset ("; label; bytes_of "): "; dec freq]))
       else Ret tt) ;;
      print_counts label (offset + 1) counts
  end.

Fixpoint deallocate (cpp : bool) (ptrs : list Z) : lookM unit :=
  match ptrs with
  | [] => Ret tt
  | ptr :: ptrs => trigger (Dealloc cpp ptr) ;; deallocate cpp ptrs
  end.

Definition test_allocation (cpp : bool) (label : list Z) (g : glob) : lookM glob :=
  g <- allocate cpp (Z.to_nat num_allocations) g ;;
  print_counts label 0 g.2 ;;
  deallocate cpp g.1 ;;
  Ret ([], no_counts).

Definition align_main : lookM Z :=
  g <- test_allocation true (bytes_of "cpp") ([], no_counts) ;;
  trigger (Print (line [])) ;;
  g <- test_allocation false (bytes_of "malloc") g ;;
  Ret 0.

End Align.

(** ** What they find *)

(** A line of the file of mappings without its newline. *)
Definition maps_line (m : mapping) : list Z := lo m ++ MINUS :: hi m ++ SPACE :: middle m ++ SPACE :: path m.

Definition not_x (b : Z) : Prop := hexval b = None /\ (b =? 120) = false /\ (b =? 88) = false.

Lemma hex_number_app ds rest : number ds -> (forall b r, rest = b :: r -> not_x b) ->
  hex_number (ds ++ rest) = (length ds, value16 ds, false, rest).
Proof.
  intros (Hne & Hd & _) Hr. unfold hex_number. destruct ds as [| b ds]; [done |]. inversion_clear Hd as [| ? ? Hb Hd'].
  destruct (hexval_some b Hb) as (Hs & H45 & H43 & _).
  assert (skip_space ((b :: ds) ++ rest) = b :: ds ++ rest) as -> by (cbn; by rewrite Hs).
  rewrite H45, H43.
  assert (match ds ++ rest with
          | x :: d :: s' => if (b =? 48) && ((x =? 120) || (x =? 88)) && bool_decide (is_Some (hexval d)) then d :: s' else b :: ds ++ rest
          | _ => b :: ds ++ rest end = (b :: ds) ++ rest) as ->.
  { assert (forall x r, ds ++ rest = x :: r -> (x =? 120) || (x =? 88) = false) as Hx.
    { intros x r E. destruct ds as [| b2 ds]; [destruct (Hr x r E) as (_ & -> & ->); done |]. injection E as <- _.
      inversion_clear Hd' as [| ? ? Hb2 _]. by destruct (hexval_some b2 Hb2) as (_ & _ & _ & -> & -> & _). }
    destruct (ds ++ rest) as [| x [| d r]] eqn:E; cbn; rewrite ?E; [done.. |]. rewrite (Hx x _ eq_refl), andb_false_r. done. }
  rewrite hex_digits_app; [done | by constructor |]. intros c r ->. by destruct (Hr c r eq_refl).
Qed.

Lemma word_number ds : number ds -> word (length ds) (value16 ds) false = Some (value16 ds).
Proof.
  intros (Hne & _ & Hv). unfold word. rewrite (proj2 (Z.leb_gt _ _)) by done. by destruct ds.
Qed.

Lemma not_x_minus : not_x MINUS. Proof. done. Qed.
Lemma not_x_space : not_x SPACE. Proof. done. Qed.
#[local] Hint Resolve not_x_minus not_x_space : core.

Lemma number_no_minus ds rest : number ds -> before_first MINUS (ds ++ MINUS :: rest) = Some ds.
Proof.
  intros (_ & Hd & _). induction Hd as [| b ds Hb _ IH]; [done |]. cbn [app before_first].
  destruct (hexval_some b Hb) as (_ & H45 & _). change (b =? MINUS) with (b =? 45). by rewrite H45, IH.
Qed.

(** The lines of the file, and those not yet read. *)
Definition look_h (lines : list (list Z)) : handler lookE (list (list Z)) := fun R e s =>
  match e in lookE R return outcome (list (list Z)) R with
  | Open _ => Done true lines
  | Getline | Fgets _ => match s with [] => Done None [] | l :: s => Done (Some l) s end
  | Close | Print _ | Perror _ | Sleep _ => Done tt s
  | Getpid => Done 100 s
  | Fork => Done 101 s
  | Readlink _ _ => Done None s
  | Getauxval => Done 4096 s
  | Memfd_create => Done 3 s
  | Write _ _ n => Done n s
  | Popen _ => Done true lines
  | Alloc _ => Done 16 s
  | Dealloc _ _ => Done tt s
  end.

(** *** what_is_my_exe *)

Lemma exe_line m : after_last SPACE (maps_line m) = Some (last_word (path m)).
Proof.
  unfold maps_line, last_word.
  replace (lo m ++ MINUS :: hi m ++ SPACE :: middle m ++ SPACE :: path m) with
    ((lo m ++ MINUS :: hi m ++ SPACE :: middle m) ++ SPACE :: path m) by (rewrite <-!app_assoc; cbn; by rewrite <-!app_assoc).
  by rewrite after_last_app.
Qed.

Lemma run_stoull16 {W} (h : handler lookE W) ds rest w : number ds -> (forall b r, rest = b :: r -> not_x b) ->
  run h (Exe.stoull16 (ds ++ rest)) w = Done (value16 ds) w.
Proof. intros Hd Hr. unfold Exe.stoull16. by rewrite hex_number_app, word_number. Qed.

Lemma run_stoull16_all {W} (h : handler lookE W) ds w : number ds -> run h (Exe.stoull16 ds) w = Done (value16 ds) w.
Proof. intros Hd. rewrite <-(run_stoull16 h ds [] w Hd) by done. by rewrite app_nil_r. Qed.

Lemma exe_loop addr lines ms fuel : Forall well_formed ms -> (length ms < fuel)%nat ->
  exists ls, run (look_h lines) (loop fuel (Exe.exe_turn addr) tt) (map maps_line ms) =
    Done (match own_mapping addr ms with Some m => last_word (path m) | None => [] end) ls.
Proof.
  intros Hw. revert fuel. induction Hw as [| m ms Hm Hw IH]; intros [| fuel] Hf; cbn [length] in Hf; [lia | | lia |].
  - by exists [].
  - cbn [loop map]. rewrite run_bind. unfold Exe.exe_turn at 1. rewrite run_bind, run_trigger. cbn [look_h obind].
    pose proof Hm as (Hlo & Hhi & _). unfold maps_line at 1. rewrite number_no_minus by done.
    assert (drop (S (length (lo m))) (maps_line m) = hi m ++ SPACE :: middle m ++ SPACE :: path m) as Hdrop.
    { unfold maps_line. rewrite drop_app_ge by lia. by replace (S (length (lo m)) - length (lo m))%nat with 1%nat by lia. }
    rewrite Hdrop, run_bind, run_stoull16_all by done. cbn [obind].
    rewrite run_bind, run_stoull16 by (done || (by intros ? ? [= <- <-])). cbn [obind].
    unfold own_mapping. rewrite filter_cons. fold (covers addr m).
    destruct (decide (covers addr m = true)) as [E | E].
    + rewrite E, exe_line. cbn. by eexists.
    + apply not_true_is_false in E. rewrite E. cbn [run obind]. apply IH. lia.
Qed.

(** The library that looks for its own file with C strings in a buffer of 256 bytes and this program, with strings that grow, find the same file. *)
Theorem same_own_file addr ms fuel : Forall well_formed ms -> Forall (fun m => zlen (line_of m) < 256) ms ->
  (length ms < fuel)%nat ->
  exists file s s', run (look_h (map maps_line ms)) (Exe.file_from_addr fuel addr) [] = Done file s /\
    run own_h (foo fuel addr) (map line_of ms, []) = Done tt (s', [file]).
Proof.
  intros Hw Hl Hf. destruct (maps_loop addr ms fuel [] Hw Hl Hf) as [s' Hr'].
  destruct (exe_loop addr (map maps_line ms) ms fuel Hw Hf) as [s Hr].
  eexists _, s, s'. split.
  - unfold Exe.file_from_addr. rewrite run_bind, run_trigger. cbn [look_h obind]. exact Hr.
  - unfold foo. rewrite run_bind, run_trigger. cbn [own_h obind]. by rewrite run_bind, Hr'.
Qed.

(** *** smaps *)

Definition size_of (m : mapping) : Z := value16 (hi m) - value16 (lo m).

Lemma addresses_line m : well_formed m -> Smaps.addresses (maps_line m) = Some (value16 (lo m), value16 (hi m)).
Proof.
  intros (Hlo & Hhi & _). unfold Smaps.addresses, maps_line.
  rewrite hex_number_app by (done || (by intros ? ? [= <- <-])). rewrite word_number by done. cbn -[hex_number skip_space].
  assert (skip_space (MINUS :: hi m ++ SPACE :: middle m ++ SPACE :: path m) = MINUS :: hi m ++ SPACE :: middle m ++ SPACE :: path m) as -> by done.
  assert (skip_space (hi m ++ SPACE :: middle m ++ SPACE :: path m) = hi m ++ SPACE :: middle m ++ SPACE :: path m) as E.
  { destruct Hhi as (Hne & Hd & _). destruct (hi m) as [| b ds]; [done |]. inversion_clear Hd as [| ? ? Hb _].
    destruct (hexval_some b Hb) as (Hs & _). cbn. by rewrite Hs. }
  rewrite E. destruct (hi m ++ SPACE :: middle m ++ SPACE :: path m) as [| b r] eqn:Er.
  { by destruct (hi m). }
  rewrite <-Er, hex_number_app by (done || (by intros ? ? [= <- <-])). by rewrite word_number.
Qed.

(** The number of kilobytes in all mappings together, as long as they fit into the address space. *)
Theorem addressable_total ms fuel : Forall well_formed ms -> Forall (fun m => 0 <= size_of m) ms ->
  zsum (map size_of ms) < 2 ^ 64 -> (length ms < fuel)%nat ->
  exists s, run (look_h (map maps_line ms)) (Smaps.get_addressable fuel) [] = Done (zsum (map size_of ms) / 1024) s.
Proof.
  intros Hw Hs Hsum Hf. unfold Smaps.get_addressable. rewrite run_bind, run_trigger. cbn [look_h obind].
  assert (forall lines fuel total, 0 <= total -> total + zsum (map size_of ms) < 2 ^ 64 -> (length ms < fuel)%nat ->
    run (look_h lines) (loop fuel (fun total => l <- trigger Getline ;;
      match l with None => Ret (inr total) | Some line =>
        match Smaps.addresses line with
        | Some (start, end_) => Ret (inl (u64 (total + u64 (end_ - start)))) | None => Halt Undefined end end) total)
      (map maps_line ms) = Done (total + zsum (map size_of ms)) []) as H.
  { clear Hsum Hf. induction Hw as [| m ms Hm Hw IH]; intros lines [| f] total H0 Ht Hf; cbn [length] in Hf; [lia | | lia |].
    - cbn. do 2 f_equal. lia.
    - inversion_clear Hs as [| ? ? Hsm Hs']. cbn [loop map zsum] in *. rewrite run_bind, run_bind, run_trigger. cbn [look_h obind].
      rewrite addresses_line by done. cbn [run obind]. fold (size_of m).
      assert (0 <= zsum (map size_of ms)) by (apply zsum_nonneg, Forall_map; exact Hs').
      rewrite (wrap_small 64 (size_of m)), wrap_small by lia. rewrite IH by (done || lia). f_equal. lia. }
  unfold Smaps.maps_total. rewrite run_bind, H by (done || lia). cbn. by eexists.
Qed.

(** The value in the first line that contains the name. *)
Definition first_value (name : list Z) (lines : list (list Z)) : option Z :=
  head (filter (fun l => Smaps.contains name l = true) lines) ≫= Smaps.second_number.

Definition readable (line : list Z) : Prop := is_Some (Smaps.second_number line).

Lemma look_for_spec names line m : readable line -> exists m', Smaps.look_for names line m = Some m' /\
  forall name, m' !! name = match m !! name with
    | Some v => Some v
    | None => if bool_decide (name ∈ names) && Smaps.contains name line then Smaps.second_number line else None
    end.
Proof.
  intros [v Hv]. rewrite Hv. revert m. induction names as [| n names IH]; intros m; cbn [Smaps.look_for].
  { exists m. split; [done |]. intros name. by destruct (m !! name). }
  assert (forall m0 : gmap (list Z) Z, (forall name, m0 !! name = match m !! name with Some x => Some x | None =>
      if bool_decide (name = n) && Smaps.contains name line then Some v else None end) ->
    exists m', Smaps.look_for names line m0 = Some m' /\ forall name, m' !! name = match m !! name with Some x => Some x | None =>
      if bool_decide (name ∈ n :: names) && Smaps.contains name line then Some v else None end) as Hk.
  { intros m0 H0. destruct (IH m0) as (m' & E & H). exists m'. split; [exact E |]. intros name. rewrite H, H0.
    destruct (m !! name); [done |]. destruct (Smaps.contains name line); rewrite ?andb_false_r, ?andb_true_r; [| done].
    destruct (decide (name = n)) as [-> | Hn]; [by rewrite !bool_decide_true by set_solver |].
    rewrite (bool_decide_false (name = n)) by done. rewrite (bool_decide_ext (name ∈ n :: names) (name ∈ names)) by set_solver. done. }
  destruct (Smaps.contains n line) eqn:Ec.
  - rewrite Hv. cbn [mbind option_bind]. apply Hk. intros name. unfold Smaps.insert_new.
    destruct (decide (name = n)) as [-> | Hn].
    + rewrite bool_decide_true, Ec by done. destruct (m !! n) as [x |] eqn:Em; [by rewrite Em |]. by rewrite lookup_insert_eq.
    + rewrite bool_decide_false by done. destruct (m !! n); [by destruct (m !! name) |].
      rewrite lookup_insert_ne by done. by destruct (m !! name).
  - apply Hk. intros name. destruct (m !! name); [done |]. destruct (decide (name = n)) as [-> | Hn]; [by rewrite Ec, andb_false_r |].
    by rewrite bool_decide_false.
Qed.

Lemma first_value_cons name l ls : first_value name (l :: ls) =
  if Smaps.contains name l then Smaps.second_number l else first_value name ls.
Proof. unfold first_value. rewrite filter_cons. by destruct (Smaps.contains name l). Qed.

(** A name that is part of another one gets the value of whichever line comes first. *)
Theorem smaps_first names lines fuel : Forall readable lines -> (length lines < fuel)%nat ->
  exists m s, run (look_h lines) (Smaps.read_smaps fuel names) [] = Done m s /\
    forall name, m !! name = if bool_decide (name ∈ names) then first_value name lines else None.
Proof.
  intros Hl Hf. unfold Smaps.read_smaps. rewrite run_bind, run_trigger. cbn [look_h obind].
  match goal with |- context [loop fuel ?b ∅] => set (body := b) end.
  assert (forall all ls fuel m, Forall readable ls -> (length ls < fuel)%nat -> exists m' s,
    run (look_h all) (loop fuel body m) ls = Done m' s /\ forall name, m' !! name = match m !! name with Some x => Some x | None =>
      if bool_decide (name ∈ names) then first_value name ls else None end) as H.
  { clear Hl Hf lines fuel. intros all ls fuel m Hl. revert fuel m. induction Hl as [| l ls Hr Hl IH]; intros [| fuel] m Hf; cbn [length] in Hf; [lia | | lia |].
    - exists m, []. split; [done |]. intros name. destruct (m !! name); [done |]. by case_bool_decide.
    - cbn [loop]. rewrite run_bind. unfold body at 1. rewrite run_bind, run_trigger. cbn [look_h obind].
      destruct (look_for_spec names l m Hr) as (m1 & -> & H1). cbn [run obind].
      destruct (IH fuel m1) as (m' & s & Hrun & H2); [lia |]. exists m', s. split; [exact Hrun |].
      intros name. rewrite H2, H1, first_value_cons. destruct (m !! name); [done |].
      destruct Hr as [v Hv]. case_bool_decide; cbn [andb]; [| done]. destruct (Smaps.contains name l); [by rewrite Hv | done]. }
  destruct (H lines lines fuel ∅ Hl Hf) as (m & s & Hr & Hm). exists m, s. split; [exact Hr |].
  intros name. by rewrite Hm, lookup_empty.
Qed.

(** *** who_are_my_kids *)

Definition asked_of (e : event lookE) : list (list Z) :=
  match e with existT _ (f, _) => match f with Readlink file _ => [file] | _ => [] end end.

(** The kernel lists all children on one line, of which only the first number is read. *)
Lemma one_kid_asked p rest : 0 < p < 2 ^ 31 -> Forall (fun b => b <> 0) rest -> always
    (fun R (e : lookE R) => match e in lookE R return R -> Prop with
       | Fgets _ => fun r => r = Some (dec p ++ SPACE :: rest) | _ => fun _ => True end)
    (fun s => s = Undefined) (Kids.kid_turn tt) (fun r tr =>
      r = inl tt /\ flat_map asked_of tr = [bytes_of "/proc/" ++ dec p ++ bytes_of "/exe"]).
Proof.
  intros Hp Hrest. unfold Kids.kid_turn. cbn [bind trigger]. intros l ->.
  assert (atoi (c_str (dec p ++ SPACE :: rest)) = p) as ->.
  { rewrite c_str_plain.
    - unfold atoi. rewrite scan_dec; [done | lia |]. by intros b r [= <- <-].
    - apply Forall_app_2; [| by constructor]. destruct (dec_spec p) as (Hd & _); [lia |].
      eapply Forall_impl; [exact Hd |]. intros b Hb ->. done. }
  intros r _. destruct r as [exe |]; [| by intros [] _]. by destruct (zlen exe <? Kids.exe_size); [intros [] _ |].
Qed.

(** *** vdso_elf *)

Definition written_of (e : event lookE) : list Z :=
  match e with existT _ (f, _) => match f with Write _ addr _ => [addr] | _ => [] end end.

(** The [i]-th write starts at this page: 0, 1, 3, 6 and so on. *)
Definition nth_page (i : Z) : Z := i * (i + 1) / 2.

Lemma nth_page_S i : 0 <= i -> nth_page (i + 1) = nth_page i + (i + 1).
Proof.
  intros Hi. unfold nth_page. replace ((i + 1) * (i + 1 + 1)) with (i * (i + 1) + (i + 1) * 2) by lia.
  by rewrite Z.div_add.
Qed.

(** The step grows with every write, so that the third page of the image is left out, and more and more after it. *)
Theorem vdso_pages fd base fuel : always anything (fun s => s = OutOfFuel \/ s = Undefined)
  (loop fuel (Vdso.write_turn fd) (u64 base, 0)) (fun _ tr => exists n,
    flat_map written_of tr = map (fun i => u64 (base + 4096 * nth_page (Z.of_nat i))) (seq 0 n)).
Proof.
  assert (forall k, always anything (fun s => s = OutOfFuel \/ s = Undefined)
    (loop fuel (Vdso.write_turn fd) (u64 (base + 4096 * nth_page (Z.of_nat k)), Z.of_nat k)) (fun _ tr => exists n,
      flat_map written_of tr = map (fun i => u64 (base + 4096 * nth_page (Z.of_nat i))) (seq k n))) as H.
  { induction fuel as [| fuel IH]; intros k; [by left |]. cbn [loop Vdso.write_turn bind trigger]. intros w _.
    destruct (-1 <? w); [| by exists 1%nat]. case_if; [by right |]. cbn [bind].
    assert (u64 (u64 (base + 4096 * nth_page (Z.of_nat k)) + 4096 * (Z.of_nat k + 1)) =
            u64 (base + 4096 * nth_page (Z.of_nat (S k)))) as ->.
    { rewrite Nat2Z.inj_succ. unfold Z.succ. rewrite nth_page_S by lia. unfold wrap. rewrite Zplus_mod_idemp_l. f_equal. lia. }
    replace (Z.of_nat k + 1) with (Z.of_nat (S k)) by lia. eapply always_mono; [apply IH |].
    intros [] tr [n Hn]. exists (S n). cbn. by rewrite Hn. }
  specialize (H 0%nat). change (nth_page (Z.of_nat 0)) with 0 in H. by rewrite Z.mul_0_r, Z.add_0_r in H.
Qed.

(** *** under_alignment *)

Definition allocated_of (e : event lookE) : list Z :=
  match e with
  | existT _ (f, r) => match f in lookE R return R -> list Z with Alloc _ => fun p => [p] | _ => fun _ => [] end r
  end.
Definition freed_of (e : event lookE) : list Z :=
  match e with existT _ (f, _) => match f with Dealloc _ p => [p] | _ => [] end end.

Lemma allocate_ok cpp n g : always anything nothing (Align.allocate cpp n g) (fun g' tr => exists ptrs,
  length ptrs = n /\ flat_map allocated_of tr = ptrs /\ flat_map freed_of tr = [] /\
  g' = (g.1 ++ ptrs, fold_left (fun c p => Align.counted p c) ptrs g.2)).
Proof.
  revert g. induction n as [| n IH]; intros g.
  { exists []. rewrite app_nil_r. by destruct g. }
  cbn [Align.allocate bind trigger]. intros p _. eapply always_mono; [apply IH |].
  intros g' tr (ptrs & <- & H1 & H2 & ->). exists (p :: ptrs). cbn. rewrite H1, H2, <-app_assoc. done.
Qed.

Lemma print_counts_ok label offset counts : always anything nothing (Align.print_counts label offset counts)
  (fun _ tr => flat_map allocated_of tr = [] /\ flat_map freed_of tr = []).
Proof.
  revert offset. induction counts as [| f counts IH]; intros offset; [done |]. cbn [Align.print_counts].
  destruct (truthy f); cbn [bind trigger]; [intros [] _ |]; (eapply always_mono; [apply IH |]); by intros [] tr [H1 H2].
Qed.

Lemma deallocate_ok cpp ptrs : always anything nothing (Align.deallocate cpp ptrs)
  (fun _ tr => flat_map allocated_of tr = [] /\ flat_map freed_of tr = ptrs).
Proof.
  induction ptrs as [| p ptrs IH]; [done |]. cbn [Align.deallocate bind trigger]. intros [] _.
  eapply always_mono; [exact IH |]. intros [] tr [H1 H2]. cbn. by rewrite H1, H2.
Qed.

(** Both runs begin with nothing to free and an empty histogram, make half a million allocations, and free each of them once, in the order they were made. *)
Theorem alignment_run cpp label : always anything nothing (Align.test_allocation cpp label ([], Align.no_counts))
  (fun g tr => g = ([], Align.no_counts) /\ zlen (flat_map allocated_of tr) = Align.num_allocations /\
     flat_map freed_of tr = flat_map allocated_of tr).
Proof.
  unfold Align.test_allocation. eapply always_bind; [apply allocate_ok |].
  intros g t1 (ptrs & Hn & H1 & H2 & ->). eapply always_bind; [apply print_counts_ok |]. intros [] t2 [H3 H4].
  eapply always_bind; [apply deallocate_ok |]. intros [] t3 [H5 H6]. cbn [always]. split; [done |].
  rewrite !flat_map_app, H1, H2, H3, H4, H5, H6. cbn. rewrite app_nil_r. split; [| done].
  unfold zlen. rewrite Hn. unfold Align.num_allocations. lia.
Qed.

(** The histogram counts every pointer at its distance from the last multiple of 32. *)
Lemma histogram_counts ptrs k : (k < Align.counts_size)%nat ->
  fold_left (fun c p => Align.counted p c) ptrs Align.no_counts !! k =
  Some (zlen (filter (fun p => p mod Z.of_nat Align.counts_size = Z.of_nat k) ptrs)).
Proof.
  intros Hk. assert (forall counts x, length counts = Align.counts_size -> counts !! k = Some x ->
    fold_left (fun c p => Align.counted p c) ptrs counts !! k =
    Some (x + zlen (filter (fun p => p mod Z.of_nat Align.counts_size = Z.of_nat k) ptrs))) as H.
  { induction ptrs as [| p ptrs IH]; intros counts x Hl Hx; cbn [fold_left].
    - by rewrite Hx, filter_nil, zlen_nil, Z.add_0_r.
    - pose proof (Z.mod_pos_bound p (Z.of_nat Align.counts_size) ltac:(unfold Align.counts_size; lia)) as Hm.
      unfold Align.counted at 2. rewrite filter_cons.
      destruct (decide (p mod Z.of_nat Align.counts_size = Z.of_nat k)) as [E | E].
      + rewrite (IH _ (x + 1)); [| by rewrite length_insert |].
        * rewrite zlen_cons. f_equal. lia.
        * rewrite E, Nat2Z.id, Hx. apply list_lookup_insert_eq. lia.
      + apply IH; [by rewrite length_insert |]. rewrite list_lookup_insert_ne; [exact Hx |].
        intros <-. apply E. by rewrite Z2Nat.id by apply Hm. }
  rewrite (H _ 0); [done | apply length_replicate |]. by apply lookup_replicate.
Qed.
